(* ===== verification/_CoqProject ===== *)
-Q . S2P
Prelude.v
Types.v
Double.v
Rounding.v
Text.v
OrderTable.v
LevelArray.v
OrderBook.v
BookLiveness.v
BookSpec.v
BookRefine.v
BookManager.v
RingBuffer.v
RingBench.v
Codec.v
MtbtParser.v
Capture.v
Generator.v
FeedHandler.v
Replay.v
TimeUtils.v
TscClock.v
SymbolMaster.v
Quoting.v
MarketMaking.v
RiskManager.v
RateLimit.v
NnfEncoder.v
OrderManager.v
Pipeline.v
MemoryPool.v
CpuUtils.v
FillSimulator.v
FeeModel.v
LatencyStats.v
LatencyHistogram.v
Metrics.v
BacktestEngine.v
BacktestTools.v
NnfSession.v
MarketDataGateway.v
OrderGateway.v
Divergences.v
Sockets.v
Logger.v
SymbolCsv.v
MainSession.v
Benchmarks.v
Connect.v
ConnectSlots.v
Irage.v
IrageRun.v
IrageLaunch.v
