(* ===== verification/Prelude.v ===== *)
(** * LowLat: a verification library for the NSE low-latency trading stack

    ** The program

    The repository (src/) is a tick-to-trade stack in C++.  Multicast packets of the
    exchange's order-by-order feed arrive twice (sources A and B); the feed handler
    arbitrates and decodes them, a gateway thread passes the events through a
    single-producer single-consumer ring buffer, order books are kept per token, a
    market-making strategy quotes on the best levels, a risk manager checks every
    order, the order manager tracks it and encodes it for the exchange's binary
    protocol, and a gateway writes it to the session's socket.  A simulator (synthetic
    feed, fill model, fees, backtest) drives the same pipeline offline, and an adapter
    runs the same quoting math on a third-party platform.

    ** Files

    Shared:
    - [Prelude]: machine integers, arithmetic and case-analysis tactics, sums.
    - [Types] (common/types.hpp): events, orders, fills.
    - [Double]: IEEE binary64 operations ([SpecFloat]) and when they stay finite;
      [Rounding]: their results are the correctly rounded ones, and rounding is monotone.
    - [Text]: decimal printing and the C number readers.
    - [Codec]: little-endian loads and stores on byte lists.

    Market data:
    - [OrderTable], [LevelArray], [OrderBook] (order_book/order_book.hpp,
      price_level.hpp): the open-addressing table with backward-shift deletion, the
      sorted level arrays with their binary searches and shifts, the message handlers
      and the sequence gate.
    - [BookSpec], [BookRefine]: the abstract book (a map of resting orders) and the
      proof that the detailed book implements it.
    - [BookLiveness]: a book with room answers every event.
    - [BookManager] (order_book/book_manager.hpp): registration and routing.
    - [RingBuffer] (common/ring_buffer.hpp): the sequential queue, the class
      [BoundedQueue] its clients rely on, and the two threads as a step relation;
      [RingBench] (benchmarks/bench_ring_buffer.cpp): the queue under load, with fair runs.
    - [MtbtParser] (feed_handler/mtbt_parser.hpp), [FeedHandler]
      (feed_handler/feed_handler.hpp), [MarketDataGateway]
      (gateway/market_data_gateway.hpp, [recv_batch] of gateway/udp_socket.hpp).
    - [Capture] (sim/event_source.hpp and the encoder of sim/mtbt_generator.hpp),
      [Generator] (the rest of sim/mtbt_generator.hpp).
    - [Replay] (tools/mtbt_gen.cpp, tools/mtbt_replay.cpp): the two capture tools.

    Trading:
    - [TimeUtils], [LatencyStats], [TscClock] (common/time_utils.hpp): session times,
      the latency tracker and its percentiles, the calibrated counter;
      [LatencyHistogram] (tools/latency_histogram.cpp).
    - [SymbolMaster], [SymbolCsv] (session/symbol_master.hpp and .cpp,
      tools/symbol_master_loader.cpp).
    - [Quoting] (strategy/quoting_math.hpp), [MarketMaking]
      (strategy/market_making.hpp; the class [StrategyBase] is strategy_base.hpp).
    - [RiskManager], [RateLimit] (risk/risk_manager.hpp): the checks; the token bucket over
      time.
    - [NnfEncoder], [OrderManager] (order_manager/), [Pipeline] (pipeline.hpp).
    - [NnfSession] (session/nnf_session.hpp), [OrderGateway]
      (gateway/order_gateway.hpp).
    - [Sockets] (gateway/udp_socket.hpp, [TcpSocket] of order_gateway.hpp): the socket
      calls and options over an interface of the operating system, the class [Kernel].
    - [MainSession] (main.cpp): the wiring and the event loop of the binary.

    Support and simulation:
    - [MemoryPool], [Logger], [CpuUtils] (common/), [Metrics] (monitor/metrics.hpp).
    - [FillSimulator], [FeeModel], [BacktestEngine] (sim/); [BacktestTools]
      (tools/backtest.cpp, tools/sweep.cpp, the rest of sim/event_source.hpp).
    - [Benchmarks] (benchmarks/bench_order_book.cpp, bench_pipeline.cpp): their bodies end
      as often as they are asked to run, or fill the book exactly when they must.
    - [Divergences]: concrete runs that contradict a comment of the source.

    The adapter (irage/):
    - [Connect] (mock/ConnectHeader.h): the platform interface as a class with its laws,
      a recording platform, and the platform of the repository as an instance;
      [ConnectSlots]: its remaining calls and the automaton of its order slots.
    - [Irage] (mystrat.cpp, mystrat.h): the strategy over any platform.
    - [IrageRun]: the two composed; [IrageLaunch] (main.cpp, mock/connect_mock.cpp):
      registration and cloning.

    A C++ class is a [Record] of its fields and a method a function on it, with the
    source's name (a prefix where two classes share one).  Arrays are lists or finite
    maps over their index range; pointers to components are the components themselves.
    Hardware and the operating system are inputs: clock readings, elapsed times, results
    of system calls, contents of files, random draws, uninitialised memory.  [None] is a
    computation the program does not survive: an access out of bounds, a loop that does
    not end, an uncaught exception.

    ** What the theorems show

    - The book: refinement of the abstract book and correctness of the quotes it shows
      (C1, C2), of the hash table (C3) and the level arrays (C4); every reachable
      book is well formed (C5) and answers every event while the order numbers ever added
      are fewer than its slots (C6); routing is
      per token (C7); the synthetic feed is one the book tracks exactly (C8).
    - The queue and the feed: the ring buffer is a bounded queue, also under every
      interleaving of its two threads (C9, C10), and under every fair schedule a
      producer and a consumer that spin on it finish with all the data (C11); the parser
      never leaves its packet (C12); captures are read back, by the loader and by the
      tools (C13, C16); arbitration delivers in order and at most once on every stream
      whose numbers do not wrap around (C14), and exactly once when no arrival leaves a
      hole behind it (C15); the gateway loses nothing it does not count
      (C17) and owns exactly the descriptors it opened (C18).
    - Trading: quotes stay within their rules (C19); the risk gate is its
      specification (C20), and over any window of time it approves no more than a full bucket
      and what the time earns, rounding of the doubles included (C21); messages are read back
      (C22); the order table counts its orders (C23), and each order in it lives as the
      automaton of that order alone, whatever happens to the others (C24); the pipeline sends
      exactly the approved orders that have a free slot and stores exactly those (C25); the session of the binary ends with
      no order alive and prints its summary (C26).
    - Simulation: a backtest always returns and its books balance (C27); the fill model
      is exact (C28); a backtest of the synthetic feed trades on the generator's own book
      (C29); fees do not change what is traded (C30); the sweep finishes and marks the
      best cell (C31).
    - Measurement: the reported percentiles are ordered and the median exact in spite of
      floating-point ranks (C32).
    - Sessions, output and start-up: readiness of the exchange session (C33), sends that are
      whole or disconnect (C34), the logger under every interleaving of its two threads
      (C35), the symbol file read back into a table that forgets what it held (C36).
    - The adapter: its state stays well formed under every order of callbacks (C37), its
      orders respect every limit on every platform (C38), its sweeps flatten the
      book (C39), and the order slots of the repository's platform are the documented
      automaton (C40).
    Further theorems of the files, without a number, give the behaviour of the other
    operations, and several exhibit a defect ([EraseOrder_full_diverges],
    [shared_stream_marks_stale], [late_packet_discarded], [wrapping_packet_redelivers], [two_token_pnl_drops_position],
    [late_fill_reopens], [unacknowledged_order_ends], [critical_request_missed], [stale_registration_overfills], [poll_counts_dropped_events],
    [reconnect_leaks_and_stays_connected], [out_of_range_row_counted],
    [ui_profit_mixes_symbols], [dpr_clamp_locks_quotes], [huge_pages_leak], and all of
    [Divergences]).

    ** Bounds and fuel

    Recursion that is not structural takes fuel that is proved enough: probing the order
    table visits each slot once (the length of the table), the loader of captures
    consumes bytes (the length of the file), the decimal printer has a digit per bit, the
    send loop a byte per round, the trimming loop of the generator one order per round,
    the sample reader of the histogram a character per round.
    The erase loop of the order table is the exception: its fuel is enough exactly
    when a slot is free, and [EraseOrder_full_diverges] shows that otherwise none is.
    Signed arithmetic wraps in the model; theorems that need the absence of
    overflow state the range (prices, quantities and knobs far above what the exchange
    allows).  [backtest_total_and_balanced] asks that the book
    answers the events of the traded token, which fewer than 16384 distinct order numbers
    (its capacity) ensure and the synthetic session is shown to meet, since it recycles
    its slots; [throughput_completes] assumes what the C++ standard only recommends, a
    scheduler that runs every thread again and stores that become visible some time later; the rate limiter's
    theorem is for a limit of at most 2^20 orders a second, windows of at most 2^50 ns (13
    days) and 2^30 operations, so that the rounding errors of a window stay below one
    order; the exact median for at most
    [2^53] retained samples.  [Rounding] counts binary64 values in units of
    [2^-5000], far below the smallest one, so that every product of two is an integer.

    ** Not modelled

    Compiler attributes and prefetch hints (common/compiler.hpp, [prefetch]), the
    progress lines and fixed headings of the programs, signal installation, the
    environment test [onload_active]: they read or set the environment and keep no state of
    the program.  Accessors that return a field are the field; what is left of the
    implementation files besides is declarations and comments.  Tests, scripts,
    configuration and the dashboard are not part of the program.  The event loop of the
    third-party platform is not in the repository: it is an argument of [irage_main].  The
    weak memory of the ring buffer is modelled by the visibility that acquire and release
    guarantee; the logger, a client of the queue, sees it as pushes and pops that may fail
    without need, and its [Flush] is run by the destructor only (on a running logger it would be
    a second consumer).
*)

From Stdlib Require Import ZArith Lia.
From stdpp Require Import base gmap list numbers.

(** ** Scope and notations of the development *)

Declare Scope lowlat_scope.
Delimit Scope lowlat_scope with LL.

(** ** Machine integers

    A C++ integer is a [Z].  Unsigned arithmetic is written with the reduction
    modulo [2^w] the language prescribes.  A signed result that does not fit
    is undefined in C++; the model takes the two's-complement value every
    supported compiler produces for a narrowing cast, and theorems that rely on
    the absence of overflow state the range they need. *)

Definition wrap_u (w z : Z) : Z := (z mod 2 ^ w)%Z.
Definition wrap_s (w z : Z) : Z := ((z + 2 ^ (w - 1)) mod 2 ^ w - 2 ^ (w - 1))%Z.

Abbreviation u8 := (wrap_u 8).
Abbreviation u16 := (wrap_u 16).
Abbreviation u32 := (wrap_u 32).
Abbreviation u64 := (wrap_u 64).
Abbreviation i16 := (wrap_s 16).
Abbreviation i32 := (wrap_s 32).
Abbreviation i64 := (wrap_s 64).

Definition in_u (w z : Z) : Prop := (0 <= z < 2 ^ w)%Z.
Definition in_s (w z : Z) : Prop := (- 2 ^ (w - 1) <= z < 2 ^ (w - 1))%Z.

#[global] Instance in_u_dec w z : Decision (in_u w z).
Proof. unfold in_u; apply _. Defined.
#[global] Instance in_s_dec w z : Decision (in_s w z).
Proof. unfold in_s; apply _. Defined.

(** Integer division and remainder truncate towards zero in C++. *)
Notation "a '/c' b" := (Z.quot a b) (at level 40, left associativity) : lowlat_scope.
Notation "a '%c' b" := (Z.rem a b) (at level 40, left associativity) : lowlat_scope.

Create HintDb lowlat.

Section Wrap.
Local Open Scope Z_scope.

Lemma wrap_u_range w z : 0 <= w -> in_u w (wrap_u w z).
Proof. intros. unfold in_u, wrap_u. apply Z.mod_pos_bound. lia. Qed.

Lemma wrap_u_id w z : in_u w z -> wrap_u w z = z.
Proof. intros H. apply Z.mod_small. exact H. Qed.

Lemma wrap_s_range w z : 0 < w -> in_s w (wrap_s w z).
Proof.
  intros Hw. unfold in_s, wrap_s.
  assert (2 ^ w = 2 * 2 ^ (w - 1)) as E.
  { rewrite <- Z.pow_succ_r by lia. f_equal; lia. }
  pose proof (Z.mod_pos_bound (z + 2 ^ (w - 1)) (2 ^ w) ltac:(lia)). lia.
Qed.

Lemma wrap_s_id w z : 0 < w -> in_s w z -> wrap_s w z = z.
Proof.
  intros Hw H. unfold in_s, wrap_s in *.
  assert (2 ^ w = 2 * 2 ^ (w - 1)) as E.
  { rewrite <- Z.pow_succ_r by lia. f_equal; lia. }
  rewrite Z.mod_small; lia.
Qed.

(** Reinterpreting the unsigned pattern of a signed value gives it back. *)
Lemma wrap_s_wrap_u w z : 0 < w -> wrap_s w (wrap_u w z) = wrap_s w z.
Proof.
  intros Hw. unfold wrap_s, wrap_u. f_equal.
  rewrite Z.add_mod_idemp_l; [done | lia].
Qed.

Lemma wrap_u_wrap_u w z : 0 <= w -> wrap_u w (wrap_u w z) = wrap_u w z.
Proof. intros. unfold wrap_u. rewrite Z.mod_mod; lia. Qed.

Lemma wrap_u_add_l w a b : 0 <= w -> wrap_u w (wrap_u w a + b) = wrap_u w (a + b).
Proof. intros. unfold wrap_u. rewrite Z.add_mod_idemp_l; lia. Qed.

Lemma wrap_u_add_r w a b : 0 <= w -> wrap_u w (a + wrap_u w b) = wrap_u w (a + b).
Proof. intros. unfold wrap_u. rewrite Z.add_mod_idemp_r; lia. Qed.

Lemma wrap_u_sub w a b : 0 <= w -> wrap_u w (wrap_u w a - wrap_u w b) = wrap_u w (a - b).
Proof. intros. unfold wrap_u. rewrite <- Zminus_mod. done. Qed.

(** Signed wrapping is congruence modulo [2^w]. *)
Lemma wrap_s_eqm w z : 0 < w -> exists k, wrap_s w z = z + k * 2 ^ w.
Proof.
  intros Hw. unfold wrap_s. exists (- ((z + 2 ^ (w - 1)) / 2 ^ w)).
  pose proof (Z.div_mod (z + 2 ^ (w - 1)) (2 ^ w) ltac:(lia)). lia.
Qed.

Lemma wrap_s_ext w a b k : 0 < w -> a = b + k * 2 ^ w -> wrap_s w a = wrap_s w b.
Proof.
  intros Hw ->. unfold wrap_s. f_equal.
  replace (b + k * 2 ^ w + 2 ^ (w - 1)) with (b + 2 ^ (w - 1) + k * 2 ^ w) by lia.
  apply Z.mod_add. lia.
Qed.

Lemma wrap_s_add_l w a b : 0 < w -> wrap_s w (wrap_s w a + b) = wrap_s w (a + b).
Proof. intros Hw. destruct (wrap_s_eqm w a Hw) as [k ->]. apply (wrap_s_ext _ _ _ k); lia. Qed.

Lemma wrap_s_add_r w a b : 0 < w -> wrap_s w (a + wrap_s w b) = wrap_s w (a + b).
Proof. intros Hw. rewrite !(Z.add_comm a). by apply wrap_s_add_l. Qed.

Lemma wrap_s_sub_r w a b : 0 < w -> wrap_s w (a - wrap_s w b) = wrap_s w (a - b).
Proof. intros Hw. destruct (wrap_s_eqm w b Hw) as [k ->]. apply (wrap_s_ext _ _ _ (- k)); lia. Qed.

(** A narrow wrap absorbs a wider one. *)
Lemma wrap_s_narrow v w z : 0 < v <= w -> wrap_s v (wrap_s w z) = wrap_s v z.
Proof.
  intros Hw. destruct (wrap_s_eqm w z ltac:(lia)) as [k ->].
  apply (wrap_s_ext _ _ _ (k * 2 ^ (w - v))); [lia|].
  rewrite <- Z.mul_assoc, <- Z.pow_add_r by lia. do 3 f_equal. lia.
Qed.

(** A mask of [k] low bits is the remainder modulo [2^k]. *)
Lemma land_mask z k : 0 <= k -> Z.land z (2 ^ k - 1) = z mod 2 ^ k.
Proof.
  intros. rewrite <- Z.land_ones by lia. f_equal.
  rewrite Z.ones_equiv. lia.
Qed.
End Wrap.

#[export] Hint Resolve wrap_u_range wrap_s_range : lowlat.

(** Closes a range goal on concrete widths: the powers are computed, the rest
    is linear arithmetic. *)
Ltac ranges :=
  unfold in_u, in_s in *;
  repeat match goal with
  | |- context [(2 ^ ?k)%Z] =>
      let v := eval vm_compute in (2 ^ k)%Z in
      lazymatch v with Z0 => idtac | Zpos _ => idtac end; change (2 ^ k)%Z with v
  | H : context [(2 ^ ?k)%Z] |- _ =>
      let v := eval vm_compute in (2 ^ k)%Z in
      lazymatch v with Z0 => idtac | Zpos _ => idtac end; change (2 ^ k)%Z with v in H
  end; lia.

(** Removes a wrap whose argument is in range. *)
Ltac unwrap :=
  repeat first
    [ rewrite wrap_u_id by ranges
    | rewrite wrap_s_id by ranges ].

(** The same from the inside out, for nested operations. *)
Ltac unwrap_inner :=
  repeat match goal with
  | |- context [wrap_s ?w ?x] =>
      lazymatch x with context [wrap_s _ _] => fail | _ => rewrite (wrap_s_id w x) by ranges end
  end.

(** Splits every boolean test of the goal and of the hypotheses into its
    arithmetic meaning. *)
Ltac bool_arith :=
  repeat match goal with
  | H : (_ && _)%bool = true |- _ => apply andb_prop in H as [? ?]
  | H : (_ || _)%bool = false |- _ => apply orb_false_elim in H as [? ?]
  | H : (_ || _)%bool = true |- _ => apply orb_prop in H
  | H : (_ && _)%bool = false |- _ => apply andb_false_iff in H
  | H : negb _ = true |- _ => apply negb_true_iff in H
  | H : negb _ = false |- _ => apply negb_false_iff in H
  | H : (_ =? _)%Z = true |- _ => apply Z.eqb_eq in H
  | H : (_ =? _)%Z = false |- _ => apply Z.eqb_neq in H
  | H : (_ <? _)%Z = true |- _ => apply Z.ltb_lt in H
  | H : (_ <? _)%Z = false |- _ => apply Z.ltb_ge in H
  | H : (_ <=? _)%Z = true |- _ => apply Z.leb_le in H
  | H : (_ <=? _)%Z = false |- _ => apply Z.leb_gt in H
  | H : (_ >? _)%Z = _ |- _ => rewrite Z.gtb_ltb in H
  | H : (_ >=? _)%Z = _ |- _ => rewrite Z.geb_leb in H
  | H : (_ =? _)%nat = true |- _ => apply Nat.eqb_eq in H
  | H : (_ =? _)%nat = false |- _ => apply Nat.eqb_neq in H
  | H : (_ <? _)%nat = true |- _ => apply Nat.ltb_lt in H
  | H : (_ <? _)%nat = false |- _ => apply Nat.ltb_ge in H
  | H : (_ <=? _)%nat = true |- _ => apply Nat.leb_le in H
  | H : (_ <=? _)%nat = false |- _ => apply Nat.leb_gt in H
  end.

(** Case analysis on the [if] of the goal, keeping its arithmetic meaning. *)
Ltac case_if :=
  match goal with
  | |- context [if ?b then _ else _] =>
      lazymatch type of b with bool => destruct b eqn:? end
  end; bool_arith.

Ltac case_if_in H :=
  match type of H with
  | context [if ?b then _ else _] =>
      lazymatch type of b with bool => destruct b eqn:? end
  end; bool_arith.

(** ** Arrays as lists

    A C++ array or a pre-sized vector is a list; an in-range read or write is
    [!!!] or [<[_:=_]>].  The two copy loops below are the bounded shifts the
    flat level arrays use. *)

Section Arrays.
Context {A : Type} `{!Inhabited A}.
Implicit Types (l : list A) (x : A).

Lemma lookup_total_eq l i x : l !! i = Some x -> l !!! i = x.
Proof. apply list_lookup_total_correct. Qed.

Lemma lookup_of_total l i : i < length l -> l !! i = Some (l !!! i).
Proof. apply list_lookup_lookup_total_lt. Qed.

Lemma take_insert_same l i n x : i < n -> take n (<[i:=x]> l) = <[i:=x]> (take n l).
Proof. intros. by rewrite take_insert_lt. Qed.
End Arrays.

(** ** Sums over histories *)

Section Sums.
Local Open Scope Z_scope.

Definition zsum {A} (f : A -> Z) (l : list A) : Z := foldr (fun x s => f x + s) 0 l.

Lemma zsum_app {A} (f : A -> Z) l1 l2 : zsum f (l1 ++ l2) = zsum f l1 + zsum f l2.
Proof. unfold zsum. induction l1 as [|x l1 IH]; simpl; lia. Qed.

Lemma zsum_bound {A} (f : A -> Z) l b :
  0 <= b -> Forall (fun x => Z.abs (f x) <= b) l -> Z.abs (zsum f l) <= b * Z.of_nat (length l).
Proof. intros Hb. unfold zsum. induction 1 as [|x l Hx _ IH]; cbn [foldr length]; lia. Qed.

Lemma zsum_linear {A} (f g : A -> Z) c l :
  zsum (fun x => f x * (c - g x)) l = zsum f l * c - zsum (fun x => f x * g x) l.
Proof. unfold zsum. induction l as [|x l IH]; simpl; lia. Qed.

Lemma zsum_nonneg {A} (f : A -> Z) l : Forall (fun x => 0 <= f x) l -> 0 <= zsum f l.
Proof. unfold zsum. induction 1 as [|x l Hx _ IH]; simpl; lia. Qed.
End Sums.
