(* ===== verification/Types.v ===== *)
(** * Core types (src/common/types.hpp)

    Market events, orders and fills with the source's fields, and the enums of
    the wire protocols.  Field names carry a prefix per record ([ev_], [o_],
    [fr_]) because Rocq projections share one name space. *)

From Stdlib Require Import ZArith.
From stdpp Require Import base numbers.
From S2P Require Import Prelude.

(** [Token] is u32, [Price], [OrderId] and [ClOrdId] are i64, [Quantity] is
    i32, [Timestamp] is u64: all are [Z], with the width written where it
    matters.  [Side] is a boolean. *)
Abbreviation Token := Z (only parsing).
Abbreviation Price := Z (only parsing).
Abbreviation Quantity := Z (only parsing).
Abbreviation ClOrdId := Z (only parsing).
Abbreviation Timestamp := Z (only parsing).
Abbreviation Side := bool (only parsing).

Definition kBuy : Side := true.
Definition kSell : Side := false.

Definition kSegmentCm : Z := 1.
Definition kSegmentFo : Z := 2.
Definition kSegmentCd : Z := 3.

(** ** MTBT message types: the byte on the wire and the enum it decodes to *)

Inductive MtbtMsgType : Set :=
  kOrderAdd | kOrderModify | kOrderCancel | kTrade | kOpenInterest | kSnapQuote | kHeartbeat.

#[global] Instance MtbtMsgType_eq_dec : EqDecision MtbtMsgType.
Proof. solve_decision. Defined.

Definition msg_code (t : MtbtMsgType) : Z :=
  match t with
  | kOrderAdd => 65      (* 'A' *)
  | kOrderModify => 77   (* 'M' *)
  | kOrderCancel => 88   (* 'X' *)
  | kTrade => 84         (* 'T' *)
  | kOpenInterest => 79  (* 'O' *)
  | kSnapQuote => 81     (* 'Q' *)
  | kHeartbeat => 72     (* 'H' *)
  end.

(** [static_cast<MtbtMsgType>(b)] followed by a [switch]: [None] is a byte no
    case names. *)
Definition msg_type (b : Z) : option MtbtMsgType :=
  (if b =? 65 then Some kOrderAdd
   else if b =? 77 then Some kOrderModify
   else if b =? 88 then Some kOrderCancel
   else if b =? 84 then Some kTrade
   else if b =? 79 then Some kOpenInterest
   else if b =? 81 then Some kSnapQuote
   else if b =? 72 then Some kHeartbeat
   else None)%Z.

Lemma msg_type_code t : msg_type (msg_code t) = Some t.
Proof. by destruct t. Qed.

Lemma msg_type_Some b t : msg_type b = Some t -> b = msg_code t.
Proof.
  unfold msg_type. intros H.
  repeat (case_if_in H; [by simplify_eq | ]). done.
Qed.

(** ** Market data *)

Record MarketEvent := {
  ev_ts : Timestamp;
  ev_token : Token;
  ev_price : Price;
  ev_qty : Quantity;
  ev_side : Side;
  ev_type : Z;
  ev_order_no : Z;
  ev_stream_id : Z;
  ev_seq_no : Z;
  ev_order_no2 : Z;
  ev_trade_no : Z;
  ev_bid_price : Price;
  ev_bid_qty : Quantity;
  ev_ask_price : Price;
  ev_ask_qty : Quantity;
}.

#[global] Instance MarketEvent_eq_dec : EqDecision MarketEvent.
Proof. solve_decision. Defined.

(** A value-initialised event ([MarketEvent ev{}]). *)
Definition zero_event : MarketEvent := {|
  ev_ts := 0; ev_token := 0; ev_price := 0; ev_qty := 0; ev_side := false;
  ev_type := 0; ev_order_no := 0; ev_stream_id := 0; ev_seq_no := 0;
  ev_order_no2 := 0; ev_trade_no := 0; ev_bid_price := 0; ev_bid_qty := 0;
  ev_ask_price := 0; ev_ask_qty := 0 |}.

#[global] Instance MarketEvent_inhabited : Inhabited MarketEvent := populate zero_event.

(** ** Orders *)

Inductive OrderType : Set := kLimit | kMarket | kStopLoss | kStopLossMarket.
Inductive Validity : Set := kDay | kIoc | kGtd | kEos.

#[global] Instance OrderType_eq_dec : EqDecision OrderType.
Proof. solve_decision. Defined.
#[global] Instance Validity_eq_dec : EqDecision Validity.
Proof. solve_decision. Defined.

Definition validity_code (v : Validity) : Z :=
  match v with kDay => 1 | kIoc => 3 | kGtd => 4 | kEos => 6 end.

Record Order := {
  o_client_order_id : ClOrdId;
  o_exchange_order_no : Z;
  o_token : Token;
  o_segment : Z;
  o_price : Price;
  o_qty : Quantity;
  o_disclosed_qty : Quantity;
  o_side : Side;
  o_order_type : OrderType;
  o_validity : Validity;
  o_created_at : Timestamp;
}.

#[global] Instance Order_eq_dec : EqDecision Order.
Proof. solve_decision. Defined.

Record FillReport := {
  fr_exchange_order_no : Z;
  fr_client_order_id : ClOrdId;
  fr_token : Token;
  fr_fill_price : Price;
  fr_fill_qty : Quantity;
  fr_remaining_qty : Quantity;
  fr_fill_time : Timestamp;
  fr_trade_no : Z;
  fr_side : Side;
}.

#[global] Instance FillReport_eq_dec : EqDecision FillReport.
Proof. solve_decision. Defined.
