(* ===== verification/Double.v ===== *)
(** * Double: IEEE binary64 arithmetic

    The executable [SpecFloat] formalisation of the Standard Library at the
    precision and exponent range of [double], rounding to nearest even. *)

From Stdlib Require Import ZArith Lia SpecFloat.
From stdpp Require Import base numbers option.

Local Open Scope Z_scope.

Definition dbl (z : Z) : spec_float := binary_normalize 53 1024 z 0 false.
Definition dbl_add := SFadd 53 1024.
Definition dbl_sub := SFsub 53 1024.
Definition dbl_mul := SFmul 53 1024.
Definition dbl_div := SFdiv 53 1024.
Definition dbl_gt (a b : spec_float) : bool := SFltb b a.
Definition dbl_ge (a b : spec_float) : bool := SFleb b a.


(** [static_cast<size_t>(d)]: truncation towards zero; [None] is a NaN, an infinity
    or a negative value below -1, where the cast is undefined. *)
Definition dbl_to_size (d : spec_float) : option Z :=
  match d with
  | S754_zero _ => Some 0
  | S754_finite false m e =>
      Some (if 0 <=? e then Zpos m * 2 ^ e else Zpos m / 2 ^ (- e))
  | _ => None
  end.

(** ** Magnitudes

    [below M d]: [d] is a zero or a positive finite number below [2^M].  The operations
    on such numbers stay finite as long as [M] is far from the largest exponent. *)

Definition mag (M m e : Z) : Prop := 0 <= m < 2 ^ (M - e) /\ e <= M.

Definition below (M : Z) (d : spec_float) : Prop :=
  match d with
  | S754_zero s => s = false
  | S754_finite s m e => s = false /\ mag M (Zpos m) e
  | _ => False
  end.

Lemma mag_weaken M M' m e : M <= M' -> mag M m e -> mag M' m e.
Proof.
  intros HM [Hm He]. split; [|lia]. split; [lia|].
  eapply Z.lt_le_trans; [apply Hm|]. apply Z.pow_le_mono_r; lia.
Qed.

Lemma below_weaken M M' d : M <= M' -> below M d -> below M' d.
Proof. intros HM. destruct d; cbn; try done. intros [-> Hm]. split; [done|]. by eapply mag_weaken. Qed.

(** [m * 2^d] at the exponent [e - d]. *)
Lemma mag_shift M m e d : 0 <= d -> mag M m e -> mag M (m * 2 ^ d) (e - d).
Proof.
  intros Hd [Hm He]. split; [|lia]. replace (M - (e - d)) with (M - e + d) by lia.
  rewrite Z.pow_add_r by lia. assert (0 < 2 ^ d) by lia. nia.
Qed.

Lemma digits2_le p k : Zpos p < 2 ^ k -> 0 <= k -> Zpos (digits2_pos p) <= k.
Proof.
  revert k. induction p as [p IH|p IH|]; intros k Hp Hk; cbn [digits2_pos].
  - rewrite Pos2Z.inj_succ. destruct (Z.eq_dec k 0) as [->|]; [lia|].
    assert (Zpos p < 2 ^ (k - 1)); [|specialize (IH (k - 1)); lia].
    rewrite <- (Z.succ_pred k), Z.pow_succ_r in Hp by lia. rewrite <- Z.sub_1_r in Hp. lia.
  - rewrite Pos2Z.inj_succ. destruct (Z.eq_dec k 0) as [->|]; [lia|].
    assert (Zpos p < 2 ^ (k - 1)); [|specialize (IH (k - 1)); lia].
    rewrite <- (Z.succ_pred k), Z.pow_succ_r in Hp by lia. rewrite <- Z.sub_1_r in Hp. lia.
  - destruct (Z.eq_dec k 0) as [->|]; [done|lia].
Qed.

Lemma Zdigits2_le M m e : mag M m e -> Zdigits2 m + e <= M.
Proof.
  intros [[Hm Hlt] He]. destruct m as [|p|p]; cbn [Zdigits2]; [lia| |lia].
  pose proof (digits2_le p (M - e) Hlt). lia.
Qed.

Lemma shr_1_half mrs : 0 <= shr_m mrs -> shr_m (shr_1 mrs) = shr_m mrs / 2.
Proof.
  destruct mrs as [m r s]. cbn. destruct m as [|[p|p|]|p]; cbn; try done; intros _.
  - rewrite (Pos2Z.inj_xI p). apply (Z.div_unique _ _ _ 1); lia.
  - rewrite (Pos2Z.inj_xO p). apply (Z.div_unique _ _ _ 0); lia.
Qed.

Lemma shr_mantissa p mrs : 0 <= shr_m mrs -> shr_m (SpecFloat.iter_pos shr_1 p mrs) = shr_m mrs / 2 ^ Zpos p.
Proof.
  revert mrs. induction p as [p IH|p IH|]; intros mrs Hm; cbn [SpecFloat.iter_pos].
  - assert (0 <= shr_m (shr_1 mrs)) as H1 by (rewrite shr_1_half by done; apply Z.div_pos; lia).
    assert (0 <= shr_m (SpecFloat.iter_pos shr_1 p (shr_1 mrs))) as H2
      by (rewrite IH by done; apply Z.div_pos; lia).
    rewrite IH, IH, shr_1_half, !Z.div_div by (done || lia). f_equal.
    rewrite (Pos2Z.inj_xI p), Z.pow_add_r, Z.mul_comm, Z.pow_mul_r by lia.
    replace ((2 ^ 2) ^ Zpos p) with (2 ^ Zpos p * 2 ^ Zpos p); [lia|].
    rewrite <- Z.pow_mul_l. done.
  - assert (0 <= shr_m (SpecFloat.iter_pos shr_1 p mrs)) as H2 by (rewrite IH by done; apply Z.div_pos; lia).
    rewrite IH, IH, Z.div_div by (done || lia). f_equal.
    rewrite (Pos2Z.inj_xO p), Z.pow_mul_r by lia. rewrite <- Z.pow_mul_l. done.
  - rewrite shr_1_half by done. done.
Qed.

Lemma shr_fexp_mag M m e l :
  0 <= M -> mag M m e ->
  let '(mrs, e') := shr_fexp 53 1024 m e l in mag M (shr_m mrs) e'.
Proof.
  intros HM Hmag. unfold shr_fexp, shr. pose proof (Zdigits2_le M m e Hmag) as Hd.
  assert (shr_m (shr_record_of_loc m l) = m) as Hl by (by destruct l as [|[]]).
  destruct (fexp 53 1024 (Zdigits2 m + e) - e) as [|n|n] eqn:En; rewrite ?Hl; [done| |done].
  destruct Hmag as [[Hm Hlt] He]. rewrite shr_mantissa by (by rewrite Hl). rewrite Hl.
  assert (e + Zpos n <= M) as He' by (unfold fexp, emin in En; lia).
  split; [|done]. split; [apply Z.div_pos; lia|]. apply Z.div_lt_upper_bound; [lia|].
  rewrite <- Z.pow_add_r by lia. by replace (Zpos n + (M - (e + Zpos n))) with (M - e) by lia.
Qed.

Lemma round_aux_below M m e l :
  0 <= M <= 900 -> mag M m e -> below (M + 1) (binary_round_aux 53 1024 false m e l).
Proof.
  intros HM Hmag. unfold binary_round_aux.
  pose proof (shr_fexp_mag M m e l ltac:(lia) Hmag) as H1.
  destruct (shr_fexp 53 1024 m e l) as [mrs e1].
  set (m1 := round_nearest_even _ _).
  assert (mag (M + 1) m1 e1) as Hm1.
  { assert (shr_m mrs <= m1 <= shr_m mrs + 1) as Hr
      by (unfold m1, round_nearest_even; destruct (loc_of_shr_record mrs) as [|[]];
          try destruct (Z.even _); lia).
    destruct H1 as [Hb He]. split; [|lia]. replace (M + 1 - e1) with (Z.succ (M - e1)) by lia.
    rewrite Z.pow_succ_r by lia. lia. }
  pose proof (shr_fexp_mag (M + 1) m1 e1 loc_Exact ltac:(lia) Hm1) as H2.
  destruct (shr_fexp 53 1024 m1 e1 loc_Exact) as [mrs2 e2]. pose proof H2 as [Hb He].
  destruct (shr_m mrs2) as [|q|q]; cbn; [done| |lia].
  rewrite (proj2 (Z.leb_le _ _)) by (cbn; lia). done.
Qed.

Lemma iter_xO q d : Zpos (Pos.iter xO q d) = Zpos q * 2 ^ Zpos d.
Proof.
  revert q. induction d as [|d IH] using Pos.peano_ind; intros q; [cbn; lia|].
  rewrite Pos.iter_succ, (Pos2Z.inj_xO (Pos.iter _ _ _)), IH, Pos2Z.inj_succ, Z.pow_succ_r by lia. lia.
Qed.

Lemma shl_align_mag M q e e' :
  mag M (Zpos q) e -> let '(q', e1) := shl_align q e e' in mag M (Zpos q') e1.
Proof.
  intros Hm. unfold shl_align. destruct (e' - e) as [|d|d] eqn:E; [done..|].
  rewrite iter_xO. replace e' with (e - Zpos d) by lia. apply mag_shift; [lia|done].
Qed.

Lemma normalize_below M m e :
  0 <= M <= 900 -> mag M m e -> below (M + 1) (binary_normalize 53 1024 m e false).
Proof.
  intros HM Hmag. destruct m as [|q|q]; cbn; [done| |destruct Hmag; lia].
  unfold binary_round. pose proof (shl_align_mag M q e
    (fexp 53 1024 (Zpos (digits2_pos q) + e)) Hmag) as H1.
  destruct (shl_align _ _ _) as [q' e1]. by apply round_aux_below.
Qed.

Lemma dbl_below M z : 0 <= M <= 900 -> 0 <= z < 2 ^ M -> below (M + 1) (dbl z).
Proof. intros HM Hz. apply normalize_below; [done|]. unfold mag. rewrite Z.sub_0_r. lia. Qed.

Lemma dbl_mul_below M N a b :
  0 <= M + N <= 900 -> below M a -> below N b -> below (M + N + 1) (dbl_mul a b).
Proof.
  intros HMN. destruct a as [sa|sa| |sa ma ea], b as [sb|sb| |sb mb eb]; cbn; try done;
    try (intros -> ->; done); try (intros -> [-> _]; done); try (intros [-> _] ->; done).
  intros [-> [Ha Hea]] [-> [Hb Heb]]. apply round_aux_below; [done|]. split; [|lia].
  split; [lia|]. replace (M + N - (ea + eb)) with (M - ea + (N - eb)) by lia.
  rewrite Z.pow_add_r by lia. rewrite Pos2Z.inj_mul. apply Z.mul_lt_mono_nonneg; lia.
Qed.

Lemma dbl_add_below M a b :
  0 <= M <= 899 -> below M a -> below M b -> below (M + 2) (dbl_add a b).
Proof.
  intros HM Ha Hb. destruct a as [sa|sa| |sa ma ea], b as [sb|sb| |sb mb eb]; try done.
  - cbn in *. by subst.
  - apply (below_weaken M); [lia|done].
  - apply (below_weaken M); [lia|done].
  - destruct Ha as [-> Ha], Hb as [-> Hb]. unfold dbl_add, SFadd. cbv zeta. cbn [cond_Zopp].
    replace (M + 2) with (M + 1 + 1) by lia. apply normalize_below; [lia|].
    assert (forall q e, mag M (Zpos q) e -> Z.min ea eb <= e ->
      mag M (Zpos (fst (shl_align q e (Z.min ea eb)))) (Z.min ea eb)) as Hal.
    { intros q e Hq Hle. unfold shl_align. destruct (Z.min ea eb - e) as [|d|d] eqn:E; cbn [fst].
      - by replace (Z.min ea eb) with e by lia.
      - lia.
      - rewrite iter_xO. replace (Z.min ea eb) with (e - Zpos d) by lia. apply mag_shift; [lia|done]. }
    destruct (Hal ma ea Ha ltac:(lia)) as [H1 H2]. destruct (Hal mb eb Hb ltac:(lia)) as [H3 _].
    split; [|lia]. replace (M + 1 - Z.min ea eb) with (Z.succ (M - Z.min ea eb)) by lia.
    rewrite Z.pow_succ_r by lia. lia.
Qed.

Lemma below_to_size M d : below M d -> is_Some (dbl_to_size d).
Proof. destruct d as [s|s| |s m e]; cbn; try done. intros [-> _]. by eexists. Qed.
