(* ===== verification/Rounding.v ===== *)
(** * Rounding: what a double operation returns

    The operations of [Double] round the exact result to nearest even.  A positive number is
    counted in units of [2^-kScale], fine enough for every intermediate result; [rn N M f]
    says that [f] is the rounding of [N / M] units.  Two roundings are ordered as the exact
    values are ([rn_mono]), an exact result is returned unchanged ([rn_exact]) and the
    relative error upwards is at most [2^-52] ([rn_upper]). *)

From Stdlib Require Import ZArith Lia SpecFloat.
From stdpp Require Import base numbers option.
From S2P Require Import Prelude Double.

Local Open Scope Z_scope.

(** ** Locations *)

(** [N / D] lies at the location [l] of the interval from [m] to [m + 1]. *)
Definition inb (N D m : Z) (l : location) : Prop :=
  match l with
  | loc_Exact => N = m * D
  | loc_Inexact Lt => m * D < N /\ 2 * N < (2 * m + 1) * D
  | loc_Inexact Eq => 2 * N = (2 * m + 1) * D
  | loc_Inexact Gt => (2 * m + 1) * D < 2 * N /\ N < (m + 1) * D
  end.

Lemma inb_bounds N D m l : 0 < D -> inb N D m l -> m * D <= N < (m + 1) * D.
Proof. intros HD. destruct l as [|[]]; cbn; lia. Qed.

Lemma inb_scale T N D m l : 0 < T -> inb N D m l -> inb (N * T) (D * T) m l.
Proof. intros HT. destruct l as [|[]]; cbn; nia. Qed.

Lemma shr_1_inb N D mrs :
  0 < D -> 0 <= shr_m mrs -> inb N D (shr_m mrs) (loc_of_shr_record mrs) ->
  inb N (2 * D) (shr_m (shr_1 mrs)) (loc_of_shr_record (shr_1 mrs)).
Proof.
  destruct mrs as [m r s]. intros HD Hm. cbn [shr_m] in Hm. destruct m as [|[p|p|]|p]; [| | | |lia];
    destruct r, s; cbn; rewrite ?(Pos2Z.inj_xI p), ?(Pos2Z.inj_xO p); lia.
Qed.

Lemma shr_iter_inb p : forall N D mrs,
  0 < D -> 0 <= shr_m mrs -> inb N D (shr_m mrs) (loc_of_shr_record mrs) ->
  inb N (2 ^ Zpos p * D) (shr_m (SpecFloat.iter_pos shr_1 p mrs)) (loc_of_shr_record (SpecFloat.iter_pos shr_1 p mrs)).
Proof.
  assert (forall q mrs, 0 <= shr_m mrs -> 0 <= shr_m (SpecFloat.iter_pos shr_1 q mrs)) as Hpos.
  { intros q mrs Hm. rewrite shr_mantissa by done. apply Z.div_pos; lia. }
  induction p as [p IH|p IH|]; intros N D mrs HD Hm Hi; cbn [SpecFloat.iter_pos].
  - assert (0 <= shr_m (shr_1 mrs)) as H1 by (rewrite shr_1_half by done; apply Z.div_pos; lia).
    apply (shr_1_inb N D mrs HD Hm), (IH N (2 * D)) in Hi; [|lia|done].
    apply (IH N (2 ^ Zpos p * (2 * D))) in Hi; [|lia|by apply Hpos].
    replace (2 ^ Zpos p~1 * D) with (2 ^ Zpos p * (2 ^ Zpos p * (2 * D))); [done|].
    rewrite (Pos2Z.inj_xI p), Z.pow_add_r, Z.pow_twice_r by lia. lia.
  - apply (IH N D) in Hi; [|done|done]. apply (IH N (2 ^ Zpos p * D)) in Hi; [|lia|by apply Hpos].
    replace (2 ^ Zpos p~0 * D) with (2 ^ Zpos p * (2 ^ Zpos p * D)); [done|].
    rewrite (Pos2Z.inj_xO p), Z.pow_twice_r. lia.
  - by apply shr_1_inb.
Qed.

(** ** Digits *)

Lemma digits2_bounds p : 2 ^ (Zpos (digits2_pos p) - 1) <= Zpos p < 2 ^ Zpos (digits2_pos p).
Proof.
  induction p as [p IH|p IH|]; cbn [digits2_pos]; [| |cbn; lia];
    rewrite Pos2Z.inj_succ, Z.pow_succ_r by lia;
    replace (2 ^ (Z.succ (Zpos (digits2_pos p)) - 1)) with (2 * 2 ^ (Zpos (digits2_pos p) - 1))
      by (rewrite <- Z.pow_succ_r by lia; f_equal; lia); lia.
Qed.

Lemma Zdigits2_bounds m :
  0 <= m -> 0 <= Zdigits2 m /\ m < 2 ^ Zdigits2 m /\ (0 < m -> 1 <= Zdigits2 m /\ 2 ^ (Zdigits2 m - 1) <= m).
Proof.
  intros Hm. destruct m as [|p|p]; [cbn; lia| |lia]. pose proof (digits2_bounds p). cbn [Zdigits2]. lia.
Qed.

Lemma Zdigits2_upper m k : 0 <= m < 2 ^ k -> 0 <= k -> Zdigits2 m <= k.
Proof.
  intros Hm Hk. destruct (Zdigits2_bounds m) as (_ & _ & Hd); [lia|].
  destruct (Z.eq_dec m 0) as [->|]; [cbn; lia|]. destruct Hd as [H1 H2]; [lia|].
  destruct (Z.le_gt_cases (Zdigits2 m) k); [done|].
  assert (2 ^ k <= 2 ^ (Zdigits2 m - 1)) by (apply Z.pow_le_mono_r; lia). lia.
Qed.

(** ** One shift to the precision of the format *)

Lemma shr_fexp_spec N D m e l :
  0 < D -> 0 <= m -> inb N D m l ->
  let '(mrs, e') := shr_fexp 53 1024 m e l in
  e' = Z.max e (fexp 53 1024 (Zdigits2 m + e)) /\ shr_m mrs = m / 2 ^ (e' - e) /\
  inb N (2 ^ (e' - e) * D) (shr_m mrs) (loc_of_shr_record mrs).
Proof.
  intros HD Hm Hi. unfold shr_fexp, shr.
  assert (shr_m (shr_record_of_loc m l) = m) as Em by by destruct l as [|[]].
  assert (loc_of_shr_record (shr_record_of_loc m l) = l) as El by by destruct l as [|[]].
  destruct (fexp 53 1024 (Zdigits2 m + e) - e) as [|n|n] eqn:En.
  - rewrite Em, El, Z.sub_diag, Z.div_1_r, Z.mul_1_l. split_and!; [lia|done|done].
  - split_and!; [lia| |].
    + rewrite shr_mantissa by (rewrite Em; lia). rewrite Em. do 2 f_equal. lia.
    + replace (e + Zpos n - e) with (Zpos n) by lia. apply shr_iter_inb; [done|by rewrite Em|by rewrite Em, El].
  - rewrite Em, El, Z.sub_diag, Z.div_1_r, Z.mul_1_l. split_and!; [lia|done|done].
Qed.

(** ** Canonical numbers in units *)

Definition kScale : Z := 5000.
Definition kMinShift : Z := kScale - 1074.

(** Nothing else about [kScale] is used. *)
Lemma kScale_big : 4000 <= kScale.
Proof. unfold kScale. lia. Qed.

#[global] Opaque kScale.

Ltac scale := pose proof kScale_big; unfold kMinShift in *.

Definition units (f : spec_float) : Z :=
  match f with S754_finite _ m e => Zpos m * 2 ^ (e + kScale) | _ => 0 end.

(** Zero or a positive number as the format stores it. *)
Definition canon (f : spec_float) : Prop :=
  match f with
  | S754_zero s => s = false
  | S754_finite s m e => s = false /\ Zpos m < 2 ^ 53 /\ -1074 <= e <= 971 /\ (e = -1074 \/ 2 ^ 52 <= Zpos m)
  | _ => False
  end.

(** [N / M] units lies in the cell of [c] at the exponent its size calls for. *)
Definition cell (N M k c : Z) (l : location) : Prop :=
  inb N (M * 2 ^ k) c l /\ kMinShift <= k /\ 0 <= c < 2 ^ 53 /\ (k = kMinShift \/ 2 ^ 52 <= c).

Definition rn (N M : Z) (f : spec_float) : Prop :=
  canon f /\ exists k c l, cell N M k c l /\ units f = round_nearest_even c l * 2 ^ k.

Lemma rne_bounds c l : c <= round_nearest_even c l <= c + 1.
Proof. destruct l as [|[]]; cbn; try destruct (Z.even c); lia. Qed.

Lemma rne_mono N1 N2 D1 D2 c l1 l2 :
  0 < D1 -> 0 < D2 -> inb N1 D1 c l1 -> inb N2 D2 c l2 -> N1 * D2 <= N2 * D1 ->
  round_nearest_even c l1 <= round_nearest_even c l2.
Proof.
  intros H1 H2 I1 I2 Hle. destruct l1 as [|[]], l2 as [|[]]; cbn in *; try destruct (Z.even c); try lia; nia.
Qed.

(** Rounding is monotone. *)
Lemma rn_mono N1 M1 N2 M2 f1 f2 :
  0 < M1 -> 0 < M2 -> rn N1 M1 f1 -> rn N2 M2 f2 -> N1 * M2 <= N2 * M1 -> units f1 <= units f2.
Proof.
  intros P1 P2 (_ & k1 & c1 & l1 & (I1 & K1 & C1 & S1) & ->) (_ & k2 & c2 & l2 & (I2 & K2 & C2 & S2) & ->) Hle.
  scale.
  assert (0 < 2 ^ k1) as T1 by (apply Z.pow_pos_nonneg; lia).
  assert (0 < 2 ^ k2) as T2 by (apply Z.pow_pos_nonneg; lia).
  assert (0 < M1 * 2 ^ k1) as D1 by lia. assert (0 < M2 * 2 ^ k2) as D2 by lia.
  pose proof (inb_bounds _ _ _ _ D1 I1) as B1. pose proof (inb_bounds _ _ _ _ D2 I2) as B2.
  pose proof (rne_bounds c1 l1) as R1. pose proof (rne_bounds c2 l2) as R2.
  assert (c1 * 2 ^ k1 < (c2 + 1) * 2 ^ k2) as Hcells.
  { apply (Z.mul_lt_mono_pos_r (M1 * M2)); [nia|].
    apply Z.le_lt_trans with (N1 * M2); [nia|]. apply Z.le_lt_trans with (N2 * M1); [lia|]. nia. }
  destruct (Z.lt_trichotomy k1 k2) as [Hk|[->|Hk]].
  - assert (2 ^ k2 = 2 ^ (k2 - k1 - 1) * (2 * 2 ^ k1)) as E.
    { rewrite <- Z.pow_succ_r, <- Z.pow_add_r by lia. f_equal. lia. }
    assert (1 <= 2 ^ (k2 - k1 - 1)) by (apply (Z.pow_le_mono_r 2 0); lia). nia.
  - destruct (Z.lt_trichotomy c1 c2) as [Hc|[->|Hc]]; [nia| |nia].
    apply Z.mul_le_mono_nonneg_r; [lia|].
    apply (rne_mono N1 N2 (M1 * 2 ^ k2) (M2 * 2 ^ k2)); [done..|nia].
  - exfalso. assert (2 ^ k1 = 2 ^ (k1 - k2 - 1) * (2 * 2 ^ k2)) as E.
    { rewrite <- Z.pow_succ_r, <- Z.pow_add_r by lia. f_equal. lia. }
    assert (1 <= 2 ^ (k1 - k2 - 1)) by (apply (Z.pow_le_mono_r 2 0); lia). nia.
Qed.

(** A stored number is its own rounding. *)
Lemma rn_canon f : canon f -> rn (units f) 1 f.
Proof.
  intros Hf. split; [done|]. destruct f as [s|s| |s m e]; try done.
  - exists kMinShift, 0, loc_Exact. split; [|done]. split; [done|]. scale. lia.
  - destruct Hf as (-> & Hm & He & Hc). exists (e + kScale), (Zpos m), loc_Exact. split; [|done].
    split; [cbn; lia|]. scale. split_and!; try lia.
Qed.

Lemma rn_exact N M f g : 0 < M -> rn N M f -> canon g -> N = units g * M -> units f = units g.
Proof.
  intros HM Hf Hg ->. pose proof (rn_canon g Hg) as Hr.
  apply Z.le_antisymm; [eapply (rn_mono _ M _ 1)|eapply (rn_mono _ 1 _ M)]; try done; lia.
Qed.

(** From one unit of the last place of 1 on, the relative error is at most [2^-52]. *)
Lemma rn_upper N M f : 0 < M -> rn N M f -> M * 2 ^ (kMinShift + 52) <= N -> units f * 2 ^ 52 * M <= N * (2 ^ 52 + 1).
Proof.
  intros HM (_ & k & c & l & (Hi & Hk & Hc & Hs) & ->) HN. pose proof (rne_bounds c l).
  scale. assert (0 < 2 ^ k) by (apply Z.pow_pos_nonneg; lia).
  pose proof (inb_bounds N (M * 2 ^ k) c l ltac:(lia) Hi) as Hb.
  assert (2 ^ 52 <= c) as Hn.
  { destruct Hs as [->|?]; [|done]. rewrite Z.pow_add_r in HN by lia.
    assert (2 ^ 52 < c + 1); [|lia]. apply (Z.mul_lt_mono_pos_r (M * 2 ^ (kScale - 1074))); lia. }
  assert (round_nearest_even c l * 2 ^ 52 <= c * (2 ^ 52 + 1)) by lia.
  assert (c * (M * 2 ^ k) * (2 ^ 52 + 1) <= N * (2 ^ 52 + 1)) by nia. nia.
Qed.

(** ** The rounding step *)

(** The second shift of [binary_round_aux]: it only renormalises [2^53]. *)
Lemma renormalise c e :
  0 <= c <= 2 ^ 53 -> -1074 <= e -> (e <= 960) -> (e = -1074 \/ 2 ^ 52 <= c) ->
  let '(mrs, e') := shr_fexp 53 1024 c e loc_Exact in
  let f := match shr_m mrs with
           | Z0 => S754_zero false
           | Zpos m => if e' <=? 1024 - 53 then S754_finite false m e' else S754_infinity false
           | _ => S754_nan
           end in
  canon f /\ units f = c * 2 ^ (e + kScale).
Proof.
  intros Hc He Hmax Hn. pose proof (shr_fexp_spec c 1 c e loc_Exact ltac:(lia) ltac:(lia) ltac:(cbn; lia)) as Hs.
  destruct (shr_fexp 53 1024 c e loc_Exact) as [mrs e']. destruct Hs as (Ee & Em & _).
  destruct (Zdigits2_bounds c) as (D0 & D1 & D2); [lia|]. unfold fexp, emin in Ee. scale.
  destruct (Z.eq_dec c (2 ^ 53)) as [->|Hne].
  - assert (e' = e + 1) as -> by (change (Zdigits2 (2 ^ 53)) with 54 in Ee; lia). replace (e + 1 - e) with 1 in Em by lia.
    rewrite Em. change (2 ^ 53 / 2 ^ 1) with (Zpos (2 ^ 52)). cbv zeta. cbv iota.
    rewrite (proj2 (Z.leb_le _ _)) by lia. split; [cbn; lia|]. cbn [units]. scale.
    replace (e + 1 + kScale) with (Z.succ (e + kScale)) by lia. rewrite Z.pow_succ_r by lia.
    change (Zpos (2 ^ 52)) with (2 ^ 52). lia.
  - pose proof (Zdigits2_upper c 53 ltac:(lia) ltac:(lia)) as D3.
    assert (e' = e) as -> by lia. rewrite Z.sub_diag, Z.div_1_r in Em. rewrite Em. cbv zeta.
    destruct c as [|m|m]; [done| |lia]. rewrite (proj2 (Z.leb_le _ _)) by lia.
    split; [|done]. cbn. lia.
Qed.

(** The rounding of an exact value given by its cell at a finer exponent. *)
Lemma round_rn N M m e l :
  0 < M -> 0 <= m -> - kScale <= e -> (2 ^ 52 <= m \/ e <= -1074) -> inb N (M * 2 ^ (e + kScale)) m l ->
  N < M * 2 ^ (kScale + 900) -> rn N M (binary_round_aux 53 1024 false m e l).
Proof.
  intros HM Hm He Hfine Hi HN. unfold binary_round_aux.
  assert (0 < 2 ^ (e + kScale)) as HT by (apply Z.pow_pos_nonneg; lia).
  pose proof (shr_fexp_spec N (M * 2 ^ (e + kScale)) m e l ltac:(lia) Hm Hi) as Hs.
  destruct (shr_fexp 53 1024 m e l) as [mrs e1]. destruct Hs as (Ee & Ec & Hi1).
  destruct (Zdigits2_bounds m Hm) as (D0 & D1 & D2).
  set (c := shr_m mrs) in *. set (l1 := loc_of_shr_record mrs) in *. clearbody c l1.
  unfold fexp, emin in Ee. scale.
  assert (2 ^ (e1 - e) * (M * 2 ^ (e + kScale)) = M * 2 ^ (e1 + kScale)) as Epow.
  { replace (e1 + kScale) with (e1 - e + (e + kScale)) by lia. rewrite (Z.pow_add_r 2 (e1 - e)) by lia. lia. }
  rewrite Epow in Hi1.
  assert (0 < 2 ^ (e1 - e)) as HTe by (apply Z.pow_pos_nonneg; lia).
  assert (0 <= c < 2 ^ 53) as Hc.
  { rewrite Ec. split; [apply Z.div_pos; lia|]. apply Z.div_lt_upper_bound; [lia|].
    rewrite <- Z.pow_add_r by lia. eapply Z.lt_le_trans; [exact D1|]. apply Z.pow_le_mono_r; lia. }
  assert (e1 = -1074 \/ 2 ^ 52 <= c) as Hnorm.
  { destruct (Z.eq_dec e1 (-1074)) as [|Hne]; [by left|right]. destruct (Z.eq_dec m 0) as [->|Hm0].
    { cbn in Ee. lia. }
    destruct D2 as [D2 D3]; [lia|]. rewrite Ec. destruct (Z.eq_dec e1 e) as [->|Hne2].
    - rewrite Z.sub_diag, Z.div_1_r. lia.
    - apply Z.div_le_lower_bound; [lia|]. rewrite Z.mul_comm, <- Z.pow_add_r by lia.
      replace (52 + (e1 - e)) with (Zdigits2 m - 1) by lia. done. }
  assert (e1 <= 960) as Hmax.
  { destruct Hnorm as [->|Hn]; [lia|]. destruct (Z.le_gt_cases e1 960) as [|Hgt]; [done|exfalso].
    pose proof (inb_bounds N (M * 2 ^ (e1 + kScale)) c l1 ltac:(assert (0 < 2 ^ (e1 + kScale)) by (apply Z.pow_pos_nonneg; lia); lia) Hi1) as Hb.
    assert (2 ^ (kScale + 900) <= 2 ^ (e1 + kScale)) by (apply Z.pow_le_mono_r; lia). nia. }
  pose proof (rne_bounds c l1) as Hr.
  pose proof (renormalise (round_nearest_even c l1) e1 ltac:(lia) ltac:(lia) Hmax ltac:(lia)) as Hf.
  destruct (shr_fexp 53 1024 (round_nearest_even c l1) e1 loc_Exact) as [mrs2 e2]. cbv zeta in Hf.
  destruct Hf as [Hcan Hu]. split; [exact Hcan|]. exists (e1 + kScale), c, l1. split; [|exact Hu].
  split; [exact Hi1|]. scale. lia.
Qed.

(** ** The operations *)

Lemma normalize_rn m e :
  0 <= m -> - kScale + 1074 <= e -> m * 2 ^ (e + kScale) < 2 ^ (kScale + 900) ->
  rn (m * 2 ^ (e + kScale)) 1 (binary_normalize 53 1024 m e false).
Proof.
  scale. intros Hm He HN. destruct m as [|q|q]; [|cbn [binary_normalize]|lia].
  { apply (rn_canon (S754_zero false)). done. }
  unfold binary_round. pose proof (digits2_bounds q) as Hd.
  unfold shl_align. set (f := fexp 53 1024 (Zpos (digits2_pos q) + e)).
  assert (f = Z.max (Zpos (digits2_pos q) + e - 53) (-1074)) as Ef by done.
  destruct (f - e) as [|d|d] eqn:E.
  - apply round_rn; [lia|lia|scale; lia| |cbn [inb]; lia|scale; lia].
    destruct (Z.eq_dec f (-1074)); [right; lia|left].
    replace (Zpos (digits2_pos q) - 1) with 52 in Hd by lia. lia.
  - apply round_rn; [lia|lia|scale; lia| |cbn [inb]; lia|scale; lia].
    destruct (Z.eq_dec f (-1074)); [right; lia|left].
    assert (2 ^ 52 <= 2 ^ (Zpos (digits2_pos q) - 1)) by (apply Z.pow_le_mono_r; lia). lia.
  - assert (Zpos (Pos.iter xO q d) * 2 ^ (f + kScale) = Zpos q * 2 ^ (e + kScale)) as Ev.
    { rewrite iter_xO. replace (e + kScale) with (Zpos d + (f + kScale)) by lia.
      rewrite (Z.pow_add_r 2 (Zpos d)) by lia. lia. }
    apply round_rn; [lia|lia|scale; lia| |cbn [inb]; lia|scale; lia].
    destruct (Z.eq_dec f (-1074)); [right; lia|left]. rewrite iter_xO.
    assert (2 ^ 52 = 2 ^ (Zpos (digits2_pos q) - 1) * 2 ^ Zpos d) as ->; [|nia].
    rewrite <- Z.pow_add_r by lia. f_equal. lia.
Qed.

Lemma dbl_rn z : 0 <= z < 2 ^ 900 -> rn (z * 2 ^ kScale) 1 (dbl z).
Proof.
  intros Hz. pose proof (normalize_rn z 0) as H. rewrite Z.add_0_l in H. apply H; [lia|scale; lia|].
  scale. rewrite Z.pow_add_r by lia. nia.
Qed.

Lemma units_nonneg f : 0 <= units f.
Proof. destruct f as [| | |s m e]; cbn [units]; try lia. Qed.

Lemma dbl_mul_rn a b :
  canon a -> canon b -> units a * units b < 2 ^ kScale * 2 ^ (kScale + 900) ->
  rn (units a * units b) (2 ^ kScale) (dbl_mul a b).
Proof.
  intros Ha Hb Hmax.
  assert (0 < 2 ^ kScale) as HP by (apply Z.pow_pos_nonneg; scale; lia).
  assert (forall M, 0 < M -> rn 0 M (S754_zero false)) as Hz.
  { intros M HM. split; [done|]. exists kMinShift, 0, loc_Exact. split; [|done]. split; [done|].
    scale. lia. }
  destruct a as [sa|sa| |sa ma ea], b as [sb|sb| |sb mb eb]; try contradiction; cbn [units] in *.
  - cbn in Ha, Hb. subst. cbn. by apply Hz.
  - cbn in Ha. destruct Hb as (-> & _). subst. cbn [dbl_mul SFmul xorb]. by apply Hz.
  - destruct Ha as (-> & _). cbn in Hb. subst. rewrite Z.mul_0_r. by apply Hz.
  - destruct Ha as (-> & Ha & Hea & Na), Hb as (-> & Hb & Heb & Nb). unfold dbl_mul, SFmul. cbn [xorb].
    assert (Zpos ma * 2 ^ (ea + kScale) * (Zpos mb * 2 ^ (eb + kScale)) =
            Zpos (ma * mb) * (2 ^ kScale * 2 ^ (ea + eb + kScale))) as E.
    { rewrite Pos2Z.inj_mul. replace (2 ^ kScale * 2 ^ (ea + eb + kScale)) with (2 ^ (ea + kScale) * 2 ^ (eb + kScale)); [lia|].
      scale. rewrite <- !Z.pow_add_r by lia. f_equal. lia. }
    apply round_rn; [exact HP|lia|scale; lia| |exact E|exact Hmax].
    destruct Na as [->|Na]; [|left; rewrite Pos2Z.inj_mul; nia].
    destruct Nb as [->|Nb]; [right; lia|left; rewrite Pos2Z.inj_mul; nia].
Qed.

Lemma shl_align_units q e e' :
  e' <= e -> - kScale <= e' -> Zpos (shl_align q e e').1 * 2 ^ (e' + kScale) = Zpos q * 2 ^ (e + kScale).
Proof.
  intros Hle He. scale. unfold shl_align. destruct (e' - e) as [|d|d] eqn:E; cbn [fst].
  - by replace e' with e by lia.
  - lia.
  - rewrite iter_xO. replace (e + kScale) with (Zpos d + (e' + kScale)) by lia.
    rewrite (Z.pow_add_r 2 (Zpos d)) by lia. lia.
Qed.

Lemma dbl_add_rn a b :
  canon a -> canon b -> units a + units b < 2 ^ (kScale + 900) -> rn (units a + units b) 1 (dbl_add a b).
Proof.
  intros Ha Hb Hmax. destruct a as [sa|sa| |sa ma ea], b as [sb|sb| |sb mb eb]; try contradiction.
  - cbn in Ha, Hb. subst. by apply (rn_canon (S754_zero false)).
  - change (rn (units (S754_finite sb mb eb)) 1 (S754_finite sb mb eb)). by apply rn_canon.
  - cbn [units]. rewrite Z.add_0_r. by apply (rn_canon (S754_finite sa ma ea)).
  - destruct Ha as (-> & Ha & Hea & Na), Hb as (-> & Hb & Heb & Nb). unfold dbl_add, SFadd. cbv zeta. cbn [cond_Zopp].
    set (ez := Z.min ea eb) in *.
    pose proof (shl_align_units ma ea ez ltac:(lia) ltac:(scale; lia)) as E1.
    pose proof (shl_align_units mb eb ez ltac:(lia) ltac:(scale; lia)) as E2.
    cbn [units] in *.
    assert ((Zpos (shl_align ma ea ez).1 + Zpos (shl_align mb eb ez).1) * 2 ^ (ez + kScale) =
            Zpos ma * 2 ^ (ea + kScale) + Zpos mb * 2 ^ (eb + kScale)) as E by lia.
    rewrite <- E in *. apply normalize_rn; [lia|scale; lia|lia].
Qed.

Lemma new_location_inb m r q :
  0 < m -> 0 <= r < m -> inb (q * m + r) m q (new_location m r).
Proof.
  intros Hm Hr. unfold new_location. destruct (Z.even m) eqn:Ev.
  - unfold new_location_even. destruct (Z.eqb_spec r 0) as [->|]; [cbn; lia|].
    destruct (Z.compare_spec (2 * r) m); cbn; lia.
  - assert (Z.odd m = true) as Ho by (rewrite <- Z.negb_even, Ev; done). apply Z.odd_spec in Ho as [h ->].
    unfold new_location_odd. destruct (Z.eqb_spec r 0) as [->|]; [cbn; lia|].
    destruct (Z.compare_spec (2 * r + 1) (2 * h + 1)); cbn; lia.
Qed.

Lemma dbl_div_rn a b :
  canon a -> canon b -> 0 < units b -> units a * 2 ^ kScale < units b * 2 ^ (kScale + 900) ->
  rn (units a * 2 ^ kScale) (units b) (dbl_div a b).
Proof.
  intros Ha Hb Hpos Hmax. destruct b as [sb|sb| |sb mb eb]; try contradiction; [cbn in Hpos; lia|].
  destruct Hb as (-> & Hb & Heb & Nb). destruct a as [sa|sa| |sa ma ea]; try contradiction.
  { cbn in Ha. subst. cbn [units]. split; [done|]. exists kMinShift, 0, loc_Exact. split; [|done].
    split; [cbn [inb]; lia|]. scale. lia. }
  destruct Ha as (-> & Ha & Hea & Na). unfold dbl_div, SFdiv, SFdiv_core_binary. cbn [xorb].
  pose proof (digits2_bounds ma) as Dm. pose proof (digits2_bounds mb) as Dn. cbn [Zdigits2].
  set (d1 := Zpos (digits2_pos ma)) in *. set (d2 := Zpos (digits2_pos mb)) in *.
  assert (d1 <= 53) as D1 by (apply (Zdigits2_upper (Zpos ma)); lia).
  assert (d2 <= 53) as D2 by (apply (Zdigits2_upper (Zpos mb)); lia).
  assert (1 <= d1 /\ 1 <= d2) as [D3 D4] by lia.
  set (e' := Z.min _ (ea - eb)). cbv zeta. set (s := ea - eb - e').
  assert (e' = Z.min (Z.max (d1 + ea - (d2 + eb) - 53) (-1074)) (ea - eb)) as Ee by done.
  assert (0 <= s) as Hs by lia.
  set (m' := match s with Zpos _ => _ | Z0 => _ | Zneg _ => _ end).
  assert (m' = Zpos ma * 2 ^ s) as Em.
  { unfold m'. destruct s as [|p|p]; [lia|apply Z.shiftl_mul_pow2; lia|lia]. }
  clearbody m'. clearbody d1 d2.
  pose proof (Z.div_eucl_eq m' (Zpos mb) ltac:(lia)) as Hq. unfold new_location in Hq |- *.
  destruct (Z.div_eucl m' (Zpos mb)) as [q r] eqn:Eq.
  assert (r = m' mod Zpos mb) as Er by (unfold Z.modulo; by rewrite Eq).
  assert (0 <= r < Zpos mb) as Hr by (rewrite Er; apply Z.mod_pos_bound; lia).
  fold (new_location (Zpos mb)). rewrite Z.mul_comm in Hq.
  assert (0 < 2 ^ s) as HTs by (apply Z.pow_pos_nonneg; lia).
  assert (0 <= q) as Hq0 by (clear - Hq Hr Em HTs; nia). cbn [units] in *.
  apply round_rn; [exact Hpos|exact Hq0|scale; lia| | |exact Hmax].
  - destruct (Z.le_gt_cases e' (-1074)) as [|Hgt]; [by right|left].
    assert (s = d2 - d1 + 53) as Es by lia.
    assert (2 ^ 52 * Zpos mb < m') as Hbig.
    { rewrite Em, Es. apply Z.lt_le_trans with (2 ^ (d2 + 52)).
      - rewrite Z.pow_add_r by lia. lia.
      - replace (d2 + 52) with (d1 - 1 + (d2 - d1 + 53)) by lia. rewrite (Z.pow_add_r 2 (d1 - 1)) by lia.
        apply Z.mul_le_mono_nonneg_r; [apply Z.pow_nonneg; lia|apply Dm]. }
    clear - Hbig Hq Hr. assert (2 ^ 52 * Zpos mb < (q + 1) * Zpos mb) as Hlt by lia.
    apply Z.mul_lt_mono_pos_r in Hlt; lia.
  - set (T := 2 ^ (eb + e' + kScale + kScale)).
    assert (0 < T) as HT by (apply Z.pow_pos_nonneg; scale; lia).
    pose proof (inb_scale T _ _ _ _ HT (new_location_inb (Zpos mb) r q ltac:(lia) Hr)) as Hi.
    replace (q * Zpos mb + r) with m' in Hi by lia.
    replace (Zpos ma * 2 ^ (ea + kScale) * 2 ^ kScale) with (m' * T).
    + replace (Zpos mb * 2 ^ (eb + kScale) * 2 ^ (e' + kScale)) with (Zpos mb * T); [exact Hi|].
      unfold T. rewrite <- Z.mul_assoc, <- Z.pow_add_r by (scale; lia). do 2 f_equal. lia.
    + rewrite Em. unfold T. rewrite <- !Z.mul_assoc, <- !Z.pow_add_r by (scale; lia). do 2 f_equal. lia.
Qed.

(** ** Truncation *)

Lemma to_size_units f : canon f -> dbl_to_size f = Some (units f / 2 ^ kScale).
Proof.
  destruct f as [s|s| |s m e]; try contradiction.
  - intros _. cbn [dbl_to_size units]. by rewrite Z.div_0_l by (apply Z.pow_nonzero; scale; lia).
  - intros (-> & _ & He & _). cbn [dbl_to_size units]. f_equal. destruct (Z.leb_spec 0 e).
    + rewrite Z.pow_add_r, Z.mul_assoc, Z.div_mul by (try apply Z.pow_nonzero; scale; lia). done.
    + replace (2 ^ kScale) with (2 ^ (- e) * 2 ^ (e + kScale)).
      * rewrite Z.div_mul_cancel_r by (apply Z.pow_nonzero; scale; lia). done.
      * rewrite <- Z.pow_add_r by (scale; lia). f_equal. lia.
Qed.

(** An integer of at most 53 bits, scaled by a moderate power of two, is a number of the
    format. *)
Lemma scaled_float z j :
  0 <= z <= 2 ^ 53 -> -1000 <= j <= 900 -> exists g, canon g /\ units g = z * 2 ^ (j + kScale).
Proof.
  intros Hz Hj. destruct (Z.eq_dec z (2 ^ 53)) as [->|Hne].
  { exists (S754_finite false (2 ^ 52) (j + 1)). split; [cbn; lia|]. cbn [units]. change (Zpos (2 ^ 52)) with (2 ^ 52).
    scale. replace (j + 1 + kScale) with (Z.succ (j + kScale)) by lia. rewrite Z.pow_succ_r by lia. lia. }
  destruct z as [|p|p]; [by exists (S754_zero false)| |lia].
  pose proof (digits2_bounds p) as Hd. pose proof (Zdigits2_upper (Zpos p) 53 ltac:(lia) ltac:(lia)) as H53.
  cbn [Zdigits2] in H53. set (d := Zpos (digits2_pos p)) in *. assert (1 <= d) by lia.
  assert (0 < 2 ^ (53 - d)) as HT by (apply Z.pow_pos_nonneg; lia).
  exists (S754_finite false (Z.to_pos (Zpos p * 2 ^ (53 - d))) (d - 53 + j)). cbn [canon units].
  rewrite Z2Pos.id by lia. split.
  - split_and!; [done| |lia|lia|right].
    + replace (2 ^ 53) with (2 ^ d * 2 ^ (53 - d)) by (rewrite <- Z.pow_add_r by lia; f_equal; lia). nia.
    + replace (2 ^ 52) with (2 ^ (d - 1) * 2 ^ (53 - d)) by (rewrite <- Z.pow_add_r by lia; f_equal; lia). nia.
  - scale. rewrite <- Z.mul_assoc, <- Z.pow_add_r by lia. do 2 f_equal. lia.
Qed.

Lemma dbl_int z : 0 <= z <= 2 ^ 53 -> canon (dbl z) /\ units (dbl z) = z * 2 ^ kScale.
Proof.
  intros Hz. assert (rn (z * 2 ^ kScale) 1 (dbl z)) as Hr.
  { apply dbl_rn. assert (2 ^ 53 < 2 ^ 900) by (apply Z.pow_lt_mono_r; lia). lia. }
  destruct (scaled_float z 0 Hz) as (g & Hg & Eg); [lia|]. rewrite Z.add_0_l in Eg. split; [apply Hr|].
  rewrite <- Eg. apply (rn_exact (z * 2 ^ kScale) 1); [lia|done|done|lia].
Qed.

(** Conversion of a 64-bit integer: in range and monotone. *)
Lemma dbl_u64 z : in_u 64 z -> canon (dbl z) /\ units (dbl z) <= 2 ^ 64 * 2 ^ kScale /\ (0 < z -> 2 ^ kScale <= units (dbl z)).
Proof.
  intros Hz. assert (2 ^ 64 < 2 ^ 900) as Hbig by (apply Z.pow_lt_mono_r; lia). unfold in_u in Hz. cbn in Hz.
  assert (rn (z * 2 ^ kScale) 1 (dbl z)) as Hr by (apply dbl_rn; lia).
  assert (0 < 2 ^ kScale) as HP by (apply Z.pow_pos_nonneg; scale; lia).
  split; [apply Hr|]. split.
  - assert (canon (S754_finite false (2 ^ 52) 12)) as Hg by (cbn; lia).
    pose proof (rn_mono _ 1 _ 1 _ _ ltac:(lia) ltac:(lia) Hr (rn_canon _ Hg)) as Hm.
    assert (units (S754_finite false (2 ^ 52) 12) = 2 ^ 64 * 2 ^ kScale) as E.
    { cbn [units]. change (Zpos (2 ^ 52)) with (2 ^ 52). scale. rewrite Z.pow_add_r by lia. lia. }
    rewrite E in Hm. apply Hm. nia.
  - intros Hpos. destruct (dbl_int 1 ltac:(lia)) as [H1 E1].
    pose proof (rn_mono _ 1 _ 1 _ _ ltac:(lia) ltac:(lia) (rn_canon _ H1) Hr) as Hm. rewrite E1 in Hm.
    assert (2 ^ kScale <= units (dbl z)); [|done]. rewrite <- (Z.mul_1_l (2 ^ kScale)). apply Hm. nia.
Qed.

Lemma dbl_mono x y : in_u 64 x -> in_u 64 y -> x <= y -> units (dbl x) <= units (dbl y).
Proof.
  unfold in_u. cbn. intros Hx Hy Hle. assert (2 ^ 64 < 2 ^ 900) as Hbig by (apply Z.pow_lt_mono_r; lia).
  apply (rn_mono (x * 2 ^ kScale) 1 (y * 2 ^ kScale) 1); [lia|lia|apply dbl_rn; lia|apply dbl_rn; lia|].
  assert (0 < 2 ^ kScale) by (apply Z.pow_pos_nonneg; scale; lia). nia.
Qed.

(** ** Comparison and countdown *)

Lemma units_pos s m e : -1074 <= e -> 0 < units (S754_finite s m e).
Proof. intros He. scale. assert (0 < 2 ^ (e + kScale)) by (apply Z.pow_pos_nonneg; lia). cbn [units]. lia. Qed.

(** Stored numbers compare as their values do. *)
Lemma canon_compare a b : canon a -> canon b -> SFcompare a b = Some (Z.compare (units a) (units b)).
Proof.
  intros Ha Hb. destruct a as [sa|sa| |sa ma ea], b as [sb|sb| |sb mb eb]; try contradiction.
  - done.
  - destruct Hb as (-> & _ & He & _). pose proof (units_pos false mb eb ltac:(lia)).
    cbn [SFcompare]. change (units (S754_zero sa)) with 0. by rewrite (proj2 (Z.compare_lt_iff _ _)).
  - destruct Ha as (-> & _ & He & _). pose proof (units_pos false ma ea ltac:(lia)).
    cbn [SFcompare]. change (units (S754_zero sb)) with 0. by rewrite (proj2 (Z.compare_gt_iff _ _)).
  - destruct Ha as (-> & Ha & Hea & Na), Hb as (-> & Hb & Heb & Nb). cbn [SFcompare units]. f_equal. scale.
    assert (forall x y, x < y -> -1074 <= x -> 2 ^ (y + kScale) = 2 ^ (y - x - 1) * (2 * 2 ^ (x + kScale)) /\
      1 <= 2 ^ (y - x - 1) /\ 0 < 2 ^ (x + kScale)) as Hpow.
    { intros x y Hxy Hx. split_and!.
      - rewrite <- Z.pow_succ_r, <- Z.pow_add_r by lia. f_equal. lia.
      - apply (Z.pow_le_mono_r 2 0); lia.
      - apply Z.pow_pos_nonneg; lia. }
    destruct (Z.compare_spec ea eb) as [->|Hlt|Hgt]; symmetry.
    + assert (0 < 2 ^ (eb + kScale)) by (apply Z.pow_pos_nonneg; lia).
      etransitivity; [symmetry; apply Zmult_compare_compat_r; lia|done].
    + destruct (Hpow ea eb Hlt ltac:(lia)) as (-> & H1 & H2). apply Z.compare_lt_iff.
      assert (2 ^ 52 <= Zpos mb * 2 ^ (eb - ea - 1)) by (assert (2 ^ 52 <= Zpos mb) by lia; nia). nia.
    + destruct (Hpow eb ea Hgt ltac:(lia)) as (-> & H1 & H2). apply Z.compare_gt_iff.
      assert (2 ^ 52 <= Zpos ma * 2 ^ (ea - eb - 1)) by (assert (2 ^ 52 <= Zpos ma) by lia; nia). nia.
Qed.

Lemma canon_gt a b : canon a -> canon b -> dbl_gt a b = (units b <? units a).
Proof. intros Ha Hb. unfold dbl_gt, SFltb. rewrite canon_compare by done. unfold Z.ltb. by destruct (_ ?= _). Qed.

Lemma canon_ge a b : canon a -> canon b -> dbl_ge a b = (units b <=? units a).
Proof. intros Ha Hb. unfold dbl_ge, SFleb. rewrite canon_compare by done. unfold Z.leb. by destruct (_ ?= _). Qed.

(** Taking 1 from a number between 1 and 2^53 is exact. *)
Lemma dbl_sub_one a :
  canon a -> 2 ^ kScale <= units a < 2 ^ 53 * 2 ^ kScale ->
  canon (dbl_sub a (dbl 1)) /\ units (dbl_sub a (dbl 1)) = units a - 2 ^ kScale.
Proof.
  intros Ha Hu. destruct (dbl_int 1 ltac:(lia)) as [C1 E1]. rewrite Z.mul_1_l in E1.
  assert (0 < 2 ^ kScale) as HP by (apply Z.pow_pos_nonneg; scale; lia).
  destruct a as [sa|sa| |sa m e]; try contradiction; [cbn [units] in Hu; lia|].
  destruct Ha as (-> & Hm & He & Hn). cbn [units] in *.
  assert (-52 <= e <= 0) as Hrange.
  { scale. split.
    - destruct (Z.le_gt_cases (-52) e) as [|Hlt]; [done|exfalso].
      assert (2 ^ kScale = 2 ^ (- e - 53) * (2 ^ 53 * 2 ^ (e + kScale))) as E.
      { rewrite <- !Z.pow_add_r by lia. f_equal. lia. }
      assert (1 <= 2 ^ (- e - 53)) by (apply (Z.pow_le_mono_r 2 0); lia).
      assert (0 < 2 ^ (e + kScale)) by (apply Z.pow_pos_nonneg; lia). nia.
    - destruct (Z.le_gt_cases e 0) as [|Hgt]; [done|exfalso].
      rewrite (Z.pow_add_r 2 e) in Hu by lia.
      assert (2 ^ 1 <= 2 ^ e) by (apply Z.pow_le_mono_r; lia). assert (2 ^ 52 <= Zpos m) by lia.
      assert (2 ^ 53 <= Zpos m * 2 ^ e) by nia. nia. }
  assert (2 ^ kScale = 2 ^ (- e) * 2 ^ (e + kScale)) as EP.
  { scale. rewrite <- Z.pow_add_r by lia. f_equal. lia. }
  assert (0 < 2 ^ (e + kScale)) as HT by (apply Z.pow_pos_nonneg; scale; lia).
  assert (1 <= 2 ^ (- e)) by (apply (Z.pow_le_mono_r 2 0); lia).
  assert (2 ^ (- e) <= Zpos m) as Hle.
  { destruct Hu as [Hu _]. rewrite EP in Hu. by apply Z.mul_le_mono_pos_r in Hu. }
  destruct (scaled_float (Zpos m - 2 ^ (- e)) e) as (g & Hg & Eg); [lia|lia|].
  assert (units g = Zpos m * 2 ^ (e + kScale) - 2 ^ kScale) as Ev by (rewrite Eg, EP; lia).
  rewrite <- Ev. clear EP.
  assert (rn (units g) 1 (dbl_sub (S754_finite false m e) (dbl 1))) as Hr;
    [|split; [apply Hr|]; apply (rn_exact (units g) 1); [lia|done|done|lia]].
  rewrite Ev. destruct (dbl 1) as [s|s| |s m1 e1]; try contradiction; [cbn [units] in E1; lia|].
  destruct C1 as (-> & H1 & He1 & _). unfold dbl_sub, SFsub. cbv zeta. cbn [cond_Zopp]. cbn [units] in E1.
  set (ez := Z.min e e1).
  pose proof (shl_align_units m e ez ltac:(lia) ltac:(scale; lia)) as Em.
  pose proof (shl_align_units m1 e1 ez ltac:(lia) ltac:(scale; lia)) as Em1.
  assert ((Zpos (shl_align m e ez).1 - Zpos (shl_align m1 e1 ez).1) * 2 ^ (ez + kScale) =
          Zpos m * 2 ^ (e + kScale) - 2 ^ kScale) as E by lia.
  assert (0 < 2 ^ (ez + kScale)) by (apply Z.pow_pos_nonneg; scale; lia).
  rewrite <- E. apply normalize_rn; [|scale; lia|].
  - destruct (Z.le_gt_cases 0 (Zpos (shl_align m e ez).1 - Zpos (shl_align m1 e1 ez).1)); [done|nia].
  - rewrite E. scale. rewrite (Z.pow_add_r 2 kScale) by lia.
    assert (2 ^ 53 < 2 ^ 900) by (apply Z.pow_lt_mono_r; lia). nia.
Qed.
