(* ===== verification/Text.v ===== *)
(** * Text: decimal output and the C number readers

    Text is a list of characters.  [dec] is the [%llu]/[%lld] conversion of
    [printf] and the [operator<<] of integers; [strtoul], [strtoll] and [stoi]
    are the readers of the C and C++ libraries in base 10, with their saturation
    and (for [stoi]) their exceptions, on 64-bit [long]. *)

From Stdlib Require Import ZArith Lia Ascii String.
From stdpp Require Import base list numbers option.
From S2P Require Import Prelude.

Local Open Scope Z_scope.

Abbreviation text := (list ascii) (only parsing).
Definition lit (s : string) : text := list_ascii_of_string s.

Definition digit_char (d : Z) : ascii := ascii_of_N (Z.to_N (48 + d)).
Definition char_code (c : ascii) : Z := Z.of_N (N_of_ascii c).
Definition is_digit (c : ascii) : bool := (48 <=? char_code c) && (char_code c <=? 57).

(** ** Printing *)

Fixpoint dec_go (fuel : nat) (n : Z) (acc : text) : text :=
  match fuel with
  | O => acc
  | S fuel =>
      let acc := digit_char (n mod 10) :: acc in
      if n / 10 =? 0 then acc else dec_go fuel (n / 10) acc
  end.

(** A number has at most as many decimal as binary digits. *)
Definition dec_nonneg (n : Z) : text := dec_go (S (Z.to_nat (Z.log2 n))) n [].

Definition dec (n : Z) : text :=
  if n <? 0 then "-"%char :: dec_nonneg (- n) else dec_nonneg n.

(** ** Reading *)

Definition is_space (c : ascii) : bool :=
  (char_code c =? 32) || ((9 <=? char_code c) && (char_code c <=? 13)).

Fixpoint skip_space (s : text) : text :=
  match s with c :: s' => if is_space c then skip_space s' else s | [] => [] end.

Definition read_sign (s : text) : bool * text :=
  match s with
  | "-"%char :: s => (true, s)
  | "+"%char :: s => (false, s)
  | _ => (false, s)
  end.

(** The digits at the front: the value, and whether there was one. *)
Fixpoint read_digits (s : text) (v : Z) (any : bool) : Z * bool :=
  match s with
  | c :: s => if is_digit c then read_digits s (v * 10 + (char_code c - 48)) true else (v, any)
  | [] => (v, any)
  end.

(** Sign, magnitude, and whether a number was found. *)
Definition read_number (s : text) : bool * Z * bool :=
  let '(neg, s) := read_sign (skip_space s) in
  let '(v, any) := read_digits s 0 false in (neg, v, any).

Definition strtoul (s : text) : Z :=
  let '(neg, v, _) := read_number s in
  if v >? 2 ^ 64 - 1 then 2 ^ 64 - 1 else if neg then u64 (- v) else v.

Definition strtoll (s : text) : Z :=
  let '(neg, v, _) := read_number s in
  Z.max (- 2 ^ 63) (Z.min (2 ^ 63 - 1) (if neg then - v else v)).

(** [None] is [std::invalid_argument] or [std::out_of_range]. *)
Definition stol (s : text) : option Z :=
  let '(neg, v, any) := read_number s in
  let z := if neg then - v else v in
  if any && bool_decide (in_s 64 z) then Some z else None.

Definition stoi (s : text) : option Z :=
  z ← stol s; if bool_decide (in_s 32 z) then Some z else None.

(** ** Reading back what was printed *)

Lemma digit_char_code d : 0 <= d < 10 -> char_code (digit_char d) = 48 + d.
Proof.
  intros Hd. unfold char_code, digit_char. rewrite N_ascii_embedding by lia. lia.
Qed.

Lemma digit_char_is_digit d : 0 <= d < 10 -> is_digit (digit_char d) = true.
Proof.
  intros Hd. unfold is_digit. rewrite digit_char_code by done.
  rewrite (proj2 (Z.leb_le _ _)), (proj2 (Z.leb_le _ _)) by lia. done.
Qed.

Definition all_digits (s : text) : Prop := Forall (fun c => is_digit c = true) s.

Lemma read_digit d s v any :
  0 <= d < 10 -> read_digits (digit_char d :: s) v any = read_digits s (v * 10 + d) true.
Proof.
  intros Hd. cbn [read_digits]. rewrite digit_char_is_digit, digit_char_code by done. f_equal. lia.
Qed.

(** [dec_go] puts the digits of [n] in front of [acc]. *)
Lemma dec_go_spec fuel n acc :
  0 <= n < 2 ^ Z.of_nat fuel -> fuel <> O ->
  exists ds, dec_go fuel n acc = ds ++ acc /\ all_digits ds /\ ds <> [] /\
    forall v any s, read_digits (ds ++ s) v any =
      read_digits s (v * 10 ^ Z.of_nat (length ds) + n) true.
Proof.
  revert n acc. induction fuel as [|fuel IH]; intros n acc Hn Hf; [done|]. cbn [dec_go].
  pose proof (Z.mod_pos_bound n 10 ltac:(lia)) as Hd. pose proof (Z.div_mod n 10 ltac:(lia)) as Hdm.
  case_if.
  - exists [digit_char (n mod 10)]. split_and!; [done| |done|].
    + constructor; [by apply digit_char_is_digit|constructor].
    + intros v any s. cbn [app]. rewrite read_digit by done. f_equal. simpl. lia.
  - rewrite Nat2Z.inj_succ, Z.pow_succ_r in Hn by lia.
    assert (0 <= n / 10) by (apply Z.div_pos; lia).
    destruct (IH (n / 10) (digit_char (n mod 10) :: acc)) as (ds & -> & Hall & Hne & Hread).
    { lia. } { intros ->. simpl in Hn. lia. }
    exists (ds ++ [digit_char (n mod 10)]). rewrite <- app_assoc. split_and!; [done| | |].
    + apply Forall_app. split; [done|]. constructor; [by apply digit_char_is_digit|constructor].
    + by destruct ds.
    + intros v any s. rewrite <- app_assoc, Hread. cbn [app]. rewrite read_digit by done. f_equal.
      rewrite length_app, Nat2Z.inj_add, Z.pow_add_r by lia. simpl. lia.
Qed.

(** What may follow a number in a row of fields. *)
Definition ends_number (s : text) : Prop := match s with c :: _ => is_digit c = false | [] => True end.

Lemma dec_nonneg_spec n :
  0 <= n -> all_digits (dec_nonneg n) /\ dec_nonneg n <> [] /\
  forall s, ends_number s -> read_digits (dec_nonneg n ++ s) 0 false = (n, true).
Proof.
  intros Hn. unfold dec_nonneg. destruct (dec_go_spec (S (Z.to_nat (Z.log2 n))) n []) as (ds & -> & H1 & H2 & H3).
  - split; [done|]. destruct (decide (n = 0)) as [->|]; [done|].
    rewrite Nat2Z.inj_succ, Z2Nat.id by apply Z.log2_nonneg. apply Z.log2_spec. lia.
  - done.
  - rewrite app_nil_r. split_and!; [done..|]. intros s Hs. rewrite H3. destruct s as [|c s]; [done|].
    simpl in Hs. cbn [read_digits]. by rewrite Hs.
Qed.

Lemma digit_no_space c : is_digit c = true -> is_space c = false /\ c <> "-"%char /\ c <> "+"%char.
Proof.
  unfold is_digit, is_space. intros H. bool_arith. split.
  - apply orb_false_iff. split; [apply Z.eqb_neq; lia|]. apply andb_false_iff. right.
    apply Z.leb_gt. lia.
  - split; intros ->; vm_compute in H; by destruct H.
Qed.

Lemma read_number_dec n s :
  ends_number s -> read_number (dec n ++ s) = (n <? 0, Z.abs n, true).
Proof.
  intros Hs. unfold read_number, dec. case_if.
  - destruct (dec_nonneg_spec (- n) ltac:(lia)) as (_ & _ & H). cbn [app skip_space].
    change (is_space "-") with false. cbn [read_sign]. rewrite H by done. by rewrite Z.abs_neq by lia.
  - destruct (dec_nonneg_spec n ltac:(lia)) as (Hall & Hne & H). specialize (H s Hs).
    destruct (dec_nonneg n) as [|c ds] eqn:E; [done|]. apply Forall_cons_1 in Hall as [Hc _].
    apply digit_no_space in Hc as (Hsp & Hm & Hp). cbn [app skip_space]. rewrite Hsp.
    assert (forall r, read_sign (c :: r) = (false, c :: r)) as ->.
    { intros r. unfold read_sign. destruct c as [[] [] [] [] [] [] [] []]; done. }
    cbn [app] in H. rewrite H. by rewrite Z.abs_eq by lia.
Qed.

Lemma strtoul_dec n s : 0 <= n < 2 ^ 64 -> ends_number s -> strtoul (dec n ++ s) = n.
Proof.
  intros Hn Hs. unfold strtoul. rewrite read_number_dec by done.
  rewrite Z.gtb_ltb, (proj2 (Z.ltb_ge _ _)), (proj2 (Z.ltb_ge _ _)) by lia. lia.
Qed.

Lemma strtoll_dec n s : in_s 64 n -> ends_number s -> strtoll (dec n ++ s) = n.
Proof.
  intros Hn Hs. unfold strtoll. rewrite read_number_dec by done. unfold in_s in Hn. simpl in Hn. case_if; lia.
Qed.

Lemma stoi_dec n s : in_s 32 n -> ends_number s -> stoi (dec n ++ s) = Some n.
Proof.
  intros Hn Hs. unfold stoi, stol. rewrite read_number_dec by done. simpl.
  assert ((if n <? 0 then - Z.abs n else Z.abs n) = n) as -> by (case_if; lia).
  rewrite bool_decide_true by ranges. simpl. by rewrite bool_decide_true.
Qed.

(** A printed number contains none of the separators of the formats. *)
Lemma dec_chars n c : c ∈ dec n -> is_digit c = true \/ c = "-"%char.
Proof.
  unfold dec. case_if.
  - destruct (dec_nonneg_spec (- n) ltac:(lia)) as (Hall & _). intros Hc.
    apply elem_of_cons in Hc as [->|Hc]; [by right|]. left.
    unfold all_digits in Hall. rewrite Forall_forall in Hall. by apply Hall, list_elem_of_In.
  - destruct (dec_nonneg_spec n ltac:(lia)) as (Hall & _). intros Hc. left.
    unfold all_digits in Hall. rewrite Forall_forall in Hall. by apply Hall, list_elem_of_In.
Qed.

Lemma dec_nonempty n : dec n <> [].
Proof. unfold dec. case_if; [done|]. apply dec_nonneg_spec. lia. Qed.

(** ** Separators *)

(** The pieces between the separators; there is always at least one. *)
Fixpoint split_on (sep : ascii) (s : text) : list text :=
  match s with
  | [] => [[]]
  | c :: s =>
      if bool_decide (c = sep) then [] :: split_on sep s
      else match split_on sep s with [] => [[c]] | p :: ps => (c :: p) :: ps end
  end.

Lemma split_on_none sep a : sep ∉ a -> split_on sep a = [a].
Proof.
  induction a as [|c a IH]; intros Hn; [done|]. apply not_elem_of_cons in Hn as [Hc Ha].
  cbn [split_on]. rewrite bool_decide_false by done. by rewrite IH.
Qed.

Lemma split_on_app sep a b : sep ∉ a -> split_on sep (a ++ sep :: b) = a :: split_on sep b.
Proof.
  induction a as [|c a IH]; intros Hn; cbn [app split_on]; [by rewrite bool_decide_true|].
  apply not_elem_of_cons in Hn as [Hc Ha]. rewrite bool_decide_false by done. by rewrite IH.
Qed.

(** Records that each end with the separator. *)
Lemma split_on_lines {A} sep (f : A -> text) (l : list A) :
  (forall x, x ∈ l -> sep ∉ f x) ->
  split_on sep (concat ((fun x => f x ++ [sep]) <$> l)) = (f <$> l) ++ [[]].
Proof.
  induction l as [|x l IH]; intros H; [done|]. cbn. rewrite <- app_assoc. cbn [app].
  rewrite split_on_app by (apply H; by left). f_equal. apply IH. intros y ?. apply H. by right.
Qed.

(** Pieces that each start with the separator. *)
Lemma split_on_prefixed sep a (ps : list text) :
  sep ∉ a -> Forall (fun p => sep ∉ p) ps ->
  split_on sep (a ++ concat ((fun p => sep :: p) <$> ps)) = a :: ps.
Proof.
  intros Ha Hps. revert a Ha. induction Hps as [|p ps Hp _ IH]; intros a Ha; cbn.
  - rewrite app_nil_r. by apply split_on_none.
  - rewrite split_on_app by done. f_equal. by apply IH.
Qed.

Lemma dec_no_sep n sep : is_digit sep = false -> sep <> "-"%char -> sep ∉ dec n.
Proof. intros Hd Hm Hin. apply dec_chars in Hin as [?|?]; [congruence|done]. Qed.

Example dec_examples :
  (dec 0, dec 1234, dec (-70)) = (lit "0", lit "1234", lit "-70") /\
  (strtoul (lit " 42,7"), strtoll (lit "-5"), stoi (lit "x")) = (42, -5, None).
Proof. vm_compute. done. Qed.
