(* ===== verification/OrderTable.v ===== *)
(** * The order table of the book (src/order_book/order_book.hpp)

    The pre-allocated open-addressing hash table [order_no -> record] with
    linear probing and backward-shift deletion: [Hash], [FindOrder],
    [InsertOrder] and [EraseOrder] as they are written, and their refinement of
    a finite map.

    A table is the vector [orders_] as a list of [order_mask_ + 1] records.
    [FindOrder] and [InsertOrder] run a [for] loop of [order_mask_ + 1] probes,
    which is their structural bound.  The shift loop of [EraseOrder] is a
    [while] with no bound of its own: it takes fuel, and the theorems say both
    when [order_mask_ + 1] rounds are enough and when no amount is. *)

From Stdlib Require Import ZArith Lia.
From stdpp Require Import base gmap list numbers.
From S2P Require Import Prelude Types.

Record OrderRecord := {
  r_order_no : Z;
  r_price : Price;
  r_qty : Quantity;
  r_side : Side;
  r_occupied : bool;
}.

Definition empty_record : OrderRecord :=
  {| r_order_no := 0; r_price := 0; r_qty := 0; r_side := kBuy; r_occupied := false |}.

#[global] Instance OrderRecord_inhabited : Inhabited OrderRecord := populate empty_record.
#[global] Instance OrderRecord_eq_dec : EqDecision OrderRecord.
Proof. solve_decision. Defined.

Definition set_occupied (b : bool) (r : OrderRecord) : OrderRecord :=
  {| r_order_no := r_order_no r; r_price := r_price r; r_qty := r_qty r;
     r_side := r_side r; r_occupied := b |}.

Abbreviation table := (list OrderRecord) (only parsing).

(** The smallest power of two that is at least [v] ([while (p < v) p <<= 1]);
    [v] doublings are always enough. *)
Fixpoint round_up_loop (fuel p v : nat) : nat :=
  match fuel with
  | 0 => p
  | S n => if p <? v then round_up_loop n (2 * p) v else p
  end.

(** On unbounded numbers: the [size_t] product wraps only above 2^63 slots, which no
    allocation reaches. *)
Definition RoundUpPow2 (v : nat) : nat := round_up_loop v 1 v.

(** Fibonacci hashing of the 64-bit order number. *)
Definition Hash (mask : nat) (order_no : Z) : nat :=
  let x := u64 order_no in
  let x := u64 (x * 0x9E3779B97F4A7C15) in
  Z.to_nat (Z.land (Z.shiftr x 40) (Z.of_nat mask)).

Definition probe_next (mask idx : nat) : nat := Nat.land (idx + 1) mask.

(** [FindOrder]: the index of the record the returned pointer designates. *)
Fixpoint find_probe (fuel : nat) (t : table) (mask idx : nat) (order_no : Z) : option nat :=
  match fuel with
  | 0 => None
  | S n =>
      let r := t !!! idx in
      if negb (r_occupied r) then None
      else if (r_order_no r =? order_no)%Z then Some idx
      else find_probe n t mask (probe_next mask idx) order_no
  end.

Definition FindOrder (t : table) (mask : nat) (order_no : Z) : option nat :=
  find_probe (mask + 1) t mask (Hash mask order_no) order_no.

(** [InsertOrder]: [None] is [return false] (table full, nothing written). *)
Fixpoint insert_probe (fuel : nat) (t : table) (mask idx : nat) (rec : OrderRecord)
    : option table :=
  match fuel with
  | 0 => None
  | S n =>
      let r := t !!! idx in
      if negb (r_occupied r) then Some (<[idx := set_occupied true rec]> t)
      else if (r_order_no r =? r_order_no rec)%Z
           then Some (<[idx := set_occupied true rec]> t)
      else insert_probe n t mask (probe_next mask idx) rec
  end.

Definition InsertOrder (t : table) (mask : nat) (rec : OrderRecord) : option table :=
  insert_probe (mask + 1) t mask (Hash mask (r_order_no rec)) rec.

(** The test that [orders_[next]] may move back into [hole]. *)
Definition can_move (hole next home : nat) : bool :=
  if hole <=? next
  then negb ((hole <? home) && (home <=? next))
  else negb ((hole <? home) || (home <=? next)).

(** The backward-shift [while] loop; [None] is "still running when the fuel is
    spent". *)
Fixpoint shift_loop (fuel : nat) (t : table) (mask hole next : nat) : option table :=
  match fuel with
  | 0 => None
  | S n =>
      if r_occupied (t !!! next) then
        let home := Hash mask (r_order_no (t !!! next)) in
        if can_move hole next home
        then shift_loop n (<[hole := t !!! next]> t) mask next (probe_next mask next)
        else shift_loop n t mask hole (probe_next mask next)
      else Some (<[hole := set_occupied false (t !!! hole)]> t)
  end.

(** [EraseOrder] with [fuel] rounds for its [while] loop.  Its first loop is
    the probe of [FindOrder]. *)
Definition EraseOrder_fuel (fuel : nat) (t : table) (mask : nat) (order_no : Z)
    : option table :=
  match find_probe (mask + 1) t mask (Hash mask order_no) order_no with
  | None => Some t
  | Some found => shift_loop fuel t mask found (probe_next mask found)
  end.

Definition EraseOrder (t : table) (mask : nat) (order_no : Z) : option table :=
  EraseOrder_fuel (mask + 1) t mask order_no.

(** ** The abstract order store: a finite map *)

(** What the book keeps about a resting order. *)
Record Resting := { rs_price : Price; rs_qty : Quantity; rs_side : Side }.

#[global] Instance Resting_eq_dec : EqDecision Resting.
Proof. solve_decision. Defined.

Definition resting_of (r : OrderRecord) : Resting :=
  {| rs_price := r_price r; rs_qty := r_qty r; rs_side := r_side r |}.

(** Slot [i] of [t] holds the live record [r]. *)
Definition holds (t : table) (i : nat) (r : OrderRecord) : Prop :=
  t !! i = Some r /\ r_occupied r = true.

Definition table_repr (t : table) (m : gmap Z Resting) : Prop :=
  forall k v, m !! k = Some v <-> exists i r, holds t i r /\ r_order_no r = k /\ resting_of r = v.

(** Steps from [a] to [b] going forward around a table of [n] slots. *)
Definition dist (n a b : nat) : nat := if a <=? b then b - a else b + n - a.

(** Well-formedness: a power-of-two size, distinct live order numbers, and no
    free slot between the home of a live record and its slot. *)
Record table_ok (t : table) (mask : nat) : Prop := {
  ok_mask : exists k, mask + 1 = 2 ^ k;
  ok_length : length t = mask + 1;
  ok_distinct : forall i j r s, holds t i r -> holds t j s -> r_order_no r = r_order_no s -> i = j;
  ok_path : forall i r s, holds t i r -> s < mask + 1 ->
      dist (mask + 1) (Hash mask (r_order_no r)) s < dist (mask + 1) (Hash mask (r_order_no r)) i ->
      r_occupied (t !!! s) = true;
}.

Definition has_free (t : table) : Prop := exists i r, t !! i = Some r /\ r_occupied r = false.

(** ** Arithmetic of the probe sequence *)

Lemma round_up_loop_spec fuel p v k :
  p = 2 ^ k -> (v <= p + fuel)%nat ->
  exists k', round_up_loop fuel p v = 2 ^ k' /\ v <= 2 ^ k'.
Proof.
  revert p k. induction fuel as [|n IH]; intros p k Hp Hv; simpl.
  { exists k. split; lia. }
  case_if; [|exists k; split; lia].
  apply (IH _ (S k)); [simpl; lia|].
  assert (0 < p) by (subst; apply Nat.neq_0_lt_0, Nat.pow_nonzero; lia). lia.
Qed.

Lemma RoundUpPow2_spec v : exists k, RoundUpPow2 v = 2 ^ k /\ v <= 2 ^ k.
Proof. apply (round_up_loop_spec _ _ _ 0); simpl; lia. Qed.

Lemma Hash_le mask k : Hash mask k <= mask.
Proof.
  unfold Hash. set (x := Z.shiftr _ _).
  assert (0 <= x)%Z.
  { subst x. apply Z.shiftr_nonneg. pose proof (wrap_u_range 64 (u64 k * 0x9E3779B97F4A7C15)).
    unfold in_u in *. lia. }
  assert (Z.land x (Z.of_nat mask) <= Z.of_nat mask)%Z.
  { rewrite <- (Z2N.id x) by done. rewrite <- (nat_N_Z mask), <- N2Z.inj_land.
    apply N2Z.inj_le, N.land_le_r. }
  lia.
Qed.

Lemma probe_next_eq mask i :
  (exists k, mask + 1 = 2 ^ k) -> i < mask + 1 ->
  probe_next mask i = if i + 1 =? mask + 1 then 0 else i + 1.
Proof.
  intros [k Hk] Hi. unfold probe_next.
  replace mask with (2 ^ k - 1) at 1 by lia.
  replace (2 ^ k - 1) with (Nat.ones k) by (rewrite Nat.ones_equiv; lia).
  rewrite Nat.land_ones, <- Hk.
  case_if; [subst|].
  - replace (i + 1) with (mask + 1) by lia. apply Nat.Div0.mod_same.
  - apply Nat.mod_small. lia.
Qed.

Ltac dist_solve :=
  repeat match goal with H : _ \/ _ |- _ => destruct H; bool_arith end;
  unfold dist in *; repeat case_if;
  repeat match goal with
  | H : context [if ?b then _ else _] |- _ =>
      lazymatch type of b with bool => destruct b eqn:? end; bool_arith
  end; lia.

(** [can_move] asks whether [hole] lies on the probe path of [next]. *)
Lemma can_move_spec n hole next home :
  hole < n -> next < n -> home < n -> hole <> next ->
  can_move hole next home = true <-> dist n home hole < dist n home next.
Proof.
  intros. unfold can_move. split.
  - intros Hc. case_if_in Hc; dist_solve.
  - intros Hd. destruct (hole <=? next) eqn:?; bool_arith;
    apply negb_true_iff; try apply andb_false_iff; try apply orb_false_iff;
    rewrite ?Nat.ltb_ge, ?Nat.leb_gt; dist_solve.
Qed.

Section Probing.
Context (mask : nat) (Hpow : exists k, mask + 1 = 2 ^ k).

Lemma probe_next_lt i : i < mask + 1 -> probe_next mask i < mask + 1.
Proof. intros. rewrite probe_next_eq by done. case_if; lia. Qed.

Lemma dist_next h i :
  h < mask + 1 -> i < mask + 1 -> dist (mask + 1) h i < mask ->
  dist (mask + 1) h (probe_next mask i) = S (dist (mask + 1) h i).
Proof. intros. rewrite probe_next_eq by done. dist_solve. Qed.

(** Slots strictly before [b] on the path that starts at home [h]. *)
Definition before (h b : nat) (P : nat -> Prop) : Prop :=
  forall s, s < mask + 1 -> dist (mask + 1) h s < dist (mask + 1) h b -> P s.

Lemma before_next h i (P : nat -> Prop) :
  h < mask + 1 -> i < mask + 1 -> dist (mask + 1) h i < mask ->
  before h i P -> P i -> before h (probe_next mask i) P.
Proof.
  intros Hh Hi Hd Hb HP s Hs. rewrite dist_next by done. intros Hlt.
  destruct (decide (s = i)) as [->|Hne]; [done|].
  apply Hb; [done|]. assert (dist (mask + 1) h s <> dist (mask + 1) h i); dist_solve.
Qed.

Lemma before_all h i (P : nat -> Prop) :
  h < mask + 1 -> i < mask + 1 -> mask <= dist (mask + 1) h i ->
  before h i P -> P i -> forall s, s < mask + 1 -> P s.
Proof.
  intros Hh Hi Hd Hb HP s Hs.
  destruct (decide (s = i)) as [->|Hne]; [done|].
  apply Hb; [done|]. dist_solve.
Qed.

(** The slot is live and holds another key. *)
Definition busy (t : table) (k : Z) (s : nat) : Prop :=
  r_occupied (t !!! s) = true /\ r_order_no (t !!! s) <> k.

Lemma find_probe_spec t k h fuel idx :
  h < mask + 1 -> idx < mask + 1 -> fuel + dist (mask + 1) h idx = mask + 1 ->
  before h idx (busy t k) ->
  match find_probe fuel t mask idx k with
  | Some i => i < mask + 1 /\ r_occupied (t !!! i) = true /\ r_order_no (t !!! i) = k
  | None => (exists e, e < mask + 1 /\ r_occupied (t !!! e) = false /\ before h e (busy t k))
            \/ (forall s, s < mask + 1 -> busy t k s)
  end.
Proof.
  intros Hh. revert idx. induction fuel as [|n IH]; intros idx Hi Hf Hb; simpl.
  { exfalso. dist_solve. }
  case_if; [left; by eauto|]. case_if; [done|].
  assert (busy t k idx) by done.
  destruct (decide (dist (mask + 1) h idx < mask)).
  - apply IH; [by apply probe_next_lt| |by apply before_next].
    rewrite dist_next by done. lia.
  - replace n with 0 by lia. simpl. right. apply (before_all h idx); [done..|lia|done|done].
Qed.

Lemma insert_probe_spec t rec h fuel idx :
  h < mask + 1 -> idx < mask + 1 -> fuel + dist (mask + 1) h idx = mask + 1 ->
  before h idx (busy t (r_order_no rec)) ->
  match insert_probe fuel t mask idx rec with
  | Some t' => exists e, e < mask + 1 /\ t' = <[e := set_occupied true rec]> t /\
      before h e (busy t (r_order_no rec)) /\
      (r_occupied (t !!! e) = false \/ r_order_no (t !!! e) = r_order_no rec)
  | None => forall s, s < mask + 1 -> busy t (r_order_no rec) s
  end.
Proof.
  intros Hh. revert idx. induction fuel as [|n IH]; intros idx Hi Hf Hb; simpl.
  { exfalso. dist_solve. }
  case_if; [by eauto 10|]. case_if; [by eauto 10|].
  assert (busy t (r_order_no rec) idx) by done.
  destruct (decide (dist (mask + 1) h idx < mask)).
  - apply IH; [by apply probe_next_lt| |by apply before_next].
    rewrite dist_next by done. lia.
  - replace n with 0 by lia. simpl. apply (before_all h idx); [done..|lia|done|done].
Qed.

Lemma dist_self h : dist (mask + 1) h h = 0.
Proof. dist_solve. Qed.

Lemma before_self h P : before h h P.
Proof. intros s _. rewrite dist_self. lia. Qed.
End Probing.

(** ** Slots, live records and their number *)

Lemma holds_total t i r :
  holds t i r <-> i < length t /\ t !!! i = r /\ r_occupied r = true.
Proof.
  unfold holds. split.
  - intros [H Ho]. split_and!; [by eapply lookup_lt_Some|by apply lookup_total_eq|done].
  - intros (Hi & <- & Ho). split; [by apply lookup_of_total|done].
Qed.

Lemma holds_insert t e x i r :
  e < length t ->
  holds (<[e := x]> t) i r <->
  (i = e /\ r = x /\ r_occupied x = true) \/ (i <> e /\ holds t i r).
Proof.
  intros He. unfold holds. destruct (decide (i = e)) as [->|Hne].
  - rewrite list_lookup_insert_eq by done. naive_solver.
  - rewrite list_lookup_insert_ne by done. naive_solver.
Qed.

Lemma set_occupied_id r : r_occupied r = true -> set_occupied true r = r.
Proof. destruct r; simpl. by intros ->. Qed.

Definition live (t : table) : list (Z * Resting) :=
  omap (fun r => if r_occupied r then Some (r_order_no r, resting_of r) else None) t.

Lemma live_cons r t :
  live (r :: t) = if r_occupied r then (r_order_no r, resting_of r) :: live t else live t.
Proof. unfold live. simpl. by destruct (r_occupied r). Qed.

Lemma live_elem t k v :
  (k, v) ∈ live t <-> exists i r, holds t i r /\ r_order_no r = k /\ resting_of r = v.
Proof.
  unfold live, holds. rewrite list_elem_of_omap. split.
  - intros (r & Hr & Heq). case_if_in Heq; simplify_eq.
    apply list_elem_of_lookup in Hr as [i Hi]. eauto 10.
  - intros (i & r & [Hi Ho] & <- & <-). exists r. rewrite Ho. split; [|done].
    apply list_elem_of_lookup. eauto.
Qed.

Lemma live_NoDup t :
  (forall i j r s, holds t i r -> holds t j s -> r_order_no r = r_order_no s -> i = j) ->
  NoDup (live t).*1.
Proof.
  induction t as [|r t IH]; intros Hd; [constructor|].
  assert (NoDup (live t).*1) as Hrest.
  { apply IH. intros i j x y [Hi Hx] [Hj Hy] Hk.
    cut (S i = S j); [lia|]. eapply Hd; [split..|done]; [exact Hi|done|exact Hj|done]. }
  rewrite live_cons. case_if; [|done]. simpl. constructor; [|done].
  intros Hin. apply list_elem_of_fmap in Hin as ([k v] & Hk & Hin). simpl in Hk.
  apply live_elem in Hin as (i & x & [Hi Hx] & Hkx & _).
  assert (0 = S i); [|lia]. eapply Hd; [split..|]; [done|done|exact Hi|done|congruence].
Qed.

Lemma live_length t : length (live t) <= length t.
Proof. induction t as [|r t IH]; [done|]. rewrite live_cons. case_if; simpl; lia. Qed.

Lemma live_full t : ~ has_free t <-> length (live t) = length t.
Proof.
  unfold has_free. induction t as [|r t IH].
  { split; [done|]. intros _ (i & r & Hi & _). done. }
  rewrite live_cons. split.
  - intros Hn. destruct (r_occupied r) eqn:Hr.
    + simpl. f_equal. apply IH. intros (i & x & Hi & Hx). apply Hn. by exists (S i), x.
    + destruct Hn. by exists 0, r.
  - intros Hl (i & x & Hi & Hx). destruct (r_occupied r) eqn:Hr.
    + simpl in Hl. destruct i as [|i]; simpl in Hi; [simplify_eq; congruence|].
      apply IH; [lia|]. eauto.
    + pose proof (live_length t). simpl in Hl. lia.
Qed.

Lemma table_repr_live t mask m :
  table_ok t mask -> table_repr t m -> m = list_to_map (live t).
Proof.
  intros Hok Hr. apply map_eq. intros k. apply option_eq. intros v.
  rewrite (Hr k v), <- live_elem. apply elem_of_list_to_map.
  apply live_NoDup, (ok_distinct _ _ Hok).
Qed.

(** The table has room exactly when fewer than [order_mask_ + 1] orders rest. *)
Lemma has_free_size t mask m :
  table_ok t mask -> table_repr t m -> has_free t <-> size m < mask + 1.
Proof.
  intros Hok Hr.
  assert (size m = length (live t)) as ->.
  { rewrite (table_repr_live t mask m) by done.
    apply map_size_list_to_map, live_NoDup, (ok_distinct _ _ Hok). }
  rewrite <- (ok_length _ _ Hok).
  pose proof (live_length t). pose proof (live_full t) as Hf.
  split.
  - intros Hfree. assert (length (live t) <> length t); [|lia]. tauto.
  - intros Hlt. assert (~ ~ has_free t) as Hnn by (intros Hc; apply Hf in Hc; lia).
    clear -Hnn. induction t as [|r t IH].
    { destruct Hnn. intros (i & r & Hi & _). done. }
    destruct (r_occupied r) eqn:Ho; [|by exists 0, r].
    destruct IH as (i & x & Hi & Hx); [|by exists (S i), x].
    intros Hc. apply Hnn. intros ([|i] & x & Hi & Hx); simpl in Hi; [simplify_eq; congruence|].
    apply Hc. by exists i, x.
Qed.

(** ** The empty table *)

Lemma table_ok_empty mask :
  (exists k, mask + 1 = 2 ^ k) -> table_ok (replicate (mask + 1) empty_record) mask.
Proof.
  intros Hp.
  assert (forall i r, ~ holds (replicate (mask + 1) empty_record) i r) as Hno.
  { intros i r [Hi Ho]. apply lookup_replicate in Hi as [-> _]. done. }
  split; [done|apply length_replicate| |].
  - intros i j r s Hi. by destruct (Hno i r).
  - intros i r s Hi. by destruct (Hno i r).
Qed.

Lemma table_repr_empty mask : table_repr (replicate (mask + 1) empty_record) ∅.
Proof.
  intros k v. rewrite lookup_empty. split; [done|].
  intros (i & r & [Hi Ho] & _). apply lookup_replicate in Hi as [-> _]. done.
Qed.

(** ** Writing one slot *)

Section PutSlot.
Context (t : table) (mask : nat) (m : gmap Z Resting).
Context (Hok : table_ok t mask) (Hr : table_repr t m).

Lemma put_slot e rec :
  e < mask + 1 -> r_occupied rec = true ->
  (r_occupied (t !!! e) = false \/ r_order_no (t !!! e) = r_order_no rec) ->
  (forall j r, holds t j r -> r_order_no r = r_order_no rec -> j = e) ->
  (forall s, s < mask + 1 ->
     dist (mask + 1) (Hash mask (r_order_no rec)) s <
     dist (mask + 1) (Hash mask (r_order_no rec)) e -> r_occupied (t !!! s) = true) ->
  table_ok (<[e := rec]> t) mask /\
  table_repr (<[e := rec]> t) (<[r_order_no rec := resting_of rec]> m).
Proof.
  intros He Ho Hslot Huniq Hpath.
  pose proof (ok_length _ _ Hok) as Hlen.
  assert (e < length t) as He' by lia.
  assert (forall s, r_occupied (t !!! s) = true -> r_occupied (<[e:=rec]> t !!! s) = true) as Hocc.
  { intros s Hs. destruct (decide (s = e)) as [->|].
    - by rewrite list_lookup_total_insert_eq.
    - by rewrite list_lookup_total_insert_ne. }
  split.
  - split; [apply Hok|by rewrite length_insert| |].
    + intros i j r s. rewrite !holds_insert by done.
      intros [(-> & -> & _)|[Hi Hhi]] [(-> & -> & _)|[Hj Hhj]] Hk; [done|..].
      * symmetry. by eapply Huniq.
      * by eapply Huniq.
      * by eapply (ok_distinct _ _ Hok).
    + intros i r s. rewrite holds_insert by done. intros [(-> & -> & _)|[Hi Hhi]] Hs Hd.
      * by apply Hocc, Hpath.
      * by eapply Hocc, (ok_path _ _ Hok).
  - intros k v. setoid_rewrite holds_insert; [|done..].
    destruct (decide (k = r_order_no rec)) as [->|Hne].
    + rewrite lookup_insert_eq. split.
      * intros [= <-]. exists e, rec. naive_solver.
      * intros (i & r & [(-> & -> & _)|[Hi Hh]] & Hk & Hv); [by subst|].
        by destruct Hi; eapply Huniq.
    + rewrite lookup_insert_ne by done. rewrite (Hr k v). split.
      * intros (i & r & Hh & Hk & Hv). exists i, r. split_and!; [|done..].
        right. split; [|done]. intros ->. apply holds_total in Hh as (_ & <- & Hx).
        destruct Hslot; congruence.
      * intros (i & r & [(-> & -> & _)|[Hi Hh]] & Hk & Hv); [congruence|]. eauto.
Qed.
End PutSlot.

(** ** Lookup *)

Section Lookup.
Context (t : table) (mask : nat) (Hok : table_ok t mask).

Lemma home_lt k : Hash mask k < mask + 1.
Proof. pose proof (Hash_le mask k). lia. Qed.

Lemma find_Some_holds k i :
  FindOrder t mask k = Some i -> holds t i (t !!! i) /\ r_order_no (t !!! i) = k.
Proof.
  intros Hf. pose proof (home_lt k) as Hh.
  pose proof (find_probe_spec mask (ok_mask _ _ Hok) t k (Hash mask k) (mask + 1)
                (Hash mask k) Hh Hh ltac:(rewrite dist_self; lia) (before_self _ _ _)) as H.
  unfold FindOrder in Hf. rewrite Hf in H. destruct H as (Hi & Ho & Hk).
  rewrite holds_total, (ok_length _ _ Hok). done.
Qed.

Lemma find_None_absent k i r :
  FindOrder t mask k = None -> holds t i r -> r_order_no r <> k.
Proof.
  intros Hf Hh Hk. pose proof (home_lt k) as Hhome.
  pose proof (find_probe_spec mask (ok_mask _ _ Hok) t k (Hash mask k) (mask + 1)
                (Hash mask k) Hhome Hhome ltac:(rewrite dist_self; lia) (before_self _ _ _)) as H.
  unfold FindOrder in Hf. rewrite Hf in H.
  pose proof Hh as (Hi & Ht & Ho)%holds_total. rewrite (ok_length _ _ Hok) in Hi.
  destruct H as [(e & He & Hfree & Hb)|Hall].
  - pose proof (ok_path _ _ Hok i r e Hh He) as Hp. rewrite Hk in Hp.
    destruct (decide (dist (mask + 1) (Hash mask k) e < dist (mask + 1) (Hash mask k) i)).
    { rewrite Hp in Hfree; done. }
    assert (i = e \/ dist (mask + 1) (Hash mask k) i < dist (mask + 1) (Hash mask k) e)
      as [->|Hlt] by dist_solve.
    + congruence.
    + destruct (Hb i Hi Hlt). congruence.
  - destruct (Hall i Hi). congruence.
Qed.

Lemma find_holds k i r : holds t i r -> r_order_no r = k -> FindOrder t mask k = Some i.
Proof.
  intros Hh Hk. destruct (FindOrder t mask k) as [j|] eqn:Hf.
  - apply find_Some_holds in Hf as [Hj Hjk]. f_equal.
    eapply (ok_distinct _ _ Hok); eauto. congruence.
  - by destruct (find_None_absent k i r Hf Hh).
Qed.

(** [FindOrder] is the lookup of the abstract store. *)
Lemma FindOrder_lookup m k :
  table_repr t m -> (fun i => resting_of (t !!! i)) <$> FindOrder t mask k = m !! k.
Proof.
  intros Hr. destruct (FindOrder t mask k) as [i|] eqn:Hf; simpl.
  - apply find_Some_holds in Hf as [Hh Hk]. symmetry. apply Hr. eauto.
  - symmetry. apply eq_None_not_Some. intros [v Hv].
    apply Hr in Hv as (i & r & Hh & Hk & _). by eapply find_None_absent.
Qed.

(** Rewriting the price and quantity of a found record in place. *)
Lemma update_found m k i rec :
  table_repr t m -> FindOrder t mask k = Some i ->
  r_occupied rec = true -> r_order_no rec = k ->
  table_ok (<[i := rec]> t) mask /\ table_repr (<[i := rec]> t) (<[k := resting_of rec]> m).
Proof.
  intros Hr Hf Ho <-. apply find_Some_holds in Hf as [Hh Hk].
  pose proof Hh as (Hi & _ & Hocc)%holds_total. rewrite (ok_length _ _ Hok) in Hi.
  apply put_slot; [done..|by right| |].
  - intros j r Hj Hjk. eapply (ok_distinct _ _ Hok); eauto. congruence.
  - intros s Hs Hd. eapply (ok_path _ _ Hok); eauto. by rewrite Hk.
Qed.

Lemma InsertOrder_cases m rec :
  table_repr t m ->
  match InsertOrder t mask rec with
  | Some t' => table_ok t' mask /\ table_repr t' (<[r_order_no rec := resting_of rec]> m)
  | None => m !! r_order_no rec = None /\ ~ has_free t
  end.
Proof.
  intros Hr. set (k := r_order_no rec). pose proof (home_lt k) as Hh.
  pose proof (insert_probe_spec mask (ok_mask _ _ Hok) t rec (Hash mask k) (mask + 1)
                (Hash mask k) Hh Hh ltac:(rewrite dist_self; lia) (before_self _ _ _)) as H.
  unfold InsertOrder. fold k. destruct (insert_probe _ _ _ _ _) as [t'|].
  - destruct H as (e & He & -> & Hb & Hslot).
    assert (forall s, s < mask + 1 -> dist (mask + 1) (Hash mask k) s <
              dist (mask + 1) (Hash mask k) e -> r_occupied (t !!! s) = true) as Hpath
      by (intros s Hs Hd; by destruct (Hb s Hs Hd)).
    eapply (put_slot t mask m Hok Hr e (set_occupied true rec)); [done..| |done].
    simpl. intros j r Hj Hjk.
    pose proof Hj as (Hjl & Htj & Hjo)%holds_total. rewrite (ok_length _ _ Hok) in Hjl.
    pose proof (ok_path _ _ Hok j r e Hj He) as Hp. rewrite Hjk in Hp.
    destruct (decide (j = e)); [done|exfalso].
    destruct (decide (dist (mask + 1) (Hash mask k) j < dist (mask + 1) (Hash mask k) e)) as [Hl|Hl].
    { destruct (Hb j Hjl Hl). congruence. }
    assert (r_occupied (t !!! e) = true) as Heo by (apply Hp; fold k; dist_solve).
    destruct Hslot as [|Hek]; [congruence|].
    assert (holds t e (t !!! e)) as Hhe by (apply holds_total; rewrite (ok_length _ _ Hok); done).
    assert (j = e); [|done]. eapply (ok_distinct _ _ Hok); eauto. congruence.
  - split.
    + apply eq_None_not_Some. intros [v Hv]. apply Hr in Hv as (i & r & Hi & Hk & _).
      apply holds_total in Hi as (Hil & Ht & _). rewrite (ok_length _ _ Hok) in Hil.
      destruct (H i Hil). fold k in H1. congruence.
    + intros (i & r & Hi & Ho). pose proof (lookup_lt_Some _ _ _ Hi) as Hil.
      rewrite (ok_length _ _ Hok) in Hil. destruct (H i Hil) as [Hocc _].
      rewrite (lookup_total_eq _ _ _ Hi) in Hocc. congruence.
Qed.
End Lookup.

(** ** Backward-shift deletion *)

Section Shift.
Context (mask : nat) (Hpow : exists k, mask + 1 = 2 ^ k).
Abbreviation N := (mask + 1).
Abbreviation home r := (Hash mask (r_order_no r)).

(** The loop invariant: the slot [hole] is to be freed, every other live
    record is reachable from its home, and only records at or past [next] may
    still have [hole] on their probe path. *)
Record shift_inv (t : table) (m : gmap Z Resting) (hole next : nat) : Prop := {
  si_length : length t = N;
  si_hole : hole < N;
  si_next : next < N;
  si_ne : hole <> next;
  si_hole_occ : r_occupied (t !!! hole) = true;
  si_distinct : forall i j r s, holds t i r -> holds t j s -> i <> hole -> j <> hole ->
      r_order_no r = r_order_no s -> i = j;
  si_path : forall i r s, holds t i r -> i <> hole -> s < N ->
      dist N (home r) s < dist N (home r) i -> r_occupied (t !!! s) = true;
  si_past : forall i r, holds t i r -> i <> hole ->
      dist N (home r) hole < dist N (home r) i -> dist N hole next <= dist N hole i;
  si_repr : forall k v, m !! k = Some v <->
      exists i r, holds t i r /\ i <> hole /\ r_order_no r = k /\ resting_of r = v;
}.

Lemma shift_done t m hole next :
  shift_inv t m hole next -> r_occupied (t !!! next) = false ->
  table_ok (<[hole := set_occupied false (t !!! hole)]> t) mask /\
  table_repr (<[hole := set_occupied false (t !!! hole)]> t) m.
Proof.
  intros [Hl Hh Hn Hne Hho Hd Hp Hpast Hr] Hfree.
  assert (hole < length t) by lia.
  assert (forall i r, holds (<[hole := set_occupied false (t !!! hole)]> t) i r <->
            i <> hole /\ holds t i r) as Hiff.
  { intros i r. rewrite holds_insert by done. simpl. naive_solver. }
  split.
  - split; [done|by rewrite length_insert| |].
    + intros i j r s [? Hi]%Hiff [? Hj]%Hiff. by apply Hd.
    + intros i r s [Hih Hi]%Hiff Hs Hlt.
      assert (s <> hole) as Hsh.
      { intros ->. pose proof (Hpast i r Hi Hih Hlt) as Hge.
        pose proof (holds_total t i r) as [(Hil & Hti & Hio) _]; [done|].
        destruct (decide (i = next)) as [->|Hin]; [congruence|].
        rewrite (Hp i r next Hi Hih Hn) in Hfree; [done|].
        pose proof (Hash_le mask (r_order_no r)). dist_solve. }
      rewrite list_lookup_total_insert_ne by done. by eapply Hp.
  - intros k v. rewrite (Hr k v). setoid_rewrite Hiff. naive_solver.
Qed.

Lemma shift_move t m hole next :
  shift_inv t m hole next -> r_occupied (t !!! next) = true ->
  can_move hole next (home (t !!! next)) = true ->
  probe_next mask next <> next ->
  shift_inv (<[hole := t !!! next]> t) m next (probe_next mask next).
Proof.
  intros [Hl Hh Hn Hne Hho Hd Hp Hpast Hr] Hocc Hmv Hpn.
  pose proof (Hash_le mask (r_order_no (t !!! next))) as Hhm.
  apply (can_move_spec N) in Hmv; [|lia..].
  assert (hole < length t) as Hhl by lia.
  assert (holds t next (t !!! next)) as Hnx by (apply holds_total; lia || (split; [lia|done])).
  assert (forall s, r_occupied (<[hole := t !!! next]> t !!! s) = r_occupied (t !!! s)) as Hsame.
  { intros s. destruct (decide (s = hole)) as [->|].
    - rewrite list_lookup_total_insert_eq by done. congruence.
    - by rewrite list_lookup_total_insert_ne. }
  assert (forall i r, holds (<[hole := t !!! next]> t) i r /\ i <> next <->
            (i = hole /\ r = t !!! next) \/ (i <> hole /\ i <> next /\ holds t i r)) as Hiff.
  { intros i r. rewrite holds_insert by done. naive_solver. }
  split.
  - by rewrite length_insert.
  - done.
  - by apply probe_next_lt.
  - done.
  - by rewrite Hsame.
  - intros i j r s Hi Hj Hin Hjn Hk.
    destruct (proj1 (Hiff i r) (conj Hi Hin)) as [[-> ->]|(? & ? & ?)];
      destruct (proj1 (Hiff j s) (conj Hj Hjn)) as [[-> ->]|(? & ? & ?)]; [done|..|by apply (Hd _ _ r s)].
    + assert (next = j) by (by apply (Hd next j (t !!! next) s)). done.
    + assert (next = i) by (by apply (Hd next i (t !!! next) r)). done.
  - intros i r s Hi Hin Hs Hlt. rewrite Hsame.
    destruct (proj1 (Hiff i r) (conj Hi Hin)) as [[-> ->]|(? & ? & ?)]; [|by eapply Hp].
    eapply (Hp next); [done..|]. lia.
  - intros i r Hi Hin _. rewrite probe_next_eq by done.
    pose proof (proj1 (holds_total _ _ _) Hi) as (Hil & _). rewrite length_insert in Hil.
    dist_solve.
  - intros k v. rewrite (Hr k v). split.
    + intros (i & r & Hi & Hih & Hk & Hv). destruct (decide (i = next)) as [->|Hin].
      * exists hole, (t !!! next). pose proof (proj1 (holds_total _ _ _) Hi) as (_ & -> & _).
        destruct (proj2 (Hiff hole r)) as [? ?]; [|naive_solver].
        left. split; [done|]. symmetry. apply (proj1 (holds_total _ _ _) Hi).
      * exists i, r. destruct (proj2 (Hiff i r)); naive_solver.
    + intros (i & r & Hi & Hin & Hk & Hv).
      destruct (proj1 (Hiff i r) (conj Hi Hin)) as [[-> ->]|(? & ? & ?)]; [|naive_solver].
      exists next, (t !!! next). naive_solver.
Qed.

Lemma shift_keep t m hole next :
  shift_inv t m hole next -> r_occupied (t !!! next) = true ->
  can_move hole next (home (t !!! next)) = false ->
  probe_next mask next <> hole ->
  shift_inv t m hole (probe_next mask next).
Proof.
  intros [Hl Hh Hn Hne Hho Hd Hp Hpast Hr] Hocc Hmv Hpn.
  pose proof (Hash_le mask (r_order_no (t !!! next))) as Hhm.
  assert (~ dist N (home (t !!! next)) hole < dist N (home (t !!! next)) next) as Hnot.
  { intros Hc. apply can_move_spec in Hc; [congruence|lia..]. }
  split; [done..|by apply probe_next_lt|done|done|done|done| |done].
  intros i r Hi Hih Hlt. pose proof (Hpast i r Hi Hih Hlt) as Hge.
  pose proof (proj1 (holds_total _ _ _) Hi) as (Hil & Hti & _). rewrite Hl in Hil.
  assert (i <> next) as Hin by (intros ->; subst r; done).
  rewrite probe_next_eq by done. rewrite probe_next_eq in Hpn by done.
  case_if; dist_solve.
Qed.

(** With a free slot [f] ahead, the loop ends within the distance to it. *)
Lemma shift_loop_spec fuel t m hole next f :
  shift_inv t m hole next -> f < N -> r_occupied (t !!! f) = false ->
  dist N hole next + dist N next f < N ->
  dist N next f < fuel ->
  exists t', shift_loop fuel t mask hole next = Some t' /\ table_ok t' mask /\ table_repr t' m.
Proof.
  revert t hole next. induction fuel as [|n IH]; intros t hole next Hinv Hf Hfo Hcyc Hfuel; [lia|].
  pose proof (si_hole _ _ _ _ Hinv). pose proof (si_next _ _ _ _ Hinv).
  pose proof (si_ne _ _ _ _ Hinv). pose proof (si_length _ _ _ _ Hinv).
  simpl. destruct (r_occupied (t !!! next)) eqn:Hocc.
  2: { eexists. split; [done|]. by eapply shift_done. }
  assert (next <> f) as Hnf by congruence.
  assert (hole <> f) as Hhf.
  { intros ->. pose proof (si_hole_occ _ _ _ _ Hinv). congruence. }
  assert (probe_next mask next <> next /\ probe_next mask next <> hole /\
          dist N next f = S (dist N (probe_next mask next) f) /\
          dist N hole (probe_next mask next) = S (dist N hole next) /\
          dist N next (probe_next mask next) = 1) as (Hn1 & Hn2 & Hd1 & Hd2 & Hd3).
  { rewrite probe_next_eq by done. split_and!; dist_solve. }
  destruct (can_move _ _ _) eqn:Hmv.
  - apply IH; [by apply shift_move|done| |lia|lia].
    rewrite list_lookup_total_insert_ne by done. done.
  - apply IH; [by apply shift_keep|done|done|lia|lia].
Qed.

(** With no free slot the loop never ends, whatever the fuel. *)
Lemma shift_loop_full fuel t hole next :
  length t = N -> (forall s, s < N -> r_occupied (t !!! s) = true) ->
  hole < N -> next < N -> shift_loop fuel t mask hole next = None.
Proof.
  revert t hole next. induction fuel as [|n IH]; intros t hole next Hl Hall Hh Hn; [done|].
  simpl. rewrite (Hall next Hn). pose proof (probe_next_lt mask Hpow next Hn).
  case_if; apply IH; [by rewrite length_insert| |done..].
  intros s Hs. destruct (decide (s = hole)) as [->|].
  - rewrite list_lookup_total_insert_eq by lia. by apply Hall.
  - rewrite list_lookup_total_insert_ne by done. by apply Hall.
Qed.
End Shift.

Lemma EraseOrder_delete t mask m k :
  table_ok t mask -> table_repr t m -> has_free t ->
  exists t', EraseOrder t mask k = Some t' /\ table_ok t' mask /\ table_repr t' (delete k m).
Proof.
  intros Hok Hr (f & rf & Hf & Hfo). unfold EraseOrder, EraseOrder_fuel.
  fold (FindOrder t mask k). destruct (FindOrder t mask k) as [hole|] eqn:Hfind.
  2: { exists t. split_and!; [done..|]. rewrite delete_id; [done|].
       by rewrite <- (FindOrder_lookup t mask Hok m k Hr), Hfind. }
  apply (find_Some_holds _ _ Hok) in Hfind as [Hh Hk].
  pose proof (proj1 (holds_total _ _ _) Hh) as (Hhl & _ & Hho).
  pose proof (ok_length _ _ Hok) as Hlen. pose proof (ok_mask _ _ Hok) as Hpow.
  pose proof (lookup_lt_Some _ _ _ Hf) as Hfl.
  assert (hole <> f) as Hne by (intros ->; rewrite (lookup_total_eq _ _ _ Hf) in Hho; congruence).
  assert (probe_next mask hole < mask + 1 /\ hole <> probe_next mask hole /\
          dist (mask + 1) hole (probe_next mask hole) = 1) as (Hn & Hnh & Hd1).
  { rewrite probe_next_eq by (done || lia). split_and!; dist_solve. }
  apply (shift_loop_spec mask Hpow (mask + 1) t (delete k m) hole (probe_next mask hole) f);
    [|lia|by rewrite (lookup_total_eq _ _ _ Hf)|dist_solve|dist_solve].
  split; [done|lia|done|done|done|..].
  - intros i j r s Hi Hj _ _. by apply (ok_distinct _ _ Hok).
  - intros i r s Hi _. by apply (ok_path _ _ Hok).
  - intros i r Hi Hih _. rewrite Hd1.
    pose proof (proj1 (holds_total _ _ _) Hi) as (Hil & _). dist_solve.
  - intros k' v. destruct (decide (k' = k)) as [->|Hkk].
    + rewrite lookup_delete_eq. split; [done|]. intros (i & r & Hi & Hih & Hik & _).
      destruct Hih. eapply (ok_distinct _ _ Hok); eauto. congruence.
    + rewrite lookup_delete_ne by done. rewrite (Hr k' v). split.
      * intros (i & r & Hi & Hik & Hv). exists i, r. split_and!; try done.
        intros ->. pose proof (proj1 (holds_total _ _ _) Hi) as (_ & <- & _). congruence.
      * intros (i & r & Hi & _ & Hik & Hv). eauto.
Qed.

Lemma full_occupied t mask :
  table_ok t mask -> ~ has_free t -> forall s, s < mask + 1 -> r_occupied (t !!! s) = true.
Proof.
  intros Hok Hnf s Hs. destruct (r_occupied (t !!! s)) eqn:Ho; [done|].
  destruct Hnf. exists s, (t !!! s). split; [|done]. apply lookup_of_total.
  rewrite (ok_length _ _ Hok). lia.
Qed.

(** Every well-formed table represents the map of its live records. *)
Lemma table_repr_of_live t mask :
  table_ok t mask -> table_repr t (list_to_map (live t)).
Proof.
  intros Hok k v. rewrite <- live_elem. symmetry. apply elem_of_list_to_map.
  apply live_NoDup, (ok_distinct _ _ Hok).
Qed.

Lemma has_free_dec t : {has_free t} + {~ has_free t}.
Proof.
  destruct (decide (length (live t) = length t)) as [Hl|Hl].
  - right. by apply live_full.
  - left. unfold has_free. revert Hl. induction t as [|r t IH]; [done|].
    rewrite live_cons. destruct (r_occupied r) eqn:Ho; simpl; intros Hl; [|by exists 0, r].
    destruct IH as (i & x & Hi & Hx); [lia|]. by exists (S i), x.
Qed.

(** [EraseOrder] on any well-formed table: a well-formed result, or a full
    table. *)
Lemma EraseOrder_total t mask k :
  table_ok t mask ->
  match EraseOrder t mask k with
  | Some t' => table_ok t' mask /\ (has_free t' \/ t' = t)
  | None => ~ has_free t
  end.
Proof.
  intros Hok. pose proof (table_repr_of_live t mask Hok) as Hr.
  destruct (has_free_dec t) as [Hfree|Hfull].
  - destruct (EraseOrder_delete t mask _ k Hok Hr Hfree) as (t' & -> & Hok' & Hr').
    split; [done|]. left. apply (has_free_size t' mask _ Hok' Hr').
    apply (has_free_size t mask _ Hok Hr) in Hfree.
    eapply Nat.le_lt_trans; [|exact Hfree]. apply map_subseteq_size, delete_subseteq.
  - unfold EraseOrder, EraseOrder_fuel. fold (FindOrder t mask k).
    destruct (FindOrder t mask k) as [hole|] eqn:Hf; [|by auto].
    apply (find_Some_holds _ _ Hok) in Hf as [Hh _].
    apply holds_total in Hh as (Hhl & _ & _). pose proof (ok_length _ _ Hok) as Hlen.
    rewrite shift_loop_full; [done|apply Hok|done| |lia|apply probe_next_lt; [apply Hok|lia]].
    by apply full_occupied.
Qed.

(** [InsertOrder] fails exactly when the order is new and no slot is free. *)
Lemma InsertOrder_spec t mask m rec :
  table_ok t mask -> table_repr t m ->
  match InsertOrder t mask rec with
  | Some t' => (is_Some (m !! r_order_no rec) \/ size m < mask + 1) /\
      table_ok t' mask /\ table_repr t' (<[r_order_no rec := resting_of rec]> m)
  | None => ~ (is_Some (m !! r_order_no rec) \/ size m < mask + 1)
  end.
Proof.
  intros Hok Hr. pose proof (InsertOrder_cases t mask Hok m rec Hr) as Hi.
  destruct (InsertOrder t mask rec) as [t'|].
  - destruct Hi as [Hok' Hr']. split; [|done].
    destruct (m !! r_order_no rec) as [v|] eqn:HN; [by left; eauto|right].
    pose proof (live_length t') as Hll. rewrite (ok_length _ _ Hok') in Hll.
    assert (size (<[r_order_no rec := resting_of rec]> m) = length (live t')) as Hsz.
    { rewrite (table_repr_live t' mask _ Hok' Hr').
      apply map_size_list_to_map, live_NoDup, (ok_distinct _ _ Hok'). }
    rewrite map_size_insert_None in Hsz by done. lia.
  - destruct Hi as [HN Hnf]. rewrite HN. intros [[? ?]|Hlt]; [done|].
    apply Hnf. by eapply has_free_size.
Qed.

(** ** Runs of table operations against the abstract store *)

Inductive TableOp :=
  | OpFind (order_no : Z)
  | OpInsert (rec : OrderRecord)
  | OpErase (order_no : Z).

Inductive TableRes :=
  | ResFind (r : option Resting)
  | ResInsert (ok : bool)
  | ResErase.

Definition table_step (mask : nat) (t : table) (op : TableOp) : option (table * TableRes) :=
  match op with
  | OpFind k => Some (t, ResFind ((fun i => resting_of (t !!! i)) <$> FindOrder t mask k))
  | OpInsert rec =>
      match InsertOrder t mask rec with
      | Some t' => Some (t', ResInsert true)
      | None => Some (t, ResInsert false)
      end
  | OpErase k => (fun t' => (t', ResErase)) <$> EraseOrder t mask k
  end.

Fixpoint table_run (mask : nat) (t : table) (ops : list TableOp)
    : option (table * list TableRes) :=
  match ops with
  | [] => Some (t, [])
  | op :: ops =>
      '(t, r) ← table_step mask t op; '(t, rs) ← table_run mask t ops; Some (t, r :: rs)
  end.

(** The same operations on a map of bounded size. *)
Definition store_step (cap : nat) (m : gmap Z Resting) (op : TableOp)
    : gmap Z Resting * TableRes :=
  match op with
  | OpFind k => (m, ResFind (m !! k))
  | OpInsert rec =>
      if decide (is_Some (m !! r_order_no rec) \/ size m < cap)
      then (<[r_order_no rec := resting_of rec]> m, ResInsert true)
      else (m, ResInsert false)
  | OpErase k => (delete k m, ResErase)
  end.

(** An erase is issued only while the store has room. *)
Definition op_admissible (cap : nat) (m : gmap Z Resting) (op : TableOp) : bool :=
  match op with OpErase _ => size m <? cap | _ => true end.

Fixpoint store_run (cap : nat) (m : gmap Z Resting) (ops : list TableOp)
    : option (gmap Z Resting * list TableRes) :=
  match ops with
  | [] => Some (m, [])
  | op :: ops =>
      if op_admissible cap m op then
        let '(m, r) := store_step cap m op in
        '(m, rs) ← store_run cap m ops; Some (m, r :: rs)
      else None
  end.

Lemma table_step_refines mask t m op :
  table_ok t mask -> table_repr t m -> op_admissible (mask + 1) m op = true ->
  exists t', table_step mask t op = Some (t', (store_step (mask + 1) m op).2) /\
    table_ok t' mask /\ table_repr t' (store_step (mask + 1) m op).1.
Proof.
  intros Hok Hr Hadm. destruct op as [k|rec|k]; simpl in *.
  - exists t. by rewrite (FindOrder_lookup t mask Hok m k Hr).
  - pose proof (InsertOrder_spec t mask m rec Hok Hr) as Hi.
    destruct (InsertOrder t mask rec) as [t'|]; case_decide; simpl; naive_solver.
  - bool_arith. destruct (EraseOrder_delete t mask m k Hok Hr) as (t' & -> & ? & ?); [|by eauto].
    by eapply has_free_size.
Qed.

Lemma table_run_refines mask ops rs t m0 m :
  table_ok t mask -> table_repr t m0 -> store_run (mask + 1) m0 ops = Some (m, rs) ->
  exists t', table_run mask t ops = Some (t', rs) /\ table_ok t' mask /\ table_repr t' m.
Proof.
  revert rs t m0. induction ops as [|op ops IH]; intros rs t m0 Hok Hr Hrun; simpl in *.
  { simplify_eq. eauto. }
  case_if_in Hrun; [|done].
  destruct (table_step_refines mask t m0 op Hok Hr) as (t' & -> & Hok' & Hr'); [done|].
  destruct (store_step (mask + 1) m0 op) as [m1 r]; simpl in *.
  destruct (store_run (mask + 1) m1 ops) as [[m2 rs2]|] eqn:Hrest; simplify_eq/=.
  destruct (IH rs2 t' m1 Hok' Hr' Hrest) as (t2 & Hrun2 & ? & ?).
  rewrite Hrun2. simpl. eauto.
Qed.

(** C3.  Starting from the empty table, any run of [FindOrder], [InsertOrder]
    and [EraseOrder] whose erases are issued while a slot is free terminates,
    returns exactly the results of a finite map of capacity [order_mask_ + 1],
    and leaves a well-formed table that represents that map. *)
Theorem order_table_refines mask ops m rs :
  (exists k, mask + 1 = 2 ^ k) ->
  store_run (mask + 1) ∅ ops = Some (m, rs) ->
  exists t, table_run mask (replicate (mask + 1) empty_record) ops = Some (t, rs) /\
    table_ok t mask /\ table_repr t m.
Proof.
  intros Hpow. apply table_run_refines; [by apply table_ok_empty|apply table_repr_empty].
Qed.

Definition sample_rec (k p q : Z) : OrderRecord :=
  {| r_order_no := k; r_price := p; r_qty := q; r_side := kBuy; r_occupied := false |}.

(** Seven inserts collide in a table of eight slots; an erase shifts the
    cluster back and the rest stay reachable. *)
Definition sample_ops : list TableOp :=
  (fun k => OpInsert (sample_rec k 100 (k + 1))) <$> [1; 2; 3; 4; 5; 6; 7]%Z.

Lemma order_table_refines_witness :
  exists t m rs, store_run 8 ∅ (sample_ops ++ [OpErase 3; OpFind 3; OpFind 7]) = Some (m, rs) /\
    table_run 7 (replicate 8 empty_record) (sample_ops ++ [OpErase 3; OpFind 3; OpFind 7])
      = Some (t, rs) /\ table_ok t 7 /\ table_repr t m.
Proof.
  destruct (store_run 8 ∅ (sample_ops ++ [OpErase 3; OpFind 3; OpFind 7])) as [[m rs]|] eqn:E.
  - destruct (order_table_refines 7 _ m rs (ex_intro _ 3 eq_refl) E) as (t & H1 & H2).
    exists t, m, rs. split; [reflexivity|]. split; [exact H1|exact H2].
  - vm_compute in E. discriminate.
Defined.

(** In any well-formed table with a free slot, [EraseOrder] terminates
    within [order_mask_ + 1] rounds of its shift loop and removes exactly the
    given order: the result is well formed and represents the old map with that
    key deleted (an unknown key changes nothing). *)
Theorem EraseOrder_correct t mask m k :
  table_ok t mask -> table_repr t m -> size m < mask + 1 ->
  exists t', EraseOrder t mask k = Some t' /\ table_ok t' mask /\ table_repr t' (delete k m).
Proof.
  intros Hok Hr Hs. apply EraseOrder_delete; [done..|]. by eapply has_free_size.
Qed.

Lemma EraseOrder_correct_witness :
  exists t', EraseOrder (replicate 4 empty_record) 3 42 = Some t' /\
    table_ok t' 3 /\ table_repr t' (delete 42%Z ∅).
Proof.
  apply (EraseOrder_correct (replicate 4 empty_record) 3 ∅ 42).
  - apply (table_ok_empty 3). by exists 2.
  - apply (table_repr_empty 3).
  - vm_compute. lia.
Defined.

(** When every slot of the table is occupied (which [InsertOrder] allows:
    it fills the last free slot), erasing any tracked order never returns: the
    shift loop runs past every amount of fuel. *)
Theorem EraseOrder_full_diverges t mask m k fuel :
  table_ok t mask -> table_repr t m -> size m = mask + 1 -> is_Some (m !! k) ->
  EraseOrder_fuel fuel t mask k = None.
Proof.
  intros Hok Hr Hs [v Hv]. unfold EraseOrder_fuel. fold (FindOrder t mask k).
  pose proof (FindOrder_lookup t mask Hok m k Hr) as Hf. rewrite Hv in Hf.
  destruct (FindOrder t mask k) as [hole|] eqn:Hfind; [|done].
  apply (find_Some_holds _ _ Hok) in Hfind as [Hh _].
  apply holds_total in Hh as (Hhl & _ & _). pose proof (ok_length _ _ Hok) as Hlen.
  assert (~ has_free t) as Hnf by (rewrite (has_free_size t mask m Hok Hr); lia).
  apply shift_loop_full; [apply Hok|done| |lia|apply probe_next_lt; [apply Hok|lia]].
  by apply full_occupied.
Qed.

Definition full_ops : list TableOp :=
  (fun k => OpInsert (sample_rec k 100 1)) <$> [1; 2; 3; 4]%Z.

Lemma EraseOrder_full_diverges_witness :
  exists t, table_run 3 (replicate 4 empty_record) full_ops = Some (t, replicate 4 (ResInsert true)) /\
    EraseOrder_fuel 1000 t 3 2 = None.
Proof.
  destruct (table_run_refines 3 full_ops (replicate 4 (ResInsert true))
    (replicate 4 empty_record) ∅ (default ∅ (fst <$> store_run 4 ∅ full_ops))
    (table_ok_empty 3 (ex_intro _ 2 eq_refl)) (table_repr_empty 3)) as (t & Hrun & Hok & Hr).
  - vm_compute. reflexivity.
  - exists t. split; [exact Hrun|].
    apply (EraseOrder_full_diverges t 3 _ 2 1000 Hok Hr).
    + vm_compute. reflexivity.
    + vm_compute. eexists; reflexivity.
Defined.
