(* ===== verification/LevelArray.v ===== *)
(** * Price levels and the flat, sorted level arrays
      (src/order_book/price_level.hpp, src/order_book/order_book.hpp)

    One side of a book is an array of [kMaxLevelsPerSide] levels of which the
    first [count] are in use, best price first.  [FindLevel],
    [InsertionPoint], [AddQtyToLevel] and [RemoveQtyFromLevel] are translated
    loop by loop (binary search, shift right, shift left); the reference
    definitions they are proved equal to are sorted-list insertion and removal
    on the used part of the array. *)

From Stdlib Require Import ZArith Lia.
From stdpp Require Import base list numbers.
From S2P Require Import Prelude Types.

(** ** PriceLevel *)

Record PriceLevel := {
  pl_price : Price;
  pl_total_quantity : Quantity;
  pl_order_count : Z;
}.

Definition zero_level : PriceLevel :=
  {| pl_price := 0; pl_total_quantity := 0; pl_order_count := 0 |}.

#[global] Instance PriceLevel_inhabited : Inhabited PriceLevel := populate zero_level.
#[global] Instance PriceLevel_eq_dec : EqDecision PriceLevel.
Proof. solve_decision. Defined.

Definition add_order (qty : Quantity) (l : PriceLevel) : PriceLevel :=
  {| pl_price := pl_price l;
     pl_total_quantity := i32 (pl_total_quantity l + qty);
     pl_order_count := i32 (pl_order_count l + 1) |}.

Definition remove_order (qty : Quantity) (drop_order : bool) (l : PriceLevel) : PriceLevel :=
  let total := i32 (pl_total_quantity l - qty) in
  {| pl_price := pl_price l;
     pl_total_quantity := if (total <? 0)%Z then 0%Z else total;
     pl_order_count :=
       if drop_order && (pl_order_count l >? 0)%Z then (pl_order_count l - 1)%Z
       else pl_order_count l |}.

Definition modify_order (old_qty new_qty : Quantity) (l : PriceLevel) : PriceLevel :=
  let total := i32 (pl_total_quantity l + i32 (new_qty - old_qty)) in
  {| pl_price := pl_price l;
     pl_total_quantity := if (total <? 0)%Z then 0%Z else total;
     pl_order_count := pl_order_count l |}.

Definition level_empty (l : PriceLevel) : bool := (pl_order_count l <=? 0)%Z.

(** ** One side of the book *)

Definition kMaxLevelsPerSide : nat := 256.
Arguments kMaxLevelsPerSide : simpl never.

Record Levels := { lv_arr : list PriceLevel; lv_count : nat }.

#[global] Instance Levels_eq_dec : EqDecision Levels.
Proof. solve_decision. Defined.

Definition empty_levels : Levels :=
  {| lv_arr := replicate kMaxLevelsPerSide zero_level; lv_count := 0 |}.

(** [mp] sorts strictly before [price]: descending bids, ascending asks. *)
Definition sorts_before (is_bid : bool) (mp price : Price) : bool :=
  if is_bid then (mp >? price)%Z else (mp <? price)%Z.

Fixpoint find_level_loop (fuel : nat) (is_bid : bool) (levels : list PriceLevel)
    (count : nat) (price : Price) (lo hi : nat) : nat :=
  match fuel with
  | 0 => count
  | S n =>
      if lo <? hi then
        let mid := (lo + hi) / 2 in
        let mp := pl_price (levels !!! mid) in
        if (mp =? price)%Z then mid
        else if sorts_before is_bid mp price
             then find_level_loop n is_bid levels count price (mid + 1) hi
             else find_level_loop n is_bid levels count price lo mid
      else count
  end.

(** Each round of the search at least halves [hi - lo <= count], so [count]
    rounds suffice (see [find_level_loop_spec]). *)
Definition FindLevel (is_bid : bool) (lv : Levels) (price : Price) : nat :=
  find_level_loop (lv_count lv) is_bid (lv_arr lv) (lv_count lv) price 0 (lv_count lv).

Fixpoint insertion_loop (fuel : nat) (is_bid : bool) (levels : list PriceLevel)
    (price : Price) (lo hi : nat) : nat :=
  match fuel with
  | 0 => lo
  | S n =>
      if lo <? hi then
        let mid := (lo + hi) / 2 in
        if sorts_before is_bid (pl_price (levels !!! mid)) price
        then insertion_loop n is_bid levels price (mid + 1) hi
        else insertion_loop n is_bid levels price lo mid
      else lo
  end.

Definition InsertionPoint (is_bid : bool) (lv : Levels) (price : Price) : nat :=
  insertion_loop (lv_count lv) is_bid (lv_arr lv) price 0 (lv_count lv).

(** [for (i = pos + n; i > pos; --i) levels[i] = levels[i - 1];] *)
Fixpoint shift_right (n pos : nat) (levels : list PriceLevel) : list PriceLevel :=
  match n with
  | 0 => levels
  | S n' => shift_right n' pos (<[pos + S n' := levels !!! (pos + n')]> levels)
  end.

(** [for (i = idx; i < idx + n; ++i) levels[i] = levels[i + 1];] *)
Fixpoint shift_left (n idx : nat) (levels : list PriceLevel) : list PriceLevel :=
  match n with
  | 0 => levels
  | S n' => shift_left n' (S idx) (<[idx := levels !!! (idx + 1)]> levels)
  end.

Definition new_level (price : Price) (qty : Quantity) : PriceLevel :=
  add_order qty {| pl_price := price; pl_total_quantity := 0; pl_order_count := 0 |}.

Definition AddQtyToLevel (is_bid : bool) (price : Price) (qty : Quantity) (lv : Levels)
    : Levels :=
  let levels := lv_arr lv in
  let count := lv_count lv in
  let idx := FindLevel is_bid lv price in
  if idx <? count then
    {| lv_arr := <[idx := add_order qty (levels !!! idx)]> levels; lv_count := count |}
  else
    let pos := InsertionPoint is_bid lv price in
    if kMaxLevelsPerSide <=? count then
      if kMaxLevelsPerSide <=? pos then lv
      else {| lv_arr := <[pos := new_level price qty]>
                          (shift_right (kMaxLevelsPerSide - 1 - pos) pos levels);
              lv_count := count |}
    else {| lv_arr := <[pos := new_level price qty]> (shift_right (count - pos) pos levels);
            lv_count := count + 1 |}.

Definition RemoveQtyFromLevel (is_bid : bool) (price : Price) (qty : Quantity)
    (drop_order : bool) (lv : Levels) : Levels :=
  let count := lv_count lv in
  let idx := FindLevel is_bid lv price in
  if count <=? idx then lv
  else
    let l' := remove_order qty drop_order (lv_arr lv !!! idx) in
    let levels := <[idx := l']> (lv_arr lv) in
    if level_empty l' then
      {| lv_arr := shift_left (count - 1 - idx) idx levels; lv_count := count - 1 |}
    else {| lv_arr := levels; lv_count := count |}.

(** ** Reference definitions on the used prefix *)

Definition view (lv : Levels) : list PriceLevel := take (lv_count lv) (lv_arr lv).

Fixpoint add_view (is_bid : bool) (price : Price) (qty : Quantity) (v : list PriceLevel)
    : list PriceLevel :=
  match v with
  | [] => [new_level price qty]
  | l :: v' =>
      if (pl_price l =? price)%Z then add_order qty l :: v'
      else if sorts_before is_bid (pl_price l) price then l :: add_view is_bid price qty v'
      else new_level price qty :: l :: v'
  end.

Fixpoint remove_view (price : Price) (qty : Quantity) (drop_order : bool) (v : list PriceLevel)
    : list PriceLevel :=
  match v with
  | [] => []
  | l :: v' =>
      if (pl_price l =? price)%Z then
        let l' := remove_order qty drop_order l in
        if level_empty l' then v' else l' :: v'
      else l :: remove_view price qty drop_order v'
  end.

(** Strictly sorted, best first. *)
Inductive sorted_side (is_bid : bool) : list PriceLevel -> Prop :=
  | sorted_nil : sorted_side is_bid []
  | sorted_cons l v :
      Forall (fun x => sorts_before is_bid (pl_price l) (pl_price x) = true) v ->
      sorted_side is_bid v -> sorted_side is_bid (l :: v).

Record levels_ok (is_bid : bool) (lv : Levels) : Prop := {
  lo_length : length (lv_arr lv) = kMaxLevelsPerSide;
  lo_count : lv_count lv <= kMaxLevelsPerSide;
  lo_sorted : sorted_side is_bid (view lv);
}.

(** The level quoted at a price, if any. *)
Fixpoint level_at (v : list PriceLevel) (p : Price) : option PriceLevel :=
  match v with
  | [] => None
  | l :: v' => if (pl_price l =? p)%Z then Some l else level_at v' p
  end.

(** ** Order of the two sides *)

Lemma sorts_before_irrefl b p : sorts_before b p p = false.
Proof. unfold sorts_before. destruct b; [rewrite Z.gtb_ltb|]; apply Z.ltb_irrefl. Qed.

Lemma sorts_before_spec b p q :
  sorts_before b p q = true <-> (if b then (q < p)%Z else (p < q)%Z).
Proof. unfold sorts_before. destruct b; rewrite ?Z.gtb_ltb; apply Z.ltb_lt. Qed.

Lemma sorts_before_trans b p q r :
  sorts_before b p q = true -> sorts_before b q r = true -> sorts_before b p r = true.
Proof. rewrite !sorts_before_spec. destruct b; lia. Qed.

Lemma sorts_before_total b p q :
  p <> q -> sorts_before b p q = false -> sorts_before b q p = true.
Proof.
  intros Hne Hf. apply sorts_before_spec.
  apply not_true_iff_false in Hf. rewrite sorts_before_spec in Hf. destruct b; lia.
Qed.

Lemma sorts_before_asym b p q : sorts_before b p q = true -> sorts_before b q p = false.
Proof.
  intros H. apply not_true_iff_false. rewrite sorts_before_spec in *. destruct b; lia.
Qed.

Lemma sorts_before_ne b p q : sorts_before b p q = true -> p <> q.
Proof. rewrite sorts_before_spec. destruct b; lia. Qed.

Lemma sorted_lookup b v i j x y :
  sorted_side b v -> i < j -> v !! i = Some x -> v !! j = Some y ->
  sorts_before b (pl_price x) (pl_price y) = true.
Proof.
  intros Hs. revert i j. induction Hs as [|l v Hall Hs IH]; intros i j Hij Hi Hj; [done|].
  destruct i, j; simpl in *; try lia.
  - simplify_eq. by eapply Forall_lookup_1 in Hall.
  - apply (IH i j); [lia|done..].
Qed.

Lemma sorted_app_inv b v w : sorted_side b (v ++ w) -> sorted_side b v /\ sorted_side b w.
Proof.
  induction v as [|l v IH]; simpl; intros H; [split; [constructor|done]|].
  inversion H as [|? ? Hall Hs]; subst. apply Forall_app in Hall as [? ?].
  destruct (IH Hs). split; [by constructor|done].
Qed.

Lemma sorted_take b n v : sorted_side b v -> sorted_side b (take n v).
Proof. intros H. rewrite <- (take_drop n v) in H. by apply sorted_app_inv in H as [? _]. Qed.

(** ** The reference operations keep a side sorted *)

Lemma add_order_price qty l : pl_price (add_order qty l) = pl_price l.
Proof. done. Qed.

Lemma remove_order_price qty d l : pl_price (remove_order qty d l) = pl_price l.
Proof. done. Qed.

Lemma new_level_price p q : pl_price (new_level p q) = p.
Proof. done. Qed.

Section PriceForall.
Context (P : Price -> Prop).

Lemma add_view_Forall b price qty v :
  Forall (fun x => P (pl_price x)) v -> P price ->
  Forall (fun x => P (pl_price x)) (add_view b price qty v).
Proof.
  induction 1 as [|l v Hl Hv IH]; simpl; intros HP; [by repeat constructor|].
  repeat case_if; repeat constructor; eauto.
Qed.

Lemma remove_view_Forall price qty d v :
  Forall (fun x => P (pl_price x)) v ->
  Forall (fun x => P (pl_price x)) (remove_view price qty d v).
Proof.
  induction 1 as [|l v Hl Hv IH]; simpl; [constructor|].
  repeat case_if; repeat constructor; eauto.
Qed.
End PriceForall.

Lemma add_view_sorted b price qty v :
  sorted_side b v -> sorted_side b (add_view b price qty v).
Proof.
  induction 1 as [|l v Hall Hs IH]; simpl; [repeat constructor|].
  repeat case_if.
  - by constructor.
  - constructor; [|done]. by apply (add_view_Forall (fun p => sorts_before b (pl_price l) p = true)).
  - assert (sorts_before b price (pl_price l) = true) as Hb by by apply sorts_before_total.
    constructor; [|by constructor]. constructor; [done|].
    eapply Forall_impl; [|exact Hall]. simpl. intros x. by apply sorts_before_trans.
Qed.

Lemma remove_view_sorted b price qty d v :
  sorted_side b v -> sorted_side b (remove_view price qty d v).
Proof.
  induction 1 as [|l v Hall Hs IH]; simpl; [constructor|].
  repeat case_if; [done|by constructor|].
  constructor; [|done]. by apply (remove_view_Forall (fun p => sorts_before b (pl_price l) p = true)).
Qed.

(** ** Binary search *)

Section Search.
Context (b : bool) (lv : Levels) (Hok : levels_ok b lv).
Abbreviation count := (lv_count lv).
Abbreviation arr := (lv_arr lv).

Lemma view_lookup i : i < count -> view lv !! i = Some (arr !!! i).
Proof.
  intros Hi. unfold view. rewrite lookup_take_lt by done. apply lookup_of_total.
  pose proof (lo_length _ _ Hok). pose proof (lo_count _ _ Hok). lia.
Qed.

Lemma view_length : length (view lv) = count.
Proof.
  unfold view. rewrite length_take. pose proof (lo_length _ _ Hok).
  pose proof (lo_count _ _ Hok). lia.
Qed.

Lemma arr_sorted i j : i < j -> j < count ->
  sorts_before b (pl_price (arr !!! i)) (pl_price (arr !!! j)) = true.
Proof.
  intros. eapply (sorted_lookup b (view lv) i j); [apply Hok|done|apply view_lookup; lia..].
Qed.

Lemma mid_bounds lo hi : lo < hi -> lo <= (lo + hi) / 2 < hi.
Proof.
  intros. split; [apply Nat.div_le_lower_bound; lia|apply Nat.Div0.div_lt_upper_bound; lia].
Qed.

Lemma find_level_loop_spec price fuel lo hi :
  hi - lo <= fuel -> hi <= count ->
  (forall i, i < lo -> pl_price (arr !!! i) <> price) ->
  (forall i, hi <= i < count -> pl_price (arr !!! i) <> price) ->
  let r := find_level_loop fuel b arr count price lo hi in
  (r < count /\ pl_price (arr !!! r) = price) \/
  (r = count /\ forall i, i < count -> pl_price (arr !!! i) <> price).
Proof.
  revert lo hi. induction fuel as [|n IH]; intros lo hi Hf Hhi Hlo Hup; cbn [find_level_loop]; cbv zeta.
  { right. split; [done|]. intros i Hi. destruct (decide (i < lo)); [auto|]. apply Hup. lia. }
  case_if.
  2: { right. split; [done|]. intros i Hi. destruct (decide (i < lo)); [auto|]. apply Hup. lia. }
  pose proof (mid_bounds lo hi ltac:(done)) as Hm. set (mid := (lo + hi) / 2) in *.
  case_if; [left; split; [lia|done]|]. case_if.
  - apply IH; [lia|lia| |done]. intros i Hi <-.
    destruct (decide (i = mid)) as [->|]; [done|].
    pose proof (arr_sorted i mid ltac:(lia) ltac:(lia)) as Ha.
    apply sorts_before_asym in Ha. congruence.
  - apply IH; [lia|lia|done|]. intros i Hi <-.
    destruct (decide (i = mid)) as [->|]; [done|].
    pose proof (arr_sorted mid i ltac:(lia) ltac:(lia)). congruence.
Qed.

Lemma FindLevel_spec price :
  let r := FindLevel b lv price in
  (r < count /\ pl_price (arr !!! r) = price) \/
  (r = count /\ forall i, i < count -> pl_price (arr !!! i) <> price).
Proof. apply find_level_loop_spec; lia. Qed.

Lemma insertion_loop_spec price fuel lo hi :
  hi - lo <= fuel -> lo <= hi <= count ->
  (forall i, i < lo -> sorts_before b (pl_price (arr !!! i)) price = true) ->
  (forall i, hi <= i < count -> sorts_before b (pl_price (arr !!! i)) price = false) ->
  let r := insertion_loop fuel b arr price lo hi in
  r <= count /\
  (forall i, i < r -> sorts_before b (pl_price (arr !!! i)) price = true) /\
  (forall i, r <= i < count -> sorts_before b (pl_price (arr !!! i)) price = false).
Proof.
  revert lo hi. induction fuel as [|n IH]; intros lo hi Hf Hhi Hlo Hup; cbn [insertion_loop]; cbv zeta.
  { split_and!; [lia|done|]. intros i Hi. apply Hup. lia. }
  case_if.
  2: { split_and!; [lia|done|]. intros i Hi. apply Hup. lia. }
  pose proof (mid_bounds lo hi ltac:(done)) as Hm. set (mid := (lo + hi) / 2) in *.
  case_if.
  - apply IH; [lia|lia| |done]. intros i Hi.
    destruct (decide (i = mid)) as [->|]; [done|].
    eapply sorts_before_trans; [apply (arr_sorted i mid); lia|done].
  - apply IH; [lia|lia|done|]. intros i Hi.
    destruct (decide (i = mid)) as [->|]; [done|].
    apply not_true_iff_false. intros Hc.
    pose proof (arr_sorted mid i ltac:(lia) ltac:(lia)) as Ha.
    pose proof (sorts_before_trans _ _ _ _ Ha Hc). congruence.
Qed.

Lemma InsertionPoint_spec price :
  let r := InsertionPoint b lv price in
  r <= count /\
  (forall i, i < r -> sorts_before b (pl_price (arr !!! i)) price = true) /\
  (forall i, r <= i < count -> sorts_before b (pl_price (arr !!! i)) price = false).
Proof. apply insertion_loop_spec; lia. Qed.
End Search.

(** ** The copy loops *)

Lemma shift_right_length n pos l : length (shift_right n pos l) = length l.
Proof.
  revert l. induction n as [|n IH]; intros l; simpl; [done|]. by rewrite IH, length_insert.
Qed.

Lemma shift_right_lookup n pos l j :
  pos + n < length l ->
  shift_right n pos l !! j = if decide (pos < j <= pos + n) then l !! (j - 1) else l !! j.
Proof.
  revert l. induction n as [|n IH]; intros l Hl; simpl.
  { case_decide; [lia|done]. }
  rewrite IH by (rewrite length_insert; lia).
  destruct (decide (j = pos + S n)) as [->|Hne].
  - rewrite decide_False by lia. rewrite decide_True by lia.
    rewrite list_lookup_insert_eq by lia. symmetry.
    replace (pos + S n - 1) with (pos + n) by lia. apply lookup_of_total. lia.
  - destruct (decide (pos < j <= pos + n)).
    + rewrite decide_True by lia. by rewrite list_lookup_insert_ne by lia.
    + rewrite decide_False by lia. by rewrite list_lookup_insert_ne by lia.
Qed.

Lemma shift_left_length n idx l : length (shift_left n idx l) = length l.
Proof.
  revert idx l. induction n as [|n IH]; intros idx l; simpl; [done|]. by rewrite IH, length_insert.
Qed.

Lemma shift_left_lookup n idx l j :
  idx + n < length l ->
  shift_left n idx l !! j = if decide (idx <= j < idx + n) then l !! (j + 1) else l !! j.
Proof.
  revert idx l. induction n as [|n IH]; intros idx l Hl; simpl.
  { case_decide; [lia|done]. }
  rewrite IH by (rewrite length_insert; lia).
  destruct (decide (j = idx)) as [->|Hne].
  - rewrite decide_False by lia. rewrite decide_True by lia.
    rewrite list_lookup_insert_eq by lia. symmetry. apply lookup_of_total. lia.
  - destruct (decide (S idx <= j < S idx + n)).
    + rewrite decide_True by lia. by rewrite list_lookup_insert_ne by lia.
    + rewrite decide_False by lia. by rewrite list_lookup_insert_ne by lia.
Qed.

(** Shifting the tail right and writing [x] inserts [x] at [pos]. *)
Lemma shift_right_insert n pos l x k :
  pos + n < length l -> k = pos + n + 1 ->
  take k (<[pos := x]> (shift_right n pos l)) = take pos l ++ x :: drop pos (take (pos + n) l).
Proof.
  intros Hl ->. apply list_eq. intros j.
  destruct (decide (j < pos + n + 1)) as [Hj|Hj].
  2: { rewrite lookup_take_ge by lia. symmetry. apply lookup_ge_None.
       rewrite length_app. simpl. rewrite length_drop, !length_take. lia. }
  rewrite lookup_take_lt by lia.
  destruct (decide (j < pos)).
  { rewrite list_lookup_insert_ne, shift_right_lookup, decide_False by lia.
    rewrite lookup_app_l by (rewrite length_take; lia). by rewrite lookup_take_lt. }
  rewrite lookup_app_r by (rewrite length_take; lia). rewrite length_take.
  replace (j - pos `min` length l) with (j - pos) by lia.
  destruct (decide (j = pos)) as [->|].
  { rewrite list_lookup_insert_eq by (rewrite shift_right_length; lia).
    by rewrite Nat.sub_diag. }
  rewrite list_lookup_insert_ne, shift_right_lookup, decide_True by lia.
  replace (j - pos) with (S (j - pos - 1)) by lia. simpl.
  rewrite lookup_drop, lookup_take_lt by lia. f_equal. lia.
Qed.

(** Shifting the tail left removes the element at [idx]. *)
Lemma shift_left_remove n idx l :
  idx + n < length l ->
  take (idx + n) (shift_left n idx l) = take idx l ++ drop (S idx) (take (idx + n + 1) l).
Proof.
  intros Hl. apply list_eq. intros j.
  destruct (decide (j < idx + n)) as [Hj|Hj].
  2: { rewrite lookup_take_ge by lia. symmetry. apply lookup_ge_None.
       rewrite length_app, length_drop, !length_take. lia. }
  rewrite lookup_take_lt, shift_left_lookup by lia.
  destruct (decide (j < idx)).
  { rewrite decide_False by lia.
    rewrite lookup_app_l by (rewrite length_take; lia). by rewrite lookup_take_lt. }
  rewrite decide_True by lia.
  rewrite lookup_app_r by (rewrite length_take; lia). rewrite length_take.
  rewrite lookup_drop, lookup_take_lt by lia. f_equal. lia.
Qed.

(** ** The reference operations by position *)

Lemma add_view_found b price qty v idx l :
  sorted_side b v -> v !! idx = Some l -> pl_price l = price ->
  add_view b price qty v = <[idx := add_order qty l]> v.
Proof.
  intros Hs. revert idx. induction Hs as [|x v Hall Hs IH]; intros idx Hl Hp; [done|].
  destruct idx as [|idx]; simpl in *.
  - simplify_eq. by rewrite Z.eqb_refl.
  - pose proof (Forall_lookup_1 _ _ _ _ Hall Hl) as Hb. simpl in Hb.
    rewrite Hp in Hb. rewrite (proj2 (Z.eqb_neq _ _)) by by eapply sorts_before_ne.
    rewrite Hb. f_equal. by apply IH.
Qed.

Lemma add_view_missing b price qty v pos :
  pos <= length v ->
  (forall i l, v !! i = Some l -> pl_price l <> price) ->
  (forall i l, i < pos -> v !! i = Some l -> sorts_before b (pl_price l) price = true) ->
  (forall i l, pos <= i -> v !! i = Some l -> sorts_before b (pl_price l) price = false) ->
  add_view b price qty v = take pos v ++ new_level price qty :: drop pos v.
Proof.
  revert pos. induction v as [|x v IH]; intros pos Hp Hne Hlo Hhi; simpl in *.
  { by replace pos with 0 by lia. }
  rewrite (proj2 (Z.eqb_neq _ _)) by by apply (Hne 0).
  destruct pos as [|pos].
  - rewrite (Hhi 0 x) by (done || lia). done.
  - rewrite (Hlo 0 x) by (done || lia). simpl. f_equal. apply IH; [lia|..].
    + intros i l Hi. by apply (Hne (S i)).
    + intros i l Hi Hl. apply (Hlo (S i)); [lia|done].
    + intros i l Hi Hl. apply (Hhi (S i)); [lia|done].
Qed.

Lemma remove_view_found b price qty d v idx l :
  sorted_side b v -> v !! idx = Some l -> pl_price l = price ->
  remove_view price qty d v =
    if level_empty (remove_order qty d l) then take idx v ++ drop (S idx) v
    else <[idx := remove_order qty d l]> v.
Proof.
  intros Hs. revert idx. induction Hs as [|x v Hall Hs IH]; intros idx Hl Hp; [done|].
  destruct idx as [|idx]; cbn [remove_view take drop insert list_insert lookup list_lookup] in *.
  - simplify_eq. rewrite Z.eqb_refl. by destruct (level_empty _).
  - pose proof (Forall_lookup_1 _ _ _ _ Hall Hl) as Hb. simpl in Hb.
    rewrite Hp in Hb. rewrite (proj2 (Z.eqb_neq _ _)) by by eapply sorts_before_ne.
    rewrite (IH idx) by done. by destruct (level_empty _).
Qed.

Lemma remove_view_missing price qty d v :
  (forall i l, v !! i = Some l -> pl_price l <> price) -> remove_view price qty d v = v.
Proof.
  induction v as [|x v IH]; intros Hne; simpl; [done|].
  rewrite (proj2 (Z.eqb_neq _ _)) by by apply (Hne 0).
  f_equal. apply IH. intros i l Hi. by apply (Hne (S i)).
Qed.

Lemma take_view_insert lv i x :
  i < lv_count lv -> take (lv_count lv) (<[i := x]> (lv_arr lv)) = <[i := x]> (view lv).
Proof. intros. unfold view. by apply take_insert_same. Qed.

Section ArrayEquiv.
Context (b : bool) (lv : Levels) (Hok : levels_ok b lv) (price : Price) (qty : Quantity).

Lemma view_missing :
  (forall i, i < lv_count lv -> pl_price (lv_arr lv !!! i) <> price) ->
  forall i l, view lv !! i = Some l -> pl_price l <> price.
Proof.
  intros Hno i l Hl. assert (i < lv_count lv).
  { apply lookup_lt_Some in Hl. by rewrite (view_length b) in Hl. }
  rewrite (view_lookup b) in Hl by done. simplify_eq. by apply Hno.
Qed.

(** [AddQtyToLevel] is sorted insertion, truncated to the best 256 levels. *)
Lemma AddQtyToLevel_view :
  levels_ok b (AddQtyToLevel b price qty lv) /\
  view (AddQtyToLevel b price qty lv) = take kMaxLevelsPerSide (add_view b price qty (view lv)).
Proof.
  pose proof (lo_length _ _ Hok) as Hlen. pose proof (lo_count _ _ Hok) as Hcnt.
  assert (length (AddQtyToLevel b price qty lv).(lv_arr) = kMaxLevelsPerSide /\
          lv_count (AddQtyToLevel b price qty lv) <= kMaxLevelsPerSide /\
          view (AddQtyToLevel b price qty lv)
            = take kMaxLevelsPerSide (add_view b price qty (view lv))) as (H1 & H2 & H3).
  2: { split; [|done]. split; [done..|]. rewrite H3.
       apply sorted_take, add_view_sorted, Hok. }
  unfold AddQtyToLevel. cbv zeta.
  destruct (FindLevel_spec b lv Hok price) as [[Hr Hp]|[Hr Hno]].
  - rewrite (proj2 (Nat.ltb_lt _ _)) by done. simpl. rewrite length_insert.
    split_and!; [done..|]. unfold view at 1. simpl. rewrite take_view_insert by done.
    rewrite (add_view_found b price qty (view lv) (FindLevel b lv price)
               (lv_arr lv !!! FindLevel b lv price)); [|apply Hok|by apply (view_lookup b)|done].
    rewrite take_ge; [done|]. rewrite length_insert, (view_length b); done.
  - rewrite Hr, Nat.ltb_irrefl.
    destruct (InsertionPoint_spec b lv Hok price) as (Hpos & Hlo & Hhi).
    set (pos := InsertionPoint b lv price) in *.
    assert (add_view b price qty (view lv) =
              take pos (view lv) ++ new_level price qty :: drop pos (view lv)) as Hav.
    { apply add_view_missing; [by rewrite (view_length b)|by apply view_missing|..].
      - intros i l Hi Hl. rewrite (view_lookup b) in Hl by (done || lia). simplify_eq. by apply Hlo.
      - intros i l Hi Hl. assert (i < lv_count lv).
        { apply lookup_lt_Some in Hl. by rewrite (view_length b) in Hl. }
        rewrite (view_lookup b) in Hl by done. simplify_eq. by apply Hhi. }
    rewrite Hav. assert (take pos (view lv) = take pos (lv_arr lv)) as Htp.
    { unfold view. rewrite take_take. f_equal. lia. }
    rewrite Htp. case_if.
    + assert (lv_count lv = kMaxLevelsPerSide) as Hc by lia. case_if; cbn [lv_arr lv_count].
      * split_and!; [done..|]. rewrite take_app_le by (rewrite length_take; lia).
        rewrite take_take. unfold view. f_equal. lia.
      * rewrite length_insert, shift_right_length. split_and!; [done..|].
        unfold view at 1. cbn [lv_arr lv_count]. rewrite Hc.
        rewrite shift_right_insert by lia.
        rewrite take_app_ge by (rewrite length_take; lia).
        rewrite length_take, Hlen.
        replace (kMaxLevelsPerSide - pos `min` kMaxLevelsPerSide)
          with (S (kMaxLevelsPerSide - 1 - pos)) by lia.
        rewrite firstn_cons. do 2 f_equal. unfold view. rewrite Hc.
        rewrite take_drop_commute, !take_take. f_equal. f_equal. lia.
    + cbn [lv_arr lv_count]. rewrite length_insert, shift_right_length. split_and!; [done|lia|].
      unfold view at 1. cbn [lv_arr lv_count]. rewrite shift_right_insert by lia.
      replace (pos + (lv_count lv - pos)) with (lv_count lv) by lia.
      rewrite (take_ge (_ ++ _)); [done|].
      rewrite length_app, length_take. simpl. rewrite length_drop, (view_length b) by done. lia.
Qed.

(** [RemoveQtyFromLevel] is removal from the sorted list. *)
Lemma RemoveQtyFromLevel_view d :
  levels_ok b (RemoveQtyFromLevel b price qty d lv) /\
  view (RemoveQtyFromLevel b price qty d lv) = remove_view price qty d (view lv).
Proof.
  pose proof (lo_length _ _ Hok) as Hlen. pose proof (lo_count _ _ Hok) as Hcnt.
  assert (length (RemoveQtyFromLevel b price qty d lv).(lv_arr) = kMaxLevelsPerSide /\
          lv_count (RemoveQtyFromLevel b price qty d lv) <= kMaxLevelsPerSide /\
          view (RemoveQtyFromLevel b price qty d lv) = remove_view price qty d (view lv))
    as (H1 & H2 & H3).
  2: { split; [|done]. split; [done..|]. rewrite H3. apply remove_view_sorted, Hok. }
  unfold RemoveQtyFromLevel. cbv zeta.
  destruct (FindLevel_spec b lv Hok price) as [[Hr Hp]|[Hr Hno]].
  - set (idx := FindLevel b lv price) in *. rewrite (proj2 (Nat.leb_gt _ _)) by done.
    rewrite (remove_view_found b price qty d (view lv) idx (lv_arr lv !!! idx));
      [|apply Hok|by apply (view_lookup b)|done].
    case_if; simpl; rewrite ?shift_left_length, length_insert; (split_and!; [done|lia|]);
      unfold view at 1; simpl.
    + replace (lv_count lv - 1) with (idx + (lv_count lv - 1 - idx)) at 1 by lia.
      rewrite shift_left_remove by (rewrite length_insert; lia).
      replace (idx + (lv_count lv - 1 - idx) + 1) with (lv_count lv) by lia.
      rewrite take_insert_ge by lia. rewrite take_view_insert by done.
      rewrite drop_insert_lt by lia. f_equal. unfold view. rewrite take_take. f_equal. lia.
    + by apply take_view_insert.
  - rewrite Hr, Nat.leb_refl. split_and!; [done..|].
    symmetry. by apply remove_view_missing, view_missing.
Qed.
End ArrayEquiv.

Lemma empty_levels_ok b : levels_ok b empty_levels.
Proof. split; [done|simpl; lia|constructor]. Qed.

(** ** Levels by price *)

Lemma level_at_lookup v p l : level_at v p = Some l -> exists i, v !! i = Some l /\ pl_price l = p.
Proof.
  induction v as [|x v IH]; simpl; [done|]. intros H. case_if_in H.
  - simplify_eq. by exists 0.
  - destruct (IH H) as (i & ? & ?). by exists (S i).
Qed.

Lemma level_at_Forall_None v p :
  Forall (fun x => pl_price x <> p) v -> level_at v p = None.
Proof.
  induction 1 as [|x v Hx Hv IH]; simpl; [done|]. by rewrite (proj2 (Z.eqb_neq _ _)).
Qed.

Lemma sorted_not_later b x v p :
  Forall (fun y => sorts_before b (pl_price x) (pl_price y) = true) v ->
  pl_price x = p \/ sorts_before b p (pl_price x) = true -> level_at v p = None.
Proof.
  intros Hall Hp. apply level_at_Forall_None. eapply Forall_impl; [|exact Hall].
  simpl. intros y Hy Heq. rewrite Heq in Hy. destruct Hp as [<-|Hp].
  - by rewrite sorts_before_irrefl in Hy.
  - apply sorts_before_asym in Hp. congruence.
Qed.

Lemma level_at_add b price qty v p :
  sorted_side b v ->
  level_at (add_view b price qty v) p =
    if (p =? price)%Z
    then Some (match level_at v price with
               | Some l => add_order qty l | None => new_level price qty end)
    else level_at v p.
Proof.
  induction 1 as [|x v Hall Hs IH]; simpl.
  { rewrite (Z.eqb_sym price p). by case_if. }
  destruct (pl_price x =? price)%Z eqn:Hx; bool_arith; simpl.
  { destruct (p =? price)%Z eqn:Hp; bool_arith; subst; [by rewrite Z.eqb_refl|].
    by rewrite (proj2 (Z.eqb_neq _ p)). }
  destruct (sorts_before b (pl_price x) price) eqn:Hb; simpl.
  - destruct (p =? price)%Z eqn:Hp; bool_arith; subst.
    + by rewrite (proj2 (Z.eqb_neq _ _)).
    + by rewrite IH.
  - rewrite (Z.eqb_sym price p).
    assert (level_at v price = None) as ->.
    { eapply sorted_not_later; [exact Hall|]. right. by apply sorts_before_total. }
    destruct (p =? price)%Z eqn:Hp; bool_arith; subst; done.
Qed.

Lemma level_at_remove b price qty d v p :
  sorted_side b v ->
  level_at (remove_view price qty d v) p =
    if (p =? price)%Z
    then match level_at v price with
         | Some l => if level_empty (remove_order qty d l) then None
                     else Some (remove_order qty d l)
         | None => None end
    else level_at v p.
Proof.
  induction 1 as [|x v Hall Hs IH]; cbn [remove_view level_at]; [by case_if|].
  destruct (pl_price x =? price)%Z eqn:Hx; bool_arith.
  - assert (level_at v price = None) as HN.
    { eapply sorted_not_later; [exact Hall|]. by left. }
    destruct (level_empty _); cbn [level_at]; rewrite ?remove_order_price, ?Hx;
      rewrite (Z.eqb_sym price p);
      destruct (p =? price)%Z eqn:Hp; bool_arith; subst; done.
  - cbn [level_at]. destruct (p =? price)%Z eqn:Hp; bool_arith; subst; rewrite ?IH.
    + by rewrite (proj2 (Z.eqb_neq _ _)).
    + done.
Qed.

Lemma add_view_length b price qty v :
  length (add_view b price qty v) <= S (length v) /\
  (is_Some (level_at v price) -> sorted_side b v -> length (add_view b price qty v) = length v).
Proof.
  induction v as [|x v [IH1 IH2]]; simpl; [by split; [lia|intros [? ?]]|].
  destruct (pl_price x =? price)%Z eqn:Hx; bool_arith; simpl; [by split; [lia|done]|].
  destruct (sorts_before b (pl_price x) price) eqn:Hb; simpl.
  - split; [lia|]. intros HS Hs. inversion Hs; subst. f_equal. by apply IH2.
  - split; [lia|]. intros [l Hl] Hs. inversion Hs as [|? ? Hall ?]; subst.
    rewrite (sorted_not_later b x v price Hall) in Hl; [done|]. right. by apply sorts_before_total.
Qed.

(** ** Runs of level operations *)

Inductive LevelOp :=
  | OpAddQty (price : Price) (qty : Quantity)
  | OpRemoveQty (price : Price) (qty : Quantity) (drop_order : bool).

Definition level_step (is_bid : bool) (lv : Levels) (op : LevelOp) : Levels :=
  match op with
  | OpAddQty p q => AddQtyToLevel is_bid p q lv
  | OpRemoveQty p q d => RemoveQtyFromLevel is_bid p q d lv
  end.

Definition view_step (is_bid : bool) (v : list PriceLevel) (op : LevelOp) : list PriceLevel :=
  match op with
  | OpAddQty p q => take kMaxLevelsPerSide (add_view is_bid p q v)
  | OpRemoveQty p q d => remove_view p q d v
  end.

Lemma level_run_refines b lv ops :
  levels_ok b lv ->
  levels_ok b (fold_left (level_step b) ops lv) /\
  view (fold_left (level_step b) ops lv) = fold_left (view_step b) ops (view lv).
Proof.
  revert lv. induction ops as [|op ops IH]; intros lv Hok; simpl; [done|].
  assert (levels_ok b (level_step b lv op) /\ view (level_step b lv op) = view_step b (view lv) op)
    as [Hok' Hv].
  { destruct op; [by apply AddQtyToLevel_view|by apply RemoveQtyFromLevel_view]. }
  rewrite <- Hv. by apply IH.
Qed.

(** C4.  On either side, every sequence of [AddQtyToLevel] and
    [RemoveQtyFromLevel] calls on a fresh array keeps the array strictly
    sorted (best price first) within its 256 slots, and the used slots are
    exactly what insertion into and removal from a sorted list, truncated to
    the best 256 levels, computes: binary search, shifts and counts agree with
    that reference at every step. *)
Theorem level_arrays_refine b ops :
  levels_ok b (fold_left (level_step b) ops empty_levels) /\
  view (fold_left (level_step b) ops empty_levels) = fold_left (view_step b) ops [].
Proof. apply (level_run_refines b empty_levels), empty_levels_ok. Qed.
