(* ===== verification/OrderBook.v ===== *)
(** * OrderBook: one instrument's book (src/order_book/order_book.hpp)

    The state of the class and every event handler, composed as [apply_event]
    composes them.  A handler that may run [EraseOrder] returns an [option]:
    [None] is the non-termination proved in [OrderTable]. *)

From Stdlib Require Import ZArith Lia.
From stdpp Require Import base gmap list numbers option.
From S2P Require Import Prelude Types OrderTable LevelArray.

Inductive BookResult : Set :=
  kOk | kSeeded | kGap | kStaleDropped | kTickViolation | kUnknownOrder | kFull.

#[global] Instance BookResult_eq_dec : EqDecision BookResult.
Proof. solve_decision. Defined.

Record OrderBook := {
  ob_token : Token;
  ob_tick_size : Price;
  ob_order_mask : nat;
  ob_orders : table;
  ob_bids : Levels;
  ob_asks : Levels;
  ob_expected_seq : Z;
  ob_stale : bool;
  ob_gap_count : Z;
}.

Definition OrderBook_new (token : Token) (tick_size : Price) (order_capacity : nat) : OrderBook :=
  let mask := RoundUpPow2 order_capacity - 1 in
  {| ob_token := token; ob_tick_size := tick_size; ob_order_mask := mask;
     ob_orders := replicate (mask + 1) empty_record;
     ob_bids := empty_levels; ob_asks := empty_levels;
     ob_expected_seq := 0; ob_stale := false; ob_gap_count := 0 |}.

(** Field updates. *)
Definition set_orders (t : table) (ob : OrderBook) : OrderBook :=
  {| ob_token := ob_token ob; ob_tick_size := ob_tick_size ob;
     ob_order_mask := ob_order_mask ob; ob_orders := t; ob_bids := ob_bids ob;
     ob_asks := ob_asks ob; ob_expected_seq := ob_expected_seq ob;
     ob_stale := ob_stale ob; ob_gap_count := ob_gap_count ob |}.

Definition set_levels (bids asks : Levels) (ob : OrderBook) : OrderBook :=
  {| ob_token := ob_token ob; ob_tick_size := ob_tick_size ob;
     ob_order_mask := ob_order_mask ob; ob_orders := ob_orders ob; ob_bids := bids;
     ob_asks := asks; ob_expected_seq := ob_expected_seq ob;
     ob_stale := ob_stale ob; ob_gap_count := ob_gap_count ob |}.

Definition set_seq (expected : Z) (stale : bool) (gaps : Z) (ob : OrderBook) : OrderBook :=
  {| ob_token := ob_token ob; ob_tick_size := ob_tick_size ob;
     ob_order_mask := ob_order_mask ob; ob_orders := ob_orders ob; ob_bids := ob_bids ob;
     ob_asks := ob_asks ob; ob_expected_seq := expected;
     ob_stale := stale; ob_gap_count := gaps |}.

Definition set_token (t : Token) (ob : OrderBook) : OrderBook :=
  {| ob_token := t; ob_tick_size := ob_tick_size ob;
     ob_order_mask := ob_order_mask ob; ob_orders := ob_orders ob; ob_bids := ob_bids ob;
     ob_asks := ob_asks ob; ob_expected_seq := ob_expected_seq ob;
     ob_stale := ob_stale ob; ob_gap_count := ob_gap_count ob |}.

Definition set_tick_size (t : Price) (ob : OrderBook) : OrderBook :=
  {| ob_token := ob_token ob; ob_tick_size := t;
     ob_order_mask := ob_order_mask ob; ob_orders := ob_orders ob; ob_bids := ob_bids ob;
     ob_asks := ob_asks ob; ob_expected_seq := ob_expected_seq ob;
     ob_stale := ob_stale ob; ob_gap_count := ob_gap_count ob |}.

(** [bids_]/[asks_] selected by the template parameter [IsBid]. *)
Definition side_levels (is_bid : bool) (ob : OrderBook) : Levels :=
  if is_bid then ob_bids ob else ob_asks ob.

Definition map_side (is_bid : bool) (f : Levels -> Levels) (ob : OrderBook) : OrderBook :=
  if is_bid then set_levels (f (ob_bids ob)) (ob_asks ob) ob
  else set_levels (ob_bids ob) (f (ob_asks ob)) ob.

Definition TickOk (ob : OrderBook) (price : Price) : bool :=
  (ob_tick_size ob =? 0)%Z || (Z.rem price (ob_tick_size ob) =? 0)%Z.

(** ** Reads *)

Definition best_bid (ob : OrderBook) : option PriceLevel :=
  if 0 <? lv_count (ob_bids ob) then Some (lv_arr (ob_bids ob) !!! 0) else None.

Definition best_ask (ob : OrderBook) : option PriceLevel :=
  if 0 <? lv_count (ob_asks ob) then Some (lv_arr (ob_asks ob) !!! 0) else None.

(** [for (i = 0; i < count; ++i) if (levels[i].price == price) return ...]. *)
Fixpoint displayed_scan (n i : nat) (levels : list PriceLevel) (price : Price) : Quantity :=
  match n with
  | 0 => 0
  | S n' =>
      if (pl_price (levels !!! i) =? price)%Z then pl_total_quantity (levels !!! i)
      else displayed_scan n' (S i) levels price
  end.

Definition displayed_qty_at (ob : OrderBook) (side : Side) (price : Price) : Quantity :=
  let lv := side_levels side ob in displayed_scan (lv_count lv) 0 (lv_arr lv) price.

(** ** Handlers *)

Definition clear (ob : OrderBook) : OrderBook :=
  let zero lv := {| lv_arr := lv_arr lv; lv_count := 0 |} in
  set_seq (ob_expected_seq ob) false (ob_gap_count ob)
    (set_orders (set_occupied false <$> ob_orders ob)
       (set_levels (zero (ob_bids ob)) (zero (ob_asks ob)) ob)).

Definition seed_side (price : Price) (qty : Quantity) (lv : Levels) : Levels :=
  {| lv_arr := <[0 := {| pl_price := price; pl_total_quantity := qty; pl_order_count := 1 |}]>
                 (lv_arr lv);
     lv_count := 1 |}.

(** [if (qty > 0 && TickOk(price)) { levels[0] = {price, qty, 1}; count = 1; }]. *)
Definition seed_quote (is_bid : bool) (price : Price) (qty : Quantity) (ob : OrderBook)
    : OrderBook :=
  if (qty >? 0)%Z && TickOk ob price then map_side is_bid (seed_side price qty) ob else ob.

Definition Seed (ob : OrderBook) (ev : MarketEvent) : OrderBook * BookResult :=
  let ob := clear ob in
  let expected := if (ev_seq_no ev =? 0)%Z then ob_expected_seq ob else u64 (ev_seq_no ev + 1) in
  let ob := set_seq expected false (ob_gap_count ob) ob in
  let ob := seed_quote true (ev_bid_price ev) (ev_bid_qty ev) ob in
  (seed_quote false (ev_ask_price ev) (ev_ask_qty ev) ob, kSeeded).

Definition ApplyAdd (ob : OrderBook) (ev : MarketEvent) : OrderBook * BookResult :=
  if negb (TickOk ob (ev_price ev)) then (ob, kTickViolation)
  else
    let rec := {| r_order_no := ev_order_no ev; r_price := ev_price ev; r_qty := ev_qty ev;
                  r_side := ev_side ev; r_occupied := true |} in
    match InsertOrder (ob_orders ob) (ob_order_mask ob) rec with
    | None => (ob, kFull)
    | Some t =>
        (map_side (ev_side ev) (AddQtyToLevel (ev_side ev) (ev_price ev) (ev_qty ev))
           (set_orders t ob), kOk)
    end.

Definition with_price_qty (price : Price) (qty : Quantity) (r : OrderRecord) : OrderRecord :=
  {| r_order_no := r_order_no r; r_price := price; r_qty := qty; r_side := r_side r;
     r_occupied := r_occupied r |}.

Definition ApplyModify (ob : OrderBook) (ev : MarketEvent) : OrderBook * BookResult :=
  if negb (TickOk ob (ev_price ev)) then (ob, kTickViolation)
  else
    match FindOrder (ob_orders ob) (ob_order_mask ob) (ev_order_no ev) with
    | None => (ob, kUnknownOrder)
    | Some i =>
        let rec := ob_orders ob !!! i in
        let b := r_side rec in
        let ob := map_side b (RemoveQtyFromLevel b (r_price rec) (r_qty rec) true) ob in
        let ob := set_orders (<[i := with_price_qty (ev_price ev) (ev_qty ev) rec]> (ob_orders ob)) ob in
        (map_side b (AddQtyToLevel b (ev_price ev) (ev_qty ev)) ob, kOk)
    end.

Definition ApplyCancel (ob : OrderBook) (ev : MarketEvent) : option (OrderBook * BookResult) :=
  match FindOrder (ob_orders ob) (ob_order_mask ob) (ev_order_no ev) with
  | None => Some (ob, kUnknownOrder)
  | Some i =>
      let rec := ob_orders ob !!! i in
      let b := r_side rec in
      let ob := map_side b (RemoveQtyFromLevel b (r_price rec) (r_qty rec) true) ob in
      t ← EraseOrder (ob_orders ob) (ob_order_mask ob) (ev_order_no ev);
      Some (set_orders t ob, kOk)
  end.

Definition ReduceResting (ob : OrderBook) (order_no : Z) (traded : Quantity)
    : option (OrderBook * bool) :=
  if (order_no =? 0)%Z then Some (ob, false)
  else
    match FindOrder (ob_orders ob) (ob_order_mask ob) order_no with
    | None => Some (ob, false)
    | Some i =>
        let rec := ob_orders ob !!! i in
        let b := r_side rec in
        let fully := (traded >=? r_qty rec)%Z in
        let reduce := if fully then r_qty rec else traded in
        let ob := map_side b (RemoveQtyFromLevel b (r_price rec) reduce fully) ob in
        if fully then
          t ← EraseOrder (ob_orders ob) (ob_order_mask ob) order_no;
          Some (set_orders t ob, true)
        else
          Some (set_orders (<[i := with_price_qty (r_price rec) (i32 (r_qty rec - reduce)) rec]>
                              (ob_orders ob)) ob, true)
    end.

Definition ApplyTrade (ob : OrderBook) (ev : MarketEvent) : option (OrderBook * BookResult) :=
  '(ob, a) ← ReduceResting ob (ev_order_no ev) (ev_qty ev);
  '(ob, b) ← ReduceResting ob (ev_order_no2 ev) (ev_qty ev);
  Some (ob, if a || b then kOk else kUnknownOrder).

(** The dispatch on the message type, after the sequence check. *)
Definition dispatch (ob : OrderBook) (ev : MarketEvent) : option (OrderBook * BookResult) :=
  match msg_type (ev_type ev) with
  | Some kSnapQuote => Some (Seed ob ev)
  | Some kOrderAdd => if ob_stale ob then Some (ob, kStaleDropped) else Some (ApplyAdd ob ev)
  | Some kOrderModify => if ob_stale ob then Some (ob, kStaleDropped) else Some (ApplyModify ob ev)
  | Some kOrderCancel => if ob_stale ob then Some (ob, kStaleDropped) else ApplyCancel ob ev
  | Some kTrade => if ob_stale ob then Some (ob, kStaleDropped) else ApplyTrade ob ev
  | _ => Some (ob, kOk)
  end.

Definition is_snap (ev : MarketEvent) : bool :=
  match msg_type (ev_type ev) with Some kSnapQuote => true | _ => false end.

Definition seq_gap (ob : OrderBook) (ev : MarketEvent) : bool :=
  negb (ev_seq_no ev =? 0)%Z && negb (ob_expected_seq ob =? 0)%Z &&
  negb (ev_seq_no ev =? ob_expected_seq ob)%Z.

Definition apply_event (ob : OrderBook) (ev : MarketEvent) : option (OrderBook * BookResult) :=
  if (ev_seq_no ev =? 0)%Z then dispatch ob ev
  else if seq_gap ob ev then
    let ob := set_seq (u64 (ev_seq_no ev + 1)) true (u64 (ob_gap_count ob + 1)) ob in
    if is_snap ev then dispatch ob ev else Some (ob, kGap)
  else dispatch (set_seq (u64 (ev_seq_no ev + 1)) (ob_stale ob) (ob_gap_count ob) ob) ev.

(** A feed: the events in order, with the result of each. *)
Fixpoint apply_events (ob : OrderBook) (evs : list MarketEvent)
    : option (OrderBook * list BookResult) :=
  match evs with
  | [] => Some (ob, [])
  | ev :: evs =>
      '(ob, r) ← apply_event ob ev; '(ob, rs) ← apply_events ob evs; Some (ob, r :: rs)
  end.

(** ** Well-formedness *)

Definition on_tick (tick : Price) (p : Price) : Prop := tick = 0%Z \/ Z.rem p tick = 0%Z.

Record side_ok (tick : Price) (is_bid : bool) (lv : Levels) : Prop := {
  so_levels : levels_ok is_bid lv;
  so_tick : Forall (fun l => on_tick tick (pl_price l)) (view lv);
}.

(** Sorted level arrays within bounds, on the tick grid, and a well-formed
    order table. *)
Record book_wf (ob : OrderBook) : Prop := {
  wf_table : table_ok (ob_orders ob) (ob_order_mask ob);
  wf_bids : side_ok (ob_tick_size ob) true (ob_bids ob);
  wf_asks : side_ok (ob_tick_size ob) false (ob_asks ob);
}.

Lemma TickOk_on_tick ob p : TickOk ob p = true <-> on_tick (ob_tick_size ob) p.
Proof. unfold TickOk, on_tick. rewrite orb_true_iff, !Z.eqb_eq. done. Qed.

Section SideOk.
Context (tick : Price) (b : bool) (lv : Levels) (Hs : side_ok tick b lv).

Lemma side_ok_add price qty :
  on_tick tick price -> side_ok tick b (AddQtyToLevel b price qty lv).
Proof.
  intros Ht. destruct (AddQtyToLevel_view b lv (so_levels _ _ _ Hs) price qty) as [Hok Hv].
  split; [done|]. rewrite Hv. apply Forall_take.
  by apply (add_view_Forall (on_tick tick)), Ht; apply Hs.
Qed.

Lemma side_ok_remove price qty d : side_ok tick b (RemoveQtyFromLevel b price qty d lv).
Proof.
  destruct (RemoveQtyFromLevel_view b lv (so_levels _ _ _ Hs) price qty d) as [Hok Hv].
  split; [done|]. rewrite Hv. apply (remove_view_Forall (on_tick tick)), Hs.
Qed.

Lemma side_ok_zero : side_ok tick b {| lv_arr := lv_arr lv; lv_count := 0 |}.
Proof.
  split; [|constructor]. destruct Hs as [[Hl Hc Hso] _].
  split; [done|simpl; lia|constructor].
Qed.

Lemma side_ok_seed price qty : on_tick tick price -> side_ok tick b (seed_side price qty lv).
Proof.
  intros Ht. destruct Hs as [[Hl Hc Hso] _]. unfold seed_side, kMaxLevelsPerSide in *.
  destruct (lv_arr lv) as [|x arr] eqn:Ha; [done|].
  split.
  - split; [done|simpl; unfold kMaxLevelsPerSide; lia|].
    unfold view; simpl. rewrite firstn_O. repeat constructor.
  - unfold view; simpl. rewrite firstn_O. by constructor.
Qed.
End SideOk.

Lemma side_levels_ok ob b : book_wf ob -> side_ok (ob_tick_size ob) b (side_levels b ob).
Proof. intros [_ Hb Ha]. by destruct b. Qed.

Lemma wf_map_side ob b f :
  book_wf ob ->
  (forall lv, side_ok (ob_tick_size ob) b lv -> side_ok (ob_tick_size ob) b (f lv)) ->
  book_wf (map_side b f ob).
Proof. intros [Ht Hb Ha] Hf. destruct b; split; simpl; auto. Qed.

Lemma wf_set_orders ob t :
  book_wf ob -> table_ok t (ob_order_mask ob) -> book_wf (set_orders t ob).
Proof. intros [Ht Hb Ha] Hok. by split. Qed.

Lemma wf_set_seq ob e s g : book_wf ob -> book_wf (set_seq e s g ob).
Proof. intros [Ht Hb Ha]. by split. Qed.

Lemma map_side_orders b f ob : ob_orders (map_side b f ob) = ob_orders ob.
Proof. by destruct b. Qed.
Lemma map_side_mask b f ob : ob_order_mask (map_side b f ob) = ob_order_mask ob.
Proof. by destruct b. Qed.
Lemma map_side_tick b f ob : ob_tick_size (map_side b f ob) = ob_tick_size ob.
Proof. by destruct b. Qed.

#[export] Hint Resolve wf_map_side wf_set_orders wf_set_seq side_ok_add side_ok_remove
  side_ok_zero side_ok_seed : lowlat.
#[export] Hint Rewrite map_side_orders map_side_mask map_side_tick : lowlat.

Lemma table_ok_cleared t mask : table_ok t mask -> table_ok (set_occupied false <$> t) mask.
Proof.
  intros [Hp Hl _ _].
  assert (forall i r, ~ holds (set_occupied false <$> t) i r) as Hno.
  { intros i r [Hi Ho]. rewrite list_lookup_fmap in Hi.
    destruct (t !! i); simplify_eq/=. }
  split; [done|by rewrite length_fmap| |].
  - intros i j r s Hi. by destruct (Hno i r).
  - intros i r s Hi. by destruct (Hno i r).
Qed.

Lemma table_repr_cleared t : table_repr (set_occupied false <$> t) ∅.
Proof.
  intros k v. rewrite lookup_empty. split; [done|]. intros (i & r & [Hi Ho] & _).
  rewrite list_lookup_fmap in Hi. destruct (t !! i); simplify_eq/=.
Qed.

Lemma wf_clear ob : book_wf ob -> book_wf (clear ob).
Proof.
  intros [Ht Hb Ha]. split; simpl; [by apply table_ok_cleared|by apply side_ok_zero..].
Qed.

Lemma wf_seed_quote b p q ob : book_wf ob -> book_wf (seed_quote b p q ob).
Proof.
  intros Hwf. unfold seed_quote. destruct (_ && _) eqn:Hc; [|done]. bool_arith.
  apply wf_map_side; [done|]. intros. apply side_ok_seed; [done|]. by apply TickOk_on_tick.
Qed.

Lemma wf_Seed ob ev : book_wf ob -> book_wf (Seed ob ev).1.
Proof. intros Hwf. by apply wf_seed_quote, wf_seed_quote, wf_set_seq, wf_clear. Qed.

Lemma wf_ApplyAdd ob ev : book_wf ob -> book_wf (ApplyAdd ob ev).1.
Proof.
  intros Hwf. unfold ApplyAdd. case_if; [done|]. apply TickOk_on_tick in Heqb.
  pose proof (InsertOrder_cases _ _ (wf_table _ Hwf) _
    {| r_order_no := ev_order_no ev; r_price := ev_price ev; r_qty := ev_qty ev;
       r_side := ev_side ev; r_occupied := true |}
    (table_repr_of_live _ _ (wf_table _ Hwf))) as Hi.
  destruct (InsertOrder _ _ _) as [t|]; simpl; [|done]. destruct Hi as [Hok _].
  apply wf_map_side; [by apply wf_set_orders|]. intros. by apply side_ok_add.
Qed.

(** A found record can be rewritten in place. *)
Lemma table_ok_update t mask k i p q :
  table_ok t mask -> FindOrder t mask k = Some i ->
  table_ok (<[i := with_price_qty p q (t !!! i)]> t) mask.
Proof.
  intros Hok Hf. pose proof (find_Some_holds _ _ Hok _ _ Hf) as [[_ Ho] Hk].
  by eapply (update_found t mask Hok _ k i (with_price_qty p q (t !!! i))
    (table_repr_of_live _ _ Hok)).
Qed.

Lemma wf_ApplyModify ob ev : book_wf ob -> book_wf (ApplyModify ob ev).1.
Proof.
  intros Hwf. unfold ApplyModify. case_if; [done|]. apply TickOk_on_tick in Heqb.
  destruct (FindOrder _ _ _) as [i|] eqn:Hf; simpl; [|done].
  apply wf_map_side; [|simpl; autorewrite with lowlat; intros; by apply side_ok_add].
  apply wf_set_orders; [apply wf_map_side; [done|intros; by apply side_ok_remove]|].
  autorewrite with lowlat. eapply table_ok_update; [apply Hwf|done].
Qed.

Lemma wf_erase ob k :
  book_wf ob ->
  match EraseOrder (ob_orders ob) (ob_order_mask ob) k with
  | Some t => book_wf (set_orders t ob) /\ (has_free t \/ t = ob_orders ob)
  | None => ~ has_free (ob_orders ob)
  end.
Proof.
  intros Hwf. pose proof (EraseOrder_total _ _ k (wf_table _ Hwf)) as He.
  destruct (EraseOrder _ _ _); [|done]. destruct He. split; [by apply wf_set_orders|done].
Qed.

Lemma wf_ApplyCancel ob ev :
  book_wf ob ->
  match ApplyCancel ob ev with
  | Some (ob', _) => book_wf ob'
  | None => ~ has_free (ob_orders ob)
  end.
Proof.
  intros Hwf. unfold ApplyCancel. destruct (FindOrder _ _ _) as [i|] eqn:Hf; [|done].
  set (ob1 := map_side _ _ ob).
  assert (book_wf ob1) as H1 by (apply wf_map_side; [done|intros; by apply side_ok_remove]).
  pose proof (wf_erase ob1 (ev_order_no ev) H1) as He.
  assert (ob_orders ob1 = ob_orders ob) as Eo by apply map_side_orders.
  destruct (EraseOrder _ _ _); simpl; [by destruct He|by rewrite <- Eo].
Qed.

Lemma wf_ReduceResting ob k q :
  book_wf ob ->
  match ReduceResting ob k q with
  | Some (ob', _) => book_wf ob' /\ (has_free (ob_orders ob) -> has_free (ob_orders ob'))
  | None => ~ has_free (ob_orders ob)
  end.
Proof.
  intros Hwf. unfold ReduceResting. case_if; [done|].
  destruct (FindOrder _ _ _) as [i|] eqn:Hf; [|done]. cbv zeta.
  set (ob1 := map_side _ _ ob).
  assert (book_wf ob1) as H1 by (apply wf_map_side; [done|intros; by apply side_ok_remove]).
  assert (ob_orders ob1 = ob_orders ob) as Eo by apply map_side_orders.
  assert (ob_order_mask ob1 = ob_order_mask ob) as Em by apply map_side_mask.
  destruct (q >=? _)%Z.
  - pose proof (wf_erase ob1 k H1) as He.
    destruct (EraseOrder _ _ _) as [t|]; simpl; [|by rewrite <- Eo].
    destruct He as [He Hfr]. split; [done|]. rewrite Eo in Hfr.
    destruct Hfr as [ | -> ]; done.
  - assert (table_ok (<[i:=with_price_qty (r_price (ob_orders ob !!! i))
        (i32 (r_qty (ob_orders ob !!! i) - q)) (ob_orders ob !!! i)]> (ob_orders ob1))
        (ob_order_mask ob1)) as Hok.
    { rewrite Eo, Em. eapply table_ok_update; [apply Hwf|done]. }
    split; [by apply wf_set_orders|]. simpl. rewrite Eo.
    intros (j & r & Hj & Ho). exists j, r. split; [|done].
    apply (find_Some_holds _ _ (wf_table _ Hwf)) in Hf as [Hh _].
    rewrite list_lookup_insert_ne; [done|]. intros ->. destruct Hh as [Hh ?]. congruence.
Qed.

Lemma wf_dispatch ob ev :
  book_wf ob ->
  match dispatch ob ev with
  | Some (ob', _) => book_wf ob'
  | None => ~ has_free (ob_orders ob)
  end.
Proof.
  intros Hwf. unfold dispatch. destruct (msg_type _) as [[]|]; try done.
  - destruct (ob_stale ob); [done|]. pose proof (wf_ApplyAdd ob ev Hwf). by destruct (ApplyAdd _ _).
  - destruct (ob_stale ob); [done|]. pose proof (wf_ApplyModify ob ev Hwf). by destruct (ApplyModify _ _).
  - destruct (ob_stale ob); [done|]. by apply wf_ApplyCancel.
  - destruct (ob_stale ob); [done|]. unfold ApplyTrade.
    pose proof (wf_ReduceResting ob (ev_order_no ev) (ev_qty ev) Hwf) as H1.
    destruct (ReduceResting ob _ _) as [[ob1 a]|]; simpl; [|done]. destruct H1 as [H1 Hf1].
    pose proof (wf_ReduceResting ob1 (ev_order_no2 ev) (ev_qty ev) H1) as H2.
    destruct (ReduceResting ob1 _ _) as [[ob2 c]|]; simpl; [by destruct H2|by auto].
  - pose proof (wf_Seed ob ev Hwf). by destruct (Seed _ _).
Qed.

Lemma apply_event_wf_or_full ob ev :
  book_wf ob ->
  match apply_event ob ev with
  | Some (ob', _) => book_wf ob'
  | None => ~ has_free (ob_orders ob)
  end.
Proof.
  intros Hwf. unfold apply_event. case_if; [by apply wf_dispatch|].
  case_if; [case_if|].
  - apply (wf_dispatch (set_seq _ _ _ ob)). by apply wf_set_seq.
  - by apply wf_set_seq.
  - apply (wf_dispatch (set_seq _ _ _ ob)). by apply wf_set_seq.
Qed.

Lemma OrderBook_new_wf token tick cap : book_wf (OrderBook_new token tick cap).
Proof.
  destruct (RoundUpPow2_spec cap) as (k & Hk & _).
  assert (0 < 2 ^ k) by (apply Nat.neq_0_lt_0, Nat.pow_nonzero; lia).
  split; simpl.
  - apply table_ok_empty. exists k. lia.
  - split; [apply empty_levels_ok|constructor].
  - split; [apply empty_levels_ok|constructor].
Qed.

(** C5.  From a fresh book, whatever events arrive, the book stays well formed
    (level arrays strictly sorted and within 256 slots, every level on the tick
    grid, order table sound); the only way it stops answering is an event that
    arrives when the order table has no free slot left. *)
Theorem book_reachable_wf token tick cap evs :
  match apply_events (OrderBook_new token tick cap) evs with
  | Some (ob, _) => book_wf ob
  | None => exists pre ev post ob rs, evs = pre ++ ev :: post /\
      apply_events (OrderBook_new token tick cap) pre = Some (ob, rs) /\
      book_wf ob /\ ~ has_free (ob_orders ob) /\ apply_event ob ev = None
  end.
Proof.
  generalize (OrderBook_new_wf token tick cap). generalize (OrderBook_new token tick cap) as ob0.
  induction evs as [|ev evs IH]; intros ob0 Hwf; simpl; [done|].
  pose proof (apply_event_wf_or_full ob0 ev Hwf) as Hev.
  destruct (apply_event ob0 ev) as [[ob1 r]|] eqn:E; simpl.
  2: { exists [], ev, evs, ob0, []. done. }
  specialize (IH ob1 Hev). destruct (apply_events ob1 evs) as [[ob2 rs]|]; simpl; [done|].
  destruct IH as (pre & ev' & post & ob & rs & -> & Hrun & ?).
  exists (ev :: pre), ev', post, ob, (r :: rs).
  split; [done|]. simpl. rewrite E. simpl. by rewrite Hrun.
Qed.

(** ** Staleness *)

Lemma stale_step ob ev :
  ob_stale ob = true -> is_snap ev = false ->
  exists ob' r, apply_event ob ev = Some (ob', r) /\ ob_stale ob' = true /\
    ob_orders ob' = ob_orders ob /\ ob_bids ob' = ob_bids ob /\ ob_asks ob' = ob_asks ob /\
    r ∈ [kGap; kStaleDropped; kOk].
Proof.
  intros Hst Hsnap. unfold apply_event.
  assert (forall o, ob_stale o = true -> ob_orders o = ob_orders ob -> ob_bids o = ob_bids ob ->
    ob_asks o = ob_asks ob -> exists ob' r, dispatch o ev = Some (ob', r) /\ ob_stale ob' = true /\
    ob_orders ob' = ob_orders ob /\ ob_bids ob' = ob_bids ob /\ ob_asks ob' = ob_asks ob /\
    r ∈ [kGap; kStaleDropped; kOk]) as Hd.
  { intros o Ho H1 H2 H3. unfold dispatch, is_snap in *. rewrite Ho.
    destruct (msg_type _) as [[]|]; try done; eexists _, _; (split; [done|]);
      split_and!; try done; set_solver. }
  rewrite Hsnap. repeat case_if; try by apply Hd.
  eexists _, _. split; [done|]. split_and!; try done. set_solver.
Qed.

(** Once a sequence gap has marked the book stale, no event other than a
    Snap Quote changes an order, a bid or an ask, and the book stays stale:
    each such event is answered (a further gap, dropped, or nothing to do),
    however many arrive. *)
Theorem stale_book_frozen ob evs :
  ob_stale ob = true -> Forall (fun ev => is_snap ev = false) evs ->
  exists ob' rs, apply_events ob evs = Some (ob', rs) /\ ob_stale ob' = true /\
    ob_orders ob' = ob_orders ob /\ ob_bids ob' = ob_bids ob /\ ob_asks ob' = ob_asks ob /\
    Forall (fun r => r ∈ [kGap; kStaleDropped; kOk]) rs.
Proof.
  intros Hst Hev. revert ob Hst. induction Hev as [|ev evs Hsnap Hevs IH]; intros ob Hst; simpl.
  { exists ob, []. by repeat constructor. }
  destruct (stale_step ob ev Hst Hsnap) as (ob1 & r & -> & Hst1 & Ho & Hb & Ha & Hr). simpl.
  destruct (IH ob1 Hst1) as (ob2 & rs & -> & Hst2 & Ho2 & Hb2 & Ha2 & Hrs). simpl.
  exists ob2, (r :: rs). split_and!; try done; try congruence. by constructor.
Qed.

(** A small book used by the witnesses: one buy order, then a missing
    sequence number. *)
Definition sample_add (no : Z) (b : Side) (p q seq : Z) : MarketEvent :=
  {| ev_ts := 0; ev_token := 7; ev_price := p; ev_qty := q; ev_side := b;
     ev_type := msg_code kOrderAdd; ev_order_no := no; ev_stream_id := 1; ev_seq_no := seq;
     ev_order_no2 := 0; ev_trade_no := 0; ev_bid_price := 0; ev_bid_qty := 0;
     ev_ask_price := 0; ev_ask_qty := 0 |}.

Definition sample_cancel (no seq : Z) : MarketEvent :=
  {| ev_ts := 0; ev_token := 7; ev_price := 0; ev_qty := 0; ev_side := kBuy;
     ev_type := msg_code kOrderCancel; ev_order_no := no; ev_stream_id := 1; ev_seq_no := seq;
     ev_order_no2 := 0; ev_trade_no := 0; ev_bid_price := 0; ev_bid_qty := 0;
     ev_ask_price := 0; ev_ask_qty := 0 |}.

Definition gapped_book : OrderBook :=
  default (OrderBook_new 0 0 0)
    (fst <$> apply_events (OrderBook_new 7 5 8) [sample_add 1 kBuy 100 10 1; sample_cancel 1 3]).

Lemma stale_book_frozen_witness :
  ob_stale gapped_book = true /\
  exists ob' rs, apply_events gapped_book [sample_cancel 1 4; sample_add 2 kSell 105 5 9]
      = Some (ob', rs) /\ ob_stale ob' = true /\
    ob_orders ob' = ob_orders gapped_book /\ ob_bids ob' = ob_bids gapped_book /\
    ob_asks ob' = ob_asks gapped_book /\ Forall (fun r => r ∈ [kGap; kStaleDropped; kOk]) rs.
Proof.
  split; [vm_compute; reflexivity|].
  apply (stale_book_frozen gapped_book).
  - vm_compute. reflexivity.
  - repeat constructor.
Defined.
