(* ===== verification/BookLiveness.v ===== *)
(** * BookLiveness: a book with room answers every event
      (src/order_book/order_book.hpp)

    [EraseOrder] loops for ever on a full table.  Here is the guarantee a caller
    has: a feed that adds orders under fewer distinct numbers than the capacity is
    processed to its end, however often it adds and removes them. *)

From Stdlib Require Import ZArith Lia.
From stdpp Require Import base gmap list numbers option.
From S2P Require Import Prelude Types OrderTable LevelArray OrderBook.

(** A well-formed book of [cap] slots whose live orders have their numbers in [K]. *)
Record room (cap : nat) (K : gset Z) (ob : OrderBook) : Prop := {
  rm_wf : book_wf ob;
  rm_cap : ob_order_mask ob + 1 = cap;
  rm_load : exists m, table_repr (ob_orders ob) m /\ dom m ⊆ K;
}.

Lemma room_weaken cap K K' ob : K ⊆ K' -> room cap K ob -> room cap K' ob.
Proof. intros HK [Hwf Hc (m & Hm & Hs)]. split; [done..|]. exists m. split; [done|set_solver]. Qed.

Lemma room_free cap K ob m :
  room cap K ob -> size K < cap -> table_repr (ob_orders ob) m -> has_free (ob_orders ob).
Proof.
  intros [[Hok _ _] Hc (m' & Hm' & Hs)] HK Hm.
  assert (m = m') as -> by (rewrite (table_repr_live _ _ m Hok Hm); symmetry; by apply table_repr_live with (ob_order_mask ob)).
  apply (has_free_size _ _ _ Hok Hm). apply subseteq_size in Hs. rewrite size_dom in Hs. lia.
Qed.

Definition is_add (ev : MarketEvent) : bool :=
  match msg_type (ev_type ev) with Some kOrderAdd => true | _ => false end.

(** The number of additions of a feed. *)
Definition adds (evs : list MarketEvent) : nat := length (filter (fun ev => is_add ev = true) evs).

Section Handlers.
Context (cap : nat) (K : gset Z) (ob : OrderBook) (Hr : room cap K ob) (HK : size K < cap).

Lemma room_same ob' :
  book_wf ob' -> ob_order_mask ob' = ob_order_mask ob -> ob_orders ob' = ob_orders ob -> room cap K ob'.
Proof. destruct Hr as [_ Hc (m & Hm & Hs)]. intros Hwf Em Eo. split; [done|lia|]. exists m. by rewrite Eo. Qed.

Lemma room_ApplyAdd ev : room cap ({[ev_order_no ev]} ∪ K) (ApplyAdd ob ev).1.
Proof.
  pose proof (wf_ApplyAdd ob ev (rm_wf _ _ _ Hr)) as Hwf. revert Hwf. destruct Hr as [Hw Hc (m & Hm & Hs)].
  unfold ApplyAdd. case_if; [intros _; by apply (room_weaken cap K); [set_solver|]|].
  pose proof (InsertOrder_cases _ _ (wf_table _ Hw) m
    {| r_order_no := ev_order_no ev; r_price := ev_price ev; r_qty := ev_qty ev;
       r_side := ev_side ev; r_occupied := true |} Hm) as Hi.
  destruct (InsertOrder _ _ _) as [t|]; simpl; [|intros _; by apply (room_weaken cap K); [set_solver|]].
  intros Hwf. destruct Hi as [_ Hi]. split; [done|by autorewrite with lowlat|].
  autorewrite with lowlat. eexists. split; [exact Hi|].
  cbn [r_order_no]. rewrite dom_insert. set_solver.
Qed.

Lemma room_ApplyModify ev : room cap K (ApplyModify ob ev).1.
Proof.
  pose proof (wf_ApplyModify ob ev (rm_wf _ _ _ Hr)) as Hwf. revert Hwf.
  destruct Hr as [Hw Hc (m & Hm & Hs)]. unfold ApplyModify. case_if; [done|].
  destruct (FindOrder _ _ _) as [i|] eqn:Hf; simpl; [|done]. intros Hwf.
  split; [done|by repeat (autorewrite with lowlat; simpl)|].
  pose proof (find_Some_holds _ _ (wf_table _ Hw) _ _ Hf) as [[_ Ho] Hk].
  pose proof (FindOrder_lookup _ _ (wf_table _ Hw) m (ev_order_no ev) Hm) as Hl. rewrite Hf in Hl.
  eexists. split; [repeat (autorewrite with lowlat; simpl); by eapply (update_found _ _ (wf_table _ Hw) m (ev_order_no ev) i)|].
  rewrite dom_insert. simpl in Hl. symmetry in Hl. apply elem_of_dom_2 in Hl. set_solver.
Qed.

(** Erasing from the table of a book whose levels have changed. *)
Lemma room_erase ob1 k :
  book_wf ob1 -> ob_order_mask ob1 = ob_order_mask ob -> ob_orders ob1 = ob_orders ob ->
  exists t, EraseOrder (ob_orders ob1) (ob_order_mask ob1) k = Some t /\ room cap K (set_orders t ob1).
Proof.
  intros Hwf Em Eo. destruct (rm_load _ _ _ Hr) as (m & Hm & Hs). rewrite Em, Eo.
  pose proof (room_free cap K ob m Hr HK Hm) as Hfree.
  destruct (EraseOrder_delete _ _ m k (wf_table _ (rm_wf _ _ _ Hr)) Hm Hfree) as (t & He & Hok & Hrep).
  exists t. split; [done|]. split; simpl.
  - apply wf_set_orders; [done|by rewrite Em].
  - rewrite Em. apply Hr.
  - exists (delete k m). split; [done|]. rewrite dom_delete. set_solver.
Qed.

Lemma room_levels b f :
  (forall lv, side_ok (ob_tick_size ob) b lv -> side_ok (ob_tick_size ob) b (f lv)) ->
  let ob1 := map_side b f ob in
  book_wf ob1 /\ ob_order_mask ob1 = ob_order_mask ob /\ ob_orders ob1 = ob_orders ob.
Proof.
  intros Hf. split_and!; [apply wf_map_side; [apply Hr|done]|apply map_side_mask|apply map_side_orders].
Qed.

Lemma room_ApplyCancel ev : exists ob' r, ApplyCancel ob ev = Some (ob', r) /\ room cap K ob'.
Proof.
  unfold ApplyCancel. destruct (FindOrder _ _ _) as [i|]; [|by eexists _, _].
  set (rec := ob_orders ob !!! i).
  destruct (room_levels (r_side rec) (RemoveQtyFromLevel (r_side rec) (r_price rec) (r_qty rec) true))
    as (H1 & H2 & H3); [intros; by apply side_ok_remove|].
  destruct (room_erase _ (ev_order_no ev) H1 H2 H3) as (t & -> & Ht). by eexists _, _.
Qed.

Lemma room_ReduceResting k q : exists ob' r, ReduceResting ob k q = Some (ob', r) /\ room cap K ob'.
Proof.
  unfold ReduceResting. case_if; [by eexists _, _|].
  destruct (FindOrder _ _ _) as [i|] eqn:Hf; [|by eexists _, _]. cbv zeta.
  set (rec := ob_orders ob !!! i). set (fully := (q >=? r_qty rec)%Z).
  set (red := if fully then r_qty rec else q).
  destruct (room_levels (r_side rec) (RemoveQtyFromLevel (r_side rec) (r_price rec) red fully))
    as (H1 & H2 & H3); [intros; by apply side_ok_remove|].
  destruct fully.
  - destruct (room_erase _ k H1 H2 H3) as (t & -> & Ht). by eexists _, _.
  - eexists _, _. split; [done|]. pose proof (wf_table _ (rm_wf _ _ _ Hr)) as Hok.
    destruct (rm_load _ _ _ Hr) as (m & Hm & Hs).
    pose proof (find_Some_holds _ _ Hok _ _ Hf) as [[_ Ho] Hk].
    pose proof (FindOrder_lookup _ _ Hok m k Hm) as Hl. rewrite Hf in Hl.
    destruct (update_found _ _ Hok m k i (with_price_qty (r_price rec) (i32 (r_qty rec - red)) rec) Hm Hf Ho Hk)
      as [Hok' Hm'].
    split; simpl; rewrite ?H2, ?H3.
    + apply wf_set_orders; [done|]. by rewrite H2, ?H3.
    + apply Hr.
    + eexists. split; [exact Hm'|]. rewrite dom_insert. simpl in Hl. symmetry in Hl. apply elem_of_dom_2 in Hl. set_solver.
Qed.
End Handlers.

Lemma room_set_seq cap K ob e s g : room cap K ob -> room cap K (set_seq e s g ob).
Proof. intros [Hwf Hc Hl]. split; [by apply wf_set_seq|done|done]. Qed.

Lemma room_Seed cap K ob ev : room cap K ob -> room cap K (Seed ob ev).1.
Proof.
  intros Hr. pose proof (wf_Seed ob ev (rm_wf _ _ _ Hr)) as Hwf. split; [done|..].
  - unfold Seed, seed_quote. simpl. repeat case_if; autorewrite with lowlat; apply Hr.
  - exists ∅. split; [|rewrite dom_empty; set_solver].
    unfold Seed, seed_quote. simpl. repeat case_if; autorewrite with lowlat; apply table_repr_cleared.
Qed.

(** The numbers an event may add. *)
Definition added_by (ev : MarketEvent) : gset Z := if is_add ev then {[ev_order_no ev]} else ∅.

Lemma room_dispatch cap K ob ev :
  room cap K ob -> size K < cap ->
  exists ob' r, dispatch ob ev = Some (ob', r) /\ room cap (added_by ev ∪ K) ob'.
Proof.
  intros Hr HK. unfold dispatch, added_by, is_add. destruct (msg_type _) as [[]|];
    rewrite ?(left_id_L ∅ (∪)); try (by eexists _, _);
    try (destruct (ob_stale ob); [by eexists _, _; (split; [done|]; by apply (room_weaken cap K); [set_solver|])|]).
  - pose proof (room_ApplyAdd cap K ob Hr HK ev). destruct (ApplyAdd ob ev). by eexists _, _.
  - pose proof (room_ApplyModify cap K ob Hr HK ev). destruct (ApplyModify ob ev). by eexists _, _.
  - by apply room_ApplyCancel.
  - unfold ApplyTrade.
    destruct (room_ReduceResting cap K ob Hr HK (ev_order_no ev) (ev_qty ev)) as (ob1 & a & -> & H1).
    cbn [mbind option_bind].
    destruct (room_ReduceResting cap K ob1 H1 HK (ev_order_no2 ev) (ev_qty ev)) as (ob2 & c & -> & H2).
    by eexists _, _.
  - pose proof (room_Seed cap K ob ev Hr). destruct (Seed ob ev). by eexists _, _.
Qed.

Lemma room_apply_event cap K ob ev :
  room cap K ob -> size K < cap ->
  exists ob' r, apply_event ob ev = Some (ob', r) /\ room cap (added_by ev ∪ K) ob'.
Proof.
  intros Hr HK. unfold apply_event. case_if; [by apply room_dispatch|].
  case_if; [case_if|]; try (apply room_dispatch; [by apply room_set_seq|done]).
  eexists _, _. split; [done|]. apply (room_weaken cap K); [set_solver|]. by apply room_set_seq.
Qed.

(** Events that add no order. *)
Lemma room_apply_quiet cap K ob ev :
  room cap K ob -> size K < cap -> is_add ev = false ->
  exists ob' r, apply_event ob ev = Some (ob', r) /\ room cap K ob'.
Proof.
  intros Hr HK Hq. destruct (room_apply_event cap K ob ev Hr HK) as (ob' & r & E & H).
  exists ob', r. split; [done|]. unfold added_by in H. rewrite Hq in H. by rewrite (left_id_L ∅ (∪)) in H.
Qed.

Lemma room_new token tick cap :
  room (RoundUpPow2 cap) ∅ (OrderBook_new token tick cap).
Proof.
  split; [apply OrderBook_new_wf| |].
  - destruct (RoundUpPow2_spec cap) as (k & Hk & _). simpl.
    assert (0 < 2 ^ k) by (apply Nat.neq_0_lt_0, Nat.pow_nonzero; lia). lia.
  - exists ∅. split; [apply table_repr_empty|set_solver].
Qed.

(** The numbers a feed adds. *)
Definition added (evs : list MarketEvent) : gset Z := ⋃ (added_by <$> evs).

Lemma added_cons ev evs : added (ev :: evs) = added_by ev ∪ added evs.
Proof. done. Qed.

Lemma added_few evs : size (added evs) <= adds evs.
Proof.
  induction evs as [|ev evs IH]; [done|]. unfold adds in *. rewrite added_cons, filter_cons.
  pose proof (size_union_alt (added_by ev) (added evs)) as Hu.
  pose proof (subseteq_size (added evs ∖ added_by ev) (added evs) ltac:(set_solver)).
  unfold added_by in *. destruct (is_add ev); simpl; rewrite Hu.
  - rewrite size_singleton. lia.
  - rewrite size_empty. lia.
Qed.

Lemma room_apply_events cap K evs : forall ob,
  room cap K ob -> added evs ⊆ K -> size K < cap ->
  exists ob' rs, apply_events ob evs = Some (ob', rs) /\ length rs = length evs /\ room cap K ob'.
Proof.
  induction evs as [|ev evs IH]; intros ob Hr Ha HK; [by exists ob, []|].
  rewrite added_cons in Ha.
  destruct (room_apply_event _ K ob ev Hr HK) as (ob1 & r & E & H1).
  destruct (IH ob1) as (ob2 & rs & E2 & Hl & H2); [|set_solver|done|].
  { apply (room_weaken cap (added_by ev ∪ K)); [set_solver|done]. }
  exists ob2, (r :: rs). cbn [apply_events]. rewrite E. cbn [mbind option_bind]. rewrite E2.
  split_and!; [done|simpl; lia|done].
Qed.

(** A fresh book and a feed over fewer numbers than it has slots. *)
Lemma fresh_book_answers token tick cap K evs :
  added evs ⊆ K -> size K < cap ->
  exists ob rs, apply_events (OrderBook_new token tick cap) evs = Some (ob, rs) /\
    length rs = length evs /\ room (RoundUpPow2 cap) K ob.
Proof.
  intros Ha HK. destruct (RoundUpPow2_spec cap) as (k & Hk & Hle).
  apply (room_apply_events (RoundUpPow2 cap) K evs); [|done|lia].
  apply (room_weaken _ ∅); [set_solver|apply room_new].
Qed.

(** C6.  A book with room never hangs: a fresh book created for [cap] orders
    answers every event of any feed whose additions use fewer than [cap] distinct
    order numbers, however many events there are and whatever the others do, and is
    well formed at the end. *)
Theorem book_answers_every_event token tick cap evs :
  size (added evs) < cap ->
  exists ob rs, apply_events (OrderBook_new token tick cap) evs = Some (ob, rs) /\
    length rs = length evs /\ book_wf ob.
Proof.
  intros Hcap. destruct (fresh_book_answers token tick cap (added evs) evs) as (ob & rs & H1 & H2 & H3);
    [done|done|]. exists ob, rs. split_and!; [done|done|apply H3].
Qed.

Lemma book_answers_every_event_witness :
  exists ob rs, apply_events (OrderBook_new 7 5 8)
      [sample_add 1 true 10000 100 1; sample_add 2 false 10010 80 2; sample_cancel 1 3] = Some (ob, rs) /\
    length rs = 3.
Proof.
  destruct (book_answers_every_event 7 5 8
    [sample_add 1 true 10000 100 1; sample_add 2 false 10010 80 2; sample_cancel 1 3])
    as (ob & rs & H & Hl & _); [vm_compute; lia|]. exists ob, rs. split; [exact H|exact Hl].
Defined.
