(* ===== verification/BookSpec.v ===== *)
(** * What an order book promises, and the proof that [OrderBook] keeps it

    The abstract book is the set of resting orders (a finite map from order
    number to price, quantity and side), the two quotes of the last Snap Quote,
    and the sequence bookkeeping.  Its depth is a function of the orders: the
    level at a price is the sum of the quantities and the number of the orders
    resting there.  [book_refines] proves that the flat arrays and the hash
    table of [OrderBook] implement it on every admissible feed. *)

From Stdlib Require Import ZArith Lia.
From stdpp Require Import base gmap list numbers option.
From S2P Require Import Prelude Types OrderTable LevelArray OrderBook.

Local Open Scope Z_scope.

(** ** Sums over the resting orders *)

Definition msum (f : Resting -> Z) (m : gmap Z Resting) : Z :=
  map_fold (fun _ r acc => f r + acc) 0 m.

Lemma msum_empty f : msum f ∅ = 0.
Proof. apply map_fold_empty. Qed.

Lemma msum_insert f m k r : m !! k = None -> msum f (<[k := r]> m) = f r + msum f m.
Proof.
  intros Hk. unfold msum.
  rewrite (map_fold_insert_L (fun _ r acc => f r + acc) 0 k r m); [done| |done].
  intros. lia.
Qed.

Lemma msum_delete f m k r : m !! k = Some r -> msum f m = f r + msum f (delete k m).
Proof.
  intros Hk. rewrite <- (insert_delete_id m k r Hk) at 1.
  apply msum_insert, lookup_delete_eq.
Qed.

Lemma msum_update f m k r r' :
  m !! k = Some r -> msum f (<[k := r']> m) = msum f m - f r + f r'.
Proof.
  intros Hk. rewrite (msum_delete f m k r Hk), <- insert_delete_eq, msum_insert; [lia|].
  apply lookup_delete_eq.
Qed.

Lemma msum_le f g m :
  map_Forall (fun _ r => f r <= g r) m -> msum f m <= msum g m.
Proof.
  induction m as [|k r m Hk IH] using map_ind; intros Hall; [by rewrite !msum_empty|].
  rewrite !msum_insert by done. apply map_Forall_insert in Hall as [? ?]; [|done].
  specialize (IH ltac:(done)). lia.
Qed.

Lemma msum_0 m : msum (fun _ => 0) m = 0.
Proof. induction m as [|k r m Hk IH] using map_ind; [apply msum_empty|]. by rewrite msum_insert. Qed.

Lemma msum_nonneg f m : map_Forall (fun _ r => 0 <= f r) m -> 0 <= msum f m.
Proof. intros H. rewrite <- (msum_0 m). by apply msum_le. Qed.

Lemma msum_zero f g m :
  map_Forall (fun _ r => 0 <= f r) m -> map_Forall (fun _ r => f r = 0 -> g r = 0) m ->
  msum f m = 0 -> msum g m = 0.
Proof.
  induction m as [|k r m Hk IH] using map_ind; intros Hf Hg; [by rewrite !msum_empty|].
  apply map_Forall_insert in Hf as [Hf Hfm]; [|done]. apply map_Forall_insert in Hg as [Hg Hgm]; [|done].
  rewrite !msum_insert by done. pose proof (msum_nonneg f m Hfm). intros Hz.
  rewrite Hg, IH by (done || lia). lia.
Qed.

(** ** Depth of the abstract book *)

Abbreviation seed := (option (Price * Quantity)) (only parsing).

Definition at_level (b : bool) (p : Price) (r : Resting) : bool :=
  Bool.eqb (rs_side r) b && (rs_price r =? p).

Definition qty_at (b : bool) (p : Price) (r : Resting) : Z := if at_level b p r then rs_qty r else 0.
Definition one_at (b : bool) (p : Price) (r : Resting) : Z := if at_level b p r then 1 else 0.
Definition qty_on (b : bool) (r : Resting) : Z := if Bool.eqb (rs_side r) b then rs_qty r else 0.

Definition seed_qty (s : seed) (p : Price) : Z :=
  match s with Some (p', q) => if p' =? p then q else 0 | None => 0 end.
Definition seed_one (s : seed) (p : Price) : Z :=
  match s with Some (p', _) => if p' =? p then 1 else 0 | None => 0 end.
Definition seed_vol (s : seed) : Z := match s with Some (_, q) => q | None => 0 end.

(** The level quoted at [p] on side [b]: [None] when nothing rests there. *)
Definition depth_at (b : bool) (s : seed) (m : gmap Z Resting) (p : Price) : option PriceLevel :=
  let c := seed_one s p + msum (one_at b p) m in
  if c =? 0 then None
  else Some {| pl_price := p; pl_total_quantity := seed_qty s p + msum (qty_at b p) m;
               pl_order_count := c |}.

(** The prices with depth on side [b], and the quantity resting there. *)
Definition prices (b : bool) (s : seed) (m : gmap Z Resting) : gset Z :=
  match s with Some (p, _) => {[p]} | None => ∅ end ∪
  map_to_set (fun _ r => rs_price r) (filter (fun kr : Z * Resting => rs_side kr.2 = b) m).

Definition volume (b : bool) (s : seed) (m : gmap Z Resting) : Z :=
  seed_vol s + msum (qty_on b) m.

Definition max_volume : Z := 2 ^ 31 - 1.

(** ** The abstract book *)

Record ABook := {
  ab_orders : gmap Z Resting;
  ab_seed_bid : seed;
  ab_seed_ask : seed;
  ab_expected : Z;
  ab_stale : bool;
  ab_gaps : Z;
}.

Definition ab_seed (b : bool) (a : ABook) : seed := if b then ab_seed_bid a else ab_seed_ask a.

Definition ab_empty : ABook :=
  {| ab_orders := ∅; ab_seed_bid := None; ab_seed_ask := None; ab_expected := 0;
     ab_stale := false; ab_gaps := 0 |}.

Definition with_ab_orders (m : gmap Z Resting) (a : ABook) : ABook :=
  {| ab_orders := m; ab_seed_bid := ab_seed_bid a; ab_seed_ask := ab_seed_ask a;
     ab_expected := ab_expected a; ab_stale := ab_stale a; ab_gaps := ab_gaps a |}.

Definition with_ab_seq (e : Z) (st : bool) (g : Z) (a : ABook) : ABook :=
  {| ab_orders := ab_orders a; ab_seed_bid := ab_seed_bid a; ab_seed_ask := ab_seed_ask a;
     ab_expected := e; ab_stale := st; ab_gaps := g |}.

Section Spec.
Context (tick : Price) (cap : nat).

Definition tick_ok (p : Price) : bool := (tick =? 0) || (Z.rem p tick =? 0).

Definition spec_add (m : gmap Z Resting) (ev : MarketEvent) : gmap Z Resting * BookResult :=
  if negb (tick_ok (ev_price ev)) then (m, kTickViolation)
  else if decide (is_Some (m !! ev_order_no ev) \/ (size m < cap)%nat)
  then (<[ev_order_no ev := {| rs_price := ev_price ev; rs_qty := ev_qty ev;
                               rs_side := ev_side ev |}]> m, kOk)
  else (m, kFull).

Definition spec_modify (m : gmap Z Resting) (ev : MarketEvent) : gmap Z Resting * BookResult :=
  if negb (tick_ok (ev_price ev)) then (m, kTickViolation)
  else match m !! ev_order_no ev with
       | None => (m, kUnknownOrder)
       | Some r => (<[ev_order_no ev := {| rs_price := ev_price ev; rs_qty := ev_qty ev;
                                           rs_side := rs_side r |}]> m, kOk)
       end.

Definition spec_cancel (m : gmap Z Resting) (ev : MarketEvent) : gmap Z Resting * BookResult :=
  match m !! ev_order_no ev with
  | None => (m, kUnknownOrder)
  | Some _ => (delete (ev_order_no ev) m, kOk)
  end.

(** A trade takes [q] from a resting order, which leaves when it is used up. *)
Definition spec_reduce (m : gmap Z Resting) (no q : Z) : gmap Z Resting * bool :=
  if no =? 0 then (m, false)
  else match m !! no with
       | None => (m, false)
       | Some r =>
           if rs_qty r <=? q then (delete no m, true)
           else (<[no := {| rs_price := rs_price r; rs_qty := rs_qty r - q;
                            rs_side := rs_side r |}]> m, true)
       end.

Definition spec_trade (m : gmap Z Resting) (ev : MarketEvent) : gmap Z Resting * BookResult :=
  let '(m, x) := spec_reduce m (ev_order_no ev) (ev_qty ev) in
  let '(m, y) := spec_reduce m (ev_order_no2 ev) (ev_qty ev) in
  (m, if x || y then kOk else kUnknownOrder).

Definition spec_quote (p q : Z) : seed := if (q >? 0) && tick_ok p then Some (p, q) else None.

Definition spec_seed (a : ABook) (ev : MarketEvent) : ABook :=
  {| ab_orders := ∅;
     ab_seed_bid := spec_quote (ev_bid_price ev) (ev_bid_qty ev);
     ab_seed_ask := spec_quote (ev_ask_price ev) (ev_ask_qty ev);
     ab_expected := if ev_seq_no ev =? 0 then ab_expected a else u64 (ev_seq_no ev + 1);
     ab_stale := false; ab_gaps := ab_gaps a |}.

Definition spec_dispatch (a : ABook) (ev : MarketEvent) : ABook * BookResult :=
  let on_orders (f : gmap Z Resting -> MarketEvent -> gmap Z Resting * BookResult) :=
    if ab_stale a then (a, kStaleDropped)
    else let '(m, r) := f (ab_orders a) ev in (with_ab_orders m a, r) in
  match msg_type (ev_type ev) with
  | Some kSnapQuote => (spec_seed a ev, kSeeded)
  | Some kOrderAdd => on_orders spec_add
  | Some kOrderModify => on_orders spec_modify
  | Some kOrderCancel => on_orders spec_cancel
  | Some kTrade => on_orders spec_trade
  | _ => (a, kOk)
  end.

(** A sequence number that is neither 0 (untracked) nor the expected one. *)
Definition spec_gap (a : ABook) (ev : MarketEvent) : bool :=
  negb (ev_seq_no ev =? 0) && negb (ab_expected a =? 0) &&
  negb (ev_seq_no ev =? ab_expected a).

Definition spec_seq (a : ABook) (ev : MarketEvent) : ABook :=
  if ev_seq_no ev =? 0 then a
  else if spec_gap a ev then with_ab_seq (u64 (ev_seq_no ev + 1)) true (u64 (ab_gaps a + 1)) a
  else with_ab_seq (u64 (ev_seq_no ev + 1)) (ab_stale a) (ab_gaps a) a.

Definition spec_event (a : ABook) (ev : MarketEvent) : ABook * BookResult :=
  if spec_gap a ev && negb (is_snap ev) then (spec_seq a ev, kGap)
  else spec_dispatch (spec_seq a ev) ev.

(** *** Admissible events

    What the feed must respect for the book to track it exactly: a positive
    quantity, no re-used order number, at most 256 prices per side, a side
    volume that fits the 32-bit level totals, and a free table slot when an
    order leaves. *)

Definition room (b : bool) (s : seed) (m : gmap Z Resting) (p : Price) : bool :=
  bool_decide (p ∈ prices b s m) || (size (prices b s m) <? kMaxLevelsPerSide)%nat.

Definition ok_new (b : bool) (s : seed) (m : gmap Z Resting) (p q : Z) : bool :=
  (q >? 0) && (volume b s m + q <=? max_volume) && room b s m p.

Definition admissible (a : ABook) (ev : MarketEvent) : bool :=
  let m := ab_orders a in
  match msg_type (ev_type ev) with
  | Some kSnapQuote => (ev_bid_qty ev <=? max_volume) && (ev_ask_qty ev <=? max_volume)
  | Some kOrderAdd =>
      ab_stale a || negb (tick_ok (ev_price ev)) ||
      (bool_decide (m !! ev_order_no ev = None) &&
       ok_new (ev_side ev) (ab_seed (ev_side ev) a) m (ev_price ev) (ev_qty ev))
  | Some kOrderModify =>
      ab_stale a || negb (tick_ok (ev_price ev)) ||
      match m !! ev_order_no ev with
      | None => true
      | Some r => ok_new (rs_side r) (ab_seed (rs_side r) a) (delete (ev_order_no ev) m)
                    (ev_price ev) (ev_qty ev)
      end
  | Some kOrderCancel => ab_stale a || (size m <? cap)%nat
  | Some kTrade => ab_stale a || ((size m <? cap)%nat && (ev_qty ev >? 0))
  | _ => true
  end.

Definition event_admissible (a : ABook) (ev : MarketEvent) : bool :=
  (spec_gap a ev && negb (is_snap ev)) || admissible (spec_seq a ev) ev.

(** The abstract feed; [None] when an event is not admissible. *)
Fixpoint spec_events (a : ABook) (evs : list MarketEvent) : option (ABook * list BookResult) :=
  match evs with
  | [] => Some (a, [])
  | ev :: evs =>
      if event_admissible a ev then
        let '(a, r) := spec_event a ev in
        '(a, rs) ← spec_events a evs; Some (a, r :: rs)
      else None
  end.
End Spec.

(** ** Sides of the book against the abstract depth *)

Definition positive (m : gmap Z Resting) : Prop := map_Forall (fun _ r => 0 < rs_qty r) m.
Definition seed_positive (s : seed) : Prop := match s with Some (_, q) => 0 < q | None => True end.

Record side_repr (b : bool) (s : seed) (m : gmap Z Resting) (v : list PriceLevel) : Prop := {
  sr_sorted : sorted_side b v;
  sr_level : forall p, level_at v p = depth_at b s m p;
}.

Lemma at_level_spec b p r : at_level b p r = true <-> rs_side r = b /\ rs_price r = p.
Proof.
  unfold at_level. rewrite andb_true_iff, Bool.eqb_true_iff, Z.eqb_eq. done.
Qed.

Lemma one_at_cases b p r :
  (rs_side r = b /\ rs_price r = p /\ one_at b p r = 1 /\ qty_at b p r = rs_qty r) \/
  ((rs_side r <> b \/ rs_price r <> p) /\ one_at b p r = 0 /\ qty_at b p r = 0).
Proof.
  unfold one_at, qty_at. destruct (at_level b p r) eqn:H.
  - apply at_level_spec in H. left. naive_solver.
  - right. split; [|done]. destruct (decide (rs_side r = b)); [|by left].
    destruct (decide (rs_price r = p)); [|by right].
    assert (at_level b p r = true) by by apply at_level_spec. congruence.
Qed.

(** At one price, the number of orders is at most their quantity, which is at
    most the volume of the side; nothing rests where no order does. *)
Lemma depth_bounds b s m p :
  positive m -> seed_positive s ->
  0 <= seed_one s p + msum (one_at b p) m <= seed_qty s p + msum (qty_at b p) m /\
  seed_qty s p + msum (qty_at b p) m <= volume b s m /\
  (seed_one s p + msum (one_at b p) m = 0 -> seed_qty s p + msum (qty_at b p) m = 0).
Proof.
  intros Hpos Hs.
  assert (map_Forall (fun _ r => 0 <= one_at b p r) m) as H1.
  { intros k r Hk. destruct (one_at_cases b p r); lia. }
  assert (0 <= msum (one_at b p) m) by by apply msum_nonneg.
  assert (msum (one_at b p) m <= msum (qty_at b p) m).
  { apply msum_le. intros k r Hk. specialize (Hpos k r Hk). simpl in Hpos.
    destruct (one_at_cases b p r); lia. }
  assert (msum (qty_at b p) m <= msum (qty_on b) m).
  { apply msum_le. intros k r Hk. specialize (Hpos k r Hk). simpl in Hpos.
    unfold qty_on. destruct (one_at_cases b p r) as [(<- & ? & ? & ->)|(? & ? & ->)].
    - by rewrite Bool.eqb_reflx.
    - destruct (Bool.eqb _ _); lia. }
  assert (msum (one_at b p) m = 0 -> msum (qty_at b p) m = 0).
  { apply msum_zero; [done|]. intros k r Hk. destruct (one_at_cases b p r); lia. }
  unfold volume, seed_one, seed_qty, seed_vol, seed_positive in *.
  destruct s as [[p' q]|]; [destruct (p' =? p)|]; lia.
Qed.

Section SideSteps.
Context (b : bool) (s : seed) (m : gmap Z Resting) (v : list PriceLevel).
Context (Hrep : side_repr b s m v) (Hpos : positive m) (Hs : seed_positive s).

Lemma side_repr_ext m' :
  (forall p, msum (one_at b p) m' = msum (one_at b p) m) ->
  (forall p, msum (qty_at b p) m' = msum (qty_at b p) m) -> side_repr b s m' v.
Proof.
  intros H1 H2. destruct Hrep as [Hso Hl]. split; [done|].
  intros p. rewrite Hl. unfold depth_at. by rewrite H1, H2.
Qed.

(** A new order joins its level. *)
Lemma side_repr_add k r :
  m !! k = None -> rs_side r = b -> 0 < rs_qty r ->
  volume b s (<[k := r]> m) <= max_volume ->
  side_repr b s (<[k := r]> m) (add_view b (rs_price r) (rs_qty r) v).
Proof.
  intros Hk Hb Hq Hvol. destruct Hrep as [Hso Hl].
  split; [by apply add_view_sorted|]. intros p. rewrite level_at_add by done.
  assert (positive (<[k := r]> m)) as Hpos' by by apply map_Forall_insert_2.
  pose proof (depth_bounds b s m p Hpos Hs) as Hd0.
  pose proof (depth_bounds b s _ p Hpos' Hs) as Hd.
  unfold depth_at in *. rewrite !msum_insert in * by done.
  destruct (one_at_cases b p r) as [(_ & Hp & Ho & Hqa)|(Hne & Ho & Hqa)];
    rewrite Ho, Hqa in *.
  - subst p. rewrite Z.eqb_refl, Hl. unfold depth_at, max_volume in *.
    rewrite (proj2 (Z.eqb_neq (_ + (1 + _)) 0)) by lia. f_equal.
    case_if; unfold new_level, add_order; simpl;
      rewrite !wrap_s_id by ranges; f_equal; lia.
  - rewrite (proj2 (Z.eqb_neq p _)) by naive_solver.
    rewrite Hl. unfold depth_at. by rewrite !Z.add_0_l.
Qed.

(** An order leaves its level. *)
Lemma side_repr_remove k r :
  m !! k = Some r -> rs_side r = b -> volume b s m <= max_volume ->
  side_repr b s (delete k m) (remove_view (rs_price r) (rs_qty r) true v).
Proof.
  intros Hk Hb Hvol. destruct Hrep as [Hso Hl].
  split; [by apply remove_view_sorted|]. intros p. rewrite (level_at_remove b) by done.
  assert (positive (delete k m)) as Hpos' by by apply map_Forall_delete.
  assert (0 < rs_qty r) as Hq by by apply (Hpos k).
  pose proof (depth_bounds b s m p Hpos Hs) as Hd0.
  pose proof (depth_bounds b s _ p Hpos' Hs) as Hd.
  pose proof (Hl p) as Hlp. unfold depth_at in *.
  rewrite (msum_delete (one_at b p) m k r Hk), (msum_delete (qty_at b p) m k r Hk) in *.
  destruct (one_at_cases b p r) as [(_ & Hp & Ho & Hqa)|(Hne & Ho & Hqa)];
    rewrite Ho, Hqa in *.
  - subst p. rewrite Z.eqb_refl, Hlp. unfold max_volume in *.
    rewrite (proj2 (Z.eqb_neq (_ + (1 + _)) 0)) by lia.
    unfold level_empty, remove_order; cbn [pl_order_count pl_total_quantity pl_price andb].
    rewrite Z.gtb_ltb, (proj2 (Z.ltb_lt 0 _)) by lia.
    rewrite wrap_s_id by ranges. rewrite (proj2 (Z.ltb_ge _ 0)) by lia.
    repeat case_if; try lia; [done|]. f_equal. f_equal; lia.
  - rewrite (proj2 (Z.eqb_neq p _)) by naive_solver.
    rewrite Hlp. by rewrite !Z.add_0_l.
Qed.

(** Part of an order trades away. *)
Lemma side_repr_reduce k r q :
  m !! k = Some r -> rs_side r = b -> 0 < q < rs_qty r -> volume b s m <= max_volume ->
  side_repr b s (<[k := {| rs_price := rs_price r; rs_qty := rs_qty r - q;
                           rs_side := rs_side r |}]> m)
    (remove_view (rs_price r) q false v).
Proof.
  intros Hk Hb Hq Hvol. destruct Hrep as [Hso Hl].
  split; [by apply remove_view_sorted|]. intros p. rewrite (level_at_remove b) by done.
  pose proof (depth_bounds b s m p Hpos Hs) as Hd0. pose proof (Hl p) as Hlp.
  set (r' := {| rs_price := rs_price r; rs_qty := rs_qty r - q; rs_side := rs_side r |}).
  assert (positive (delete k m)) as Hpos' by by apply map_Forall_delete.
  pose proof (depth_bounds b s _ p Hpos' Hs) as Hd.
  unfold depth_at in *. rewrite !(msum_update _ m k r r' Hk).
  rewrite (msum_delete (one_at b p) m k r Hk), (msum_delete (qty_at b p) m k r Hk) in *.
  destruct (one_at_cases b p r) as [(_ & Hp & Ho & Hqa)|(Hne & Ho & Hqa)];
    destruct (one_at_cases b p r') as [(Hs' & Hp' & Ho' & Hqa')|(Hne' & Ho' & Hqa')];
    simpl in *; rewrite Ho, Hqa, Ho', Hqa' in *; try naive_solver.
  - subst p. rewrite Z.eqb_refl, Hlp. unfold max_volume in *.
    rewrite (proj2 (Z.eqb_neq (_ + (1 + _)) 0)) by lia.
    unfold level_empty, remove_order; cbn [pl_order_count pl_total_quantity pl_price andb].
    rewrite wrap_s_id by ranges. rewrite (proj2 (Z.ltb_ge _ 0)) by lia.
    repeat case_if; try lia. f_equal. f_equal; lia.
  - rewrite (proj2 (Z.eqb_neq p _)) by naive_solver. rewrite Hlp.
    by rewrite !Z.sub_0_r, !Z.add_0_r.
Qed.
End SideSteps.

(** A price has depth exactly when something rests there. *)
Lemma prices_elem b s m p :
  p ∈ prices b s m <-> seed_one s p + msum (one_at b p) m <> 0.
Proof.
  assert (map_Forall (fun _ r => 0 <= one_at b p r) m) as H1.
  { intros k r Hk. destruct (one_at_cases b p r); lia. }
  pose proof (msum_nonneg _ _ H1) as Hnn.
  assert ((exists k r, m !! k = Some r /\ rs_side r = b /\ rs_price r = p) <->
          msum (one_at b p) m <> 0) as Hex.
  { split.
    - intros (k & r & Hk & Hb & Hp). rewrite (msum_delete _ m k r Hk).
      assert (map_Forall (fun _ r => 0 <= one_at b p r) (delete k m)) as H2
        by by apply map_Forall_delete.
      pose proof (msum_nonneg _ _ H2). destruct (one_at_cases b p r); [lia|naive_solver].
    - intros Hne.
      destruct (decide (map_Forall (fun _ r => one_at b p r = 0) m)) as [Hall|Hn].
      + destruct Hne. apply (msum_zero (fun _ => 0) _ m); [done| |apply msum_0].
        intros k r Hk _. by apply (Hall k).
      + apply map_not_Forall in Hn as (k & r & Hk & Hr); [|apply _].
        exists k, r. destruct (one_at_cases b p r); naive_solver. }
  unfold prices. rewrite elem_of_union, elem_of_map_to_set. split.
  - intros [Hsd|(k & r & Hf & <-)].
    + unfold seed_one. destruct s as [[p' q]|]; [|set_solver].
      apply elem_of_singleton in Hsd as ->. rewrite Z.eqb_refl. lia.
    + apply map_lookup_filter_Some in Hf as [Hk Hb].
      assert (msum (one_at b (rs_price r)) m <> 0) by (apply Hex; eauto).
      unfold seed_one. destruct s as [[p' q]|]; [case_if|]; lia.
  - intros Hne. destruct (decide (msum (one_at b p) m = 0)) as [Hz|Hnz].
    + left. unfold seed_one in Hne. destruct s as [[p' q]|]; [|lia].
      destruct (p' =? p) eqn:E; bool_arith; [set_solver|lia].
    + right. apply Hex in Hnz as (k & r & Hk & Hb & Hp). exists k, r.
      split; [|done]. by apply map_lookup_filter_Some.
Qed.

Lemma sorted_prices_NoDup b v : sorted_side b v -> NoDup (pl_price <$> v).
Proof.
  induction 1 as [|l v Hall Hs IH]; simpl; constructor; [|done].
  intros Hin. apply list_elem_of_fmap in Hin as (x & Hx & Hin).
  apply list_elem_of_In in Hin. rewrite Forall_forall in Hall.
  specialize (Hall x Hin). simpl in Hall.
  by apply sorts_before_ne in Hall.
Qed.

Lemma level_at_price v p : is_Some (level_at v p) <-> p ∈ pl_price <$> v.
Proof.
  rewrite list_elem_of_fmap. induction v as [|l v IH]; simpl.
  { split; [by intros [? ?]|intros (? & _ & Hin); set_solver]. }
  case_if.
  - split; [|by eauto]. intros _. exists l. split; [done|set_solver].
  - rewrite IH. split.
    + intros (x & ? & ?). exists x. set_solver.
    + intros (x & -> & Hin). exists x. set_solver.
Qed.

Lemma side_depth b s m v : side_repr b s m v -> length v = size (prices b s m).
Proof.
  intros [Hso Hl].
  assert (prices b s m = list_to_set (pl_price <$> v)) as ->.
  { apply set_eq. intros p. rewrite elem_of_list_to_set, <- level_at_price, prices_elem, Hl.
    unfold depth_at. case_if; [split; [done|by intros [? ?]]|split; [by eauto|done]]. }
  rewrite size_list_to_set by by eapply sorted_prices_NoDup. by rewrite length_fmap.
Qed.

(** With room for its price, an addition displaces no level. *)
Lemma add_view_room b s m v p q :
  side_repr b s m v -> room b s m p = true -> (length v <= kMaxLevelsPerSide)%nat ->
  take kMaxLevelsPerSide (add_view b p q v) = add_view b p q v.
Proof.
  intros Hrep Hroom Hlen. apply take_ge. destruct (add_view_length b p q v) as [H1 H2].
  pose proof (side_depth b s m v Hrep) as Hd.
  unfold room in Hroom. apply orb_prop in Hroom as [Hin|Hlt].
  - apply bool_decide_eq_true in Hin. apply prices_elem in Hin.
    rewrite H2; [done| |apply Hrep]. destruct Hrep as [_ Hl]. rewrite Hl.
    unfold depth_at. rewrite (proj2 (Z.eqb_neq _ _)) by done. eauto.
  - bool_arith. lia.
Qed.
