(* ===== verification/BookRefine.v ===== *)
(** * [OrderBook] implements the abstract book

    [depth_repr] relates the two level arrays to the resting orders,
    [book_repr] adds the hash table and the sequence state.  Each handler of
    [OrderBook] is matched with its specification in [BookSpec];
    [book_refines] composes them over a whole feed. *)

From Stdlib Require Import ZArith Lia.
From stdpp Require Import base gmap list numbers option.
From S2P Require Import Prelude Types OrderTable LevelArray OrderBook BookSpec.

Local Open Scope Z_scope.

(** ** The level arrays against the resting orders *)

Record depth_repr (ob : OrderBook) (sd : bool -> seed) (m : gmap Z Resting) : Prop := {
  dr_levels : forall b, levels_ok b (side_levels b ob);
  dr_side : forall b, side_repr b (sd b) m (view (side_levels b ob));
  dr_pos : positive m;
  dr_seeds : forall b, seed_positive (sd b);
  dr_vol : forall b, volume b (sd b) m <= max_volume;
}.

Lemma side_levels_map b c f ob :
  side_levels b (map_side c f ob) = if Bool.eqb b c then f (side_levels b ob) else side_levels b ob.
Proof. by destruct b, c. Qed.

Lemma other_side b r p : rs_side r <> b -> one_at b p r = 0 /\ qty_at b p r = 0 /\ qty_on b r = 0.
Proof.
  intros Hne. destruct (one_at_cases b p r); [naive_solver|]. split_and!; [naive_solver..|].
  unfold qty_on. destruct (Bool.eqb _ _) eqn:E; [|done]. apply Bool.eqb_prop in E. done.
Qed.

Lemma qty_on_same r : qty_on (rs_side r) r = rs_qty r.
Proof. unfold qty_on. by rewrite Bool.eqb_reflx. Qed.

(** A change of the orders that only touches side [c], where the code applies
    [f] to the array and [g] to its view. *)
Lemma depth_map_side ob sd m m' c f g :
  depth_repr ob sd m -> positive m' -> volume c (sd c) m' <= max_volume ->
  levels_ok c (f (side_levels c ob)) ->
  view (f (side_levels c ob)) = g (view (side_levels c ob)) ->
  side_repr c (sd c) m' (g (view (side_levels c ob))) ->
  (forall b p, b <> c -> msum (one_at b p) m' = msum (one_at b p) m /\
     msum (qty_at b p) m' = msum (qty_at b p) m /\ msum (qty_on b) m' = msum (qty_on b) m) ->
  depth_repr (map_side c f ob) sd m'.
Proof.
  intros [Hl Hs Hp Hsd Hv] Hp' Hv' Hf Hg Hs' Hoth.
  assert (forall b, b = c \/ (b <> c /\ Bool.eqb b c = false)) as Hcase.
  { intros b. destruct (Bool.eqb b c) eqn:E; [left; by apply Bool.eqb_prop|].
    right. split; [by apply Bool.eqb_false_iff|done]. }
  split; try done; intros b; destruct (Hcase b) as [->|[Hne Hb]];
    rewrite ?side_levels_map, ?Bool.eqb_reflx, ?Hb; try done.
  - by rewrite Hg.
  - apply (side_repr_ext _ _ m); [done|..]; intros p; by destruct (Hoth b p Hne) as (? & ? & ?).
  - unfold volume. destruct (Hoth b 0 Hne) as (_ & _ & ->). apply Hv.
Qed.

Section Depth.
Context (ob : OrderBook) (sd : bool -> seed) (m : gmap Z Resting) (Hd : depth_repr ob sd m).

Lemma resting_le_volume k r : m !! k = Some r -> rs_qty r <= max_volume.
Proof.
  intros Hk. pose proof (dr_vol _ _ _ Hd (rs_side r)) as Hv. unfold volume in Hv.
  rewrite (msum_delete _ m k r Hk), qty_on_same in Hv.
  assert (0 <= msum (qty_on (rs_side r)) (delete k m)).
  { apply msum_nonneg, map_Forall_delete. intros k' r' Hk'.
    pose proof (dr_pos _ _ _ Hd k' r' Hk') as Hp. simpl in Hp.
    unfold qty_on. destruct (Bool.eqb _ _); lia. }
  pose proof (dr_seeds _ _ _ Hd (rs_side r)) as Hsd.
  unfold seed_vol, seed_positive in *. destruct (sd (rs_side r)) as [[? ?]|]; lia.
Qed.

(** A new order joins. *)
Lemma depth_add k r :
  m !! k = None -> ok_new (rs_side r) (sd (rs_side r)) m (rs_price r) (rs_qty r) = true ->
  depth_repr (map_side (rs_side r) (AddQtyToLevel (rs_side r) (rs_price r) (rs_qty r)) ob) sd
    (<[k := r]> m).
Proof.
  intros Hk Hnew. unfold ok_new in Hnew. bool_arith. set (c := rs_side r) in *.
  assert (volume c (sd c) (<[k := r]> m) <= max_volume) as Hv.
  { unfold volume in *. rewrite msum_insert by done. unfold c. rewrite qty_on_same. fold c. lia. }
  destruct (AddQtyToLevel_view c _ (dr_levels _ _ _ Hd c) (rs_price r) (rs_qty r)) as [Hok Hview].
  rewrite (add_view_room c (sd c) m) in Hview;
    [|apply Hd|done|rewrite (view_length c) by apply Hd; apply Hd].
  apply (depth_map_side ob sd m _ c _ (add_view c (rs_price r) (rs_qty r))); try done.
  - by apply map_Forall_insert_2, Hd.
  - apply side_repr_add; try done; [apply Hd..].
  - intros b p Hne. rewrite !msum_insert by done.
    destruct (other_side b r p ltac:(naive_solver)) as (? & ? & ?). lia.
Qed.

(** An order leaves. *)
Lemma depth_remove k r :
  m !! k = Some r ->
  depth_repr (map_side (rs_side r)
    (RemoveQtyFromLevel (rs_side r) (rs_price r) (rs_qty r) true) ob) sd (delete k m).
Proof.
  intros Hk. set (c := rs_side r) in *.
  destruct (RemoveQtyFromLevel_view c _ (dr_levels _ _ _ Hd c) (rs_price r) (rs_qty r) true)
    as [Hok Hview].
  apply (depth_map_side ob sd m _ c _ (remove_view (rs_price r) (rs_qty r) true)); try done.
  - apply map_Forall_delete, Hd.
  - pose proof (dr_vol _ _ _ Hd c) as Hv. unfold volume in *.
    rewrite (msum_delete _ m k r Hk) in Hv. unfold c in Hv at 2. rewrite qty_on_same in Hv.
    fold c in Hv. pose proof (dr_pos _ _ _ Hd k r Hk) as Hq. simpl in Hq. lia.
  - apply side_repr_remove; try done; apply Hd.
  - intros b p Hne. rewrite !(fun f => msum_delete f m k r Hk).
    destruct (other_side b r p ltac:(naive_solver)) as (? & ? & ?). lia.
Qed.

(** Part of an order trades. *)
Lemma depth_reduce k r q :
  m !! k = Some r -> 0 < q < rs_qty r ->
  depth_repr (map_side (rs_side r)
    (RemoveQtyFromLevel (rs_side r) (rs_price r) q false) ob) sd
    (<[k := {| rs_price := rs_price r; rs_qty := rs_qty r - q; rs_side := rs_side r |}]> m).
Proof.
  intros Hk Hq. set (c := rs_side r) in *.
  set (r' := {| rs_price := rs_price r; rs_qty := rs_qty r - q; rs_side := c |}).
  destruct (RemoveQtyFromLevel_view c _ (dr_levels _ _ _ Hd c) (rs_price r) q false)
    as [Hok Hview].
  apply (depth_map_side ob sd m _ c _ (remove_view (rs_price r) q false)); try done.
  - apply map_Forall_insert_2; [simpl; lia|apply Hd].
  - pose proof (dr_vol _ _ _ Hd c) as Hv. unfold volume in *.
    rewrite (msum_update _ m k r r' Hk). pose proof (qty_on_same r) as E1. fold c in E1.
    pose proof (qty_on_same r') as E2. simpl in E2. lia.
  - apply (side_repr_reduce c (sd c) m); try done; apply Hd.
  - intros b p Hne. rewrite !(fun f => msum_update f m k r r' Hk).
    destruct (other_side b r p ltac:(naive_solver)) as (? & ? & ?).
    destruct (other_side b r' p ltac:(naive_solver)) as (? & ? & ?). lia.
Qed.
End Depth.

(** Only the arrays matter to [depth_repr]. *)
Lemma depth_repr_proper ob ob' sd m :
  ob_bids ob' = ob_bids ob -> ob_asks ob' = ob_asks ob -> depth_repr ob sd m -> depth_repr ob' sd m.
Proof.
  intros H1 H2 [Hl Hs Hp Hsd Hv].
  assert (forall b, side_levels b ob' = side_levels b ob) as E by by intros [].
  split; try done; intros b; rewrite E; auto.
Qed.

(** ** The refinement relation *)

Record book_repr (ob : OrderBook) (a : ABook) : Prop := {
  br_ok : table_ok (ob_orders ob) (ob_order_mask ob);
  br_table : table_repr (ob_orders ob) (ab_orders a);
  br_depth : depth_repr ob (fun b => ab_seed b a) (ab_orders a);
  br_expected : ob_expected_seq ob = ab_expected a;
  br_stale : ob_stale ob = ab_stale a;
  br_gaps : ob_gap_count ob = ab_gaps a;
}.

(** What a handler must deliver: the abstract orders become [m'], everything
    but the table and the arrays is unchanged. *)
Definition handled (ob : OrderBook) (a : ABook) (ob' : OrderBook) (m' : gmap Z Resting) : Prop :=
  ob_order_mask ob' = ob_order_mask ob /\ ob_tick_size ob' = ob_tick_size ob /\
  book_repr ob' (with_ab_orders m' a).

Lemma handled_id ob a : book_repr ob a -> handled ob a ob (ab_orders a).
Proof. intros Hr. split_and!; try done. by destruct a, Hr. Qed.

Lemma map_side_fields c f ob :
  ob_expected_seq (map_side c f ob) = ob_expected_seq ob /\
  ob_stale (map_side c f ob) = ob_stale ob /\ ob_gap_count (map_side c f ob) = ob_gap_count ob /\
  ob_orders (map_side c f ob) = ob_orders ob /\ ob_order_mask (map_side c f ob) = ob_order_mask ob /\
  ob_tick_size (map_side c f ob) = ob_tick_size ob.
Proof. by destruct c. Qed.

(** A handler that rewrites the arrays to those of [ob1] and the table to [t]. *)
Lemma handled_orders ob a ob1 t m' :
  book_repr ob a -> table_ok t (ob_order_mask ob) -> table_repr t m' ->
  depth_repr ob1 (fun b => ab_seed b a) m' ->
  ob_expected_seq ob1 = ob_expected_seq ob -> ob_stale ob1 = ob_stale ob ->
  ob_gap_count ob1 = ob_gap_count ob -> ob_order_mask ob1 = ob_order_mask ob ->
  ob_tick_size ob1 = ob_tick_size ob ->
  handled ob a (set_orders t ob1) m'.
Proof.
  intros [Hok Ht Hd He Hs Hg] Hok' Ht' Hd' E1 E2 E3 E4 E5.
  split_and!; [done..|]. split; simpl; [congruence|exact Ht'| |congruence..].
  by apply (depth_repr_proper ob1).
Qed.

Section Handlers.
Context (ob : OrderBook) (a : ABook) (Hr : book_repr ob a) (Hst : ab_stale a = false).
Abbreviation cap := (ob_order_mask ob + 1)%nat.
Abbreviation tick := (ob_tick_size ob).
Abbreviation m := (ab_orders a).

Lemma find_resting no :
  (fun i => resting_of (ob_orders ob !!! i)) <$> FindOrder (ob_orders ob) (ob_order_mask ob) no
  = m !! no.
Proof. apply FindOrder_lookup; apply Hr. Qed.

Lemma ApplyAdd_refines ev :
  msg_type (ev_type ev) = Some kOrderAdd -> admissible tick cap a ev = true ->
  exists ob', ApplyAdd ob ev = (ob', (spec_add tick cap m ev).2) /\
    handled ob a ob' (spec_add tick cap m ev).1.
Proof.
  intros Hty Hadm. unfold admissible in Hadm. rewrite Hty, Hst in Hadm. simpl in Hadm.
  unfold ApplyAdd, spec_add. change (TickOk ob (ev_price ev)) with (tick_ok tick (ev_price ev)).
  destruct (tick_ok tick (ev_price ev)); simpl in *; [|eauto using handled_id].
  apply andb_prop in Hadm as [Hnone Hnew]. apply bool_decide_eq_true in Hnone.
  set (rec := {| r_order_no := ev_order_no ev; r_price := ev_price ev; r_qty := ev_qty ev;
                 r_side := ev_side ev; r_occupied := true |}).
  pose proof (InsertOrder_spec (ob_orders ob) (ob_order_mask ob) m rec
                (br_ok _ _ Hr) (br_table _ _ Hr)) as Hi.
  destruct (InsertOrder _ _ rec) as [t|].
  2: { rewrite decide_False by done. eauto using handled_id. }
  destruct Hi as (Hroom & Hok & Htr). rewrite decide_True by done. simpl.
  eexists. split; [done|].
  pose proof (depth_add ob _ m (br_depth _ _ Hr) (ev_order_no ev) (resting_of rec) Hnone Hnew) as Hd.
  set (f := AddQtyToLevel (ev_side ev) (ev_price ev) (ev_qty ev)).
  replace (map_side (ev_side ev) f (set_orders t ob))
    with (set_orders t (map_side (ev_side ev) f ob)) by by destruct (ev_side ev).
  destruct (map_side_fields (ev_side ev) f ob) as (? & ? & ? & ? & ? & ?).
  by apply handled_orders.
Qed.

Lemma ApplyModify_refines ev :
  msg_type (ev_type ev) = Some kOrderModify -> admissible tick cap a ev = true ->
  exists ob', ApplyModify ob ev = (ob', (spec_modify tick m ev).2) /\
    handled ob a ob' (spec_modify tick m ev).1.
Proof.
  intros Hty Hadm. unfold admissible in Hadm. rewrite Hty, Hst in Hadm. simpl in Hadm.
  unfold ApplyModify, spec_modify. change (TickOk ob (ev_price ev)) with (tick_ok tick (ev_price ev)).
  destruct (tick_ok tick (ev_price ev)); simpl in *; [|eauto using handled_id].
  set (k := ev_order_no ev) in *. pose proof (find_resting k) as Hm.
  destruct (FindOrder _ _ k) as [i|] eqn:Hf; simpl in Hm; rewrite <- Hm in *;
    [|eauto using handled_id].
  set (rec := ob_orders ob !!! i) in *. simpl in Hadm.
  set (c := r_side rec) in *. set (r' := {| rs_price := ev_price ev; rs_qty := ev_qty ev; rs_side := c |}).
  set (f1 := RemoveQtyFromLevel c (r_price rec) (r_qty rec) true).
  set (f2 := AddQtyToLevel c (ev_price ev) (ev_qty ev)).
  pose proof (depth_remove ob _ m (br_depth _ _ Hr) k _ (eq_sym Hm)) as Hd1.
  pose proof (depth_add _ _ _ Hd1 k r' (lookup_delete_eq m k) Hadm) as Hd2.
  rewrite insert_delete_eq in Hd2.
  destruct (find_Some_holds _ _ (br_ok _ _ Hr) _ _ Hf) as [[_ Hocc] Hkey].
  destruct (update_found _ _ (br_ok _ _ Hr) m k i (with_price_qty (ev_price ev) (ev_qty ev) rec)
              (br_table _ _ Hr) Hf Hocc Hkey) as [Hok Htr].
  eexists. split; [done|].
  replace (map_side c f2 _) with (set_orders
    (<[i:=with_price_qty (ev_price ev) (ev_qty ev) rec]> (ob_orders ob))
    (map_side c f2 (map_side c f1 ob))) by by destruct c.
  destruct (map_side_fields c f1 ob) as (? & ? & ? & ? & ? & ?).
  destruct (map_side_fields c f2 (map_side c f1 ob)) as (? & ? & ? & ? & ? & ?).
  apply handled_orders; try done; congruence.
Qed.

(** The table once an order leaves. *)
Lemma erase_resting k :
  (size m < cap)%nat ->
  exists t, EraseOrder (ob_orders ob) (ob_order_mask ob) k = Some t /\
    table_ok t (ob_order_mask ob) /\ table_repr t (delete k m).
Proof.
  intros Hs. apply EraseOrder_delete; [apply Hr..|].
  eapply has_free_size; [apply Hr..|done].
Qed.

Lemma ApplyCancel_refines ev :
  msg_type (ev_type ev) = Some kOrderCancel -> admissible tick cap a ev = true ->
  exists ob', ApplyCancel ob ev = Some (ob', (spec_cancel m ev).2) /\
    handled ob a ob' (spec_cancel m ev).1.
Proof.
  intros Hty Hadm. unfold admissible in Hadm. rewrite Hty, Hst in Hadm. simpl in Hadm. bool_arith.
  unfold ApplyCancel, spec_cancel. set (k := ev_order_no ev) in *.
  pose proof (find_resting k) as Hm.
  destruct (FindOrder _ _ k) as [i|] eqn:Hf; simpl in Hm; rewrite <- Hm in *;
    [|eauto using handled_id].
  set (c := r_side (ob_orders ob !!! i)).
  set (f := RemoveQtyFromLevel c _ _ true).
  pose proof (depth_remove ob _ m (br_depth _ _ Hr) k _ (eq_sym Hm)) as Hd1.
  destruct (map_side_fields c f ob) as (? & ? & ? & Eo & Em & ?).
  rewrite Eo, Em. destruct (erase_resting k Hadm) as (t & -> & Hok & Htr).
  eexists. split; [done|]. by apply handled_orders.
Qed.

Lemma ReduceResting_refines no q :
  0 < q -> (size m < cap)%nat ->
  exists ob', ReduceResting ob no q = Some (ob', (spec_reduce m no q).2) /\
    handled ob a ob' (spec_reduce m no q).1 /\ (size (spec_reduce m no q).1 < cap)%nat.
Proof.
  intros Hq Hsz. unfold ReduceResting, spec_reduce.
  destruct (no =? 0); [by eauto using handled_id|].
  pose proof (find_resting no) as Hm.
  destruct (FindOrder _ _ no) as [i|] eqn:Hf; simpl in Hm; rewrite <- Hm in *;
    [|by eauto using handled_id].
  set (rec := ob_orders ob !!! i) in *. set (c := r_side rec). simpl.
  rewrite Z.geb_leb. destruct (r_qty rec <=? q) eqn:Hfull; bool_arith; cbv zeta.
  - set (f := RemoveQtyFromLevel c _ _ true).
    pose proof (depth_remove ob _ m (br_depth _ _ Hr) no _ (eq_sym Hm)) as Hd1.
    destruct (map_side_fields c f ob) as (? & ? & ? & Eo & Em & ?).
    rewrite Eo, Em. destruct (erase_resting no Hsz) as (t & -> & Hok & Htr).
    eexists. split; [done|]. split; [by apply handled_orders|]. simpl.
    eapply Nat.le_lt_trans; [|exact Hsz]. apply map_subseteq_size, delete_subseteq.
  - pose proof (depth_reduce ob _ m (br_depth _ _ Hr) no _ q (eq_sym Hm) ltac:(simpl; lia)) as Hd1.
    simpl in Hd1. set (f := RemoveQtyFromLevel c (r_price rec) q false).
    assert (i32 (r_qty rec - q) = r_qty rec - q) as Ewrap.
    { pose proof (resting_le_volume ob _ m (br_depth _ _ Hr) no _ (eq_sym Hm)) as Hle.
      unfold max_volume in Hle. simpl in Hle. rewrite wrap_s_id by ranges. done. }
    rewrite Ewrap. destruct (map_side_fields c f ob) as (? & ? & ? & Eo & Em & ?). rewrite Eo.
    destruct (find_Some_holds _ _ (br_ok _ _ Hr) _ _ Hf) as [[_ Hocc] Hkey].
    destruct (update_found _ _ (br_ok _ _ Hr) m no i (with_price_qty (r_price rec) (r_qty rec - q) rec)
              (br_table _ _ Hr) Hf Hocc Hkey) as [Hok Htr].
    eexists. split; [done|]. split; [by apply handled_orders|]. simpl.
    rewrite map_size_insert_Some by by eexists. done.
Qed.
End Handlers.

Lemma ApplyTrade_refines ob a ev :
  book_repr ob a -> ab_stale a = false ->
  msg_type (ev_type ev) = Some kTrade ->
  admissible (ob_tick_size ob) (ob_order_mask ob + 1) a ev = true ->
  exists ob', ApplyTrade ob ev = Some (ob', (spec_trade (ab_orders a) ev).2) /\
    handled ob a ob' (spec_trade (ab_orders a) ev).1.
Proof.
  intros Hr Hst Hty Hadm. unfold admissible in Hadm. rewrite Hty, Hst in Hadm. simpl in Hadm.
  bool_arith. unfold ApplyTrade, spec_trade.
  destruct (ReduceResting_refines ob a Hr (ev_order_no ev) (ev_qty ev)) as
    (ob1 & -> & (Em1 & Et1 & Hr1) & Hs1); [lia|done|].
  destruct (spec_reduce (ab_orders a) _ _) as [m1 x]. simpl in *.
  destruct (ReduceResting_refines ob1 (with_ab_orders m1 a) Hr1 (ev_order_no2 ev) (ev_qty ev)) as
    (ob2 & -> & (Em2 & Et2 & Hr2) & Hs2); [lia|by rewrite Em1|].
  simpl in *. destruct (spec_reduce m1 _ _) as [m2 y]. simpl in *.
  eexists. split; [done|]. split_and!; [congruence..|]. exact Hr2.
Qed.

(** ** Re-seeding *)

Definition seed_view (s : seed) : list PriceLevel :=
  match s with
  | Some (p, q) => [{| pl_price := p; pl_total_quantity := q; pl_order_count := 1 |}]
  | None => []
  end.

Lemma side_repr_seed b s : side_repr b s ∅ (seed_view s).
Proof.
  split.
  - destruct s as [[p q]|]; repeat constructor.
  - intros p. unfold depth_at. rewrite !msum_empty, !Z.add_0_r.
    destruct s as [[p' q]|]; simpl; [|done].
    destruct (p' =? p) eqn:E; bool_arith; [by subst|done].
Qed.

Lemma seed_quote_levels b p q ob s :
  levels_ok b (side_levels b ob) -> view (side_levels b ob) = [] ->
  s = spec_quote (ob_tick_size ob) p q ->
  levels_ok b (side_levels b (seed_quote b p q ob)) /\
  view (side_levels b (seed_quote b p q ob)) = seed_view s /\
  side_levels (negb b) (seed_quote b p q ob) = side_levels (negb b) ob.
Proof.
  intros Hok Hv ->. unfold seed_quote, spec_quote.
  change (TickOk ob p) with (tick_ok (ob_tick_size ob) p).
  destruct ((q >? 0) && tick_ok (ob_tick_size ob) p) eqn:Hc; simpl; [|by destruct b].
  assert (side_ok 0 b (side_levels b ob)) as Hs by (split; [done|by rewrite Hv]).
  assert (side_ok 0 b (seed_side p q (side_levels b ob))) as [Hs' _] by (apply side_ok_seed; [done|by left]).
  assert (view (seed_side p q (side_levels b ob)) =
          [{| pl_price := p; pl_total_quantity := q; pl_order_count := 1 |}]) as Hview.
  { unfold view, seed_side. simpl. pose proof (lo_length _ _ Hok) as Hl.
    destruct (lv_arr (side_levels b ob)); [done|]. simpl. by rewrite firstn_O. }
  destruct b; simpl in *; done.
Qed.

Lemma seed_quote_fields b p q ob :
  ob_expected_seq (seed_quote b p q ob) = ob_expected_seq ob /\
  ob_stale (seed_quote b p q ob) = ob_stale ob /\
  ob_gap_count (seed_quote b p q ob) = ob_gap_count ob /\
  ob_orders (seed_quote b p q ob) = ob_orders ob /\
  ob_order_mask (seed_quote b p q ob) = ob_order_mask ob /\
  ob_tick_size (seed_quote b p q ob) = ob_tick_size ob.
Proof. unfold seed_quote. destruct (_ && _); by destruct b. Qed.

Lemma Seed_refines ob a ev :
  book_repr ob a -> msg_type (ev_type ev) = Some kSnapQuote ->
  admissible (ob_tick_size ob) (ob_order_mask ob + 1) a ev = true ->
  ob_order_mask (Seed ob ev).1 = ob_order_mask ob /\
  ob_tick_size (Seed ob ev).1 = ob_tick_size ob /\
  book_repr (Seed ob ev).1 (spec_seed (ob_tick_size ob) a ev).
Proof.
  intros Hr Hty Hadm. unfold admissible in Hadm. rewrite Hty in Hadm. bool_arith.
  unfold Seed. cbv zeta. simpl fst. set (ob1 := set_seq _ _ _ (clear ob)).
  assert (forall b, levels_ok b (side_levels b ob1) /\ view (side_levels b ob1) = []) as H1.
  { intros b. destruct (dr_levels _ _ _ (br_depth _ _ Hr) b) as [Hl _ _].
    destruct b; (split; [split; [exact Hl|simpl; lia|constructor]|done]). }
  set (sb := spec_quote (ob_tick_size ob) (ev_bid_price ev) (ev_bid_qty ev)).
  set (sa := spec_quote (ob_tick_size ob) (ev_ask_price ev) (ev_ask_qty ev)).
  destruct (seed_quote_fields true (ev_bid_price ev) (ev_bid_qty ev) ob1) as (E1 & E2 & E3 & E4 & E5 & E6).
  set (ob2 := seed_quote true _ _ ob1) in *.
  destruct (seed_quote_fields false (ev_ask_price ev) (ev_ask_qty ev) ob2) as (G1 & G2 & G3 & G4 & G5 & G6).
  destruct (seed_quote_levels true (ev_bid_price ev) (ev_bid_qty ev) ob1 sb) as (Hb1 & Hb2 & Hb3);
    [apply H1..|done|].
  fold ob2 in Hb1, Hb2, Hb3. simpl in Hb3.
  destruct (seed_quote_levels false (ev_ask_price ev) (ev_ask_qty ev) ob2 sa) as (Ha1 & Ha2 & Ha3);
    [simpl; rewrite Hb3; apply (H1 false)..|by rewrite E6|]. simpl in Ha3.
  set (ob3 := seed_quote false _ _ ob2) in *.
  assert (forall p q : Z, q <= max_volume ->
    let s := spec_quote (ob_tick_size ob) p q in
    seed_positive s /\ forall b, volume b s ∅ <= max_volume) as Hsp.
  { intros p q Hq. unfold spec_quote, volume. destruct (_ && _) eqn:Hc; bool_arith; simpl;
      split; try done; intros; rewrite msum_empty; unfold max_volume in *; lia. }
  split_and!; [by rewrite G5, E5|by rewrite G6, E6|]. split; simpl.
  - rewrite G4, G5, E4, E5. apply table_ok_cleared, Hr.
  - rewrite G4, E4. apply table_repr_cleared.
  - split; try done.
    + intros []; [|done]. simpl. by rewrite Ha3.
    + intros []; simpl in *; rewrite ?Ha3, ?Hb2, ?Ha2; apply side_repr_seed.
    + intros []; by apply Hsp.
    + intros []; by apply Hsp.
  - rewrite G1, E1. simpl. by rewrite (br_expected _ _ Hr).
  - by rewrite G2, E2.
  - rewrite G3, E3. apply Hr.
Qed.

(** ** Events and feeds *)

Lemma seq_gap_spec ob a ev : book_repr ob a -> seq_gap ob ev = spec_gap a ev.
Proof. intros Hr. unfold seq_gap, spec_gap. by rewrite (br_expected _ _ Hr). Qed.

(** The book after the sequence check of [apply_event]. *)
Definition after_seq (ob : OrderBook) (ev : MarketEvent) : OrderBook :=
  if ev_seq_no ev =? 0 then ob
  else if seq_gap ob ev then set_seq (u64 (ev_seq_no ev + 1)) true (u64 (ob_gap_count ob + 1)) ob
  else set_seq (u64 (ev_seq_no ev + 1)) (ob_stale ob) (ob_gap_count ob) ob.

Lemma apply_event_split ob ev :
  apply_event ob ev =
    if seq_gap ob ev && negb (is_snap ev) then Some (after_seq ob ev, kGap)
    else dispatch (after_seq ob ev) ev.
Proof.
  unfold apply_event, after_seq. destruct (ev_seq_no ev =? 0) eqn:E0.
  - unfold seq_gap. by rewrite E0.
  - destruct (seq_gap ob ev); simpl; [by destruct (is_snap ev)|done].
Qed.

Lemma book_repr_set_seq ob a e st g :
  book_repr ob a -> book_repr (set_seq e st g ob) (with_ab_seq e st g a).
Proof.
  intros [Hok Ht Hd He Hs Hg]. split; simpl; try done.
  by apply (depth_repr_proper ob).
Qed.

Lemma after_seq_refines ob a ev :
  book_repr ob a ->
  ob_order_mask (after_seq ob ev) = ob_order_mask ob /\
  ob_tick_size (after_seq ob ev) = ob_tick_size ob /\
  book_repr (after_seq ob ev) (spec_seq a ev).
Proof.
  intros Hr. unfold after_seq, spec_seq. rewrite (seq_gap_spec ob a ev Hr).
  destruct (ev_seq_no ev =? 0); [done|].
  destruct (spec_gap a ev); (split_and!; [done..|]).
  - rewrite (br_gaps _ _ Hr). by apply book_repr_set_seq.
  - rewrite (br_gaps _ _ Hr), (br_stale _ _ Hr). by apply book_repr_set_seq.
Qed.

(** [ob'] represents [a'] and keeps the parameters of [ob]. *)
Definition steps_to (ob : OrderBook) (ob' : OrderBook) (a' : ABook) : Prop :=
  ob_order_mask ob' = ob_order_mask ob /\ ob_tick_size ob' = ob_tick_size ob /\ book_repr ob' a'.

Lemma dispatch_refines ob a ev :
  book_repr ob a -> admissible (ob_tick_size ob) (ob_order_mask ob + 1) a ev = true ->
  let '(a', r) := spec_dispatch (ob_tick_size ob) (ob_order_mask ob + 1) a ev in
  exists ob', dispatch ob ev = Some (ob', r) /\ steps_to ob ob' a'.
Proof.
  intros Hr Hadm. unfold spec_dispatch, dispatch. rewrite (br_stale _ _ Hr).
  destruct (msg_type (ev_type ev)) as [[]|] eqn:Hty; try (by eexists);
    try (destruct (ab_stale a) eqn:Hst; [by eexists|]).
  - destruct (ApplyAdd_refines ob a Hr Hst ev Hty Hadm) as (ob' & -> & Hh).
    destruct (spec_add _ _ _ _). by eexists.
  - destruct (ApplyModify_refines ob a Hr Hst ev Hty Hadm) as (ob' & -> & Hh).
    destruct (spec_modify _ _ _). by eexists.
  - destruct (ApplyCancel_refines ob a Hr Hst ev Hty Hadm) as (ob' & -> & Hh).
    destruct (spec_cancel _ _). by eexists.
  - destruct (ApplyTrade_refines ob a ev Hr Hst Hty Hadm) as (ob' & -> & Hh).
    destruct (spec_trade _ _). by eexists.
  - eexists. split; [reflexivity|]. by apply Seed_refines.
Qed.

Lemma apply_event_refines ob a ev :
  book_repr ob a -> event_admissible (ob_tick_size ob) (ob_order_mask ob + 1) a ev = true ->
  let '(a', r) := spec_event (ob_tick_size ob) (ob_order_mask ob + 1) a ev in
  exists ob', apply_event ob ev = Some (ob', r) /\ steps_to ob ob' a'.
Proof.
  intros Hr Hadm. unfold event_admissible in Hadm. rewrite apply_event_split. unfold spec_event.
  destruct (after_seq_refines ob a ev Hr) as (Em & Et & Hr1).
  rewrite (seq_gap_spec ob a ev Hr). destruct (spec_gap a ev && negb (is_snap ev)).
  - by eexists.
  - simpl in Hadm. rewrite <- Em, <- Et in *.
    pose proof (dispatch_refines _ _ ev Hr1 Hadm) as Hd.
    destruct (spec_dispatch _ _ _ _) as [a' r]. destruct Hd as (ob' & -> & E1 & E2 & Hr2).
    exists ob'. split; [done|]. unfold steps_to. rewrite E1, E2, Em, Et. done.
Qed.

Lemma apply_events_refines ob a evs a' rs :
  book_repr ob a ->
  spec_events (ob_tick_size ob) (ob_order_mask ob + 1) a evs = Some (a', rs) ->
  exists ob', apply_events ob evs = Some (ob', rs) /\ steps_to ob ob' a'.
Proof.
  revert ob a rs. induction evs as [|ev evs IH]; intros ob a rs Hr Hs; simpl in Hs.
  - simplify_eq. by eexists.
  - destruct (event_admissible _ _ a ev) eqn:Hadm; [|done].
    pose proof (apply_event_refines ob a ev Hr Hadm) as He.
    destruct (spec_event _ _ a ev) as [a1 r]. destruct He as (ob1 & He & Em & Et & Hr1).
    rewrite <- Em, <- Et in Hs.
    destruct (spec_events _ _ a1 evs) as [[a2 rs2]|] eqn:Hs2; simplify_eq/=.
    destruct (IH ob1 a1 rs2 Hr1 Hs2) as (ob2 & Hrun & Em2 & Et2 & Hr2).
    exists ob2. rewrite He. simpl. rewrite Hrun. split; [done|]. split_and!; congruence.
Qed.

Lemma OrderBook_new_repr token tick cap : book_repr (OrderBook_new token tick cap) ab_empty.
Proof.
  destruct (OrderBook_new_wf token tick cap) as [Hok [Hb _] [Ha _]].
  split; try done; [apply table_repr_empty|].
  split; try done.
  - by intros [].
  - intros []; apply (side_repr_seed _ None).
  - by intros [].
  - intros []; vm_compute; done.
Qed.

Lemma new_capacity token tick cap :
  (ob_order_mask (OrderBook_new token tick cap) + 1 = RoundUpPow2 cap)%nat.
Proof.
  destruct (RoundUpPow2_spec cap) as (k & Hk & _). simpl.
  assert (0 < 2 ^ k)%nat by (apply Nat.neq_0_lt_0, Nat.pow_nonzero; lia). lia.
Qed.

(** ** What a reader of the book sees *)

Definition best (b : bool) (ob : OrderBook) : option PriceLevel :=
  if b then best_bid ob else best_ask ob.

Lemma best_head b ob : levels_ok b (side_levels b ob) -> best b ob = head (view (side_levels b ob)).
Proof.
  intros [Hl Hc _]. transitivity (if (0 <? lv_count (side_levels b ob))%nat
    then Some (lv_arr (side_levels b ob) !!! 0%nat) else None); [by destruct b|].
  unfold view. destruct (lv_arr (side_levels b ob)) as [|x arr] eqn:E; [done|].
  by destruct (lv_count (side_levels b ob)).
Qed.

Lemma displayed_scan_view arr n i p :
  (i + n <= length arr)%nat ->
  displayed_scan n i arr p = from_option pl_total_quantity 0 (level_at (take n (drop i arr)) p).
Proof.
  revert i. induction n as [|n IH]; intros i Hi; [done|]. cbn [displayed_scan].
  destruct (drop i arr) as [|x rest] eqn:Ed.
  { apply (f_equal length) in Ed. rewrite length_drop in Ed. simpl in Ed. lia. }
  assert (arr !! i = Some x) as Hx by by rewrite <- (Nat.add_0_r i), <- lookup_drop, Ed.
  rewrite (list_lookup_total_correct _ _ _ Hx). simpl.
  destruct (pl_price x =? p); [done|]. rewrite IH by lia.
  replace (drop (S i) arr) with rest; [done|].
  by rewrite <- Nat.add_1_r, <- drop_drop, Ed.
Qed.

Section Reader.
Context (ob : OrderBook) (a : ABook) (Hr : book_repr ob a).
Abbreviation depth b := (depth_at b (ab_seed b a) (ab_orders a)).

Lemma repr_level b p : level_at (view (side_levels b ob)) p = depth b p.
Proof. apply (dr_side _ _ _ (br_depth _ _ Hr) b). Qed.

Lemma repr_displayed b p :
  displayed_qty_at ob b p = from_option pl_total_quantity 0 (depth b p).
Proof.
  rewrite <- repr_level. unfold displayed_qty_at, view.
  destruct (dr_levels _ _ _ (br_depth _ _ Hr) b) as [Hl Hc _].
  rewrite displayed_scan_view by lia. by rewrite drop_0.
Qed.

Lemma repr_best b :
  match best b ob with
  | None => forall p, depth b p = None
  | Some l => depth b (pl_price l) = Some l /\
      forall p l', depth b p = Some l' -> p = pl_price l \/ sorts_before b (pl_price l) p = true
  end.
Proof.
  pose proof (dr_levels _ _ _ (br_depth _ _ Hr) b) as Hl. rewrite best_head by done.
  pose proof (lo_sorted _ _ Hl) as Hs. pose proof (repr_level b) as Hlev.
  destruct (view (side_levels b ob)) as [|l v]; simpl in *; [done|].
  split; [by rewrite <- Hlev, Z.eqb_refl|].
  intros p l' Hp. rewrite <- Hlev in Hp. case_if_in Hp; [by left; bool_arith|].
  right. apply level_at_lookup in Hp as (i & Hi & <-).
  apply (sorted_lookup b (l :: v) 0 (S i)); by try lia.
Qed.
End Reader.

(** C1.  On every admissible feed (any interleaving of adds, modifies, cancels,
    trades, snapshots and sequence gaps) the book answers each event exactly as
    the abstract book of resting orders does, and at the end the hash table
    holds the abstract orders, and each level array holds, for every price, the
    number and total quantity of the orders resting there. *)
Theorem book_refines token tick cap evs a rs :
  spec_events tick (RoundUpPow2 cap) ab_empty evs = Some (a, rs) ->
  exists ob, apply_events (OrderBook_new token tick cap) evs = Some (ob, rs) /\
    (forall no, (fun i => resting_of (ob_orders ob !!! i)) <$>
                  FindOrder (ob_orders ob) (ob_order_mask ob) no = ab_orders a !! no) /\
    (forall b p, level_at (view (side_levels b ob)) p =
                 depth_at b (ab_seed b a) (ab_orders a) p) /\
    ob_stale ob = ab_stale a /\ ob_gap_count ob = ab_gaps a.
Proof.
  intros Hs. rewrite <- (new_capacity token tick cap) in Hs.
  destruct (apply_events_refines _ _ _ _ _ (OrderBook_new_repr token tick cap) Hs)
    as (ob & Hrun & _ & _ & Hr).
  exists ob. split_and!; [done| |intros; by apply repr_level|apply Hr..].
  intros no. by apply (find_resting ob a Hr).
Qed.

(** A short feed: two bids and an ask, a modify, a partial trade, a gap, a
    dropped add and the snapshot that re-seeds the book. *)
Definition feed_event (ty : MtbtMsgType) (no no2 price qty : Z) (side : Side) (seq : Z)
    : MarketEvent :=
  {| ev_ts := 0; ev_token := 7; ev_price := price; ev_qty := qty; ev_side := side;
     ev_type := msg_code ty; ev_order_no := no; ev_stream_id := 1; ev_seq_no := seq;
     ev_order_no2 := no2; ev_trade_no := 0; ev_bid_price := 9995; ev_bid_qty := 10;
     ev_ask_price := 10010; ev_ask_qty := 20 |}.

Definition sample_trading : list MarketEvent :=
  [feed_event kOrderAdd 1 0 10000 50 kBuy 1; feed_event kOrderAdd 2 0 9995 30 kBuy 2;
   feed_event kOrderAdd 3 0 10005 40 kSell 3; feed_event kOrderModify 2 0 10000 35 kBuy 4;
   feed_event kTrade 1 3 10000 40 kBuy 5].

Definition sample_feed : list MarketEvent :=
  sample_trading ++
  [feed_event kOrderAdd 4 0 10010 5 kSell 9; feed_event kOrderAdd 5 0 10010 5 kSell 10;
   feed_event kSnapQuote 0 0 0 0 kBuy 11; feed_event kOrderAdd 6 0 9995 5 kBuy 12].

Definition spec_run (evs : list MarketEvent) : ABook * list BookResult :=
  default (ab_empty, []) (spec_events 5 (RoundUpPow2 8) ab_empty evs).

Lemma book_refines_witness :
  (spec_run sample_feed).2 = [kOk; kOk; kOk; kOk; kOk; kGap; kStaleDropped; kSeeded; kOk] /\
  exists ob, apply_events (OrderBook_new 7 5 8) sample_feed = Some (ob, (spec_run sample_feed).2) /\
    forall b p, level_at (view (side_levels b ob)) p =
      depth_at b (ab_seed b (spec_run sample_feed).1) (ab_orders (spec_run sample_feed).1) p.
Proof.
  split; [vm_compute; reflexivity|].
  destruct (book_refines 7 5 8 sample_feed (spec_run sample_feed).1 (spec_run sample_feed).2)
    as (ob & Hrun & _ & Hlev & _); [vm_compute; reflexivity|].
  exists ob. split; [exact Hrun|exact Hlev].
Defined.

(** C2.  After every admissible feed the quotes the strategy reads are the true
    ones: the displayed quantity at each price is the sum of the orders resting
    there, the best bid is the highest price with a resting buy order (with its
    full depth), the best ask the lowest with a resting sell order, and a side
    has no best exactly when it has no depth. *)
Theorem book_quotes_correct token tick cap evs a rs :
  spec_events tick (RoundUpPow2 cap) ab_empty evs = Some (a, rs) ->
  exists ob, apply_events (OrderBook_new token tick cap) evs = Some (ob, rs) /\
    forall b,
      (forall p, displayed_qty_at ob b p =
         from_option pl_total_quantity 0 (depth_at b (ab_seed b a) (ab_orders a) p)) /\
      match (if b then best_bid ob else best_ask ob) with
      | None => forall p, depth_at b (ab_seed b a) (ab_orders a) p = None
      | Some l =>
          depth_at b (ab_seed b a) (ab_orders a) (pl_price l) = Some l /\
          forall p l', depth_at b (ab_seed b a) (ab_orders a) p = Some l' ->
            if b then p <= pl_price l else pl_price l <= p
      end.
Proof.
  intros Hs. rewrite <- (new_capacity token tick cap) in Hs.
  destruct (apply_events_refines _ _ _ _ _ (OrderBook_new_repr token tick cap) Hs)
    as (ob & Hrun & _ & _ & Hr).
  exists ob. split; [done|]. intros b. split; [intros p; by apply repr_displayed|].
  pose proof (repr_best ob a Hr b) as Hb. fold (best b ob).
  destruct (best b ob) as [l|]; [|done]. destruct Hb as [Hl Hbest]. split; [done|].
  intros p l' Hp. unfold sorts_before in Hbest.
  destruct (Hbest p l' Hp) as [->|Hlt]; destruct b; bool_arith; lia.
Qed.

Lemma book_quotes_correct_witness :
  exists ob, apply_events (OrderBook_new 7 5 8) sample_trading =
      Some (ob, (spec_run sample_trading).2) /\
    displayed_qty_at ob kBuy 10000 = 45 /\ pl_price <$> best_bid ob = Some 10000 /\
    best_ask ob = None.
Proof.
  destruct (book_quotes_correct 7 5 8 sample_trading (spec_run sample_trading).1
              (spec_run sample_trading).2) as (ob & Hrun & Hq); [vm_compute; reflexivity|].
  exists ob. split; [exact Hrun|]. split; [rewrite (proj1 (Hq kBuy)); vm_compute; reflexivity|].
  revert Hrun. vm_compute. intros Hrun. injection Hrun as <-. split; reflexivity.
Defined.
