(* ===== verification/BookManager.v ===== *)
(** * BookManager: the books of all watched tokens (src/order_book/book_manager.hpp)

    [slots_], a vector of 65536 owning pointers indexed by token, is a finite
    map from tokens to books: a token that is absent is a null pointer.  The
    bounds test of each access is kept.  Routing is total except for the
    non-termination of [EraseOrder], which is [None] as in [OrderBook]. *)

From Stdlib Require Import ZArith Lia.
From stdpp Require Import base gmap list numbers option.
From S2P Require Import Prelude Types OrderTable LevelArray OrderBook.

Local Open Scope Z_scope.

Definition kMaxTokens : Z := 65536.

Record BookManager := { bm_slots : gmap Z OrderBook; bm_watched : Z }.

Definition BookManager_new : BookManager := {| bm_slots := ∅; bm_watched := 0 |}.

(** The returned pointer is the token's slot; [false] is [nullptr]. *)
Definition add_token (token : Token) (tick_size : Price) (order_capacity : nat) (bm : BookManager)
    : BookManager * bool :=
  if token >=? kMaxTokens then (bm, false)
  else
    match bm_slots bm !! token with
    | None => ({| bm_slots := <[token := OrderBook_new token tick_size order_capacity]> (bm_slots bm);
                  bm_watched := bm_watched bm + 1 |}, true)
    | Some ob => ({| bm_slots := <[token := set_tick_size tick_size ob]> (bm_slots bm);
                     bm_watched := bm_watched bm |}, true)
    end.

Definition get_book (token : Token) (bm : BookManager) : option OrderBook :=
  if token >=? kMaxTokens then None else bm_slots bm !! token.

Definition route (bm : BookManager) (ev : MarketEvent) : option (BookManager * BookResult) :=
  match get_book (ev_token ev) bm with
  | None => Some (bm, kOk)
  | Some ob =>
      '(ob, r) ← apply_event ob ev;
      Some ({| bm_slots := <[ev_token ev := ob]> (bm_slots bm); bm_watched := bm_watched bm |}, r)
  end.

Fixpoint route_all (bm : BookManager) (evs : list MarketEvent)
    : option (BookManager * list BookResult) :=
  match evs with
  | [] => Some (bm, [])
  | ev :: evs => '(bm, r) ← route bm ev; '(bm, rs) ← route_all bm evs; Some (bm, r :: rs)
  end.

(** ** Invariant *)

Record manager_ok (bm : BookManager) : Prop := {
  mo_watched : bm_watched bm = Z.of_nat (size (bm_slots bm));
  mo_keys : map_Forall (fun k ob => 0 <= k < kMaxTokens /\ ob_token ob = k) (bm_slots bm);
}.

(** What the order handlers never write: the token and the expected sequence
    number. *)
Definition ident (ob : OrderBook) : Token * Z := (ob_token ob, ob_expected_seq ob).

Lemma map_side_ident b f ob : ident (map_side b f ob) = ident ob.
Proof. by destruct b. Qed.

Lemma set_orders_ident t ob : ident (set_orders t ob) = ident ob.
Proof. done. Qed.

Lemma seed_quote_ident b p q ob : ident (seed_quote b p q ob) = ident ob.
Proof. unfold seed_quote. case_if; [apply map_side_ident|done]. Qed.

Hint Rewrite map_side_ident set_orders_ident seed_quote_ident : ident.

Lemma ReduceResting_ident ob no q ob' x :
  ReduceResting ob no q = Some (ob', x) -> ident ob' = ident ob.
Proof.
  unfold ReduceResting. intros H. repeat case_match; simplify_eq/=; try done.
  all: repeat case_match; simplify_eq/=;
    try (apply bind_Some in H as (t & _ & H); simplify_eq/=); by autorewrite with ident.
Qed.

Lemma ApplyAdd_ident ob ev : ident (ApplyAdd ob ev).1 = ident ob.
Proof. unfold ApplyAdd. repeat case_match; simpl; by autorewrite with ident. Qed.

Lemma ApplyModify_ident ob ev : ident (ApplyModify ob ev).1 = ident ob.
Proof. unfold ApplyModify. repeat case_match; simpl; by autorewrite with ident. Qed.

Lemma Seed_ident ob ev :
  ident (Seed ob ev).1 =
    (ob_token ob, if ev_seq_no ev =? 0 then ob_expected_seq ob else u64 (ev_seq_no ev + 1)).
Proof. unfold Seed. simpl. by rewrite !seed_quote_ident. Qed.

Lemma dispatch_ident ob ev ob' r :
  dispatch ob ev = Some (ob', r) ->
  ident ob' = ident ob \/ (is_snap ev = true /\ ident ob' = ident (Seed ob ev).1).
Proof.
  pose proof (ApplyAdd_ident ob ev). pose proof (ApplyModify_ident ob ev).
  unfold dispatch, is_snap. intros Hd.
  destruct (msg_type (ev_type ev)) as [[]|]; try case_if_in Hd; try (left; congruence); [left..|right].
  - injection Hd as Hd. by rewrite Hd in *.
  - injection Hd as Hd. by rewrite Hd in *.
  - unfold ApplyCancel in Hd. repeat case_match; simplify_eq/=; [|done].
    apply bind_Some in Hd as (t & _ & Hd). simplify_eq/=. by autorewrite with ident.
  - unfold ApplyTrade in Hd. apply bind_Some in Hd as ([ob1 x] & H1 & Hd).
    apply bind_Some in Hd as ([ob2 y] & H2 & Hd). simplify_eq/=.
    apply ReduceResting_ident in H1, H2. congruence.
  - injection Hd as <- <-. done.
Qed.

(** The token never changes; a numbered event leaves its successor expected. *)
Lemma apply_event_ident ob ev ob' r :
  apply_event ob ev = Some (ob', r) ->
  ident ob' = (ob_token ob,
    if ev_seq_no ev =? 0 then ob_expected_seq ob else u64 (ev_seq_no ev + 1)).
Proof.
  unfold apply_event. destruct (ev_seq_no ev =? 0) eqn:E0; intros H.
  - destruct (dispatch_ident _ _ _ _ H) as [->|[_ ->]]; [done|]. by rewrite Seed_ident, E0.
  - destruct (seq_gap ob ev), (is_snap ev); simplify_eq/=; try done;
      (destruct (dispatch_ident _ _ _ _ H) as [->|[_ ->]]; [done|by rewrite Seed_ident, E0]).
Qed.

Lemma apply_event_token ob ev ob' r :
  apply_event ob ev = Some (ob', r) -> ob_token ob' = ob_token ob.
Proof. intros H. apply apply_event_ident in H. by injection H. Qed.

Lemma manager_ok_new : manager_ok BookManager_new.
Proof. split; [done|apply map_Forall_empty]. Qed.

Lemma add_token_ok token tick cap bm :
  0 <= token -> manager_ok bm -> manager_ok (add_token token tick cap bm).1.
Proof.
  intros Ht [Hw Hk]. unfold add_token. rewrite Z.geb_leb. case_if; [done|]. bool_arith.
  destruct (bm_slots bm !! token) as [ob|] eqn:E; split; simpl.
  - rewrite map_size_insert_Some; [done|by eexists].
  - apply map_Forall_insert_2; [|done]. destruct (Hk _ _ E). split; [lia|done].
  - rewrite map_size_insert_None by done. lia.
  - apply map_Forall_insert_2; [|done]. split; [lia|done].
Qed.

Lemma route_ok bm ev bm' r : manager_ok bm -> route bm ev = Some (bm', r) -> manager_ok bm'.
Proof.
  intros [Hw Hk] H. unfold route in H. destruct (get_book (ev_token ev) bm) as [ob|] eqn:E.
  2: { by simplify_eq. }
  apply bind_Some in H as ([ob' r'] & Ha & H). simplify_eq. unfold get_book in E.
  case_if_in E; [done|]. destruct (Hk _ _ E) as [? Htok]. split; simpl.
  - rewrite map_size_insert_Some; [done|by eexists].
  - apply map_Forall_insert_2; [|done]. split; [lia|]. apply apply_event_token in Ha. congruence.
Qed.

(** ** Histories of the manager *)

Inductive ManagerOp := OpAddToken (token : Token) (tick : Price) (cap : nat) | OpRoute (ev : MarketEvent).

Definition manager_step (bm : BookManager) (op : ManagerOp) : option BookManager :=
  match op with
  | OpAddToken token tick cap => Some (add_token token tick cap bm).1
  | OpRoute ev => fst <$> route bm ev
  end.

Definition op_ok (op : ManagerOp) : Prop :=
  match op with OpAddToken token _ _ => 0 <= token | OpRoute _ => True end.

(** Whatever sequence of registrations and events the manager sees,
    [watched_count] is the number of registered tokens, every slot is within the
    65536-entry array, and the book in a slot is the one built for that token. *)
Theorem manager_invariant ops bm :
  Forall op_ok ops -> foldl (fun o op => o ≫= fun bm => manager_step bm op) (Some BookManager_new) ops
    = Some bm -> manager_ok bm.
Proof.
  intros Hops. generalize manager_ok_new. generalize BookManager_new as bm0.
  induction Hops as [|op ops Hop Hops IH]; intros bm0 Hok; simpl; [by intros [= <-]|].
  destruct (manager_step bm0 op) as [bm1|] eqn:E.
  - apply IH. destruct op as [token tick cap|ev]; simpl in E; simplify_eq.
    + by apply add_token_ok.
    + apply fmap_Some in E as ([bm' r] & E & ->). by apply route_ok in E.
  - assert (foldl (fun o op => o ≫= fun bm => manager_step bm op) None ops = None) as ->; [|done].
    clear. by induction ops.
Qed.

(** ** Routing is a demultiplexer *)

Definition of_token (k : Token) (evs : list MarketEvent) : list MarketEvent :=
  filter (fun ev => ev_token ev = k) evs.

(** Two tokens, 7 and 9, on one stream. *)
Definition token_add (token no seq : Z) : MarketEvent :=
  {| ev_ts := 0; ev_token := token; ev_price := 100; ev_qty := 10; ev_side := kBuy;
     ev_type := msg_code kOrderAdd; ev_order_no := no; ev_stream_id := 1; ev_seq_no := seq;
     ev_order_no2 := 0; ev_trade_no := 0; ev_bid_price := 0; ev_bid_qty := 0;
     ev_ask_price := 0; ev_ask_qty := 0 |}.

Definition two_books : BookManager :=
  (add_token 9 5 4 (add_token 7 5 4 BookManager_new).1).1.

Lemma two_books_ok : manager_ok two_books.
Proof. apply add_token_ok, add_token_ok, manager_ok_new; lia. Qed.

Lemma manager_invariant_witness :
  exists bm, foldl (fun o op => o ≫= fun bm => manager_step bm op) (Some BookManager_new)
      [OpAddToken 7 5 4; OpAddToken 9 5 4; OpRoute (token_add 7 1 1); OpAddToken 7 10 4] = Some bm /\
    manager_ok bm /\ bm_watched bm = 2.
Proof.
  eexists. split; [vm_compute; reflexivity|]. split; [|reflexivity].
  apply (manager_invariant
           [OpAddToken 7 5 4; OpAddToken 9 5 4; OpRoute (token_add 7 1 1); OpAddToken 7 10 4]);
    [repeat constructor; simpl; lia|vm_compute; reflexivity].
Defined.

Lemma route_unwatched bm ev :
  manager_ok bm -> bm_slots bm !! ev_token ev = None -> route bm ev = Some (bm, kOk).
Proof. intros _ H. unfold route, get_book. rewrite H. by case_if. Qed.

Lemma route_watched bm ev ob :
  manager_ok bm -> bm_slots bm !! ev_token ev = Some ob ->
  route bm ev = '(ob, r) ← apply_event ob ev;
    Some ({| bm_slots := <[ev_token ev := ob]> (bm_slots bm); bm_watched := bm_watched bm |}, r).
Proof.
  intros [_ Hk] H. destruct (Hk _ _ H) as [Hr _]. unfold route, get_book.
  rewrite Z.geb_leb, (proj2 (Z.leb_gt _ _) (proj2 Hr)), H. done.
Qed.

Lemma of_token_same ev evs : of_token (ev_token ev) (ev :: evs) = ev :: of_token (ev_token ev) evs.
Proof. by apply filter_cons_True. Qed.

Lemma of_token_other k ev evs : ev_token ev <> k -> of_token k (ev :: evs) = of_token k evs.
Proof. intros H. by apply filter_cons_False. Qed.

(** C7.  Routing a feed runs each watched token's book on exactly that token's
    events, in order, and never touches another book: as long as no single book
    hangs on its own events the whole feed is processed, and afterwards every
    slot holds its book run on the events of its token alone. *)
Theorem routing_per_token bm evs :
  manager_ok bm ->
  (forall k ob, bm_slots bm !! k = Some ob -> is_Some (apply_events ob (of_token k evs))) ->
  exists bm' rs, route_all bm evs = Some (bm', rs) /\
    forall k, bm_slots bm' !! k =
      (ob ← bm_slots bm !! k; fst <$> apply_events ob (of_token k evs)).
Proof.
  revert bm. induction evs as [|ev evs IH]; intros bm Hok Hrun; simpl.
  { exists bm, []. split; [done|]. intros k. by destruct (bm_slots bm !! k). }
  destruct (bm_slots bm !! ev_token ev) as [ob|] eqn:Ht.
  - pose proof (Hrun _ ob Ht) as [[obn rsn] Hn]. rewrite of_token_same in Hn. simpl in Hn.
    apply bind_Some in Hn as ([ob1 r] & He & Hn). apply bind_Some in Hn as ([ob2 rs2] & Hn & E).
    pose proof (route_watched bm ev ob Hok Ht) as Hroute. rewrite He in Hroute. simpl in Hroute.
    pose proof (route_ok _ _ _ _ Hok Hroute) as Hok1. rewrite Hroute. simpl.
    edestruct (IH _ Hok1) as (bm' & rs & -> & Hlook).
    { simpl. intros k ob'. destruct (decide (ev_token ev = k)) as [<-|Hne].
      - rewrite lookup_insert_eq. intros [= <-]. by rewrite Hn.
      - rewrite lookup_insert_ne by done. intros Hk. specialize (Hrun k ob' Hk).
        by rewrite of_token_other in Hrun. }
    eexists _, _. split; [done|]. intros k. rewrite Hlook. simpl. destruct (decide (ev_token ev = k)) as [<-|Hne].
    + rewrite lookup_insert_eq, of_token_same, Ht. simpl. rewrite He. simpl. by rewrite Hn.
    + by rewrite lookup_insert_ne, of_token_other.
  - rewrite (route_unwatched bm ev Hok Ht). simpl. destruct (IH bm Hok) as (bm' & rs & -> & Hlook).
    { intros k ob Hk. specialize (Hrun k ob Hk). rewrite of_token_other in Hrun; [done|].
      intros E. congruence. }
    eexists _, _. split; [done|]. intros k. rewrite Hlook.
    destruct (decide (ev_token ev = k)) as [<-|Hne]; [by rewrite Ht|by rewrite of_token_other].
Qed.

Lemma routing_per_token_witness :
  exists bm rs,
    route_all two_books [token_add 7 1 1; token_add 9 2 2; token_add 11 3 3; token_add 9 4 3]
      = Some (bm, rs) /\
    (ob_gap_count <$> bm_slots bm !! 7) = Some 0 /\
    bm_slots bm !! 11 = None /\
    bm_slots bm !! 9 = (fst <$> apply_events (OrderBook_new 9 5 4) [token_add 9 2 2; token_add 9 4 3]).
Proof.
  destruct (routing_per_token two_books
    [token_add 7 1 1; token_add 9 2 2; token_add 11 3 3; token_add 9 4 3] two_books_ok)
    as (bm & rs & Hrun & Hk).
  { intros k ob Hk. 
    change (bm_slots two_books) with
      (<[9 := OrderBook_new 9 5 4]> (<[7 := OrderBook_new 7 5 4]> ∅) : gmap Z OrderBook) in Hk.
    apply lookup_insert_Some in Hk as [[<- <-]|[_ Hk]]; [vm_compute; by eexists|].
    apply lookup_insert_Some in Hk as [[<- <-]|[_ Hk]]; [vm_compute; by eexists|done]. }
  exists bm, rs. split; [exact Hrun|]. split_and!; rewrite Hk; vm_compute; reflexivity.
Defined.

(** ** Shared sequence numbers

    NSE numbers the packets of a stream, and one stream carries many tokens,
    while each book expects its own events to be consecutive. *)

Lemma apply_event_gap ob ev :
  seq_gap ob ev = true -> is_snap ev = false ->
  apply_event ob ev =
    Some (set_seq (u64 (ev_seq_no ev + 1)) true (u64 (ob_gap_count ob + 1)) ob, kGap).
Proof.
  intros Hg Hs. unfold apply_event. rewrite Hg, Hs.
  unfold seq_gap in Hg. destruct (ev_seq_no ev =? 0); [done|reflexivity].
Qed.

(** On a loss-free stream (sequence numbers [s], [s+1], [s+2]) that carries
    two watched tokens, the second event of the first token is reported as a
    gap and leaves that book stale. *)
Theorem shared_stream_marks_stale bm s e1 e2 e3 bm1 bm2 r1 r2 ob :
  manager_ok bm -> 0 < s -> s + 2 < 2 ^ 64 ->
  ev_seq_no e1 = s -> ev_seq_no e2 = s + 1 -> ev_seq_no e3 = s + 2 ->
  ev_token e3 = ev_token e1 -> ev_token e2 <> ev_token e1 -> is_snap e3 = false ->
  bm_slots bm !! ev_token e1 = Some ob ->
  route bm e1 = Some (bm1, r1) -> route bm1 e2 = Some (bm2, r2) ->
  exists bm3 ob3, route bm2 e3 = Some (bm3, kGap) /\
    bm_slots bm3 !! ev_token e1 = Some ob3 /\ ob_stale ob3 = true.
Proof.
  intros Hok Hs0 Hs E1 E2 E3 Ht Hne Hsnap Hob H1 H2.
  pose proof (route_ok _ _ _ _ Hok H1) as Hok1. pose proof (route_ok _ _ _ _ Hok1 H2) as Hok2.
  rewrite (route_watched _ _ _ Hok Hob) in H1. apply bind_Some in H1 as ([ob1 x] & Ha & H1).
  simplify_eq/=. apply apply_event_ident in Ha.
  assert (bm_slots bm2 !! ev_token e1 = Some ob1) as Hob2.
  { unfold route in H2. case_match; [|simplify_eq/=; apply lookup_insert_eq].
    apply bind_Some in H2 as ([ob2 y] & _ & H2). simplify_eq/=.
    by rewrite lookup_insert_ne, lookup_insert_eq. }
  rewrite <- Ht in Hob2 |- *. rewrite (route_watched _ _ _ Hok2 Hob2).
  rewrite apply_event_gap; [|clear Hok1 Hok2|done].
  - eexists _, _. split; [reflexivity|]. simpl. by rewrite lookup_insert_eq.
  - injection Ha as _ He. unfold seq_gap. rewrite He, E3.
    rewrite (proj2 (Z.eqb_neq (ev_seq_no e1) 0)) by lia.
    rewrite wrap_u_id by ranges.
    rewrite !(fun x y => proj2 (Z.eqb_neq x y)) by lia. done.
Qed.

Lemma shared_stream_marks_stale_witness :
  exists bm1 r1 bm2 r2 bm3 ob3,
    route two_books (token_add 7 1 1) = Some (bm1, r1) /\
    route bm1 (token_add 9 2 2) = Some (bm2, r2) /\
    route bm2 (token_add 7 3 3) = Some (bm3, kGap) /\
    bm_slots bm3 !! 7 = Some ob3 /\ ob_stale ob3 = true.
Proof.
  do 4 eexists.
  destruct (shared_stream_marks_stale two_books 1 (token_add 7 1 1) (token_add 9 2 2)
    (token_add 7 3 3) _ _ _ _ (OrderBook_new 7 5 4) two_books_ok ltac:(lia) ltac:(lia)
    eq_refl eq_refl eq_refl eq_refl ltac:(discriminate) eq_refl
    ltac:(vm_compute; reflexivity) ltac:(vm_compute; reflexivity) ltac:(vm_compute; reflexivity))
    as (bm3 & ob3 & H1 & H2 & H3).
  exists bm3, ob3. split; [vm_compute; reflexivity|]. split; [vm_compute; reflexivity|].
  split; [exact H1|]. split; [exact H2|exact H3].
Defined.
