(* ===== verification/RingBuffer.v ===== *)
(** * RingBuffer: the lock-free SPSC queue (src/common/ring_buffer.hpp)

    Two models of the class.  [RingBuffer] with [push], [pop] and [size] is the
    sequential code, 64-bit counters included.  [step] interleaves one producer
    and one consumer at the granularity of their loads and stores; an acquire
    load of the other side's counter may return any value it held since this
    side last looked, which is what release/acquire ordering allows.

    [BoundedQueue] is the contract the users of the queue rely on. *)

From Stdlib Require Import ZArith Lia.
From stdpp Require Import base list numbers option.
From S2P Require Import Prelude.

(** ** The contract: a bounded FIFO queue *)

Class BoundedQueue (Q T : Type) := {
  q_capacity : nat;
  q_push : T -> Q -> Q * bool;
  q_pop : Q -> Q * option T;
  q_repr : Q -> list T -> Prop;
  q_bounded q l : q_repr q l -> length l <= q_capacity;
  q_push_spec q l v : q_repr q l ->
    if decide (length l < q_capacity)
    then (q_push v q).2 = true /\ q_repr (q_push v q).1 (l ++ [v])
    else q_push v q = (q, false);
  q_pop_spec q l : q_repr q l ->
    match l with
    | [] => q_pop q = (q, None)
    | v :: l' => (q_pop q).2 = Some v /\ q_repr (q_pop q).1 l'
    end;
}.

(** A client sees the results a list-backed queue of that capacity gives. *)
Section Client.
Context {Q T : Type} {BQ : BoundedQueue Q T}.

Inductive QueueOp := OpPush (v : T) | OpPop.
Inductive QueueResult := Pushed (ok : bool) | Popped (out : option T).

Definition queue_op (q : Q) (op : QueueOp) : Q * QueueResult :=
  match op with
  | OpPush v => let '(q, ok) := q_push v q in (q, Pushed ok)
  | OpPop => let '(q, out) := q_pop q in (q, Popped out)
  end.

Definition list_op (cap : nat) (l : list T) (op : QueueOp) : list T * QueueResult :=
  match op with
  | OpPush v => if decide (length l < cap) then (l ++ [v], Pushed true) else (l, Pushed false)
  | OpPop => match l with [] => ([], Popped None) | v :: l => (l, Popped (Some v)) end
  end.

Fixpoint run {S : Type} (f : S -> QueueOp -> S * QueueResult) (s : S) (ops : list QueueOp)
    : S * list QueueResult :=
  match ops with
  | [] => (s, [])
  | op :: ops => let '(s, r) := f s op in let '(s, rs) := run f s ops in (s, r :: rs)
  end.

Lemma queue_op_spec q l op :
  q_repr q l -> q_repr (queue_op q op).1 (list_op q_capacity l op).1 /\
                (queue_op q op).2 = (list_op q_capacity l op).2.
Proof.
  intros Hr. destruct op as [v|]; simpl.
  - pose proof (q_push_spec q l v Hr) as Hp. destruct (decide _); [|by rewrite Hp].
    destruct (q_push v q) as [q' ok]. simpl in *. by destruct Hp as [-> ?].
  - pose proof (q_pop_spec q l Hr) as Hp. destruct l as [|v l]; [by rewrite Hp|].
    destruct (q_pop q) as [q' out]. simpl in *. by destruct Hp as [-> ?].
Qed.

Lemma queue_run_spec q l ops :
  q_repr q l -> q_repr (run queue_op q ops).1 (run (list_op q_capacity) l ops).1 /\
                (run queue_op q ops).2 = (run (list_op q_capacity) l ops).2.
Proof.
  revert q l. induction ops as [|op ops IH]; intros q l Hr; simpl; [done|].
  destruct (queue_op_spec q l op Hr) as [Hr1 E].
  destruct (queue_op q op) as [q1 r], (list_op q_capacity l op) as [l1 r']. simpl in *. subst r'.
  destruct (IH q1 l1 Hr1) as [Hr2 E2].
  destruct (run queue_op q1 ops), (run (list_op q_capacity) l1 ops). simpl in *. by subst.
Qed.
End Client.
Arguments QueueOp : clear implicits.
Arguments QueueResult : clear implicits.

Section Ring.
Context {T : Type} `{!Inhabited T}.
(** [Capacity = 2 ^ cap_log], the power of two the [static_assert] demands. *)
Context (cap_log : nat) (cap_fits : cap_log <= 63).

Definition Capacity : nat := 2 ^ cap_log.
Definition kMask : Z := (Z.of_nat Capacity - 1)%Z.

(** ** Sequential code *)

Record RingBuffer := { rb_head : Z; rb_tail : Z; rb_buffer : list T }.

Definition ring_index (counter : Z) : nat := Z.to_nat (Z.land counter kMask).

Definition ring_new (junk : list T) : RingBuffer :=
  {| rb_head := 0; rb_tail := 0; rb_buffer := junk |}.

Definition ring_push (value : T) (rb : RingBuffer) : RingBuffer * bool :=
  let tail := rb_tail rb in
  let next := u64 (tail + 1) in
  if (u64 (next - rb_head rb) >? Z.of_nat Capacity)%Z then (rb, false)
  else ({| rb_head := rb_head rb; rb_tail := next;
           rb_buffer := <[ring_index tail := value]> (rb_buffer rb) |}, true).

Definition ring_pop (rb : RingBuffer) : RingBuffer * option T :=
  let head := rb_head rb in
  if (head =? rb_tail rb)%Z then (rb, None)
  else ({| rb_head := u64 (head + 1); rb_tail := rb_tail rb; rb_buffer := rb_buffer rb |},
        Some (rb_buffer rb !!! ring_index head)).

Definition ring_size (rb : RingBuffer) : Z := u64 (rb_tail rb - rb_head rb).
Definition ring_empty (rb : RingBuffer) : bool := (ring_size rb =? 0)%Z.

(** ** Counters and slots

    The counters are the numbers of completed pushes and pops modulo 2^64;
    the slot of the [n]-th element is [n mod Capacity] since the capacity
    divides 2^64. *)

Abbreviation ctr n := (u64 (Z.of_nat n)).
Definition slot (n : nat) : nat := n mod Capacity.

Lemma Capacity_pos : 0 < Capacity.
Proof. apply Nat.neq_0_lt_0, Nat.pow_nonzero. lia. Qed.

Lemma Capacity_Z : Z.of_nat Capacity = (2 ^ Z.of_nat cap_log)%Z.
Proof. unfold Capacity. by rewrite Nat2Z.inj_pow. Qed.

Lemma Capacity_fits : (Z.of_nat Capacity <= 2 ^ 63)%Z.
Proof. rewrite Capacity_Z. apply Z.pow_le_mono_r; lia. Qed.

Lemma ring_index_ctr n : ring_index (ctr n) = slot n.
Proof.
  unfold ring_index, slot, kMask. rewrite Capacity_Z.
  replace (2 ^ Z.of_nat cap_log - 1)%Z with (Z.ones (Z.of_nat cap_log))
    by (rewrite Z.ones_equiv; lia).
  rewrite Z.land_ones by lia. unfold wrap_u.
  rewrite <- Znumtheory.Zmod_div_mod; [|lia..|].
  - rewrite <- Capacity_Z, <- Nat2Z.inj_mod. apply Nat2Z.id.
  - replace 64%Z with (Z.of_nat cap_log + (64 - Z.of_nat cap_log))%Z by lia.
    rewrite Z.pow_add_r by lia. apply Z.divide_factor_l.
Qed.

Lemma ctr_succ n : u64 (ctr n + 1) = ctr (S n).
Proof. rewrite Nat2Z.inj_succ. unfold Z.succ. apply wrap_u_add_l. lia. Qed.

Lemma ctr_sub n k : k <= n -> n - k <= S Capacity -> u64 (ctr n - ctr k) = Z.of_nat (n - k).
Proof.
  intros Hk Hc. rewrite wrap_u_sub by lia. rewrite <- Nat2Z.inj_sub by done.
  pose proof Capacity_fits. rewrite wrap_u_id; [done|]. ranges.
Qed.

Lemma ctr_eq n k : k <= n -> n - k <= Capacity -> (ctr k =? ctr n)%Z = bool_decide (k = n).
Proof.
  intros Hk Hc. pose proof (ctr_sub n k Hk ltac:(lia)) as Hs.
  case_bool_decide as E; [subst; apply Z.eqb_refl|].
  apply Z.eqb_neq. intros Hn. rewrite Hn, Z.sub_diag in Hs. unfold wrap_u in Hs.
  rewrite Z.mod_0_l in Hs by lia. lia.
Qed.

Lemma slot_lt n : slot n < Capacity.
Proof. apply Nat.mod_upper_bound. pose proof Capacity_pos. lia. Qed.

Lemma slot_distinct i j : i < j -> j < i + Capacity -> slot i <> slot j.
Proof.
  intros Hij Hj Heq. unfold slot in Heq. pose proof Capacity_pos.
  pose proof (Nat.div_mod_eq i Capacity). pose proof (Nat.div_mod_eq j Capacity).
  destruct (Nat.lt_ge_cases (i / Capacity) (j / Capacity)); nia.
Qed.

(** ** The sequential code is a bounded FIFO queue *)

(** [ws] holds every value pushed so far, [c] counts the pops. *)
Definition stored (c p : nat) (ws : list T) (buffer : list T) : Prop :=
  length buffer = Capacity /\ c <= p <= c + Capacity /\ p = length ws /\
  forall i, c <= i < p -> buffer !! slot i = ws !! i.

Definition ring_repr (rb : RingBuffer) (l : list T) : Prop :=
  exists c p ws, rb_head rb = ctr c /\ rb_tail rb = ctr p /\ l = drop c ws /\
    stored c p ws (rb_buffer rb).

Lemma stored_push c p ws buffer v :
  stored c p ws buffer -> p < c + Capacity ->
  stored c (S p) (ws ++ [v]) (<[slot p := v]> buffer).
Proof.
  intros (Hl & Hc & Hp & Hs) Hroom. split_and!; try lia.
  - by rewrite length_insert.
  - rewrite length_app. simpl. lia.
  - intros i Hi. destruct (decide (i = p)) as [->|Hne].
    + rewrite list_lookup_insert_eq by (rewrite Hl; apply slot_lt).
      rewrite lookup_app_r, Hp, Nat.sub_diag by lia. done.
    + rewrite list_lookup_insert_ne by (apply not_eq_sym, slot_distinct; lia).
      rewrite lookup_app_l by lia. apply Hs. lia.
Qed.

Lemma stored_pop c p ws buffer : stored c p ws buffer -> c < p -> stored (S c) p ws buffer.
Proof. intros (Hl & Hc & Hp & Hs) Hlt. split_and!; try lia. intros i Hi. apply Hs. lia. Qed.

Lemma stored_read c p ws buffer :
  stored c p ws buffer -> c < p -> ws !! c = Some (buffer !!! slot c).
Proof.
  intros (Hl & Hc & Hp & Hs) Hlt. rewrite <- Hs by lia. apply list_lookup_lookup_total_lt.
  rewrite Hl. apply slot_lt.
Qed.

Lemma push_room c p :
  c <= p <= c + Capacity ->
  (u64 (u64 (ctr p + 1) - ctr c) >? Z.of_nat Capacity)%Z = negb (bool_decide (p < c + Capacity)).
Proof.
  intros Hc. rewrite ctr_succ, ctr_sub by lia. rewrite Z.gtb_ltb.
  case_bool_decide; simpl; [apply Z.ltb_ge|apply Z.ltb_lt]; lia.
Qed.

Lemma ring_new_repr junk : length junk = Capacity -> ring_repr (ring_new junk) [].
Proof.
  intros Hj. exists 0, 0, []. split_and!; try done. split_and!; try done; [lia|]. intros i Hi. lia.
Qed.

Lemma ring_push_spec rb l v :
  ring_repr rb l ->
  if decide (length l < Capacity)
  then (ring_push v rb).2 = true /\ ring_repr (ring_push v rb).1 (l ++ [v])
  else ring_push v rb = (rb, false).
Proof.
  intros (c & p & ws & Hh & Ht & -> & Hst). pose proof Hst as (Hl & Hc & Hp & _).
  rewrite length_drop, <- Hp. unfold ring_push. rewrite Hh, Ht, push_room by done.
  case_bool_decide; simpl; [rewrite decide_True by lia|by rewrite decide_False by lia].
  split; [done|]. exists c, (S p), (ws ++ [v]). simpl. rewrite ctr_succ, ring_index_ctr.
  split_and!; [done..| |by apply stored_push].
  by rewrite drop_app_le by lia.
Qed.

Lemma ring_pop_spec rb l :
  ring_repr rb l ->
  match l with
  | [] => ring_pop rb = (rb, None)
  | v :: l' => (ring_pop rb).2 = Some v /\ ring_repr (ring_pop rb).1 l'
  end.
Proof.
  intros (c & p & ws & Hh & Ht & -> & Hst). pose proof Hst as (Hl & Hc & Hp & _).
  unfold ring_pop. rewrite Hh, Ht, ctr_eq by lia. case_bool_decide.
  - rewrite drop_ge by lia. done.
  - pose proof (stored_read _ _ _ _ Hst ltac:(lia)) as Hr.
    rewrite (drop_S ws _ c Hr). simpl. rewrite ring_index_ctr, ctr_succ. split; [done|].
    exists (S c), p, ws. split_and!; [done..|]. apply stored_pop; [done|lia].
Qed.

Lemma ring_size_spec rb l : ring_repr rb l -> ring_size rb = Z.of_nat (length l).
Proof.
  intros (c & p & ws & Hh & Ht & -> & Hl & Hc & Hp & _). unfold ring_size.
  rewrite Hh, Ht, ctr_sub by lia. rewrite length_drop. lia.
Qed.

Lemma ring_bounded rb l : ring_repr rb l -> length l <= Capacity.
Proof. intros (c & p & ws & _ & _ & -> & Hl & Hc & Hp & _). rewrite length_drop. lia. Qed.

#[global] Instance ring_queue : BoundedQueue RingBuffer T := {
  q_capacity := Capacity; q_push := ring_push; q_pop := ring_pop; q_repr := ring_repr;
  q_bounded := ring_bounded; q_push_spec := ring_push_spec; q_pop_spec := ring_pop_spec;
}.

(** ** One producer and one consumer

    The program counters of [push] and [pop], with the locals live there. *)

Inductive ProducerPc :=
  | PIdle
  | PLoadedTail (value : T) (tail : Z)
  | PHasRoom (value : T) (tail : Z)
  | PWritten (value : T) (tail : Z).

Inductive ConsumerPc :=
  | CIdle
  | CLoadedHead (head : Z)
  | CHasItem (head : Z)
  | CRead (head : Z) (out : T).

(** The shared memory and the two threads.  The rest records history: the
    values published and returned so far, and how many pops (pushes) the
    producer (consumer) has observed. *)
Record Spsc := {
  sp_mem : RingBuffer;
  sp_prod : ProducerPc;
  sp_cons : ConsumerPc;
  sp_pushed : list T;
  sp_popped : list T;
  sp_seen_pops : nat;
  sp_seen_pushes : nat;
}.

Definition spsc_init (junk : list T) : Spsc :=
  {| sp_mem := ring_new junk; sp_prod := PIdle; sp_cons := CIdle; sp_pushed := [];
     sp_popped := []; sp_seen_pops := 0; sp_seen_pushes := 0 |}.

Definition with_prod (pc : ProducerPc) (s : Spsc) : Spsc :=
  {| sp_mem := sp_mem s; sp_prod := pc; sp_cons := sp_cons s; sp_pushed := sp_pushed s;
     sp_popped := sp_popped s; sp_seen_pops := sp_seen_pops s;
     sp_seen_pushes := sp_seen_pushes s |}.

Definition with_cons (pc : ConsumerPc) (s : Spsc) : Spsc :=
  {| sp_mem := sp_mem s; sp_prod := sp_prod s; sp_cons := pc; sp_pushed := sp_pushed s;
     sp_popped := sp_popped s; sp_seen_pops := sp_seen_pops s;
     sp_seen_pushes := sp_seen_pushes s |}.

Definition with_seen (pops pushes : nat) (s : Spsc) : Spsc :=
  {| sp_mem := sp_mem s; sp_prod := sp_prod s; sp_cons := sp_cons s; sp_pushed := sp_pushed s;
     sp_popped := sp_popped s; sp_seen_pops := pops; sp_seen_pushes := pushes |}.

Definition with_mem (rb : RingBuffer) (s : Spsc) : Spsc :=
  {| sp_mem := rb; sp_prod := sp_prod s; sp_cons := sp_cons s; sp_pushed := sp_pushed s;
     sp_popped := sp_popped s; sp_seen_pops := sp_seen_pops s;
     sp_seen_pushes := sp_seen_pushes s |}.

Definition with_history (pushed popped : list T) (s : Spsc) : Spsc :=
  {| sp_mem := sp_mem s; sp_prod := sp_prod s; sp_cons := sp_cons s; sp_pushed := pushed;
     sp_popped := popped; sp_seen_pops := sp_seen_pops s;
     sp_seen_pushes := sp_seen_pushes s |}.

Definition store_head (h : Z) (rb : RingBuffer) : RingBuffer :=
  {| rb_head := h; rb_tail := rb_tail rb; rb_buffer := rb_buffer rb |}.
Definition store_tail (t : Z) (rb : RingBuffer) : RingBuffer :=
  {| rb_head := rb_head rb; rb_tail := t; rb_buffer := rb_buffer rb |}.
Definition store_slot (i : nat) (v : T) (rb : RingBuffer) : RingBuffer :=
  {| rb_head := rb_head rb; rb_tail := rb_tail rb; rb_buffer := <[i := v]> (rb_buffer rb) |}.

(** What a thread returns at a step, if anything. *)
Inductive Event := Tau | RetPush (ok : bool) | RetPop (out : option T).

(** The counter value an acquire load may return: that of any number of
    operations [n] between the last one observed and the current one. *)
Inductive step : Spsc -> Event -> Spsc -> Prop :=
  | push_load_tail s v :
      sp_prod s = PIdle ->
      step s Tau (with_prod (PLoadedTail v (rb_tail (sp_mem s))) s)
  | push_full s v tail n :
      sp_prod s = PLoadedTail v tail ->
      sp_seen_pops s <= n <= length (sp_popped s) ->
      (u64 (u64 (tail + 1) - ctr n) >? Z.of_nat Capacity)%Z = true ->
      step s (RetPush false) (with_seen n (sp_seen_pushes s) (with_prod PIdle s))
  | push_room_found s v tail n :
      sp_prod s = PLoadedTail v tail ->
      sp_seen_pops s <= n <= length (sp_popped s) ->
      (u64 (u64 (tail + 1) - ctr n) >? Z.of_nat Capacity)%Z = false ->
      step s Tau (with_seen n (sp_seen_pushes s) (with_prod (PHasRoom v tail) s))
  | push_write s v tail :
      sp_prod s = PHasRoom v tail ->
      step s Tau (with_mem (store_slot (ring_index tail) v (sp_mem s)) (with_prod (PWritten v tail) s))
  | push_publish s v tail :
      sp_prod s = PWritten v tail ->
      step s (RetPush true)
        (with_history (sp_pushed s ++ [v]) (sp_popped s)
           (with_mem (store_tail (u64 (tail + 1)) (sp_mem s)) (with_prod PIdle s)))
  | pop_load_head s :
      sp_cons s = CIdle ->
      step s Tau (with_cons (CLoadedHead (rb_head (sp_mem s))) s)
  | pop_empty s head n :
      sp_cons s = CLoadedHead head ->
      sp_seen_pushes s <= n <= length (sp_pushed s) ->
      (head =? ctr n)%Z = true ->
      step s (RetPop None) (with_seen (sp_seen_pops s) n (with_cons CIdle s))
  | pop_item_found s head n :
      sp_cons s = CLoadedHead head ->
      sp_seen_pushes s <= n <= length (sp_pushed s) ->
      (head =? ctr n)%Z = false ->
      step s Tau (with_seen (sp_seen_pops s) n (with_cons (CHasItem head) s))
  | pop_read s head :
      sp_cons s = CHasItem head ->
      step s Tau (with_cons (CRead head (rb_buffer (sp_mem s) !!! ring_index head)) s)
  | pop_release s head out :
      sp_cons s = CRead head out ->
      step s (RetPop (Some out))
        (with_history (sp_pushed s) (sp_popped s ++ [out])
           (with_mem (store_head (u64 (head + 1)) (sp_mem s)) (with_cons CIdle s))).

Inductive reachable (junk : list T) : Spsc -> Prop :=
  | reach_init : reachable junk (spsc_init junk)
  | reach_step s e s' : reachable junk s -> step s e s' -> reachable junk s'.

(** *** The invariant *)

Definition prod_inv (s : Spsc) : Prop :=
  let p := length (sp_pushed s) in
  match sp_prod s with
  | PIdle => True
  | PLoadedTail _ tail => tail = ctr p
  | PHasRoom _ tail => tail = ctr p /\ p < sp_seen_pops s + Capacity
  | PWritten v tail => tail = ctr p /\ p < sp_seen_pops s + Capacity /\
      rb_buffer (sp_mem s) !! slot p = Some v
  end.

Definition cons_inv (s : Spsc) : Prop :=
  let c := length (sp_popped s) in
  match sp_cons s with
  | CIdle => True
  | CLoadedHead head => head = ctr c
  | CHasItem head => head = ctr c /\ c < sp_seen_pushes s
  | CRead head out => head = ctr c /\ c < sp_seen_pushes s /\ sp_pushed s !! c = Some out
  end.

Record spsc_inv (s : Spsc) : Prop := {
  si_head : rb_head (sp_mem s) = ctr (length (sp_popped s));
  si_tail : rb_tail (sp_mem s) = ctr (length (sp_pushed s));
  si_stored : stored (length (sp_popped s)) (length (sp_pushed s)) (sp_pushed s)
                (rb_buffer (sp_mem s));
  si_seen_pops : sp_seen_pops s <= length (sp_popped s);
  si_seen_pushes : length (sp_popped s) <= sp_seen_pushes s <= length (sp_pushed s);
  si_bound : length (sp_pushed s) <= sp_seen_pops s + Capacity;
  si_fifo : sp_popped s = take (length (sp_popped s)) (sp_pushed s);
  si_prod : prod_inv s;
  si_cons : cons_inv s;
}.

(** A step that only moves the producer (or only the consumer) and what it has
    observed. *)
Lemma inv_prod s pc n :
  spsc_inv s -> sp_seen_pops s <= n <= length (sp_popped s) ->
  prod_inv (with_seen n (sp_seen_pushes s) (with_prod pc s)) ->
  spsc_inv (with_seen n (sp_seen_pushes s) (with_prod pc s)).
Proof. intros [] Hn Hp. split; simpl; try done; lia. Qed.

Lemma inv_cons s pc n :
  spsc_inv s -> sp_seen_pushes s <= n <= length (sp_pushed s) ->
  cons_inv (with_seen (sp_seen_pops s) n (with_cons pc s)) ->
  spsc_inv (with_seen (sp_seen_pops s) n (with_cons pc s)).
Proof. intros [] Hn Hc. split; simpl; try done; lia. Qed.

Lemma inv_write s v tail :
  spsc_inv s -> sp_prod s = PHasRoom v tail ->
  spsc_inv (with_mem (store_slot (ring_index tail) v (sp_mem s)) (with_prod (PWritten v tail) s)).
Proof.
  intros [Hh Ht (Hl & Hc & Hp & Hs) Hsp Hspu Hb Hf Hpi Hci] E.
  unfold prod_inv in Hpi. rewrite E in Hpi. destruct Hpi as [-> Hroom].
  rewrite ring_index_ctr. split; simpl; try done.
  - split_and!; try lia; [by rewrite length_insert|]. intros i Hi.
    rewrite list_lookup_insert_ne; [by apply Hs|]. apply not_eq_sym, slot_distinct; lia.
  - unfold prod_inv. simpl. split_and!; [done..|].
    apply list_lookup_insert_eq. rewrite Hl. apply slot_lt.
Qed.

Lemma inv_publish s v tail :
  spsc_inv s -> sp_prod s = PWritten v tail ->
  spsc_inv (with_history (sp_pushed s ++ [v]) (sp_popped s)
              (with_mem (store_tail (u64 (tail + 1)) (sp_mem s)) (with_prod PIdle s))).
Proof.
  intros [Hh Ht Hst Hsp Hspu Hb Hf Hpi Hci] E.
  unfold prod_inv in Hpi. rewrite E in Hpi. destruct Hpi as (-> & Hroom & Hv).
  pose proof (stored_push _ _ _ _ v Hst ltac:(lia)) as Hst'.
  rewrite list_insert_id in Hst' by done.
  split; simpl; rewrite ?length_app; simpl; rewrite ?Nat.add_1_r; try done; try lia.
  - by rewrite ctr_succ.
  - by rewrite take_app_le by lia.
  - revert Hci. unfold cons_inv. simpl. destruct (sp_cons s); try done.
    intros (? & ? & ?). split_and!; [done..|]. by apply lookup_app_l_Some.
Qed.

Lemma inv_release s head out :
  spsc_inv s -> sp_cons s = CRead head out ->
  spsc_inv (with_history (sp_pushed s) (sp_popped s ++ [out])
              (with_mem (store_head (u64 (head + 1)) (sp_mem s)) (with_cons CIdle s))).
Proof.
  intros [Hh Ht Hst Hsp Hspu Hb Hf Hpi Hci] E.
  unfold cons_inv in Hci. rewrite E in Hci. destruct Hci as (-> & Hlt & Hout).
  split; simpl; rewrite ?length_app; simpl; rewrite ?Nat.add_1_r; try done; try lia.
  - by rewrite ctr_succ.
  - apply stored_pop; [done|lia].
  - rewrite (take_S_r _ _ _ Hout). by rewrite <- Hf.
Qed.

Lemma inv_step s e s' : spsc_inv s -> step s e s' -> spsc_inv s'.
Proof.
  intros Hi Hs. pose proof Hi as [Hh Ht Hst Hsp Hspu Hb Hf Hpi Hci].
  destruct Hs as [s v E|s v tail n E Hn Hc|s v tail n E Hn Hc|s v tail E|s v tail E
                 |s E|s head n E Hn Hc|s head n E Hn Hc|s head E|s head out E].
  - apply (inv_prod s _ (sp_seen_pops s)); [done|lia|done].
  - by apply inv_prod.
  - apply inv_prod; [done..|]. unfold prod_inv in *. rewrite E in Hpi. simpl. split; [done|].
    subst tail. rewrite push_room in Hc by lia. by case_bool_decide.
  - by apply inv_write.
  - by apply inv_publish.
  - apply (inv_cons s _ (sp_seen_pushes s)); [done|lia|done].
  - by apply inv_cons.
  - apply inv_cons; [done..|]. unfold cons_inv in *. rewrite E in Hci. simpl. split; [done|].
    subst head. destruct Hst as (_ & ? & _ & _). rewrite ctr_eq in Hc by lia.
    case_bool_decide; [done|lia].
  - apply (inv_cons s _ (sp_seen_pushes s)); [done|lia|].
    unfold cons_inv in *. rewrite E in Hci. simpl. destruct Hci as [-> Hlt].
    rewrite ring_index_ctr. split_and!; [done..|].
    apply (stored_read _ _ _ _ Hst). lia.
  - by apply inv_release.
Qed.

Lemma reachable_inv junk s : length junk = Capacity -> reachable junk s -> spsc_inv s.
Proof.
  intros Hj. induction 1 as [|s e s' _ IH Hs]; [|by apply inv_step in Hs].
  split; simpl; try done; try lia. split_and!; try done; [lia|]. intros i Hi. lia.
Qed.

(** C9.  Used by one thread at a time, the ring buffer answers every sequence of
    pushes and pops as a FIFO queue of [Capacity] elements does (a push is
    refused exactly when [Capacity] values are queued, a pop exactly when none
    is), [size] is the number of queued values, and this holds across the
    wrap-around of the 64-bit counters. *)
Theorem ring_buffer_refines (junk : list T) (ops : list (QueueOp T)) :
  length junk = Capacity ->
  (run queue_op (ring_new junk) ops).2 = (run (list_op Capacity) [] ops).2 /\
  ring_size (run queue_op (ring_new junk) ops).1 =
    Z.of_nat (length (run (list_op Capacity) [] ops).1) /\
  length (run (list_op Capacity) [] ops).1 <= Capacity.
Proof.
  intros Hj. destruct (queue_run_spec (BQ := ring_queue) (ring_new junk) [] ops (ring_new_repr junk Hj))
    as [Hr E].
  split_and!; [exact E|by apply ring_size_spec|by eapply ring_bounded].
Qed.

(** C10.  Under every interleaving of one producer and one consumer, and whatever
    admissible stale counter each of them reads, the values popped are a prefix
    of the values pushed, never more than [Capacity] are queued, and each queued
    value is still in its slot (nothing is lost, duplicated, reordered or
    overwritten). *)
Theorem spsc_fifo (junk : list T) (s : Spsc) :
  length junk = Capacity -> reachable junk s ->
  sp_popped s `prefix_of` sp_pushed s /\
  length (sp_pushed s) <= length (sp_popped s) + Capacity /\
  forall i v, length (sp_popped s) <= i -> sp_pushed s !! i = Some v ->
    rb_buffer (sp_mem s) !! slot i = Some v.
Proof.
  intros Hj Hr. destruct (reachable_inv junk s Hj Hr) as [_ _ (Hl & Hc & Hp & Hs) _ _ _ Hf _ _].
  split_and!; [|lia|].
  - rewrite Hf. apply prefix_take.
  - intros i v Hi Hv. pose proof (lookup_lt_Some _ _ _ Hv). rewrite Hs by lia. done.
Qed.

(** The two threads never touch the same slot at the same time: when the
    producer is about to write its slot and the consumer about to read its own,
    the slots differ, so the plain accesses to [buffer_] do not race. *)
Theorem spsc_no_slot_race (junk : list T) (s : Spsc) v tail head :
  length junk = Capacity -> reachable junk s ->
  sp_prod s = PHasRoom v tail -> sp_cons s = CHasItem head ->
  ring_index tail <> ring_index head.
Proof.
  intros Hj Hr Ep Ec. destruct (reachable_inv junk s Hj Hr) as [_ _ _ H1 H2 _ _ Hp Hc].
  unfold prod_inv in Hp. unfold cons_inv in Hc. rewrite Ep in Hp. rewrite Ec in Hc.
  destruct Hp as [-> Hroom], Hc as [-> Hitem]. rewrite !ring_index_ctr.
  apply not_eq_sym, slot_distinct; lia.
Qed.

(** A refusal is justified by what the thread observed: [push] returns false
    only when the queue held [Capacity] values counting the pops it has seen,
    [pop] returns false only when it had returned every push it has seen, and a
    successful [pop] returns the oldest value not yet returned. *)
Theorem spsc_results_justified (junk : list T) (s s' : Spsc) (e : Event) :
  length junk = Capacity -> reachable junk s -> step s e s' ->
  match e with
  | Tau => True
  | RetPush false => length (sp_pushed s') = sp_seen_pops s' + Capacity
  | RetPush true => exists v, sp_pushed s' = sp_pushed s ++ [v]
  | RetPop None => sp_seen_pushes s' = length (sp_popped s')
  | RetPop (Some v) => sp_pushed s' !! length (sp_popped s) = Some v
  end.
Proof.
  intros Hj Hr Hs. pose proof (reachable_inv junk s Hj Hr) as [_ _ (_ & Hc & _) Hsp Hspu Hb _ Hp Hci].
  destruct Hs as [s v E|s v tail n E Hn Hf|s v tail n E Hn Hf|s v tail E|s v tail E
                 |s E|s head n E Hn Hf|s head n E Hn Hf|s head E|s head out E]; simpl; try done.
  - unfold prod_inv in Hp. rewrite E in Hp. subst tail. rewrite push_room in Hf by lia.
    case_bool_decide; [done|lia].
  - by exists v.
  - unfold cons_inv in Hci. rewrite E in Hci. subst head. rewrite ctr_eq in Hf by lia.
    case_bool_decide; [done|done].
  - unfold cons_inv in Hci. rewrite E in Hci. by destruct Hci as (_ & _ & ?).
Qed.
End Ring.

(** ** A run of four slots *)

Lemma log2_fits : 2 <= 63.
Proof. lia. Qed.

Definition sample_ops : list (QueueOp Z) :=
  [OpPush 1; OpPush 2; OpPop; OpPush 3; OpPush 4; OpPush 5; OpPush 6; OpPop; OpPop; OpPop; OpPop;
   OpPop]%Z.

Lemma ring_buffer_refines_witness :
  (run (queue_op (BQ := ring_queue 2 log2_fits)) (ring_new (replicate 4 0%Z)) sample_ops).2 =
    [Pushed true; Pushed true; Popped (Some 1); Pushed true; Pushed true; Pushed true; Pushed false;
     Popped (Some 2); Popped (Some 3); Popped (Some 4); Popped (Some 5); Popped None]%Z.
Proof.
  rewrite (proj1 (ring_buffer_refines 2 log2_fits (replicate 4 0%Z) sample_ops eq_refl)).
  vm_compute. reflexivity.
Defined.

(** One value is queued, the producer is about to write a second one and the
    consumer about to read the first. *)
Definition sample_mem : RingBuffer (T := Z) :=
  {| rb_head := 0; rb_tail := 1; rb_buffer := [11; 0; 0; 0]%Z |}.

Definition sample_state : Spsc (T := Z) :=
  {| sp_mem := sample_mem; sp_prod := PHasRoom 12%Z 1; sp_cons := CHasItem 0;
     sp_pushed := [11%Z]; sp_popped := []; sp_seen_pops := 0; sp_seen_pushes := 1 |}.

Tactic Notation "then_step" hyp(H) uconstr(c) := eapply reach_step in H; [|eapply c; (reflexivity || (simpl; lia))].

Lemma sample_reachable : reachable 2 (replicate 4 0%Z) sample_state.
Proof.
  pose proof (reach_init 2 (replicate 4 0%Z)) as H.
  then_step H (push_load_tail 2 _ 11%Z). then_step H (push_room_found 2 _ 11%Z 0 0).
  then_step H (push_write 2 _ 11%Z 0). then_step H (push_publish 2 _ 11%Z 0).
  then_step H (push_load_tail 2 _ 12%Z). then_step H (push_room_found 2 _ 12%Z 1 0).
  then_step H (pop_load_head (T := Z) 2). then_step H (pop_item_found (T := Z) 2 _ 0 1).
  exact H.
Qed.

Lemma spsc_fifo_witness :
  sp_popped sample_state `prefix_of` sp_pushed sample_state /\
  rb_buffer (sp_mem sample_state) !! slot 2 0 = Some 11%Z.
Proof.
  destruct (spsc_fifo 2 log2_fits (replicate 4 0%Z) sample_state eq_refl sample_reachable)
    as (Hp & _ & Hs).
  split; [exact Hp|]. apply Hs; [simpl; lia|reflexivity].
Defined.

Lemma spsc_no_slot_race_witness : ring_index 2 1 <> ring_index 2 0.
Proof.
  apply (spsc_no_slot_race 2 log2_fits (replicate 4 0%Z) sample_state 12%Z 1 0 eq_refl
           sample_reachable); reflexivity.
Defined.

(** From there the consumer finishes its pop with the oldest value. *)
Lemma spsc_results_justified_witness :
  exists s s' : Spsc, step 2 s (RetPop (Some 11%Z)) s' /\ sp_pushed s' !! 0 = Some 11%Z.
Proof.
  pose proof (reach_step _ _ _ _ _ sample_reachable (pop_read 2 sample_state 0 eq_refl)) as H.
  set (s := with_cons _ _) in H. assert (step 2 s (RetPop (Some 11%Z)) _) as Hs
    by (apply (pop_release 2 s 0 11%Z); reflexivity).
  exists s, (with_history (sp_pushed s) (sp_popped s ++ [11%Z])
    (with_mem (store_head (u64 (0 + 1)) (sp_mem s)) (with_cons CIdle s))).
  split; [exact Hs|].
  exact (spsc_results_justified 2 log2_fits (replicate 4 0%Z) _ _ (RetPop (Some 11%Z)) eq_refl H Hs).
Defined.
