(* ===== verification/RingBench.v ===== *)
(** * RingBench: the queue under load (benchmarks/bench_ring_buffer.cpp)

    [BM_RingBufferRoundtrip] pushes and pops in one thread.  [BM_RingBufferThroughput]
    starts a producer that waits for a flag and then pushes [0 .. kCount - 1], retrying
    while the queue is full; the main thread sets the flag, pops until it has [kCount]
    values and joins.  Both spin, so whether they end is a matter of scheduling: a run
    is an infinite sequence of states with the thread that moved, and the theorem
    asks for a scheduler that never forgets a thread and a memory in which a store
    becomes visible some time later, as the C++ standard recommends.  The steps of the
    queue itself are those of [RingBuffer], stale counters included. *)

From Stdlib Require Import ZArith Lia.
From stdpp Require Import base numbers option list.
From S2P Require Import Prelude RingBuffer.

(** ** One thread *)

Section OneThread.
Context (cap_log : nat).

Record Roundtrip := { rt_rb : RingBuffer (T := Z); rt_v : Z; rt_out : Z }.

Definition roundtrip_start (junk : list Z) : Roundtrip := {| rt_rb := ring_new junk; rt_v := 0; rt_out := 0 |}.

Definition roundtrip_step (s : Roundtrip) : Roundtrip :=
  let rb := (ring_push cap_log (rt_v s) (rt_rb s)).1 in
  let '(rb, out) := ring_pop cap_log rb in
  {| rt_rb := rb; rt_v := u64 (rt_v s + 1); rt_out := default (rt_out s) out |}.

Definition BM_RingBufferRoundtrip (iterations : nat) (junk : list Z) : Roundtrip :=
  Nat.iter iterations roundtrip_step (roundtrip_start junk).

(** Every value comes straight back, also after the counters have wrapped around. *)
Lemma roundtrip_returns n junk :
  cap_log <= 63 -> length junk = Capacity cap_log ->
  let s := BM_RingBufferRoundtrip n junk in
  ring_repr cap_log (rt_rb s) [] /\ rt_v s = u64 (Z.of_nat n) /\
  (0 < n -> rt_out s = u64 (Z.of_nat (n - 1))).
Proof.
  intros Hc Hj. cbv zeta. induction n as [|n (Hr & Hv & _)].
  { split_and!; [by apply ring_new_repr|done|lia]. }
  change (BM_RingBufferRoundtrip (S n) junk) with (roundtrip_step (BM_RingBufferRoundtrip n junk)).
  set (s := BM_RingBufferRoundtrip n junk) in *. unfold roundtrip_step.
  pose proof (ring_push_spec cap_log Hc _ _ (rt_v s) Hr) as Hp.
  pose proof (Capacity_pos cap_log Hc). rewrite decide_True in Hp by (cbn; lia). destruct Hp as [_ Hp].
  pose proof (ring_pop_spec cap_log Hc _ _ Hp) as Hq. cbn [app] in Hq.
  destruct (ring_pop cap_log (ring_push cap_log (rt_v s) (rt_rb s)).1) as [rb out]. cbn [fst snd] in Hq.
  destruct Hq as [-> Hq]. cbn. split_and!; [done| |intros _].
  - rewrite Hv. by apply ctr_succ with cap_log.
  - by rewrite Hv, Nat.sub_0_r.
Qed.
End OneThread.

(** ** Two threads *)

Inductive Thread := Producer | Main.

#[global] Instance Thread_eq_dec : EqDecision Thread.
Proof. solve_decision. Defined.

Inductive MainPc := MResume | MConsume | MJoin | MDone.

(** [th_ready]: the producer has seen the flag; [th_i] is its loop variable, [th_n] and
    [th_out] are those of the main thread. *)
Record Throughput := {
  th_ring : Spsc (T := Z);
  th_go : bool;
  th_ready : bool;
  th_i : nat;
  th_main : MainPc;
  th_n : nat;
  th_out : Z;
}.

Definition throughput_start (junk : list Z) : Throughput :=
  {| th_ring := spsc_init junk; th_go := false; th_ready := false; th_i := 0; th_main := MResume;
     th_n := 0; th_out := 0 |}.

Definition kCount : nat := Z.to_nat 4000000.

Section Bench.
Context (cap_log : nat) (count : nat).

Definition set_main (pc : MainPc) (go : bool) (s : Throughput) : Throughput :=
  {| th_ring := th_ring s; th_go := go; th_ready := th_ready s; th_i := th_i s; th_main := pc;
     th_n := th_n s; th_out := th_out s |}.

Definition set_ready (s : Throughput) : Throughput :=
  {| th_ring := th_ring s; th_go := th_go s; th_ready := true; th_i := th_i s; th_main := th_main s;
     th_n := th_n s; th_out := th_out s |}.

(** A step of [push(i)], and the loops around it: [i] moves on when it returns true. *)
Definition after_push (e : Event (T := Z)) (r : Spsc (T := Z)) (s : Throughput) : Throughput :=
  {| th_ring := r; th_go := th_go s; th_ready := th_ready s;
     th_i := match e with RetPush true => S (th_i s) | _ => th_i s end;
     th_main := th_main s; th_n := th_n s; th_out := th_out s |}.

(** A step of [pop(out)]. *)
Definition after_pop (e : Event (T := Z)) (r : Spsc (T := Z)) (s : Throughput) : Throughput :=
  {| th_ring := r; th_go := th_go s; th_ready := th_ready s; th_i := th_i s; th_main := th_main s;
     th_n := match e with RetPop (Some _) => S (th_n s) | _ => th_n s end;
     th_out := match e with RetPop (Some v) => v | _ => th_out s end |}.

(** Of the steps of the queue, those of the producer leave the consumer where it is, and
    the other way round.  A push starts with the current [i]. *)
Inductive bench_step : Thread -> Throughput -> Throughput -> Prop :=
  | main_store_go s :
      th_main s = MResume -> bench_step Main s (set_main MConsume true s)
  | prod_spin s :
      th_ready s = false -> th_go s = false -> bench_step Producer s s
  | prod_see_go s :
      th_ready s = false -> th_go s = true -> bench_step Producer s (set_ready s)
  | prod_push s e r :
      th_ready s = true -> th_i s < count ->
      step cap_log (th_ring s) e r -> sp_cons r = sp_cons (th_ring s) ->
      (forall v tail, sp_prod r = PLoadedTail v tail -> v = Z.of_nat (th_i s)) ->
      bench_step Producer s (after_push e r s)
  | main_pop s e r :
      th_main s = MConsume -> th_n s < count ->
      step cap_log (th_ring s) e r -> sp_prod r = sp_prod (th_ring s) ->
      bench_step Main s (after_pop e r s)
  | main_consumed s :
      th_main s = MConsume -> th_n s = count -> bench_step Main s (set_main MJoin (th_go s) s)
  | main_wait s :
      th_main s = MJoin -> th_i s < count -> bench_step Main s s
  | main_joined s :
      th_main s = MJoin -> th_i s = count -> bench_step Main s (set_main MDone (th_go s) s).

(** The thread has returned. *)
Definition done (th : Thread) (s : Throughput) : Prop :=
  match th with Producer => th_i s = count | Main => th_main s = MDone end.

(** ** Runs and schedulers *)

(** [None]: neither thread moves. *)
Definition is_run (tr : nat -> Throughput) (lab : nat -> option Thread) : Prop :=
  forall t, match lab t with
            | None => tr (S t) = tr t
            | Some th => bench_step th (tr t) (tr (S t))
            end.

Definition fair (tr : nat -> Throughput) (lab : nat -> option Thread) : Prop :=
  forall th t, exists u, t <= u /\ (lab u = Some th \/ done th (tr u)).

(** Some time after [t] the loads of a counter return no value older than that of [t]. *)
Definition visible (tr : nat -> Throughput) (lab : nat -> option Thread) : Prop :=
  forall t, exists u, forall v, u <= v ->
    (forall x tail, lab v = Some Producer -> sp_prod (th_ring (tr v)) = PLoadedTail x tail ->
       length (sp_popped (th_ring (tr t))) <= sp_seen_pops (th_ring (tr (S v)))) /\
    (forall head, lab v = Some Main -> sp_cons (th_ring (tr v)) = CLoadedHead head ->
       length (sp_pushed (th_ring (tr t))) <= sp_seen_pushes (th_ring (tr (S v)))).

(** ** Safety: the values arrive in order *)

Context (cap_fits : cap_log <= 63).

Record bench_inv (s : Throughput) : Prop := {
  bv_ring : spsc_inv cap_log (th_ring s);
  bv_pushed : sp_pushed (th_ring s) = Z.of_nat <$> seq 0 (th_i s);
  bv_popped : length (sp_popped (th_ring s)) = th_n s;
  bv_i : th_i s <= count;
  bv_value : match sp_prod (th_ring s) with
             | PIdle => True
             | PLoadedTail v _ | PHasRoom v _ | PWritten v _ => v = Z.of_nat (th_i s) /\ th_i s < count /\ th_ready s = true
             end;
  bv_busy : sp_cons (th_ring s) <> CIdle -> th_n s < count /\ th_main s = MConsume;
  bv_go : th_main s <> MResume -> th_go s = true;
  bv_join : th_main s = MJoin \/ th_main s = MDone -> th_n s = count;
  bv_out : 0 < th_n s -> last (sp_popped (th_ring s)) = Some (th_out s);
}.

Lemma bench_counts s : bench_inv s -> th_n s <= th_i s /\ length (sp_pushed (th_ring s)) = th_i s.
Proof.
  intros [Hr Hpu Hpo _ _ _ _ _ _]. assert (length (sp_pushed (th_ring s)) = th_i s) as E
    by (by rewrite Hpu, length_fmap, length_seq).
  pose proof (si_seen_pushes _ _ Hr). lia.
Qed.

Lemma inv_after_push s e r :
  bench_inv s -> th_ready s = true -> th_i s < count -> step cap_log (th_ring s) e r -> sp_cons r = sp_cons (th_ring s) ->
  (forall v tail, sp_prod r = PLoadedTail v tail -> v = Z.of_nat (th_i s)) ->
  bench_inv (after_push e r s).
Proof.
  intros [Hr Hpu Hpo Hi Hv Hb Hg Hjn Ho] Hready Hlt Hs Hc Hval. pose proof (inv_step cap_log cap_fits _ _ _ Hr Hs) as Hr'.
  destruct Hs as [rs v E|rs v tail n E Hn Hf|rs v tail n E Hn Hf|rs v tail E|rs v tail E
                 |rs E|rs head n E Hn Hf|rs head n E Hn Hf|rs head E|rs head out E];
    simpl in Hc; try congruence; rewrite E in Hv; simpl in Hval; split; simpl; try done.
  - by rewrite (Hval _ _ eq_refl).
  - change (sp_pushed rs ++ [v] = Z.of_nat <$> seq 0 (S (th_i s))). rewrite Hpu, seq_S, fmap_app.
    by destruct Hv as [-> _].
Qed.

Lemma inv_after_pop s e r :
  bench_inv s -> th_main s = MConsume -> th_n s < count -> step cap_log (th_ring s) e r ->
  sp_prod r = sp_prod (th_ring s) -> bench_inv (after_pop e r s).
Proof.
  intros [Hr Hpu Hpo Hi Hv Hb Hg Hjn Ho] Hm Hlt Hs Hc. pose proof (inv_step cap_log cap_fits _ _ _ Hr Hs) as Hr'.
  destruct Hs as [rs v E|rs v tail n E Hn Hf|rs v tail n E Hn Hf|rs v tail E|rs v tail E
                 |rs E|rs head n E Hn Hf|rs head n E Hn Hf|rs head E|rs head out E];
    simpl in Hc; try congruence; split; simpl; try done; try (rewrite Hm; intros [|]; done).
  - by rewrite length_app, Hpo, Nat.add_1_r.
  - intros _. by rewrite last_snoc.
Qed.

Lemma bench_inv_step th s s' : bench_inv s -> bench_step th s s' -> bench_inv s'.
Proof.
  intros Hi Hs. destruct Hs as [s E|s E Eg|s E Eg|s e r Er Hlt Hs Hc Hv|s e r Em Hlt Hs Hc|s Em En|s Em Hlt|s Em En];
    try done; try (by apply inv_after_push); try (by apply inv_after_pop);
    destruct Hi as [Hr Hpu Hpo Hi Hv Hb Hg Hjn Ho]; split; simpl; try done;
    try (intros [|]; done); try (intros _; apply Hg; by rewrite Em); try (intros _; apply Hjn; by left);
    try (intros Hbusy; destruct (Hb Hbusy); congruence || lia).
  destruct (sp_prod (th_ring s)); naive_solver.
Qed.

Lemma bench_inv_start junk : length junk = Capacity cap_log -> bench_inv (throughput_start junk).
Proof.
  intros Hj. split; simpl; try done; try lia; [|intros [|]; done].
  apply (reachable_inv cap_log cap_fits junk); [done|apply reach_init].
Qed.

(** ** Liveness: every fair run ends *)

Definition main_rank (pc : MainPc) : nat :=
  match pc with MResume => 3 | MConsume => 2 | MJoin => 1 | MDone => 0 end.

(** What is left to do. *)
Definition work_left (s : Throughput) : nat :=
  (count - th_i s) + (count - th_n s) + main_rank (th_main s) + (if th_ready s then 0 else 1).

Lemma bench_step_mono th s s' :
  bench_step th s s' ->
  th_i s <= th_i s' /\ th_n s <= th_n s' /\ main_rank (th_main s') <= main_rank (th_main s) /\
  (th_ready s = true -> th_ready s' = true).
Proof.
  destruct 1 as [s E|s E Eg|s E Eg|s e r Er Hlt Hs Hc Hv|s e r Em Hlt Hs Hc|s Em En|s Em Hlt|s Em En]; simpl;
    rewrite ?E, ?Em; simpl; split_and!; try done; try lia; repeat case_match; lia.
Qed.

Lemma bench_step_counters th s s' :
  bench_inv s -> bench_step th s s' ->
  work_left s' < work_left s \/
  (work_left s' = work_left s /\ th_i s' = th_i s /\ th_n s' = th_n s /\
   th_main s' = th_main s /\ th_ready s' = th_ready s).
Proof.
  intros Hi Hs. pose proof (bench_inv_step _ _ _ Hi Hs) as Hi'.
  destruct (bench_step_mono _ _ _ Hs) as (H1 & H2 & H3 & H4).
  pose proof (bv_i _ Hi'). pose proof (bench_counts _ Hi') as [? _].
  unfold work_left. destruct (th_ready s), (th_ready s'), (th_main s), (th_main s'); simpl in *;
    try (left; lia); try (by specialize (H4 eq_refl)); try lia;
    (destruct (decide (th_i s' = th_i s /\ th_n s' = th_n s)) as [[-> ->]|];
     [right; split_and!; done|left; lia]).
Qed.

Lemma main_keeps_prod s s' : bench_step Main s s' -> sp_prod (th_ring s') = sp_prod (th_ring s).
Proof. inversion 1; done. Qed.

Lemma prod_keeps_cons s s' : bench_step Producer s s' -> sp_cons (th_ring s') = sp_cons (th_ring s).
Proof. inversion 1; done. Qed.

(** How far a thread is from completing its operation. *)
Definition prod_stage (s : Throughput) : nat :=
  match sp_prod (th_ring s) with PIdle => 3 | PLoadedTail _ _ => 2 | PHasRoom _ _ => 1 | PWritten _ _ => 0 end.

Definition cons_stage (s : Throughput) : nat :=
  match sp_cons (th_ring s) with CIdle => 3 | CLoadedHead _ => 2 | CHasItem _ => 1 | CRead _ _ => 0 end.

(** On an empty queue a push gets one step further, if it sees the pops so far. *)
Lemma push_advances s s' :
  bench_inv s -> bench_step Producer s s' -> th_ready s = true -> th_n s = th_i s -> th_i s < count ->
  (forall x tail, sp_prod (th_ring s) = PLoadedTail x tail -> th_n s <= sp_seen_pops (th_ring s')) ->
  work_left s' < work_left s \/ prod_stage s' < prod_stage s.
Proof.
  intros Hinv Hs Hready Hn Hi Hseen. destruct (bench_counts _ Hinv) as [_ Hlen].
  pose proof (bv_popped _ Hinv) as Hpop. pose proof (bv_ring _ Hinv) as Hring.
  pose proof (Capacity_pos cap_log cap_fits) as Hcap. pose proof (si_prod _ _ Hring) as Hp.
  inversion Hs as [|s1 Er Eg|s1 Er Eg|s1 e r Er Hlt Hst Hc Hv| | | |]; subst; try congruence.
  unfold prod_stage, prod_inv in *. revert Hst Hc Hseen Hp Hlen Hpop. cbn [after_push th_ring th_i].
  generalize (th_ring s). intros rs. unfold work_left. cbn [after_push th_i th_n th_main th_ready].
  destruct 1 as [rs x E|rs x tail n E Hb Hf|rs x tail n E Hb Hf|rs x tail E|rs x tail E
                |rs E|rs head n E Hb Hf|rs head n E Hb Hf|rs head E|rs head out E];
    simpl; intros Hc Hseen Hp Hlen Hpop; try congruence; rewrite E in *; try (right; lia); [|left; lia].
  specialize (Hseen x tail eq_refl). subst tail. rewrite push_room in Hf by lia.
  apply negb_true_iff, bool_decide_eq_false in Hf. lia.
Qed.

(** On a queue that is not empty a pop gets one step further, if it sees the pushes so far. *)
Lemma pop_advances s s' :
  bench_inv s -> bench_step Main s s' -> th_main s = MConsume -> th_n s < th_i s ->
  (forall head, sp_cons (th_ring s) = CLoadedHead head -> th_i s <= sp_seen_pushes (th_ring s')) ->
  work_left s' < work_left s \/ cons_stage s' < cons_stage s.
Proof.
  intros Hinv Hs Hmain Hn Hseen. destruct (bench_counts _ Hinv) as [_ Hlen]. pose proof (bv_i _ Hinv) as Hi.
  pose proof (bv_popped _ Hinv) as Hpop. pose proof (bv_ring _ Hinv) as Hring.
  pose proof (si_bound _ _ Hring) as Hb1. pose proof (si_seen_pops _ _ Hring) as Hb2.
  pose proof (si_cons _ _ Hring) as Hp.
  inversion Hs as [| | | |s1 e r Em Hlt Hst Hc|s1 Em En| |]; subst; try congruence; [|lia].
  unfold cons_stage, cons_inv in *. revert Hst Hc Hseen Hp Hlen Hpop Hb1 Hb2. cbn [after_pop th_ring th_i].
  generalize (th_ring s). intros rs. unfold work_left. cbn [after_pop th_i th_n th_main th_ready].
  destruct 1 as [rs x E|rs x tail n E Hb Hf|rs x tail n E Hb Hf|rs x tail E|rs x tail E
                |rs E|rs head n E Hb Hf|rs head n E Hb Hf|rs head E|rs head out E];
    simpl; intros Hc Hseen Hp Hlen Hpop Hb1 Hb2; try congruence; rewrite E in *; try (right; lia); [|left; lia].
  specialize (Hseen head eq_refl). subst head. rewrite (ctr_eq cap_log cap_fits) in Hf by lia.
  apply bool_decide_eq_true in Hf. lia.
Qed.

Section Live.
Context (tr : nat -> Throughput) (lab : nat -> option Thread) (junk : list Z).
Context (Hjunk : length junk = Capacity cap_log) (Hstart : tr 0 = throughput_start junk).
Context (Hrun : is_run tr lab) (Hfair : fair tr lab) (Hvis : visible tr lab).

Lemma inv_at t : bench_inv (tr t).
Proof.
  induction t as [|t IH]; [rewrite Hstart; by apply bench_inv_start|].
  pose proof (Hrun t) as Hm. destruct (lab t); [by eapply bench_inv_step|by rewrite Hm].
Qed.

(** The counters of a moment stay until some work is done. *)
Definition steady (s0 s : Throughput) : Prop :=
  work_left s = work_left s0 /\ th_i s = th_i s0 /\ th_n s = th_n s0 /\ th_main s = th_main s0 /\
  th_ready s = th_ready s0.

Lemma steady_step s0 t :
  steady s0 (tr t) -> work_left (tr (S t)) < work_left s0 \/ steady s0 (tr (S t)).
Proof.
  intros (E1 & E2 & E3 & E4 & E5). pose proof (Hrun t) as Hm. destruct (lab t) as [th|]; [|rewrite Hm; by right].
  destruct (bench_step_counters th _ _ (inv_at t) Hm) as [H|(F1 & F2 & F3 & F4 & F5)]; [left; lia|].
  right. unfold steady. split_and!; congruence.
Qed.

(** If [P] lasts until the thread moves, and its move makes [Q], then [Q] comes. *)
Lemma leads th (P Q : Throughput -> Prop) u :
  (forall s, P s -> ~ done th s) ->
  (forall v, u <= v -> P (tr v) -> lab v <> Some th -> P (tr (S v)) \/ Q (tr (S v))) ->
  (forall v, u <= v -> P (tr v) -> lab v = Some th -> Q (tr (S v))) ->
  P (tr u) -> exists w, u < w /\ Q (tr w).
Proof.
  intros Hd Hwait Hmove Hp. destruct (Hfair th u) as (k & Huk & Hk).
  remember (k - u) as d eqn:Ed. revert u Huk Ed Hwait Hmove Hp.
  induction d as [|d IH]; intros u Huk Ed Hwait Hmove Hp.
  - assert (k = u) as -> by lia. destruct Hk as [Hk|Hk]; [|by destruct (Hd _ Hp)].
    exists (S u). split; [lia|]. by apply Hmove.
  - destruct (decide (lab u = Some th)) as [E|E]; [exists (S u); split; [lia|by apply Hmove]|].
    destruct (Hwait u (le_n u) Hp E) as [Hp'|Hq]; [|exists (S u); split; [lia|done]].
    destruct (IH (S u)) as (w & Hw & Hq); [lia|lia|intros v Hv; apply Hwait; lia|intros v Hv; apply Hmove; lia|done|].
    exists w. split; [lia|done].
Qed.

(** *** Some thread gets on *)

Lemma progress_by th (stage : Throughput -> nat) s0 u0 :
  ~ done th s0 ->
  (forall v, u0 <= v -> steady s0 (tr v) -> lab v = Some th ->
     work_left (tr (S v)) < work_left s0 \/ stage (tr (S v)) < stage (tr v)) ->
  (forall v, lab v <> Some th -> stage (tr (S v)) = stage (tr v)) ->
  forall u, u0 <= u -> steady s0 (tr u) -> exists w, u < w /\ work_left (tr w) < work_left s0.
Proof.
  intros Hd Hmove Hkeep u Hu Hst. remember (stage (tr u)) as k eqn:Ek.
  revert u Hu Hst Ek. induction k as [k IH] using lt_wf_ind; intros u Hu Hst Ek.
  destruct (leads th (fun s => steady s0 s /\ stage s = k)
    (fun s => work_left s < work_left s0 \/ (steady s0 s /\ stage s < k)) u) as (w & Hw1 & Hw2).
  - intros s [(E1 & E2 & E3 & E4 & E5) _] Hds. apply Hd. destruct th; simpl in *; congruence.
  - intros v Hv [Hs1 Hs2] Hl. destruct (steady_step s0 v Hs1) as [|Hs3]; [right; by left|].
    left. split; [done|]. by rewrite Hkeep.
  - intros v Hv [Hs1 Hs2] Hl. destruct (steady_step s0 v Hs1) as [|Hs3]; [by left|].
    destruct (Hmove v) as [|Hlt]; [lia|done|done|by left|]. right. split; [done|lia].
  - done.
  - destruct Hw2 as [Hw2|[Hw2 Hw3]]; [by exists w|].
    destruct (IH (stage (tr w)) Hw3 w) as (w' & Hw' & Hlow); [lia|done|done|]. exists w'. split; [lia|done].
Qed.

(** A phase a single move of the thread ends. *)
Lemma progress_once th t :
  ~ done th (tr t) ->
  (forall v, t <= v -> steady (tr t) (tr v) -> lab v = Some th -> work_left (tr (S v)) < work_left (tr t)) ->
  exists w, t < w /\ work_left (tr w) < work_left (tr t).
Proof.
  intros Hd Hmove. apply (progress_by th (fun _ => 0) (tr t) t Hd); [|done|lia|done].
  intros v Hv Hst Hl. left. by apply Hmove.
Qed.

Lemma waiting_keeps_prod v : lab v <> Some Producer -> prod_stage (tr (S v)) = prod_stage (tr v).
Proof.
  intros Hl. pose proof (Hrun v) as Hm. unfold prod_stage. destruct (lab v) as [[]|]; [done| |by rewrite Hm].
  by rewrite (main_keeps_prod _ _ Hm).
Qed.

Lemma waiting_keeps_cons v : lab v <> Some Main -> cons_stage (tr (S v)) = cons_stage (tr v).
Proof.
  intros Hl. pose proof (Hrun v) as Hm. unfold cons_stage. destruct (lab v) as [[]|]; [|done|by rewrite Hm].
  by rewrite (prod_keeps_cons _ _ Hm).
Qed.

Lemma main_alone t :
  th_main (tr t) = MResume \/ th_main (tr t) = MJoin \/ th_main (tr t) = MConsume /\ th_n (tr t) = count ->
  exists w, t < w /\ work_left (tr w) < work_left (tr t).
Proof.
  intros Hcase. apply (progress_once Main); [simpl; intuition congruence|].
  intros v Hv (E1 & E2 & E3 & E4 & E5) Hl. pose proof (Hrun v) as Hm. rewrite Hl in Hm. rewrite <- E1.
  pose proof (bench_counts _ (inv_at v)) as [Hle _]. pose proof (bv_i _ (inv_at v)). pose proof (bv_join _ (inv_at v)) as Hj.
  inversion Hm as [s1 Em Es| | | |s1 e r Em Hlt Hst Hc|s1 Em En|s1 Em Hlt|s1 Em En]; subst;
    unfold work_left; simpl; rewrite ?Em; simpl; try lia; rewrite E4, ?E3 in *;
    destruct Hcase as [Hcase|[Hcase|[Hcase ?]]]; try congruence; try lia.
  rewrite Em in Hj. specialize (Hj (or_introl eq_refl)). lia.
Qed.

Lemma producer_wakes t :
  th_main (tr t) = MConsume -> th_ready (tr t) = false -> th_i (tr t) < count ->
  exists w, t < w /\ work_left (tr w) < work_left (tr t).
Proof.
  intros Hmain Hready Hi. apply (progress_once Producer); [simpl; lia|].
  intros v Hv (E1 & E2 & E3 & E4 & E5) Hl. pose proof (Hrun v) as Hm. rewrite Hl in Hm. rewrite <- E1.
  pose proof (bv_go _ (inv_at v)) as Hg. rewrite E4, Hmain in Hg. specialize (Hg ltac:(done)).
  inversion Hm as [|s1 Er Eg|s1 Er Eg|s1 e r Er Hlt Hst Hc Hval| | | |]; subst; try congruence.
  unfold work_left. simpl. rewrite Er. lia.
Qed.

Lemma queue_moves t :
  th_main (tr t) = MConsume -> (th_n (tr t) = th_i (tr t) -> th_ready (tr t) = true) -> th_n (tr t) < count ->
  exists w, t < w /\ work_left (tr w) < work_left (tr t).
Proof.
  intros Hmain Hready Hn. pose proof (bench_counts _ (inv_at t)) as [Hle Hpu].
  pose proof (bv_popped _ (inv_at t)) as Hpo. destruct (Hvis t) as (u & Hu).
  assert (exists w, t <= w /\ u <= w /\ (work_left (tr w) < work_left (tr t) \/ steady (tr t) (tr w))) as (w & Hw1 & Hw2 & Hw3).
  { exists (t + u). split; [lia|]. split; [lia|]. clear Hu. induction u as [|u IH].
    - rewrite Nat.add_0_r. by right.
    - rewrite Nat.add_succ_r. destruct IH as [IH|IH].
      + left. pose proof (Hrun (t + u)) as Hm. destruct (lab (t + u)) as [th|]; [|by rewrite Hm].
        destruct (bench_step_counters th _ _ (inv_at _) Hm) as [?|[? _]]; lia.
      + destruct (steady_step _ _ IH); [by left|by right]. }
  destruct Hw3 as [Hw3|Hw3]; [exists w; split; [|done]; destruct (decide (t = w)); [subst; lia|lia]|].
  assert (exists w', w < w' /\ work_left (tr w') < work_left (tr t)) as (w' & ? & ?); [|exists w'; split; [lia|done]].
  destruct (decide (th_n (tr t) = th_i (tr t))) as [E|E].
  - specialize (Hready E). apply (progress_by Producer prod_stage (tr t) u); [simpl; lia| |apply waiting_keeps_prod|done|done].
    intros v Hv (E1 & E2 & E3 & E4 & E5) Hl. pose proof (Hrun v) as Hm. rewrite Hl in Hm. rewrite <- E1.
    apply push_advances; [apply inv_at|done|congruence|congruence|lia|].
    intros x tail Hx. rewrite E3, <- Hpo. by apply (Hu v Hv) with x tail.
  - apply (progress_by Main cons_stage (tr t) u); [simpl; congruence| |apply waiting_keeps_cons|done|done].
    intros v Hv (E1 & E2 & E3 & E4 & E5) Hl. pose proof (Hrun v) as Hm. rewrite Hl in Hm. rewrite <- E1.
    apply pop_advances; [apply inv_at|done|congruence|lia|].
    intros head Hx. rewrite E2, <- Hpu. by apply (Hu v Hv) with head.
Qed.

Lemma work_gets_done t :
  th_main (tr t) <> MDone -> exists w, t < w /\ work_left (tr w) < work_left (tr t).
Proof.
  intros Hd. pose proof (bv_i _ (inv_at t)). pose proof (bench_counts _ (inv_at t)) as [? _].
  destruct (th_main (tr t)) eqn:Em; [apply main_alone; by left| |apply main_alone; by right; left|done].
  destruct (decide (th_n (tr t) = count)) as [En|En]; [apply main_alone; by right; right|].
  destruct (th_ready (tr t)) eqn:Er; [apply queue_moves; [done|done|lia]|].
  destruct (decide (th_i (tr t) < count)); [by apply producer_wakes|].
  apply queue_moves; [done|lia|lia].
Qed.

Lemma run_ends : exists t, th_main (tr t) = MDone.
Proof.
  assert (forall k t, work_left (tr t) = k -> exists u, th_main (tr u) = MDone) as H; [|exact (H _ 0 eq_refl)].
  induction k as [k IH] using lt_wf_ind; intros t Hk. destruct (decide (main_rank (th_main (tr t)) = 0)) as [E|E].
  - exists t. by destruct (th_main (tr t)).
  - destruct (work_gets_done t) as (w & _ & Hw); [by intros F; rewrite F in E|]. rewrite Hk in Hw. by apply (IH _ Hw w).
Qed.
End Live.

(** C11.  The throughput benchmark always finishes, and with the right data.  In every run of
    its two threads in which neither is forgotten and stores become visible some time later,
    however the steps interleave, however stale the counters read before, and however often a
    full or empty queue turns a thread away, the main thread returns; it has then popped
    exactly [0 .. count - 1] in order, and the producer has pushed nothing else. *)
Theorem throughput_completes tr lab junk :
  length junk = Capacity cap_log -> tr 0 = throughput_start junk ->
  is_run tr lab -> fair tr lab -> visible tr lab ->
  exists t, th_main (tr t) = MDone /\ th_i (tr t) = count /\ th_n (tr t) = count /\
    sp_popped (th_ring (tr t)) = Z.of_nat <$> seq 0 count /\
    sp_pushed (th_ring (tr t)) = Z.of_nat <$> seq 0 count.
Proof.
  intros Hj Hs Hr Hf Hv. destruct (run_ends tr lab junk Hj Hs Hr Hf Hv) as (t & Ht).
  pose proof (inv_at tr lab junk Hj Hs Hr t) as Hi. exists t. pose proof (bench_counts _ Hi) as [Hle Hpu].
  assert (th_n (tr t) = count) as En by (apply (bv_join _ Hi); by right).
  assert (th_i (tr t) = count) as Ei by (pose proof (bv_i _ Hi); lia).
  split_and!; [done..| |by rewrite (bv_pushed _ Hi), Ei].
  rewrite (si_fifo _ _ (bv_ring _ Hi)), (bv_popped _ Hi), (bv_pushed _ Hi), Ei, En.
  apply take_ge. by rewrite length_fmap, length_seq.
Qed.
End Bench.

(** ** A scheduler

    The threads take turns and always read the newest counters; a thread that has
    returned is skipped. *)

Definition next_push (cap_log : nat) (value : Z) (r : Spsc (T := Z)) : Event (T := Z) * Spsc (T := Z) :=
  let n := length (sp_popped r) in
  match sp_prod r with
  | PIdle => (Tau, with_prod (PLoadedTail value (rb_tail (sp_mem r))) r)
  | PLoadedTail v tail =>
      if (u64 (u64 (tail + 1) - u64 (Z.of_nat n)) >? Z.of_nat (Capacity cap_log))%Z
      then (RetPush false, with_seen n (sp_seen_pushes r) (with_prod PIdle r))
      else (Tau, with_seen n (sp_seen_pushes r) (with_prod (PHasRoom v tail) r))
  | PHasRoom v tail => (Tau, with_mem (store_slot (ring_index cap_log tail) v (sp_mem r)) (with_prod (PWritten v tail) r))
  | PWritten v tail =>
      (RetPush true, with_history (sp_pushed r ++ [v]) (sp_popped r)
                       (with_mem (store_tail (u64 (tail + 1)) (sp_mem r)) (with_prod PIdle r)))
  end.

Definition next_pop (cap_log : nat) (r : Spsc (T := Z)) : Event (T := Z) * Spsc (T := Z) :=
  let n := length (sp_pushed r) in
  match sp_cons r with
  | CIdle => (Tau, with_cons (CLoadedHead (rb_head (sp_mem r))) r)
  | CLoadedHead head =>
      if (head =? u64 (Z.of_nat n))%Z then (RetPop None, with_seen (sp_seen_pops r) n (with_cons CIdle r))
      else (Tau, with_seen (sp_seen_pops r) n (with_cons (CHasItem head) r))
  | CHasItem head => (Tau, with_cons (CRead head (rb_buffer (sp_mem r) !!! ring_index cap_log head)) r)
  | CRead head out =>
      (RetPop (Some out), with_history (sp_pushed r) (sp_popped r ++ [out])
                            (with_mem (store_head (u64 (head + 1)) (sp_mem r)) (with_cons CIdle r)))
  end.

Definition bench_next (cap_log count : nat) (th : Thread) (s : Throughput) : Throughput :=
  match th with
  | Producer =>
      if negb (th_ready s) then (if th_go s then set_ready s else s)
      else let '(e, r) := next_push cap_log (Z.of_nat (th_i s)) (th_ring s) in after_push e r s
  | Main =>
      match th_main s with
      | MResume => set_main MConsume true s
      | MConsume =>
          if th_n s <? count then let '(e, r) := next_pop cap_log (th_ring s) in after_pop e r s
          else set_main MJoin (th_go s) s
      | MJoin => if th_i s <? count then s else set_main MDone (th_go s) s
      | MDone => s
      end
  end.

Section Scheduler.
Context (cap_log : nat) (cap_fits : cap_log <= 63) (count : nat) (junk : list Z).
Context (Hjunk : length junk = Capacity cap_log).

Definition turn (t : nat) : Thread := if Nat.even t then Producer else Main.

Definition returned (th : Thread) (s : Throughput) : bool :=
  match th with Producer => th_i s =? count | Main => match th_main s with MDone => true | _ => false end end.

Fixpoint turns (t : nat) : Throughput :=
  match t with
  | 0 => throughput_start junk
  | S t => if returned (turn t) (turns t) then turns t else bench_next cap_log count (turn t) (turns t)
  end.

Definition turn_label (t : nat) : option Thread := if returned (turn t) (turns t) then None else Some (turn t).

Lemma next_push_step value r :
  spsc_inv cap_log r -> step cap_log r (next_push cap_log value r).1 (next_push cap_log value r).2.
Proof.
  intros Hr. pose proof (si_seen_pops _ _ Hr). unfold next_push. destruct (sp_prod r) eqn:E.
  - by constructor.
  - destruct (_ >? _)%Z eqn:Ef; [by apply (push_full cap_log r value0 tail)|by apply (push_room_found cap_log r value0 tail)].
  - by constructor.
  - by constructor.
Qed.

Lemma next_pop_step r :
  spsc_inv cap_log r -> step cap_log r (next_pop cap_log r).1 (next_pop cap_log r).2.
Proof.
  intros Hr. pose proof (si_seen_pushes _ _ Hr). unfold next_pop. destruct (sp_cons r) eqn:E.
  - by constructor.
  - destruct (_ =? _)%Z eqn:Ef; [apply (pop_empty cap_log r head)|apply (pop_item_found cap_log r head)]; (done || lia).
  - by constructor.
  - by constructor.
Qed.

Lemma bench_next_step th s :
  bench_inv cap_log count s -> returned th s = false -> bench_step cap_log count th s (bench_next cap_log count th s).
Proof.
  intros Hi Hd. pose proof (bv_ring _ _ _ Hi) as Hr. pose proof (bv_i _ _ _ Hi) as Hle.
  destruct th; simpl in *.
  - destruct (th_ready s) eqn:Er; simpl; [|destruct (th_go s) eqn:Eg; by constructor].
    pose proof (next_push_step (Z.of_nat (th_i s)) _ Hr) as Hs. apply Nat.eqb_neq in Hd.
    destruct (next_push _ _ _) as [e r] eqn:En. simpl in Hs. apply prod_push; [done|lia|done| |].
    + revert En. unfold next_push. repeat case_match; intros; simplify_eq; done.
    + revert En. unfold next_push. repeat case_match; intros; simplify_eq; simpl in *; simplify_eq; done.
  - destruct (th_main s) eqn:Em; [by constructor| | |done].
    + pose proof (next_pop_step _ Hr) as Hs. destruct (Nat.ltb_spec (th_n s) count).
      * destruct (next_pop _ _) as [e r] eqn:En. apply main_pop; [done|done|done|].
        revert En. unfold next_pop. repeat case_match; intros; simplify_eq; done.
      * apply main_consumed; [done|]. pose proof (bench_counts cap_log count cap_fits _ Hi). lia.
    + destruct (Nat.ltb_spec (th_i s) count); [by apply main_wait|]. apply main_joined; [done|lia].
Qed.

Lemma turns_inv t : bench_inv cap_log count (turns t).
Proof.
  induction t as [|t IH]; [by apply bench_inv_start|]. simpl. destruct (returned _ _) eqn:E; [done|].
  eapply bench_inv_step; [done|exact IH|by apply bench_next_step].
Qed.

Lemma turns_run : is_run cap_log count turns turn_label.
Proof.
  intros t. unfold turn_label. simpl. destruct (returned (turn t) (turns t)) eqn:E; [done|].
  apply bench_next_step; [apply turns_inv|done].
Qed.

Lemma turns_fair : fair count turns turn_label.
Proof.
  intros th t. assert (exists u, t <= u /\ turn u = th) as (u & Hu & Eu).
  { unfold turn. destruct (decide ((if Nat.even t then Producer else Main) = th)) as [E|E]; [by exists t|].
    exists (S t). split; [lia|]. rewrite Nat.even_succ, <- Nat.negb_even. by destruct (Nat.even t), th. }
  exists u. split; [done|]. unfold turn_label. rewrite Eu. destruct (returned th (turns u)) eqn:E; [right|by left].
  destruct th; simpl in *; [by apply Nat.eqb_eq|by destruct (th_main (turns u))].
Qed.

Lemma turns_lengths t u :
  t <= u -> length (sp_popped (th_ring (turns t))) <= length (sp_popped (th_ring (turns u))) /\
            length (sp_pushed (th_ring (turns t))) <= length (sp_pushed (th_ring (turns u))).
Proof.
  induction 1 as [|u _ [IH1 IH2]]; [done|].
  pose proof (turns_run u) as Hm. destruct (turn_label u) as [th|]; [|by rewrite Hm].
  destruct (bench_step_mono cap_log count cap_fits _ _ _ Hm) as (H1 & H2 & _).
  rewrite (bv_popped _ _ _ (turns_inv u)) in IH1. destruct (bench_counts cap_log count cap_fits _ (turns_inv u)) as [_ E1].
  destruct (bench_counts cap_log count cap_fits _ (turns_inv (S u))) as [_ E2]. rewrite (bv_popped _ _ _ (turns_inv (S u))). lia.
Qed.

Lemma turns_visible : visible turns turn_label.
Proof.
  intros t. exists t. intros v Hv. destruct (turns_lengths t v Hv) as [H1 H2]. pose proof (turns_inv v) as Hi.
  unfold turn_label. split.
  - intros x tail Hl Hx. simpl. destruct (returned (turn v) (turns v)); [done|]. injection Hl as ->.
    pose proof (bv_value _ _ _ Hi) as Hb. rewrite Hx in Hb. destruct Hb as (_ & _ & Hr).
    simpl. rewrite Hr. simpl. unfold next_push. rewrite Hx. case_if; simpl; lia.
  - intros head Hl Hx. simpl. destruct (returned (turn v) (turns v)); [done|]. injection Hl as ->.
    destruct (bv_busy _ _ _ Hi) as [Hn Hm]; [by rewrite Hx|].
    simpl. rewrite Hm, (proj2 (Nat.ltb_lt _ _) Hn). unfold next_pop. rewrite Hx. case_if; simpl; lia.
Qed.
End Scheduler.

(** The benchmark as it is written, under this scheduler. *)
Lemma throughput_completes_witness :
  exists t, th_main (turns 12 kCount (replicate (2 ^ 12) 0%Z) t) = MDone /\
    sp_popped (th_ring (turns 12 kCount (replicate (2 ^ 12) 0%Z) t)) = Z.of_nat <$> seq 0 kCount.
Proof.
  assert (12 <= 63) as Hc by lia.
  assert (length (replicate (2 ^ 12) 0%Z) = Capacity 12) as Hj by apply length_replicate.
  destruct (throughput_completes 12 kCount Hc (turns 12 kCount (replicate (2 ^ 12) 0%Z))
    (turn_label 12 kCount (replicate (2 ^ 12) 0%Z)) (replicate (2 ^ 12) 0%Z)) as (t & Ht & _ & _ & Hp & _).
  - exact Hj.
  - reflexivity.
  - exact (turns_run 12 Hc kCount _ Hj).
  - exact (turns_fair 12 Hc kCount _ Hj).
  - exact (turns_visible 12 Hc kCount _ Hj).
  - exists t. split; [exact Ht|exact Hp].
Defined.
