(* ===== verification/Codec.v ===== *)
(** * Little-endian loads and stores

    [load_le] of src/feed_handler/mtbt_parser.hpp, [PutLe] of
    src/sim/mtbt_generator.hpp and [store_le] of
    src/order_manager/nnf_encoder.hpp, byte by byte.  Memory is a list of
    bytes; an access outside it is [None], so a total result is memory safety. *)

From Stdlib Require Import ZArith Lia.
From stdpp Require Import base list numbers option.
From S2P Require Import Prelude.

Local Open Scope Z_scope.

Abbreviation bytes := (list Z) (only parsing).
Definition is_bytes (bs : bytes) : Prop := Forall (in_u 8) bs.

(** ** The code *)

Section Code.
(** [v |= uint64_t(p[i]) << (8 * i)]. *)
Fixpoint load_loop (n i : nat) (p : bytes) (off : nat) (v : Z) : option Z :=
  match n with
  | O => Some v
  | S n' =>
      b ← p !! (off + i)%nat;
      load_loop n' (S i) p off (Z.lor v (u64 (Z.shiftl b (8 * Z.of_nat i))))
  end.

(** [load_le<T>(p + off)], [sizeof(T) = n]. *)
Definition load_le (n : nat) (p : bytes) (off : nat) : option Z :=
  wrap_u (8 * Z.of_nat n) <$> load_loop n 0 p off 0.

Definition load_le_i32 (p : bytes) (off : nat) : option Z := i32 <$> load_le 4 p off.
Definition load_le_i64 (p : bytes) (off : nat) : option Z := i64 <$> load_le 8 p off.

Definition le_byte (u : Z) (i : nat) : Z := u8 (Z.land (Z.shiftr u (8 * Z.of_nat i)) 255).

(** [PutLe]: the bytes are pushed in turn. *)
Fixpoint put_loop (n i : nat) (u : Z) (b : bytes) : bytes :=
  match n with O => b | S n' => put_loop n' (S i) u (b ++ [le_byte u i]) end.

Definition PutLe (n : nat) (v : Z) (b : bytes) : bytes :=
  put_loop n 0 (wrap_u (8 * Z.of_nat n) v) b.

(** A store outside the buffer is [None]. *)
Definition store_byte (b : Z) (off : nat) (p : bytes) : option bytes :=
  if decide (off < length p)%nat then Some (<[off := b]> p) else None.

Fixpoint store_loop (n i : nat) (u : Z) (off : nat) (p : bytes) : option bytes :=
  match n with
  | O => Some p
  | S n' => p ← store_byte (le_byte u i) (off + i) p; store_loop n' (S i) u off p
  end.

Definition store_le (n : nat) (v : Z) (off : nat) (p : bytes) : option bytes :=
  store_loop n 0 (wrap_u (8 * Z.of_nat n) v) off p.
End Code.

(** ** The value of a little-endian sequence *)

Fixpoint le_val (bs : bytes) : Z :=
  match bs with [] => 0 | b :: bs => b + 256 * le_val bs end.

Definition le_bytes (n : nat) (v : Z) : bytes :=
  le_byte (wrap_u (8 * Z.of_nat n) v) <$> seq 0 n.

Lemma pow_256 i : 0 <= i -> 2 ^ (8 * Z.succ i) = 256 * 2 ^ (8 * i).
Proof. intros. replace (8 * Z.succ i) with (8 + 8 * i) by lia. rewrite Z.pow_add_r by lia. done. Qed.

Lemma lor_disjoint v b k : 0 <= k -> 0 <= v < 2 ^ k -> Z.lor v (Z.shiftl b k) = v + 2 ^ k * b.
Proof.
  intros Hk Hv. assert (Z.land v (Z.shiftl b k) = 0) as Hl.
  { apply Z.bits_inj'. intros n Hn. rewrite Z.land_spec, Z.bits_0.
    destruct (Z.lt_ge_cases n k).
    - rewrite Z.shiftl_spec_low by done. apply andb_false_r.
    - rewrite <- (Z.mod_small v (2 ^ k)), Z.mod_pow2_bits_high by lia. done. }
  rewrite <- Z.lxor_lor, <- Z.add_nocarry_lxor, Z.shiftl_mul_pow2 by done. lia.
Qed.

Lemma le_val_range bs : is_bytes bs -> 0 <= le_val bs < 2 ^ (8 * Z.of_nat (length bs)).
Proof.
  induction 1 as [|b bs Hb Hbs IH]; simpl length; [simpl; lia|].
  rewrite Nat2Z.inj_succ, pow_256 by lia. cbn [le_val]. unfold in_u in Hb.
  change (2 ^ 8) with 256 in Hb. lia.
Qed.

Lemma load_loop_spec p off n i v :
  is_bytes p -> (i + n <= 8)%nat -> (off + i + n <= length p)%nat ->
  0 <= v < 2 ^ (8 * Z.of_nat i) ->
  load_loop n i p off v = Some (v + 2 ^ (8 * Z.of_nat i) * le_val (take n (drop (off + i) p))).
Proof.
  intros Hb. revert i v. induction n as [|n IH]; intros i v Hi Hlen Hv; cbn [load_loop].
  { rewrite take_0. cbn [le_val]. f_equal. lia. }
  destruct (lookup_lt_is_Some_2 p (off + i) ltac:(lia)) as [b Hp]. rewrite Hp. cbn [mbind option_bind].
  assert (in_u 8 b) as Hbr by by eapply Forall_lookup_1.
  unfold in_u in Hbr. change (2 ^ 8) with 256 in Hbr.
  assert (2 ^ (8 * Z.of_nat i) * 256 <= 2 ^ 64) as Hpow.
  { replace 256 with (2 ^ 8) by done. rewrite <- Z.pow_add_r by lia. apply Z.pow_le_mono_r; lia. }
  rewrite wrap_u_id.
  2: { unfold in_u. rewrite Z.shiftl_mul_pow2 by lia. nia. }
  rewrite lor_disjoint by lia. rewrite IH; [|lia|lia|].
  - rewrite Nat2Z.inj_succ, pow_256 by lia. rewrite (drop_S p b (off + i) Hp).
    replace (off + S i)%nat with (S (off + i)) by lia. cbn [take le_val]. f_equal. lia.
  - rewrite Nat2Z.inj_succ, pow_256 by lia. nia.
Qed.

(** A load inside the buffer returns the little-endian value there. *)
Lemma load_le_spec n p off :
  is_bytes p -> (n <= 8)%nat -> (off + n <= length p)%nat ->
  load_le n p off = Some (le_val (take n (drop off p))).
Proof.
  intros Hb Hn Hlen. unfold load_le. rewrite load_loop_spec; [|done|lia|lia|simpl; lia].
  cbn [fmap option_fmap option_map]. rewrite Nat.add_0_r. f_equal.
  rewrite Z.add_0_l, Z.mul_0_r, Z.pow_0_r, Z.mul_1_l. apply wrap_u_id.
  pose proof (le_val_range (take n (drop off p))) as Hr.
  rewrite length_take, length_drop in Hr. rewrite Nat.min_l in Hr by lia.
  apply Hr. by apply Forall_take, Forall_drop.
Qed.

Lemma le_byte_spec u i : le_byte u i = (u / 2 ^ (8 * Z.of_nat i)) mod 256.
Proof.
  unfold le_byte. change 255 with (2 ^ 8 - 1). rewrite land_mask by lia.
  rewrite Z.shiftr_div_pow2 by lia. change (2 ^ 8) with 256. apply wrap_u_id.
  unfold in_u. change (2 ^ 8) with 256. apply Z.mod_pos_bound. lia.
Qed.

Lemma is_bytes_le_bytes n v : is_bytes (le_bytes n v).
Proof.
  apply Forall_fmap, Forall_true. intros i. simpl. rewrite le_byte_spec.
  unfold in_u. change (2 ^ 8) with 256. apply Z.mod_pos_bound. lia.
Qed.

Lemma le_val_digits u n i :
  le_val (le_byte u <$> seq i n) = (u / 2 ^ (8 * Z.of_nat i)) mod 2 ^ (8 * Z.of_nat n).
Proof.
  revert i. induction n as [|n IH]; intros i; simpl seq; rewrite ?fmap_nil, ?fmap_cons; cbn [le_val].
  { by rewrite Z.mul_0_r, Z.pow_0_r, Z.mod_1_r. }
  rewrite IH, le_byte_spec, !Nat2Z.inj_succ, !pow_256 by lia.
  rewrite (Z.mul_comm 256 (2 ^ (8 * Z.of_nat i))), <- Z.div_div by lia.
  rewrite Z.rem_mul_r by lia. done.
Qed.

Lemma le_val_le_bytes n v : le_val (le_bytes n v) = wrap_u (8 * Z.of_nat n) v.
Proof.
  unfold le_bytes. rewrite le_val_digits, Z.mul_0_r, Z.pow_0_r, Z.div_1_r.
  apply wrap_u_wrap_u. lia.
Qed.

Lemma length_le_bytes n v : length (le_bytes n v) = n.
Proof. unfold le_bytes. by rewrite length_fmap, length_seq. Qed.

Lemma put_loop_spec n i u b : put_loop n i u b = b ++ (le_byte u <$> seq i n).
Proof.
  revert i b. induction n as [|n IH]; intros i b; simpl; [by rewrite app_nil_r|].
  rewrite IH, <- app_assoc. done.
Qed.

Lemma PutLe_spec n v b : PutLe n v b = b ++ le_bytes n v.
Proof. apply put_loop_spec. Qed.

(** ** Reading back what was put *)

Lemma load_loop_app_r n i l rest off v :
  (length l <= off)%nat ->
  load_loop n i (l ++ rest) off v = load_loop n i rest (off - length l) v.
Proof.
  intros Hl. revert i v. induction n as [|n IH]; intros i v; cbn [load_loop]; [done|].
  rewrite lookup_app_r by lia. replace (off + i - length l)%nat with (off - length l + i)%nat by lia.
  destruct (rest !! (off - length l + i)%nat); [|done]. cbn [mbind option_bind]. apply IH.
Qed.

Lemma load_loop_app_l n i l rest off v :
  (off + i + n <= length l)%nat -> load_loop n i (l ++ rest) off v = load_loop n i l off v.
Proof.
  revert i v. induction n as [|n IH]; intros i v Hl; cbn [load_loop]; [done|].
  rewrite lookup_app_l by lia. destruct (l !! (off + i)%nat); [|done].
  cbn [mbind option_bind]. apply IH. lia.
Qed.

(** A field further on, and the field at hand. *)
Lemma load_skip n m w rest off :
  (m <= off)%nat -> load_le n (le_bytes m w ++ rest) off = load_le n rest (off - m).
Proof.
  intros Hm. unfold load_le. rewrite load_loop_app_r by by rewrite length_le_bytes.
  by rewrite length_le_bytes.
Qed.

Lemma load_here n v rest :
  (n <= 8)%nat -> load_le n (le_bytes n v ++ rest) 0 = Some (wrap_u (8 * Z.of_nat n) v).
Proof.
  intros Hn. transitivity (load_le n (le_bytes n v) 0).
  { unfold load_le. f_equal. apply load_loop_app_l. rewrite length_le_bytes. lia. }
  rewrite load_le_spec; [|apply is_bytes_le_bytes|done|rewrite length_le_bytes; lia].
  rewrite drop_0, take_ge by by rewrite length_le_bytes. by rewrite le_val_le_bytes.
Qed.

(** Evaluates the loads of a message laid out field by field. *)
Ltac load_fields :=
  repeat first
    [ rewrite load_here by lia
    | rewrite load_skip by lia; cbn [Nat.sub] ];
  cbn [mbind option_bind fmap option_fmap option_map].

Lemma i32_of_u32 z : in_s 32 z -> i32 (u32 z) = z.
Proof. intros. rewrite wrap_s_wrap_u by lia. by apply wrap_s_id. Qed.

Lemma i64_of_u64 z : in_s 64 z -> i64 (u64 z) = z.
Proof. intros. rewrite wrap_s_wrap_u by lia. by apply wrap_s_id. Qed.

(** ** Stores *)

Lemma store_byte_Some b off p :
  (off < length p)%nat -> store_byte b off p = Some (<[off := b]> p).
Proof. intros. unfold store_byte. by rewrite decide_True. Qed.

(** A field overwrites [n] bytes at its offset and nothing else. *)
Definition patch (off : nat) (bs p : bytes) : bytes := take off p ++ bs ++ drop (off + length bs) p.

Lemma length_patch off bs p :
  (off + length bs <= length p)%nat -> length (patch off bs p) = length p.
Proof. intros. unfold patch. rewrite !length_app, length_take, length_drop. lia. Qed.

Lemma insert_patch off b p : (off < length p)%nat -> <[off := b]> p = patch off [b] p.
Proof.
  intros H. unfold patch. simpl. rewrite Nat.add_1_r. by apply insert_take_drop.
Qed.

Lemma patch_patch off b bs p :
  (off + S (length bs) <= length p)%nat ->
  patch (off + 1) bs (patch off [b] p) = patch off (b :: bs) p.
Proof.
  intros H. unfold patch. simpl length.
  assert (length (take off p) = off) as Ht by (rewrite length_take; lia).
  rewrite (take_app_ge (take off p)) by lia. rewrite Ht.
  replace (off + 1 - off)%nat with 1%nat by lia. simpl. rewrite <- app_assoc. simpl. f_equal. f_equal.
  rewrite drop_app_ge by (rewrite Ht; lia). rewrite Ht.
  replace (off + 1 + length bs - off)%nat with (S (length bs)) by lia. simpl.
  rewrite drop_drop. do 2 f_equal. lia.
Qed.

Lemma store_loop_spec n i u off p :
  (off + i + n <= length p)%nat ->
  store_loop n i u off p = Some (patch (off + i) (le_byte u <$> seq i n) p).
Proof.
  revert i p. induction n as [|n IH]; intros i p H; cbn [store_loop].
  - simpl. unfold patch. simpl. by rewrite Nat.add_0_r, take_drop.
  - rewrite store_byte_Some by lia. cbn [mbind option_bind].
    rewrite IH by (rewrite length_insert; lia). rewrite insert_patch by lia.
    replace (off + S i)%nat with (off + i + 1)%nat by lia. simpl. f_equal.
    apply patch_patch. rewrite length_fmap, length_seq. lia.
Qed.

Lemma store_le_spec n v off p :
  (off + n <= length p)%nat -> store_le n v off p = Some (patch off (le_bytes n v) p).
Proof. intros H. unfold store_le. rewrite store_loop_spec by lia. by rewrite Nat.add_0_r. Qed.
