(* ===== verification/MtbtParser.v ===== *)
(** * MtbtParser: decoding the NSE tick-by-tick feed (src/feed_handler/mtbt_parser.hpp)

    A packet is the list of bytes the socket delivered and [len] its length.
    Every function returns an [option]: [None] is a read outside the packet.
    The callback [emit] is a function on the state of whoever is listening. *)

From Stdlib Require Import ZArith Lia.
From stdpp Require Import base list numbers option.
From S2P Require Import Prelude Types Codec.

Local Open Scope Z_scope.

Definition kMtbtHeaderSize : nat := 19.

Record MtbtHeader := {
  h_stream_id : Z;
  h_seq_no : Z;
  h_msg_count : Z;
  h_timestamp : Z;
}.

Definition kSizeOrderAdd : nat := 26.
Definition kSizeOrderModify : nat := 25.
Definition kSizeOrderCancel : nat := 13.
Definition kSizeTrade : nat := 41.
Definition kSizeSnapQuote : nat := 29.
Definition kSizeHeartbeat : nat := 1.

Definition decode_side (indicator : Z) : Side := if indicator =? 1 then kBuy else kSell.

(** [Some None] is the [return false] for a short buffer. *)
Definition parse_header (data : bytes) (len : Z) : option (option MtbtHeader) :=
  if len <? Z.of_nat kMtbtHeaderSize then Some None
  else
    stream_id ← load_le 2 data 0;
    seq_no ← load_le 8 data 2;
    msg_count ← load_le 1 data 10;
    timestamp ← load_le 8 data 11;
    Some (Some {| h_stream_id := stream_id; h_seq_no := seq_no; h_msg_count := msg_count;
                  h_timestamp := timestamp |}).

(** 0 for a type the switch does not name. *)
Definition message_size (type : Z) : nat :=
  match msg_type type with
  | Some kOrderAdd => kSizeOrderAdd
  | Some kOrderModify => kSizeOrderModify
  | Some kOrderCancel => kSizeOrderCancel
  | Some kTrade => kSizeTrade
  | Some kSnapQuote => kSizeSnapQuote
  | Some kHeartbeat => kSizeHeartbeat
  | _ => 0
  end%nat.

(** The body of each [case], on the event the prologue has zeroed. *)
Definition base_event (type stream_id seq_no ts : Z) : MarketEvent :=
  {| ev_ts := ts; ev_token := 0; ev_price := 0; ev_qty := 0; ev_side := kBuy; ev_type := type;
     ev_order_no := 0; ev_stream_id := stream_id; ev_seq_no := seq_no; ev_order_no2 := 0;
     ev_trade_no := 0; ev_bid_price := 0; ev_bid_qty := 0; ev_ask_price := 0; ev_ask_qty := 0 |}.

Definition set_order (order_no : Z) (side : Side) (qty token price : Z) (e : MarketEvent)
    : MarketEvent :=
  {| ev_ts := ev_ts e; ev_token := token; ev_price := price; ev_qty := qty; ev_side := side;
     ev_type := ev_type e; ev_order_no := order_no; ev_stream_id := ev_stream_id e;
     ev_seq_no := ev_seq_no e; ev_order_no2 := ev_order_no2 e; ev_trade_no := ev_trade_no e;
     ev_bid_price := ev_bid_price e; ev_bid_qty := ev_bid_qty e; ev_ask_price := ev_ask_price e;
     ev_ask_qty := ev_ask_qty e |}.

Definition set_trade (order_no2 trade_no : Z) (e : MarketEvent) : MarketEvent :=
  {| ev_ts := ev_ts e; ev_token := ev_token e; ev_price := ev_price e; ev_qty := ev_qty e;
     ev_side := ev_side e; ev_type := ev_type e; ev_order_no := ev_order_no e;
     ev_stream_id := ev_stream_id e; ev_seq_no := ev_seq_no e; ev_order_no2 := order_no2;
     ev_trade_no := trade_no; ev_bid_price := ev_bid_price e; ev_bid_qty := ev_bid_qty e;
     ev_ask_price := ev_ask_price e; ev_ask_qty := ev_ask_qty e |}.

Definition set_quote (token bid_price bid_qty ask_price ask_qty : Z) (e : MarketEvent)
    : MarketEvent :=
  {| ev_ts := ev_ts e; ev_token := token; ev_price := ev_price e; ev_qty := ev_qty e;
     ev_side := ev_side e; ev_type := ev_type e; ev_order_no := ev_order_no e;
     ev_stream_id := ev_stream_id e; ev_seq_no := ev_seq_no e; ev_order_no2 := ev_order_no2 e;
     ev_trade_no := ev_trade_no e; ev_bid_price := bid_price; ev_bid_qty := bid_qty;
     ev_ask_price := ask_price; ev_ask_qty := ask_qty |}.

Definition parse_body (data : bytes) (t : MtbtMsgType) (e : MarketEvent) : option MarketEvent :=
  match t with
  | kOrderAdd =>
      order_no ← load_le_i64 data 1; side ← load_le 1 data 9; qty ← load_le_i32 data 10;
      token ← load_le 4 data 14; price ← load_le_i64 data 18;
      Some (set_order order_no (decode_side side) qty token price e)
  | kOrderModify =>
      order_no ← load_le_i64 data 1; qty ← load_le_i32 data 9; token ← load_le 4 data 13;
      price ← load_le_i64 data 17;
      Some (set_order order_no (ev_side e) qty token price e)
  | kOrderCancel =>
      order_no ← load_le_i64 data 1; token ← load_le 4 data 9;
      Some (set_order order_no (ev_side e) (ev_qty e) token (ev_price e) e)
  | kTrade =>
      order_no ← load_le_i64 data 1; order_no2 ← load_le_i64 data 9; token ← load_le 4 data 17;
      price ← load_le_i64 data 21; qty ← load_le_i32 data 29; trade_no ← load_le_i64 data 33;
      Some (set_trade order_no2 trade_no (set_order order_no (ev_side e) qty token price e))
  | kSnapQuote =>
      token ← load_le 4 data 1; bid_price ← load_le_i64 data 5; bid_qty ← load_le_i32 data 13;
      ask_price ← load_le_i64 data 17; ask_qty ← load_le_i32 data 25;
      Some (set_quote token bid_price bid_qty ask_price ask_qty e)
  | _ => Some e
  end.

(** [Some None] is [return 0]: unknown or truncated. *)
Definition parse_message (data : bytes) (len stream_id seq_no ts : Z)
    : option (option (nat * MarketEvent)) :=
  if len <? 1 then Some None
  else
    type ← data !! 0%nat;
    let need := message_size type in
    if (need =? 0)%nat || (len <? Z.of_nat need) then Some None
    else
      match msg_type type with
      | None => Some None
      | Some t => e ← parse_body data t (base_event type stream_id seq_no ts); Some (Some (need, e))
      end.

Definition is_heartbeat (ev : MarketEvent) : bool :=
  match msg_type (ev_type ev) with Some kHeartbeat => true | _ => false end.

Record MtbtParser := { mp_parsed : Z; mp_malformed : Z }.

Definition MtbtParser_new : MtbtParser := {| mp_parsed := 0; mp_malformed := 0 |}.
Definition reset_stats (p : MtbtParser) : MtbtParser := MtbtParser_new.
Definition bump_parsed (p : MtbtParser) : MtbtParser :=
  {| mp_parsed := u64 (mp_parsed p + 1); mp_malformed := mp_malformed p |}.
Definition bump_malformed (p : MtbtParser) : MtbtParser :=
  {| mp_parsed := mp_parsed p; mp_malformed := u64 (mp_malformed p + 1) |}.

Section Packet.
Context {S : Type} (emit : MarketEvent -> S -> S).

(** The loop of [parse_packet]; [n] is [msg_count - i]. *)
Fixpoint packet_loop (n : nat) (i : Z) (data : bytes) (len : Z) (hdr : MtbtHeader) (off : nat)
    (emitted : Z) (p : MtbtParser) (s : S) : option (MtbtParser * S * Z) :=
  match n with
  | O => Some (p, s, emitted)
  | Datatypes.S n' =>
      m ← parse_message (drop off data) (u64 (len - Z.of_nat off)) (h_stream_id hdr)
            (u64 (h_seq_no hdr + i)) (h_timestamp hdr);
      match m with
      | None => Some (bump_malformed p, s, emitted)
      | Some (consumed, ev) =>
          let '(s, emitted) :=
            if is_heartbeat ev then (s, emitted) else (emit ev s, emitted + 1) in
          packet_loop n' (i + 1) data len hdr (off + consumed) emitted (bump_parsed p) s
      end
  end.

Definition parse_packet (data : bytes) (len : Z) (p : MtbtParser) (s : S)
    : option (MtbtParser * S * Z) :=
  h ← parse_header data len;
  match h with
  | None => Some (bump_malformed p, s, 0)
  | Some hdr =>
      packet_loop (Z.to_nat (h_msg_count hdr)) 0 data len hdr kMtbtHeaderSize 0 p s
  end.
End Packet.

(** ** Memory safety and progress *)

Lemma load_total n p off :
  (n <= 8)%nat -> (off + n <= length p)%nat -> is_Some (load_le n p off).
Proof.
  intros Hn Hlen. unfold load_le. apply fmap_is_Some.
  assert (forall i v, (off + i + n <= length p)%nat -> is_Some (load_loop n i p off v)) as H.
  { clear Hn Hlen. induction n as [|n IH]; intros i v Hi; cbn [load_loop]; [by eexists|].
    destruct (lookup_lt_is_Some_2 p (off + i) ltac:(lia)) as [b ->]. apply IH. lia. }
  apply H. lia.
Qed.

Lemma load_i64_total p off : (off + 8 <= length p)%nat -> is_Some (load_le_i64 p off).
Proof. intros. apply fmap_is_Some, load_total; lia. Qed.

Lemma load_i32_total p off : (off + 4 <= length p)%nat -> is_Some (load_le_i32 p off).
Proof. intros. apply fmap_is_Some, load_total; lia. Qed.

(** Discharges the loads of a function one after the other. *)
Ltac loads :=
  repeat match goal with
  | |- context [load_le ?n ?p ?o ≫= _] =>
      let H := fresh in
      assert (is_Some (load_le n p o)) as H by (apply load_total; lia); destruct H as [? ->]
  | |- context [load_le_i64 ?p ?o ≫= _] =>
      let H := fresh in
      assert (is_Some (load_le_i64 p o)) as H by (apply load_i64_total; lia); destruct H as [? ->]
  | |- context [load_le_i32 ?p ?o ≫= _] =>
      let H := fresh in
      assert (is_Some (load_le_i32 p o)) as H by (apply load_i32_total; lia); destruct H as [? ->]
  end; cbn [mbind option_bind].

(** What the header of a packet gives to every event in it. *)
Definition stamped (stream_id seq_no ts : Z) (ev : MarketEvent) : Prop :=
  ev_stream_id ev = stream_id /\ ev_seq_no ev = seq_no /\ ev_ts ev = ts.

Lemma parse_body_total data t e :
  (message_size (msg_code t) <= length data)%nat ->
  exists e', parse_body data t e = Some e' /\ ev_type e' = ev_type e /\
    stamped (ev_stream_id e) (ev_seq_no e) (ev_ts e) e'.
Proof.
  unfold message_size. rewrite msg_type_code.
  unfold kSizeOrderAdd, kSizeOrderModify, kSizeOrderCancel, kSizeTrade, kSizeSnapQuote.
  intros Hlen. destruct t; cbn [parse_body]; loads; by eexists.
Qed.

Lemma parse_message_total data len sid seq ts :
  len <= Z.of_nat (length data) ->
  exists m, parse_message data len sid seq ts = Some m /\
    match m with
    | None => True
    | Some (consumed, ev) => (1 <= consumed)%nat /\ Z.of_nat consumed <= len /\
        consumed = message_size (ev_type ev) /\ data !! 0%nat = Some (ev_type ev) /\
        stamped sid seq ts ev
    end.
Proof.
  intros Hlen. unfold parse_message. case_if; [by eexists|].
  destruct (lookup_lt_is_Some_2 data 0 ltac:(lia)) as [type Ht]. rewrite Ht.
  cbn [mbind option_bind]. case_if; [by eexists|].
  destruct (msg_type type) as [t|] eqn:Hty; [|by eexists].
  apply msg_type_Some in Hty. subst type.
  destruct (parse_body_total data t (base_event (msg_code t) sid seq ts) ltac:(lia))
    as (e' & -> & Htype & Hst).
  eexists. split; [done|]. cbn in Htype. cbv beta iota. rewrite Htype. split_and!; try lia; done.
Qed.

(** ** What a packet delivers *)

(** The messages of a packet up to the first bad one, numbered consecutively. *)
Fixpoint messages (n : nat) (i : Z) (data : bytes) (len : Z) (hdr : MtbtHeader) (off : nat)
    : list MarketEvent :=
  match n with
  | O => []
  | S n' =>
      match parse_message (drop off data) (len - Z.of_nat off) (h_stream_id hdr)
              (u64 (h_seq_no hdr + i)) (h_timestamp hdr) with
      | Some (Some (consumed, ev)) => ev :: messages n' (i + 1) data len hdr (off + consumed)
      | _ => []
      end
  end.

Definition packet_messages (data : bytes) (len : Z) (hdr : MtbtHeader) : list MarketEvent :=
  messages (Z.to_nat (h_msg_count hdr)) 0 data len hdr kMtbtHeaderSize.

Definition book_events (evs : list MarketEvent) : list MarketEvent :=
  filter (fun ev => is_heartbeat ev = false) evs.

Lemma messages_length n i data len hdr off : (length (messages n i data len hdr off) <= n)%nat.
Proof.
  revert i off. induction n as [|n IH]; intros i off; cbn [messages]; [done|].
  destruct (parse_message _ _ _ _ _) as [[[c ev]|]|]; simpl; try lia. specialize (IH (i + 1) (off + c)%nat). lia.
Qed.

(** One iteration of a message loop that reads inside the packet. *)
Lemma message_step data len hdr off i :
  Z.of_nat off <= len <= Z.of_nat (length data) -> len < 2 ^ 64 ->
  exists m,
    parse_message (drop off data) (u64 (len - Z.of_nat off)) (h_stream_id hdr)
      (u64 (h_seq_no hdr + i)) (h_timestamp hdr) = Some m /\
    parse_message (drop off data) (len - Z.of_nat off) (h_stream_id hdr)
      (u64 (h_seq_no hdr + i)) (h_timestamp hdr) = Some m /\
    match m with
    | None => True
    | Some (c, ev) => Z.of_nat (off + c) <= len /\
        stamped (h_stream_id hdr) (u64 (h_seq_no hdr + i)) (h_timestamp hdr) ev
    end.
Proof.
  intros Hoff Hlen. rewrite wrap_u_id by ranges.
  destruct (parse_message_total (drop off data) (len - Z.of_nat off) (h_stream_id hdr)
    (u64 (h_seq_no hdr + i)) (h_timestamp hdr)) as (m & -> & Hm).
  { rewrite length_drop. lia. }
  exists m. split_and!; [done..|]. destruct m as [[c ev]|]; [|done].
  destruct Hm as (? & ? & _ & _ & ?). split; [lia|done].
Qed.

(** Consecutive sequence numbers, and the header's stream and time. *)
Lemma messages_stamped n i data len hdr off k ev :
  Z.of_nat off <= len <= Z.of_nat (length data) -> len < 2 ^ 64 ->
  messages n i data len hdr off !! k = Some ev ->
  stamped (h_stream_id hdr) (u64 (h_seq_no hdr + (i + Z.of_nat k))) (h_timestamp hdr) ev.
Proof.
  revert i off k. induction n as [|n IH]; intros i off k Hoff Hlen; cbn [messages]; [done|].
  destruct (message_step data len hdr off i Hoff Hlen) as (m & _ & -> & Hm).
  destruct m as [[c ev']|]; [|done]. destruct Hm as [Hc Hst].
  destruct k as [|k]; simpl; intros Hk.
  - simplify_eq. by rewrite Z.add_0_r.
  - apply IH in Hk; [|lia|done]. replace (i + Z.of_nat (S k)) with (i + 1 + Z.of_nat k) by lia. done.
Qed.

Section Delivery.
Context {S : Type} (emit : MarketEvent -> S -> S).
Abbreviation emit_all := (foldl (fun s ev => emit ev s)).

Definition packet_stats (n : nat) (msgs : list MarketEvent) (p : MtbtParser) : MtbtParser :=
  let p := Nat.iter (length msgs) bump_parsed p in
  if (length msgs =? n)%nat then p else bump_malformed p.

Lemma packet_loop_spec n i data len hdr off emitted p s :
  Z.of_nat off <= len <= Z.of_nat (length data) -> len < 2 ^ 64 ->
  let msgs := messages n i data len hdr off in
  packet_loop emit n i data len hdr off emitted p s =
    Some (packet_stats n msgs p, emit_all s (book_events msgs),
          emitted + Z.of_nat (length (book_events msgs))).
Proof.
  revert i off emitted p s. induction n as [|n IH]; intros i off emitted p s Hoff Hlen;
    cbn [packet_loop messages].
  { cbn. by rewrite Z.add_0_r. }
  destruct (message_step data len hdr off i Hoff Hlen) as (m & -> & -> & Hm).
  cbn [mbind option_bind]. destruct m as [[c ev]|]; [|cbn; by rewrite Z.add_0_r].
  destruct Hm as [Hc _]. cbv zeta. unfold packet_stats. cbn [length Nat.eqb].
  rewrite Nat.iter_succ_r.
  destruct (is_heartbeat ev) eqn:Hhb; rewrite IH by lia; unfold packet_stats, book_events.
  - rewrite filter_cons_False by congruence. done.
  - rewrite filter_cons_True by done. cbn [foldl length]. do 2 f_equal. lia.
Qed.
End Delivery.

Lemma parse_header_total data len :
  len <= Z.of_nat (length data) ->
  exists h, parse_header data len = Some h /\
    match h with
    | None => len < Z.of_nat kMtbtHeaderSize
    | Some hdr => Z.of_nat kMtbtHeaderSize <= len /\ in_u 16 (h_stream_id hdr) /\
        in_u 64 (h_seq_no hdr) /\ in_u 8 (h_msg_count hdr)
    end.
Proof.
  intros Hlen. unfold parse_header. case_if; [by eexists|]. unfold kMtbtHeaderSize in *.
  assert (forall n off, (n <= 8)%nat -> (off + n <= 19)%nat -> exists v, load_le n data off = Some v /\
    in_u (8 * Z.of_nat n) v) as Hload.
  { intros n off Hn Hoff. destruct (load_total n data off Hn ltac:(lia)) as [v Hv].
    exists v. split; [done|]. unfold load_le in Hv.
    apply fmap_Some in Hv as (w & _ & ->). apply wrap_u_range. lia. }
  destruct (Hload 2%nat 0%nat) as (a & -> & ?); [lia..|].
  destruct (Hload 8%nat 2%nat) as (b & -> & ?); [lia..|].
  destruct (Hload 1%nat 10%nat) as (c & -> & ?); [lia..|].
  destruct (Hload 8%nat 11%nat) as (d & -> & ?); [lia..|].
  eexists. split; [done|]. split_and!; [lia|done..].
Qed.

(** C12.  Whatever bytes arrive, [parse_packet] reads only inside the packet and
    returns: a packet shorter than its header is counted as malformed and emits
    nothing; otherwise the callback is run, in order, on the non-heartbeat
    messages that precede the first bad one, their number is returned, there are
    at most [msg_count] of them, and the k-th message carries the header's stream,
    timestamp and the sequence number [seq_no + k]. *)
Theorem parse_packet_safe {S : Type} (emit : MarketEvent -> S -> S) data len p s :
  0 <= len <= Z.of_nat (length data) -> len < 2 ^ 64 ->
  if len <? Z.of_nat kMtbtHeaderSize
  then parse_packet emit data len p s = Some (bump_malformed p, s, 0)
  else exists hdr, parse_header data len = Some (Some hdr) /\
    let msgs := packet_messages data len hdr in
    parse_packet emit data len p s =
      Some (packet_stats (Z.to_nat (h_msg_count hdr)) msgs p,
            foldl (fun s ev => emit ev s) s (book_events msgs),
            Z.of_nat (length (book_events msgs))) /\
    Z.of_nat (length msgs) <= h_msg_count hdr <= 255 /\
    forall k ev, msgs !! k = Some ev ->
      stamped (h_stream_id hdr) (u64 (h_seq_no hdr + Z.of_nat k)) (h_timestamp hdr) ev.
Proof.
  intros Hlen Hmax. destruct (parse_header_total data len ltac:(lia)) as (h & Hh & Hspec).
  unfold parse_packet. rewrite Hh. cbn [mbind option_bind]. destruct h as [hdr|].
  - destruct Hspec as (Hsz & _ & _ & Hcnt). rewrite (proj2 (Z.ltb_ge _ _) Hsz).
    exists hdr. split; [done|]. cbv zeta. unfold packet_messages.
    rewrite packet_loop_spec by lia. rewrite Z.add_0_l. split; [done|].
    pose proof (messages_length (Z.to_nat (h_msg_count hdr)) 0 data len hdr kMtbtHeaderSize) as Hml.
    unfold in_u in Hcnt. change (2 ^ 8) with 256 in Hcnt. split; [lia|].
    intros k ev Hk. apply messages_stamped in Hk; [|lia..]. done.
  - by rewrite (proj2 (Z.ltb_lt _ _) Hspec).
Qed.

(** A packet of two messages, the second one truncated. *)
Definition sample_packet : bytes :=
  le_bytes 2 3 ++ le_bytes 8 1000 ++ le_bytes 1 2 ++ le_bytes 8 77 ++
  [88] ++ le_bytes 8 42 ++ le_bytes 4 2885 ++ [84; 1; 2; 3].

Lemma parse_packet_safe_witness :
  exists evs, parse_packet (fun ev evs => evs ++ [ev]) sample_packet 36 MtbtParser_new [] =
      Some ({| mp_parsed := 1; mp_malformed := 1 |}, evs, 1) /\
    (fun e => (ev_type e, ev_order_no e, ev_token e, ev_seq_no e)) <$> evs = [(88, 42, 2885, 1000)].
Proof.
  pose proof (parse_packet_safe (fun ev evs => evs ++ [ev]) sample_packet 36 MtbtParser_new []
    ltac:(vm_compute; split; discriminate) ltac:(lia)) as H.
  change (36 <? Z.of_nat kMtbtHeaderSize) with false in H. cbv iota in H.
  destruct H as (hdr & Hh & H & _). vm_compute in Hh. injection Hh as <-.
  eexists. split; [rewrite H; vm_compute; reflexivity|reflexivity].
Defined.
