(* ===== verification/Capture.v ===== *)
(** * Capture files: the generator's encoder and the event loader

    [MtbtGenerator::encode_capture] (src/sim/mtbt_generator.hpp) writes one
    event as a length-prefixed packet; [load_events]
    (src/sim/event_source.hpp) reads a file of them back through
    [MtbtParser::parse_packet].  A file is the list of its bytes, the stream
    position the list that is left. *)

From Stdlib Require Import ZArith Lia.
From stdpp Require Import base list numbers option.
From S2P Require Import Prelude Types Codec MtbtParser.

Local Open Scope Z_scope.

(** ** Encoder *)

(** The body after the packet header; [None] is the unsupported type, for which
    nothing is written. *)
Definition encode_body (ev : MarketEvent) (pkt : bytes) : option bytes :=
  match msg_type (ev_type ev) with
  | Some kSnapQuote =>
      Some (PutLe 4 (ev_ask_qty ev) (PutLe 8 (ev_ask_price ev) (PutLe 4 (ev_bid_qty ev)
        (PutLe 8 (ev_bid_price ev) (PutLe 4 (ev_token ev) (pkt ++ [81]))))))
  | Some kTrade =>
      Some (PutLe 8 (ev_trade_no ev) (PutLe 4 (ev_qty ev) (PutLe 8 (ev_price ev)
        (PutLe 4 (ev_token ev) (PutLe 8 (ev_order_no2 ev) (PutLe 8 (ev_order_no ev)
          (pkt ++ [84])))))))
  | Some kOrderAdd =>
      Some (PutLe 8 (ev_price ev) (PutLe 4 (ev_token ev) (PutLe 4 (ev_qty ev)
        (PutLe 1 (if ev_side ev then 1 else 2) (PutLe 8 (ev_order_no ev) (pkt ++ [65]))))))
  | Some kOrderCancel =>
      Some (PutLe 4 (ev_token ev) (PutLe 8 (ev_order_no ev) (pkt ++ [88])))
  | _ => None
  end.

Definition encode_packet (ev : MarketEvent) : option bytes :=
  let pkt := PutLe 2 (u16 (if ev_stream_id ev =? 0 then 1 else ev_stream_id ev)) [] in
  let pkt := PutLe 8 (ev_seq_no ev) pkt in
  let pkt := PutLe 1 1 pkt in
  let pkt := PutLe 8 (ev_ts ev) pkt in
  encode_body ev pkt.

Definition encode_capture (ev : MarketEvent) (out : bytes) : bytes :=
  match encode_packet ev with
  | None => out
  | Some pkt => PutLe 4 (u32 (Z.of_nat (length pkt))) out ++ pkt
  end.

(** The generator tool writes its events one after the other. *)
Definition encode_captures (evs : list MarketEvent) (out : bytes) : bytes :=
  foldl (fun out ev => encode_capture ev out) out evs.

(** ** Loader *)

(** [fread(b, 1, n, f) != n]: fewer bytes left is the failure. *)
Definition fread (n : nat) (f : bytes) : option (bytes * bytes) :=
  if (length f <? n)%nat then None else Some (take n f, drop n f).

Definition read_u32_le (f : bytes) : option (Z * bytes) :=
  '(b, f) ← fread 4 f;
  Some (Z.lor (Z.lor (Z.lor (b !!! 0%nat) (u32 (Z.shiftl (b !!! 1%nat) 8)))
                 (u32 (Z.shiftl (b !!! 2%nat) 16))) (u32 (Z.shiftl (b !!! 3%nat) 24)), f).

(** The [while] loop; [None] is an out-of-bounds read or exhausted [fuel]. *)
Fixpoint load_loop_events (fuel : nat) (f : bytes) (p : MtbtParser) (events : list MarketEvent)
    : option (list MarketEvent) :=
  match fuel with
  | O => None
  | S fuel =>
      match read_u32_le f with
      | None => Some events
      | Some (len, f) =>
          if (len =? 0) || (len >? 2 ^ 20) then Some events
          else
            match fread (Z.to_nat len) f with
            | None => Some events
            | Some (buf, f) =>
                '(p, events, _) ← parse_packet (fun e es => es ++ [e]) buf len p events;
                load_loop_events fuel f p events
            end
      end
  end.

(** Every iteration consumes at least four bytes, so one more than the length
    is enough fuel. *)
Definition load_events (file : bytes) : option (list MarketEvent) :=
  load_loop_events (S (length file)) file MtbtParser_new [].

(** ** The loader terminates and reads in bounds, on any file *)

Lemma fread_Some n f b r : fread n f = Some (b, r) -> f = b ++ r /\ length b = n.
Proof.
  unfold fread. intros H. case_if_in H; [done|]. simplify_eq.
  split; [by rewrite take_drop|]. rewrite length_take. lia.
Qed.

Lemma read_u32_le_Some f v r : read_u32_le f = Some (v, r) -> length f = (4 + length r)%nat.
Proof.
  unfold read_u32_le. intros H. apply bind_Some in H as ([b r'] & Hf & H). simplify_eq.
  apply fread_Some in Hf as [-> Hl]. by rewrite length_app, Hl.
Qed.

Lemma load_loop_events_total fuel f p events :
  (length f < fuel)%nat -> is_Some (load_loop_events fuel f p events).
Proof.
  revert f p events. induction fuel as [|fuel IH]; intros f p events Hf; [lia|].
  cbn [load_loop_events]. destruct (read_u32_le f) as [[len r]|] eqn:Hr; [|by eexists].
  apply read_u32_le_Some in Hr. case_if; [by eexists|].
  destruct (fread (Z.to_nat len) r) as [[buf r']|] eqn:Hb; [|by eexists].
  apply fread_Some in Hb as [-> Hbl]. rewrite length_app in Hr.
  assert (exists p' es n, parse_packet (fun e es => es ++ [e]) buf len p events = Some (p', es, n))
    as (p' & es & n & ->).
  { unfold parse_packet. destruct (parse_header_total buf len ltac:(lia)) as ([hdr|] & -> & Hh);
      cbn [mbind option_bind]; [|by repeat eexists].
    destruct Hh as [Hsz _]. rewrite packet_loop_spec; [by repeat eexists|lia|].
    lia. }
  cbn [mbind option_bind]. apply IH. lia.
Qed.

(** ** Round trip *)

(** The part of an event its message carries, under a packet's stamp. *)
Definition wire_event (sid seq ts : Z) (ev : MarketEvent) : MarketEvent :=
  let e := base_event (ev_type ev) sid seq ts in
  match msg_type (ev_type ev) with
  | Some kSnapQuote =>
      set_quote (ev_token ev) (ev_bid_price ev) (ev_bid_qty ev) (ev_ask_price ev) (ev_ask_qty ev) e
  | Some kTrade =>
      set_trade (ev_order_no2 ev) (ev_trade_no ev)
        (set_order (ev_order_no ev) kBuy (ev_qty ev) (ev_token ev) (ev_price ev) e)
  | Some kOrderAdd =>
      set_order (ev_order_no ev) (ev_side ev) (ev_qty ev) (ev_token ev) (ev_price ev) e
  | Some kOrderCancel => set_order (ev_order_no ev) kBuy 0 (ev_token ev) 0 e
  | _ => e
  end.

(** The fields fit their C++ types. *)
Definition event_fits (ev : MarketEvent) : Prop :=
  in_u 64 (ev_ts ev) /\ in_u 32 (ev_token ev) /\ in_s 64 (ev_price ev) /\ in_s 32 (ev_qty ev) /\
  in_s 64 (ev_order_no ev) /\ in_u 64 (ev_seq_no ev) /\ in_s 64 (ev_order_no2 ev) /\
  in_s 64 (ev_trade_no ev) /\ in_s 64 (ev_bid_price ev) /\ in_s 32 (ev_bid_qty ev) /\
  in_s 64 (ev_ask_price ev) /\ in_s 32 (ev_ask_qty ev).

#[global] Instance event_fits_dec ev : Decision (event_fits ev).
Proof. unfold event_fits. apply _. Defined.

Definition captured (ev : MarketEvent) : bool :=
  match msg_type (ev_type ev) with
  | Some (kSnapQuote | kTrade | kOrderAdd | kOrderCancel) => true | _ => false
  end.

(** The message bytes as a concatenation of fields. *)
Definition body_fields (ev : MarketEvent) : bytes :=
  match msg_type (ev_type ev) with
  | Some kSnapQuote =>
      le_bytes 1 81 ++ le_bytes 4 (ev_token ev) ++ le_bytes 8 (ev_bid_price ev) ++
      le_bytes 4 (ev_bid_qty ev) ++ le_bytes 8 (ev_ask_price ev) ++ le_bytes 4 (ev_ask_qty ev)
  | Some kTrade =>
      le_bytes 1 84 ++ le_bytes 8 (ev_order_no ev) ++ le_bytes 8 (ev_order_no2 ev) ++
      le_bytes 4 (ev_token ev) ++ le_bytes 8 (ev_price ev) ++ le_bytes 4 (ev_qty ev) ++
      le_bytes 8 (ev_trade_no ev)
  | Some kOrderAdd =>
      le_bytes 1 65 ++ le_bytes 8 (ev_order_no ev) ++ le_bytes 1 (if ev_side ev then 1 else 2) ++
      le_bytes 4 (ev_qty ev) ++ le_bytes 4 (ev_token ev) ++ le_bytes 8 (ev_price ev)
  | Some kOrderCancel =>
      le_bytes 1 88 ++ le_bytes 8 (ev_order_no ev) ++ le_bytes 4 (ev_token ev)
  | _ => []
  end.

Definition header_fields (sid seq count ts : Z) : bytes :=
  le_bytes 2 sid ++ le_bytes 8 seq ++ le_bytes 1 count ++ le_bytes 8 ts.

Definition capture_stream (ev : MarketEvent) : Z :=
  u16 (if ev_stream_id ev =? 0 then 1 else ev_stream_id ev).

Lemma encode_packet_fields ev :
  encode_packet ev =
    if captured ev then
      Some (header_fields (capture_stream ev) (ev_seq_no ev) 1 (ev_ts ev) ++ body_fields ev)
    else None.
Proof.
  unfold encode_packet, encode_body, captured, body_fields, header_fields, capture_stream.
  rewrite !PutLe_spec. destruct (msg_type (ev_type ev)) as [[]|]; try done;
    rewrite !PutLe_spec, <- !app_assoc; done.
Qed.

Lemma body_length ev :
  captured ev = true -> length (body_fields ev) = message_size (ev_type ev).
Proof.
  unfold captured, body_fields, message_size. destruct (msg_type (ev_type ev)) as [[]|]; try done;
    intros _; rewrite !length_app, !length_le_bytes; done.
Qed.

(** One message reads back, whatever follows it. *)
Lemma parse_message_fields ev rest len sid seq ts :
  captured ev = true -> event_fits ev -> Z.of_nat (length (body_fields ev)) <= len ->
  parse_message (body_fields ev ++ rest) len sid seq ts =
    Some (Some (length (body_fields ev), wire_event sid seq ts ev)).
Proof.
  intros Hc Hfit Hlen. pose proof (body_length ev Hc) as Hbl. rewrite Hbl in *.
  assert (1 <= message_size (ev_type ev))%nat as Hpos.
  { revert Hc. unfold captured, message_size. destruct (msg_type _) as [[]|]; try done; cbv; lia. }
  destruct Hfit as (Hts & Htok & Hpr & Hq & Hno & Hseq & Hno2 & Htr & Hbp & Hbq & Hap & Haq).
  assert ((body_fields ev ++ rest) !! 0%nat = Some (ev_type ev)) as Htag.
  { revert Hc. unfold captured, body_fields. destruct (msg_type _) as [[]|] eqn:Ht; try done; intros _;
      apply msg_type_Some in Ht; rewrite Ht; reflexivity. }
  unfold parse_message. rewrite (proj2 (Z.ltb_ge _ _)) by lia. rewrite Htag. cbn [mbind option_bind].
  rewrite (proj2 (Nat.eqb_neq _ _)) by lia. rewrite (proj2 (Z.ltb_ge _ _)) by lia. cbn [orb].
  clear Htag Hpos Hbl Hlen. revert Hc. unfold captured, body_fields, wire_event.
  destruct (msg_type (ev_type ev)) as [[]|]; try done; intros _;
    cbn [parse_body]; unfold load_le_i64, load_le_i32; rewrite <- !app_assoc; load_fields;
    change (8 * Z.of_nat 8) with 64; change (8 * Z.of_nat 4) with 32;
    rewrite ?i64_of_u64, ?i32_of_u32, ?(wrap_u_id 32) by done; try done.
  by destruct (ev_side ev).
Qed.

Lemma header_length sid seq cnt ts : length (header_fields sid seq cnt ts) = kMtbtHeaderSize.
Proof. unfold header_fields. rewrite !length_app, !length_le_bytes. done. Qed.

Lemma parse_header_fields sid seq cnt ts rest len :
  in_u 16 sid -> in_u 64 seq -> in_u 8 cnt -> in_u 64 ts -> Z.of_nat kMtbtHeaderSize <= len ->
  parse_header (header_fields sid seq cnt ts ++ rest) len =
    Some (Some {| h_stream_id := sid; h_seq_no := seq; h_msg_count := cnt; h_timestamp := ts |}).
Proof.
  intros Hs Hq Hc Ht Hlen. unfold parse_header. rewrite (proj2 (Z.ltb_ge _ _)) by lia.
  unfold header_fields. rewrite <- !app_assoc. load_fields.
  change (8 * Z.of_nat 8) with 64. change (8 * Z.of_nat 2) with 16. change (8 * Z.of_nat 1) with 8.
  by rewrite !wrap_u_id.
Qed.

(** Messages laid out one after the other are read one after the other. *)
Definition stamp_from (hdr : MtbtHeader) (i : Z) (evs : list MarketEvent) : list MarketEvent :=
  imap (fun k ev => wire_event (h_stream_id hdr) (u64 (h_seq_no hdr + (i + Z.of_nat k)))
                      (h_timestamp hdr) ev) evs.

Lemma stamp_from_cons hdr i ev evs :
  stamp_from hdr i (ev :: evs) =
    wire_event (h_stream_id hdr) (u64 (h_seq_no hdr + i)) (h_timestamp hdr) ev ::
    stamp_from hdr (i + 1) evs.
Proof.
  unfold stamp_from. rewrite imap_cons. rewrite Z.add_0_r. f_equal. apply imap_ext.
  intros k x _. unfold compose. do 3 f_equal. lia.
Qed.

Lemma messages_fields hdr len pre evs rest i :
  Forall (fun ev => captured ev = true /\ event_fits ev) evs ->
  Z.of_nat (length (pre ++ concat (body_fields <$> evs))) <= len ->
  messages (length evs) i (pre ++ concat (body_fields <$> evs) ++ rest) len hdr (length pre) =
    stamp_from hdr i evs.
Proof.
  intros Hall. revert pre i. induction Hall as [|ev evs [Hc Hf] Hall IH]; intros pre i Hlen; [done|].
  rewrite fmap_cons in *. cbn [concat messages length] in *.
  rewrite !length_app in Hlen.
  rewrite drop_app_length, <- app_assoc, parse_message_fields by (done || lia).
  rewrite stamp_from_cons. f_equal.
  replace (length pre + length (body_fields ev))%nat with (length (pre ++ body_fields ev))
    by by rewrite length_app.
  rewrite (app_assoc pre). apply IH. rewrite !length_app. lia.
Qed.

Lemma wire_event_type sid seq ts ev : ev_type (wire_event sid seq ts ev) = ev_type ev.
Proof. unfold wire_event. by destruct (msg_type (ev_type ev)) as [[]|]. Qed.

Lemma book_events_stamped hdr i evs :
  Forall (fun ev => captured ev = true /\ event_fits ev) evs ->
  book_events (stamp_from hdr i evs) = stamp_from hdr i evs.
Proof.
  intros Hall. revert i. induction Hall as [|ev evs [Hc _] Hall IH]; intros i; [done|].
  rewrite stamp_from_cons. unfold book_events in *. rewrite filter_cons_True; [by rewrite IH|].
  unfold is_heartbeat. rewrite wire_event_type. unfold captured in Hc.
  by destruct (msg_type (ev_type ev)) as [[]|].
Qed.

(** A whole packet. *)
Lemma parse_packet_fields {S : Type} (emit : MarketEvent -> S -> S) sid seq ts evs p s :
  in_u 16 sid -> in_u 64 seq -> in_u 64 ts -> (length evs <= 255)%nat ->
  Forall (fun ev => captured ev = true /\ event_fits ev) evs ->
  let pkt := header_fields sid seq (Z.of_nat (length evs)) ts ++ concat (body_fields <$> evs) in
  let hdr := {| h_stream_id := sid; h_seq_no := seq; h_msg_count := Z.of_nat (length evs);
                h_timestamp := ts |} in
  Z.of_nat (length pkt) < 2 ^ 64 ->
  parse_packet emit pkt (Z.of_nat (length pkt)) p s =
    Some (Nat.iter (length evs) bump_parsed p,
          foldl (fun s ev => emit ev s) s (stamp_from hdr 0 evs), Z.of_nat (length evs)).
Proof.
  intros Hs Hq Ht Hn Hall pkt hdr Hlen. unfold parse_packet.
  assert (Z.of_nat kMtbtHeaderSize <= Z.of_nat (length pkt)) as Hsz.
  { unfold pkt. rewrite length_app, header_length. lia. }
  assert (parse_header pkt (Z.of_nat (length pkt)) = Some (Some hdr)) as ->.
  { apply parse_header_fields; try done. ranges. }
  cbn [mbind option_bind]. rewrite packet_loop_spec by lia. simpl h_msg_count. rewrite Nat2Z.id.
  assert (messages (length evs) 0 pkt (Z.of_nat (length pkt)) hdr kMtbtHeaderSize =
          stamp_from hdr 0 evs) as ->.
  { rewrite <- (header_length sid seq (Z.of_nat (length evs)) ts).
    rewrite <- (messages_fields hdr (Z.of_nat (length pkt))
      (header_fields sid seq (Z.of_nat (length evs)) ts) evs [] 0 Hall) by done.
    by rewrite app_nil_r. }
  rewrite book_events_stamped by done. unfold packet_stats.
  assert (length (stamp_from hdr 0 evs) = length evs) as -> by apply length_imap.
  by rewrite Nat.eqb_refl.
Qed.

(** *** The length prefix *)

Lemma read_u32_le_here v rest :
  in_u 32 v -> read_u32_le (le_bytes 4 v ++ rest) = Some (v, rest).
Proof.
  intros Hv. unfold read_u32_le, fread.
  rewrite (proj2 (Nat.ltb_ge _ _)) by (rewrite length_app, length_le_bytes; lia).
  cbn [mbind option_bind].
  rewrite take_app_length', drop_app_length' by by rewrite length_le_bytes. do 2 f_equal.
  pose proof (le_val_le_bytes 4 v) as Hval. pose proof (is_bytes_le_bytes 4 v) as Hb.
  change (8 * Z.of_nat 4) with 32 in Hval. rewrite (wrap_u_id 32 v Hv) in Hval.
  rewrite <- Hval at 5. pose proof (length_le_bytes 4 v) as Hlen.
  destruct (le_bytes 4 v) as [|b0 [|b1 [|b2 [|b3 [|]]]]]; try done.
  apply Forall_cons_1 in Hb as [H0 Hb]. apply Forall_cons_1 in Hb as [H1 Hb].
  apply Forall_cons_1 in Hb as [H2 Hb]. apply Forall_cons_1 in Hb as [H3 _].
  unfold in_u in *. change (2 ^ 8) with 256 in *. cbn [lookup_total list_lookup_total le_val].
  rewrite !(wrap_u_id 32) by (unfold in_u; rewrite Z.shiftl_mul_pow2 by lia; ranges).
  rewrite (lor_disjoint b0 b1 8), (lor_disjoint _ b2 16), (lor_disjoint _ b3 24); ranges.
Qed.

(** *** Files *)

Definition record_bytes (ev : MarketEvent) : bytes :=
  match encode_packet ev with
  | None => []
  | Some pkt => le_bytes 4 (Z.of_nat (length pkt)) ++ pkt
  end.

Lemma packet_small ev pkt : encode_packet ev = Some pkt -> (1 <= length pkt <= 60)%nat.
Proof.
  rewrite encode_packet_fields. destruct (captured ev) eqn:Hc; [|done]. intros H. apply (inj Some) in H as <-.
  rewrite length_app, header_length, (body_length ev Hc).
  unfold message_size, kMtbtHeaderSize. destruct (msg_type _) as [[]|]; cbv; lia.
Qed.

Lemma encode_capture_record ev out : encode_capture ev out = out ++ record_bytes ev.
Proof.
  unfold encode_capture, record_bytes. destruct (encode_packet ev) as [pkt|] eqn:Hp.
  - apply packet_small in Hp. rewrite PutLe_spec, <- app_assoc, wrap_u_id by ranges. done.
  - by rewrite app_nil_r.
Qed.

Lemma encode_captures_records evs out :
  encode_captures evs out = out ++ concat (record_bytes <$> evs).
Proof.
  unfold encode_captures. revert out. induction evs as [|ev evs IH]; intros out; simpl.
  - by rewrite app_nil_r.
  - rewrite IH, encode_capture_record, <- app_assoc. done.
Qed.

(** What the loader returns for one event. *)
Definition recorded (ev : MarketEvent) : MarketEvent :=
  wire_event (capture_stream ev) (ev_seq_no ev) (ev_ts ev) ev.

Lemma parse_packet_record ev pkt p es :
  event_fits ev -> encode_packet ev = Some pkt ->
  parse_packet (fun e es => es ++ [e]) pkt (Z.of_nat (length pkt)) p es =
    Some (bump_parsed p, es ++ [recorded ev], 1).
Proof.
  intros Hf Hp. pose proof (packet_small ev pkt Hp) as Hsmall.
  rewrite encode_packet_fields in Hp. destruct (captured ev) eqn:Hc; [|done]. apply (inj Some) in Hp as <-.
  pose proof (parse_packet_fields (fun e es => es ++ [e]) (capture_stream ev) (ev_seq_no ev)
    (ev_ts ev) [ev] p es) as H.
  change (concat (body_fields <$> [ev])) with (body_fields ev ++ []) in H. rewrite app_nil_r in H.
  change (Z.of_nat (length [ev])) with 1 in H. rewrite H.
  - rewrite stamp_from_cons. cbn [foldl stamp_from imap h_stream_id h_seq_no h_timestamp].
    unfold recorded. rewrite !Z.add_0_r, wrap_u_id; [done|apply Hf].
  - apply wrap_u_range. lia.
  - apply Hf.
  - apply Hf.
  - simpl. lia.
  - by constructor.
  - ranges.
Qed.

Lemma load_loop_records fuel evs p es :
  Forall event_fits evs -> (length (concat (record_bytes <$> evs)) < fuel)%nat ->
  load_loop_events fuel (concat (record_bytes <$> evs)) p es =
    Some (es ++ (recorded <$> filter (fun ev => captured ev = true) evs)).
Proof.
  intros Hall. revert fuel p es. induction Hall as [|ev evs Hf Hall IH]; intros fuel p es Hfuel.
  { destruct fuel; [simpl in Hfuel; lia|]. simpl. by rewrite app_nil_r. }
  rewrite fmap_cons in *. cbn [concat] in *. rewrite filter_cons.
  unfold record_bytes at 1 in Hfuel. unfold record_bytes at 1.
  destruct (encode_packet ev) as [pkt|] eqn:Hp.
  - pose proof (packet_small ev pkt Hp) as Hsmall.
    assert (captured ev = true) as Hc by (rewrite encode_packet_fields in Hp; by destruct (captured ev)).
    rewrite decide_True by done. rewrite <- app_assoc in Hfuel |- *.
    rewrite !length_app, length_le_bytes in Hfuel.
    destruct fuel as [|fuel]; [lia|]. cbn [load_loop_events].
    rewrite read_u32_le_here by ranges. rewrite (proj2 (Z.eqb_neq _ _)) by lia.
    rewrite Z.gtb_ltb, (proj2 (Z.ltb_ge _ _)) by lia. cbn [orb]. unfold fread.
    rewrite Nat2Z.id, (proj2 (Nat.ltb_ge _ _)) by (rewrite length_app; lia).
    rewrite take_app_length, drop_app_length, (parse_packet_record ev pkt) by done.
    cbn [mbind option_bind]. rewrite IH by lia. by rewrite <- app_assoc.
  - assert (captured ev = false) as Hc by (rewrite encode_packet_fields in Hp; by destruct (captured ev)).
    rewrite decide_False by congruence. by apply IH.
Qed.

(** Decoding inverts encoding for batched packets: a packet whose header
    announces up to 255 messages, followed by those messages laid out one after
    the other, is decoded to exactly those events in order, message [k] numbered
    [seq + k], and none is counted as malformed. *)
Theorem packet_roundtrip sid seq ts evs p :
  in_u 16 sid -> in_u 64 seq -> in_u 64 ts -> (length evs <= 255)%nat ->
  Forall (fun ev => captured ev = true /\ event_fits ev) evs ->
  let pkt := header_fields sid seq (Z.of_nat (length evs)) ts ++ concat (body_fields <$> evs) in
  parse_packet (fun e es => es ++ [e]) pkt (Z.of_nat (length pkt)) p [] =
    Some (Nat.iter (length evs) bump_parsed p,
          imap (fun k ev => wire_event sid (u64 (seq + Z.of_nat k)) ts ev) evs,
          Z.of_nat (length evs)).
Proof.
  intros Hs Hq Ht Hn Hall pkt.
  assert (forall l : list MarketEvent, foldl (fun es e => es ++ [e]) [] l = l) as Hfold.
  { intros l. induction l as [|x l IH] using rev_ind; [done|]. by rewrite foldl_snoc, IH. }
  assert (length (concat (body_fields <$> evs)) <= 41 * length evs)%nat as Hsize.
  { clear -Hall. induction Hall as [|ev evs [Hc _] _ IH]; [done|].
    rewrite fmap_cons. cbn [concat length]. rewrite length_app, (body_length ev Hc).
    assert (message_size (ev_type ev) <= 41)%nat; [|lia].
    unfold message_size. destruct (msg_type _) as [[]|]; cbv; lia. }
  unfold pkt. rewrite (parse_packet_fields (fun e es => es ++ [e])); try done.
  - by rewrite Hfold.
  - rewrite length_app, header_length. unfold kMtbtHeaderSize. ranges.
Qed.

(** A quote, a trade, an add and a cancel with extreme values. *)
Definition sample_events : list MarketEvent :=
  [set_quote 2885 (-5) 10 (2 ^ 63 - 1) 20 (base_event 81 1 7 99);
   set_trade 12 13 (set_order (- 2 ^ 63) kBuy (2 ^ 31 - 1) 65535 100 (base_event 84 1 8 99));
   set_order 14 kSell (- 2 ^ 31) 7 250 (base_event 65 1 9 99);
   set_order 15 kBuy 0 7 0 (base_event 88 1 10 99)].

Lemma packet_roundtrip_witness :
  let pkt := header_fields 1 7 4 99 ++ concat (body_fields <$> sample_events) in
  length pkt = 128%nat /\
  parse_packet (fun e es => es ++ [e]) pkt 128 MtbtParser_new [] =
    Some ({| mp_parsed := 4; mp_malformed := 0 |}, sample_events, 4).
Proof.
  cbv zeta. split; [vm_compute; reflexivity|].
  etransitivity; [apply (packet_roundtrip 1 7 99 sample_events MtbtParser_new)|vm_compute; reflexivity].
  - vm_compute. split; [discriminate|reflexivity].
  - vm_compute. split; [discriminate|reflexivity].
  - vm_compute. split; [discriminate|reflexivity].
  - vm_compute. lia.
  - repeat constructor; apply (bool_decide_unpack _); vm_compute; exact I.
Defined.

(** C13.  A capture file written by the generator is read back event by event: the
    loader returns, in order, every event of a supported type with all the fields
    its message carries (an event of another type is not written), and it does so
    for every file length. *)
Theorem capture_roundtrip evs :
  Forall event_fits evs ->
  load_events (encode_captures evs []) =
    Some (recorded <$> filter (fun ev => captured ev = true) evs).
Proof.
  intros Hall. unfold load_events. rewrite encode_captures_records. rewrite app_nil_l.
  rewrite load_loop_records; [done|done|lia].
Qed.

Lemma capture_roundtrip_witness :
  load_events (encode_captures (sample_events ++ [base_event 77 1 11 99]) []) = Some sample_events.
Proof.
  rewrite (capture_roundtrip (sample_events ++ [base_event 77 1 11 99])); [vm_compute; reflexivity|].
  repeat constructor; apply (bool_decide_unpack _); vm_compute; exact I.
Defined.

(** On an arbitrary file, truncated or corrupt, the loader terminates, reads
    only inside the bytes it was given and returns the events it could decode. *)
Theorem load_events_total file : is_Some (load_events file).
Proof. apply load_loop_events_total. lia. Qed.
