(* ===== verification/Generator.v ===== *)
(** * Generator: the synthetic feeds (src/sim/mtbt_generator.hpp)

    [Rng] is the promise of [std::mt19937_64] and [std::uniform_int_distribution]
    the generator relies on: draws lie in the requested range.  Everything else
    about them is a parameter.  [out] is the vector the events are appended to and
    [live] the local vector of resting orders of [generate_mbo]. *)

From Stdlib Require Import ZArith Lia.
From stdpp Require Import base gmap numbers option list.
From S2P Require Import Prelude Types OrderTable LevelArray OrderBook BookSpec BookRefine Codec MtbtParser Capture.

Local Open Scope Z_scope.

Class Rng (R : Type) := {
  rng_next : R -> R * Z;
  uniform : Z -> Z -> R -> R * Z;
  rng_next_range r : 0 <= (rng_next r).2 < 2 ^ 64;
  uniform_range lo hi r : lo <= hi -> lo <= (uniform lo hi r).2 <= hi;
}.

Record MtbtGenerator (R : Type) := {
  mg_token : Token;
  mg_mid : Price;
  mg_tick : Price;
  mg_rng : R;
  mg_seq : Z;
  mg_next_order : Z;
  mg_next_trade : Z;
}.
Arguments mg_token {R}. Arguments mg_mid {R}. Arguments mg_tick {R}. Arguments mg_rng {R}.
Arguments mg_seq {R}. Arguments mg_next_order {R}. Arguments mg_next_trade {R}.

Record GenOrder := { go_no : Z; go_price : Price; go_side : Side; go_qty : Quantity }.

(** The generator, the output vector and the live orders. *)
Record Gen (R : Type) := {
  gn_gen : MtbtGenerator R;
  gn_out : list MarketEvent;
  gn_live : list GenOrder;
}.
Arguments gn_gen {R}. Arguments gn_out {R}. Arguments gn_live {R}.

Section Generator.
Context {R : Type} `{!Rng R}.
Implicit Types (s : Gen R) (g : MtbtGenerator R).

Definition MtbtGenerator_new (token : Token) (start_mid tick : Price) (rng : R) : MtbtGenerator R :=
  {| mg_token := token; mg_mid := start_mid; mg_tick := tick; mg_rng := rng; mg_seq := 1;
     mg_next_order := 1; mg_next_trade := 1 |}.

Definition with_gen (mid : Price) (rng : R) (seq next_order next_trade : Z) g : MtbtGenerator R :=
  {| mg_token := mg_token g; mg_mid := mid; mg_tick := mg_tick g; mg_rng := rng; mg_seq := seq;
     mg_next_order := next_order; mg_next_trade := next_trade |}.

Definition set_gen g s : Gen R := {| gn_gen := g; gn_out := gn_out s; gn_live := gn_live s |}.
Definition set_live (l : list GenOrder) s : Gen R :=
  {| gn_gen := gn_gen s; gn_out := gn_out s; gn_live := l |}.
Definition push_out (ev : MarketEvent) s : Gen R :=
  {| gn_gen := gn_gen s; gn_out := gn_out s ++ [ev]; gn_live := gn_live s |}.

Definition set_rng (r : R) s : Gen R :=
  let g := gn_gen s in set_gen (with_gen (mg_mid g) r (mg_seq g) (mg_next_order g) (mg_next_trade g) g) s.

(** [dist(rng_)] for a distribution on [lo..hi], and [rng_()]. *)
Definition draw (lo hi : Z) s : Gen R * Z :=
  let '(r, v) := uniform lo hi (mg_rng (gn_gen s)) in (set_rng r s, v).
Definition draw_raw s : Gen R * Z :=
  let '(r, v) := rng_next (mg_rng (gn_gen s)) in (set_rng r s, v).

Definition gen_mid s : Price := mg_mid (gn_gen s).
Definition gen_tick s : Price := mg_tick (gn_gen s).

(** [mid_ += coin == 0 ? tick_ : -tick_], with the floor at ten ticks. *)
Definition walk_mid (coin : Z) s : Gen R :=
  let g := gn_gen s in
  let mid := i64 (mg_mid g + (if coin =? 0 then mg_tick g else i64 (- mg_tick g))) in
  let mid := if mid <? i64 (mg_tick g * 10) then i64 (mg_tick g * 10) else mid in
  set_gen (with_gen mid (mg_rng g) (mg_seq g) (mg_next_order g) (mg_next_trade g) g) s.

(** The counters after [seq_++] with [orders] and [trades] uses of the others. *)
Definition bump (orders trades : Z) s : Gen R :=
  let g := gn_gen s in
  set_gen (with_gen (mg_mid g) (mg_rng g) (u64 (mg_seq g + 1)) (i64 (mg_next_order g + orders))
             (i64 (mg_next_trade g + trades)) g) s.

(** ** generate: quotes and prints *)

Definition quote_event s (bid_qty ask_qty : Quantity) : MarketEvent :=
  {| ev_ts := 0; ev_token := mg_token (gn_gen s); ev_price := 0; ev_qty := 0; ev_side := kSell;
     ev_type := msg_code kSnapQuote; ev_order_no := 0; ev_stream_id := 0;
     ev_seq_no := mg_seq (gn_gen s); ev_order_no2 := 0; ev_trade_no := 0;
     ev_bid_price := i64 (gen_mid s - gen_tick s); ev_bid_qty := bid_qty;
     ev_ask_price := i64 (gen_mid s + gen_tick s); ev_ask_qty := ask_qty |}.

Definition print_event s (price : Price) (qty : Quantity) (no no2 : Z) : MarketEvent :=
  {| ev_ts := 0; ev_token := mg_token (gn_gen s); ev_price := price; ev_qty := qty; ev_side := kSell;
     ev_type := msg_code kTrade; ev_order_no := no; ev_stream_id := 0;
     ev_seq_no := mg_seq (gn_gen s); ev_order_no2 := no2; ev_trade_no := mg_next_trade (gn_gen s);
     ev_bid_price := 0; ev_bid_qty := 0; ev_ask_price := 0; ev_ask_qty := 0 |}.

Definition generate_step s : Gen R :=
  let '(s, c) := draw 0 1 s in
  let s := walk_mid c s in
  let '(s, bid_qty) := draw 1 50 s in
  let '(s, ask_qty) := draw 1 50 s in
  let s := bump 0 0 (push_out (quote_event s bid_qty ask_qty) s) in
  let '(s, roll) := draw 0 3 s in
  if roll =? 0 then
    let '(s, c) := draw 0 1 s in
    let dir := if c =? 0 then 1 else -1 in
    let '(s, d) := draw 1 3 s in
    let price := i64 (gen_mid s + i64 (i64 (dir * gen_tick s) * d)) in
    let '(s, q) := draw 1 50 s in
    let no := mg_next_order (gn_gen s) in
    bump 2 1 (push_out (print_event s price q no (i64 (no + 1))) s)
  else s.

Definition generate (count : nat) s : Gen R := Nat.iter count generate_step s.

(** ** generate_mbo: order by order *)

Definition add_event s (price : Price) (side : Side) (qty : Quantity) : MarketEvent :=
  {| ev_ts := 0; ev_token := mg_token (gn_gen s); ev_price := price; ev_qty := qty; ev_side := side;
     ev_type := msg_code kOrderAdd; ev_order_no := mg_next_order (gn_gen s); ev_stream_id := 0;
     ev_seq_no := mg_seq (gn_gen s); ev_order_no2 := 0; ev_trade_no := 0; ev_bid_price := 0;
     ev_bid_qty := 0; ev_ask_price := 0; ev_ask_qty := 0 |}.

Definition cancel_event s (no : Z) : MarketEvent :=
  {| ev_ts := 0; ev_token := mg_token (gn_gen s); ev_price := 0; ev_qty := 0; ev_side := kSell;
     ev_type := msg_code kOrderCancel; ev_order_no := no; ev_stream_id := 0;
     ev_seq_no := mg_seq (gn_gen s); ev_order_no2 := 0; ev_trade_no := 0; ev_bid_price := 0;
     ev_bid_qty := 0; ev_ask_price := 0; ev_ask_qty := 0 |}.

Definition gen_add (price : Price) (side : Side) (qty : Quantity) s : Gen R :=
  let ev := add_event s price side qty in
  let o := {| go_no := ev_order_no ev; go_price := price; go_side := side; go_qty := qty |} in
  set_live (gn_live s ++ [o]) (bump 1 0 (push_out ev s)).

(** [live[i] = live.back(); live.pop_back();] *)
Definition swap_remove (i : nat) (l : list GenOrder) : list GenOrder :=
  match last l with None => l | Some b => removelast (<[i := b]> l) end.

Definition cancel_idx (i : nat) s : Gen R :=
  match gn_live s !! i with
  | None => s (* out of range: not reached *)
  | Some o => set_live (swap_remove i (gn_live s)) (bump 0 0 (push_out (cancel_event s (go_no o)) s))
  end.

(** [add(price, side, qd(rng_))]. *)
Definition add_drawn (price : Price) (side : Side) s : Gen R :=
  let '(s, q) := draw 5 40 s in gen_add price side q s.

(** The two sides [k] ticks away from the mid. *)
Definition add_pair (k : Z) s : Gen R :=
  let s := add_drawn (i64 (gen_mid s - i64 (gen_tick s * k))) kBuy s in
  add_drawn (i64 (gen_mid s + i64 (gen_tick s * k))) kSell s.

Definition trade_idx (i : nat) s : Gen R :=
  match gn_live s !! i with
  | None => s (* out of range: not reached *)
  | Some o =>
      let '(s, q) := draw 5 40 s in
      let tq := Z.min (go_qty o) q in
      let no := if go_side o then go_no o else 0 in
      let no2 := if go_side o then 0 else go_no o in
      let s := bump 0 1 (push_out (print_event s (go_price o) tq no no2) s) in
      let qty := i32 (go_qty o - tq) in
      let live := <[i := {| go_no := go_no o; go_price := go_price o; go_side := go_side o;
                            go_qty := qty |}]> (gn_live s) in
      set_live (if qty <=? 0 then swap_remove i live else live) s
  end.

(** [while (live.size() > 150) cancel_idx(0);]: each round removes one order. *)
Fixpoint trim (fuel : nat) s : Gen R :=
  match fuel with
  | O => s
  | S fuel => if (150 <? length (gn_live s))%nat then trim fuel (cancel_idx 0 s) else s
  end.

Definition pick s : Gen R * nat :=
  let '(s, v) := draw_raw s in (s, Z.to_nat (v mod Z.of_nat (length (gn_live s)))).

Definition live_empty s : bool := match gn_live s with [] => true | _ => false end.

Definition mbo_step s : Gen R :=
  let '(s, r) := draw 0 9 s in
  let s := if r <? 4 then let '(s, c) := draw 0 1 s in walk_mid c s else s in
  let s := add_pair 1 s in
  let '(s, r) := draw 0 9 s in
  let s := if r <? 5 then add_pair 2 s else s in
  let s :=
    if negb (live_empty s) then
      let '(s, r) := draw 0 9 s in
      if r <? 4 then let '(s, i) := pick s in cancel_idx i s else s
    else s in
  let s :=
    if negb (live_empty s) then
      let '(s, r) := draw 0 9 s in
      if r <? 6 then let '(s, i) := pick s in trade_idx i s else s
    else s in
  trim (length (gn_live s)) s.

Definition generate_mbo (steps : nat) (g : MtbtGenerator R) (out : list MarketEvent) : Gen R :=
  let s := {| gn_gen := g; gn_out := out; gn_live := [] |} in
  Nat.iter steps mbo_step (add_pair 3 (add_pair 2 (add_pair 1 s))).
End Generator.

(** ** The stream is what the book accepts *)

Lemma swap_remove_perm i l o : l !! i = Some o -> o :: swap_remove i l ≡ₚ l.
Proof.
  intros Hi. unfold swap_remove. destruct (last l) as [b|] eqn:Hl.
  2: { apply last_None in Hl as ->. done. }
  apply last_Some in Hl as [l' ->]. destruct (decide (i = length l')) as [->|Hne].
  - rewrite lookup_app_r, Nat.sub_diag in Hi by lia. simplify_eq/=.
    rewrite insert_app_r_alt, Nat.sub_diag by lia. cbn. rewrite removelast_last. apply Permutation_cons_append.
  - assert (i < length l')%nat as Hlt.
    { apply lookup_lt_Some in Hi. rewrite length_app in Hi. simpl in Hi. lia. }
    rewrite insert_app_l, removelast_last by done. rewrite lookup_app_l in Hi by done.
    rewrite <- (take_drop_middle l' i o Hi) at 2. rewrite insert_take_drop by done.
    rewrite <- (Permutation_cons_append _ b), <- !Permutation_middle. apply Permutation_swap.
Qed.

Lemma swap_remove_length i l o : l !! i = Some o -> length l = S (length (swap_remove i l)).
Proof. intros H. apply swap_remove_perm, Permutation_length in H. by rewrite <- H. Qed.

(** Writing to the slot first makes no difference. *)
Lemma swap_remove_insert i l o : (i < length l)%nat -> swap_remove i (<[i := o]> l) = swap_remove i l.
Proof.
  intros Hi. unfold swap_remove. destruct l as [|x l' _] using rev_ind; [done|].
  rewrite length_app in Hi. simpl in Hi. rewrite last_snoc.
  destruct (decide (i = length l')) as [->|Hne].
  - rewrite !insert_app_r_alt, Nat.sub_diag by lia. cbn. rewrite last_snoc.
    rewrite insert_app_r_alt, Nat.sub_diag by lia. cbn. by rewrite !removelast_last.
  - rewrite !insert_app_l by lia. rewrite last_snoc, insert_app_l by (rewrite ?length_insert; lia).
    by rewrite list_insert_insert_eq.
Qed.

Definition resting_order (o : GenOrder) : Resting :=
  {| rs_price := go_price o; rs_qty := go_qty o; rs_side := go_side o |}.

(** The abstract book of a list of live orders. *)
Definition live_map (l : list GenOrder) : gmap Z Resting :=
  list_to_map ((fun o => (go_no o, resting_order o)) <$> l).

Lemma live_map_perm l l' : NoDup (go_no <$> l) -> l ≡ₚ l' -> live_map l = live_map l'.
Proof.
  intros Hnd Hp. unfold live_map. apply list_to_map_proper.
  - by rewrite <- list_fmap_compose.
  - by rewrite Hp.
Qed.

Lemma live_map_cons o l : live_map (o :: l) = <[go_no o := resting_order o]> (live_map l).
Proof. done. Qed.

Lemma live_map_lookup l o :
  NoDup (go_no <$> l) -> o ∈ l -> live_map l !! go_no o = Some (resting_order o).
Proof.
  intros Hnd Ho. apply elem_of_list_to_map_1; [by rewrite <- list_fmap_compose|].
  apply list_elem_of_fmap. by exists o.
Qed.

Lemma live_map_fresh l no : no ∉ go_no <$> l -> live_map l !! no = None.
Proof. intros H. apply not_elem_of_list_to_map_1. by rewrite <- list_fmap_compose. Qed.

Lemma live_map_size l : NoDup (go_no <$> l) -> size (live_map l) = length l.
Proof.
  intros H. unfold live_map. rewrite map_size_list_to_map; [by rewrite length_fmap|].
  by rewrite <- list_fmap_compose.
Qed.

(** At most one price per order, and a volume of at most 40 each. *)
Lemma live_bounds b l :
  NoDup (go_no <$> l) -> Forall (fun o => 1 <= go_qty o <= 40) l ->
  (size (prices b None (live_map l)) <= length l)%nat /\
  volume b None (live_map l) <= 40 * Z.of_nat (length l).
Proof.
  intros Hnd Hq. split.
  - unfold prices. rewrite union_empty_l_L. unfold map_to_set.
    assert (forall k : list Z, (size (list_to_set k : gset Z) <= length k)%nat) as Hs.
    { induction k as [|x k IH]; [done|]. cbn [list_to_set length].
      rewrite size_union_alt, size_singleton.
      pose proof (subseteq_size (list_to_set k ∖ {[x]}) (list_to_set k : gset Z) ltac:(set_solver)). lia. }
    etransitivity; [apply Hs|]. rewrite length_fmap, length_map_to_list.
    rewrite <- (live_map_size l Hnd). apply map_subseteq_size, map_filter_subseteq.
  - unfold volume. cbn [seed_vol]. induction l as [|o l IH]; [done|].
    apply NoDup_cons in Hnd as [Hno Hnd]. apply Forall_cons_1 in Hq as [Ho Hq].
    change (live_map (o :: l)) with (<[go_no o := resting_order o]> (live_map l)).
    rewrite msum_insert by by apply live_map_fresh. specialize (IH Hnd Hq).
    assert (qty_on b (resting_order o) <= 40) by (unfold qty_on; cbn; case_if; lia).
    cbn [length]. lia.
Qed.

Lemma spec_events_snoc tick cap a0 evs a rs ev :
  spec_events tick cap a0 evs = Some (a, rs) -> event_admissible tick cap a ev = true ->
  spec_events tick cap a0 (evs ++ [ev]) =
    Some ((spec_event tick cap a ev).1, rs ++ [(spec_event tick cap a ev).2]).
Proof.
  revert a0 rs. induction evs as [|e evs IH]; intros a0 rs Hs Ha; cbn [spec_events app] in *.
  - simplify_eq. rewrite Ha. by destruct (spec_event tick cap a ev).
  - destruct (event_admissible tick cap a0 e); [|done]. destruct (spec_event tick cap a0 e) as [a1 r].
    apply bind_Some in Hs as ([a2 rs2] & Hs & Heq). simplify_eq. by rewrite (IH _ _ Hs Ha).
Qed.

(** Moving by whole ticks stays on the grid. *)
Lemma rem_grid tick x y j : 0 < tick -> Z.rem x tick = 0 -> y = x + tick * j -> Z.rem y tick = 0.
Proof.
  intros Ht Hx ->. apply Z.rem_divide; [lia|]. apply Z.rem_divide in Hx; [|lia].
  apply Z.divide_add_r; [done|]. apply Z.divide_factor_l.
Qed.

(** At most this many orders rest at any moment. *)
Definition max_live : nat := 160.

(** An event a capture file can hold, on the generator's token and its only stream. *)
Definition well_sent (token : Token) (ev : MarketEvent) : Prop :=
  event_fits ev /\ captured ev = true /\ ev_stream_id ev = 0 /\ ev_token ev = token.

Section Stream.
Context {R : Type} `{!Rng R} (token : Token) (tick : Price) (cap : nat).
Context (Htick : 0 < tick <= 2 ^ 20) (Hcap : (max_live < cap)%nat).
Implicit Types (s : Gen R) (a : ABook).

(** The state when everything emitted so far was accepted and the abstract book
    holds exactly the live orders; [n] bounds the live orders, [k] the output and
    [B] the mid. *)
Record mbo_inv (n k : nat) (B : Z) s a : Prop := {
  mi_spec : spec_events tick cap ab_empty (gn_out s) = Some (a, replicate (length (gn_out s)) kOk);
  mi_orders : ab_orders a = live_map (gn_live s);
  mi_nodup : NoDup (go_no <$> gn_live s);
  mi_live : Forall (fun o => 1 <= go_qty o <= 40 /\ tick_ok tick (go_price o) = true /\
                             0 < go_no o < mg_next_order (gn_gen s)) (gn_live s);
  mi_prices : Forall (fun o => in_s 64 (go_price o)) (gn_live s);
  mi_token : mg_token (gn_gen s) = token /\ in_s 64 (mg_next_trade (gn_gen s));
  mi_sent : in_u 32 token -> Forall (well_sent token) (gn_out s);
  mi_seqs : ev_seq_no <$> gn_out s = seqZ 1 (Z.of_nat (length (gn_out s)));
  mi_clean : ab_seed_bid a = None /\ ab_seed_ask a = None /\ ab_stale a = false /\ ab_gaps a = 0;
  mi_seq : mg_seq (gn_gen s) = 1 + Z.of_nat (length (gn_out s)) /\
           (ab_expected a = 0 \/ ab_expected a = mg_seq (gn_gen s));
  mi_next : 1 <= mg_next_order (gn_gen s) <= 1 + Z.of_nat (length (gn_out s));
  mi_tick : mg_tick (gn_gen s) = tick;
  mi_mid : Z.rem (gen_mid s) tick = 0;
  mi_bound : 0 <= gen_mid s <= B;
  mi_len : (length (gn_live s) <= n)%nat;
  mi_out : (length (gn_out s) <= k)%nat;
}.

(** What [seq_++] makes of the abstract book when the number is the expected one. *)
Definition seq_next s a : ABook := with_ab_seq (u64 (mg_seq (gn_gen s) + 1)) false (ab_gaps a) a.

Lemma expected_event n k B s a ev :
  mbo_inv n k B s a -> Z.of_nat k < 2 ^ 60 -> ev_seq_no ev = mg_seq (gn_gen s) ->
  spec_gap a ev = false /\ spec_seq a ev = seq_next s a.
Proof.
  intros Hi Hk Hseq. destruct (mi_seq _ _ _ _ _ Hi) as [Hs He].
  assert (spec_gap a ev = false) as Hg.
  { unfold spec_gap. rewrite Hseq. destruct He as [->| ->].
    - by rewrite andb_false_r.
    - by rewrite Z.eqb_refl, andb_false_r. }
  split; [done|]. unfold spec_seq. rewrite Hg, Hseq.
  rewrite (proj2 (Z.eqb_neq _ _)) by lia. unfold seq_next.
  destruct (mi_clean _ _ _ _ _ Hi) as (_ & _ & -> & _). done.
Qed.

(** Emitting one event the book accepts. *)
Lemma emit_inv n n' k B s a ev orders trades live' :
  mbo_inv n k B s a -> Z.of_nat k < 2 ^ 60 -> 0 <= orders <= 1 ->
  ev_seq_no ev = mg_seq (gn_gen s) ->
  admissible tick cap (seq_next s a) ev = true ->
  spec_dispatch tick cap (seq_next s a) ev = (with_ab_orders (live_map live') (seq_next s a), kOk) ->
  NoDup (go_no <$> live') -> (length live' <= n')%nat ->
  Forall (fun o => 1 <= go_qty o <= 40 /\ tick_ok tick (go_price o) = true /\
                   0 < go_no o < mg_next_order (gn_gen s) + orders) live' ->
  Forall (fun o => in_s 64 (go_price o)) live' -> (in_u 32 token -> well_sent token ev) ->
  exists a', mbo_inv n' (k + 1) B (set_live live' (bump orders trades (push_out ev s))) a'.
Proof.
  intros Hi Hk Ho Hseq Hadm Hdis Hnd Hlen Hall Hprices Hsent.
  destruct (expected_event n k B s a ev Hi Hk Hseq) as [Hg Hss].
  exists (with_ab_orders (live_map live') (seq_next s a)).
  destruct Hi as [H1 H2 H3 H4 Hpr [Htok Htr] Hse Hsq H5 H6 H7 H8 H9 H10 H11 H12].
  assert (i64 (mg_next_order (gn_gen s) + orders) = mg_next_order (gn_gen s) + orders) as Eo
    by (apply wrap_s_id; [lia|]; ranges).
  assert (u64 (mg_seq (gn_gen s) + 1) = mg_seq (gn_gen s) + 1) as Es
    by (apply wrap_u_id; destruct H6; ranges).
  split; cbn [gn_out gn_live gn_gen set_live bump push_out set_gen with_gen mg_seq mg_next_order mg_tick
    mg_token mg_next_trade ab_orders with_ab_orders with_ab_seq seq_next ab_seed_bid ab_seed_ask ab_stale ab_gaps ab_expected].
  - rewrite (spec_events_snoc _ _ _ _ _ _ _ H1).
    + unfold spec_event. rewrite Hg, Hss. cbn [andb]. rewrite Hdis. cbn [fst snd].
      rewrite length_app. cbn [length]. by rewrite replicate_add.
    + unfold event_admissible. rewrite Hg, Hss, Hadm. done.
  - done.
  - done.
  - by rewrite Eo.
  - done.
  - split; [done|]. apply wrap_s_range. lia.
  - intros Htk. apply Forall_app. split; [auto|]. constructor; [auto|constructor].
  - rewrite fmap_app, Hsq, length_app, Nat2Z.inj_add, seqZ_app by lia. cbn [fmap list_fmap length].
    rewrite Hseq, (proj1 H6). done.
  - destruct H5 as (-> & -> & _ & ->). done.
  - rewrite Es, length_app. cbn [length]. split; [lia|]. by right.
  - rewrite Eo, length_app. cbn [length]. lia.
  - done.
  - exact H9.
  - exact H10.
  - done.
  - rewrite length_app. cbn [length]. lia.
Qed.

Definition accepted (n k : nat) (B : Z) s : Prop := exists a, mbo_inv n k B s a.

Lemma accepted_weaken n n' k k' B B' s :
  (n <= n')%nat -> (k <= k')%nat -> B <= B' -> accepted n k B s -> accepted n' k' B' s.
Proof. intros ??? [a []]. exists a. split; try done; lia. Qed.

Lemma accepted_rng n k B r s : accepted n k B s -> accepted n k B (set_rng r s).
Proof. intros [a []]. exists a. by split. Qed.

Lemma draw_spec lo hi s :
  lo <= hi -> exists r v, draw lo hi s = (set_rng r s, v) /\ lo <= v <= hi.
Proof.
  intros Hle. unfold draw. pose proof (uniform_range lo hi (mg_rng (gn_gen s)) Hle) as Hr.
  destruct (uniform _ _ _) as [r v]. by exists r, v.
Qed.

Lemma pick_spec s :
  gn_live s <> [] -> exists r i o, pick s = (set_rng r s, i) /\ gn_live s !! i = Some o.
Proof.
  intros Hne. unfold pick, draw_raw. destruct (rng_next _) as [r v]. cbn [gn_live set_rng set_gen].
  destruct (lookup_lt_is_Some_2 (gn_live s) (Z.to_nat (v mod Z.of_nat (length (gn_live s))))) as [o Ho].
  { assert (length (gn_live s) <> 0%nat) by by destruct (gn_live s).
    pose proof (Z.mod_pos_bound v (Z.of_nat (length (gn_live s))) ltac:(lia)). lia. }
  by eexists _, _, o.
Qed.

Lemma accepted_walk n k B c s :
  accepted n k B s -> 2 ^ 24 <= B < 2 ^ 60 -> accepted n k (B + 2 ^ 20) (walk_mid c s).
Proof.
  intros [a Hi] HB. exists a. destruct Hi as [H1 H2 H3 H4 Hpr Htok Hse Hsq H5 H6 H7 H8 H9 H10 H11 H12].
  assert (exists j, gen_mid (walk_mid c s) = gen_mid s + tick * j \/ gen_mid (walk_mid c s) = 0 + tick * j) as [j Hj].
  { unfold walk_mid, gen_mid. cbn. rewrite H8. unfold gen_mid in H10. case_if.
    - exists 10. right. unwrap. done.
    - destruct (c =? 0); [exists 1|exists (-1)]; left; rewrite ?(wrap_s_id 64 (- tick)) by ranges;
        rewrite wrap_s_id by ranges; lia. }
  assert (0 <= gen_mid (walk_mid c s) <= B + 2 ^ 20) as Hb.
  { unfold walk_mid, gen_mid. cbn. rewrite H8. unfold gen_mid in H10.
    rewrite !(wrap_s_id 64 (tick * 10)) by ranges. case_if; [lia|].
    revert Heqb. destruct (c =? 0); rewrite ?(wrap_s_id 64 (- tick)) by ranges;
        rewrite wrap_s_id by ranges; lia. }
  split; try done. destruct Hj as [Hj|Hj]; (eapply rem_grid; [lia| |exact Hj]); [done|]. apply Z.rem_0_l. lia.
Qed.

Lemma tick_ok_rem p : Z.rem p tick = 0 -> tick_ok tick p = true.
Proof. intros H. unfold tick_ok. rewrite H. apply orb_true_r. Qed.

Lemma accepted_add n k B price side q s :
  accepted n k B s -> (n < max_live)%nat -> Z.of_nat k < 2 ^ 60 -> Z.rem price tick = 0 ->
  in_s 64 price -> 1 <= q <= 40 ->
  accepted (n + 1) (k + 1) B (gen_add price side q s).
Proof.
  intros [a Hi] Hn Hk Hp Hrange Hq. pose proof (tick_ok_rem price Hp) as Htk.
  unfold gen_add. set (ev := add_event s price side q).
  set (o := {| go_no := _; go_price := _; go_side := _; go_qty := _ |}).
  pose proof (mi_live _ _ _ _ _ Hi) as Hl. pose proof (mi_nodup _ _ _ _ _ Hi) as Hnd.
  pose proof (mi_next _ _ _ _ _ Hi) as Hnext. pose proof (mi_len _ _ _ _ _ Hi) as Hlen.
  assert (go_no o ∉ go_no <$> gn_live s) as Hfresh.
  { intros Hin. apply list_elem_of_fmap in Hin as (x & Hx & Hin). rewrite Forall_forall in Hl.
    destruct (Hl x Hin) as (_ & _ & Hno). cbn in Hx. lia. }
  assert (NoDup (go_no <$> gn_live s ++ [o])) as Hnd'.
  { rewrite fmap_app. apply NoDup_app. split_and!; [done| |apply NoDup_singleton].
    intros x Hx ->%list_elem_of_singleton. done. }
  assert (live_map (gn_live s ++ [o]) = <[go_no o := resting_order o]> (live_map (gn_live s))) as Hm.
  { rewrite (live_map_perm _ (o :: gn_live s)); [done|done|]. symmetry. apply Permutation_cons_append. }
  assert (Forall (fun o => 1 <= go_qty o <= 40) (gn_live s)) as Hqs
    by (eapply Forall_impl; [exact Hl|]; naive_solver).
  destruct (live_bounds side (gn_live s) Hnd Hqs) as [Hpr Hvol].
  destruct (mi_clean _ _ _ _ _ Hi) as (Hs1 & Hs2 & _ & _).
  assert (ab_seed side (seq_next s a) = None) as Hseed by by destruct side.
  unfold max_live in *.
  apply (emit_inv n (n + 1) k B s a ev 1 0 (gn_live s ++ [o]) Hi Hk); [lia|done| | |done| | | |].
  - unfold admissible. cbn -[ok_new]. rewrite Htk. cbn [negb orb]. rewrite (mi_orders _ _ _ _ _ Hi).
    rewrite bool_decide_true by by apply live_map_fresh. cbn [andb].
    change (if side then ab_seed_bid a else ab_seed_ask a) with (ab_seed side (seq_next s a)).
    rewrite Hseed. unfold ok_new, BookSpec.room. rewrite !andb_true_iff, orb_true_iff.
    split_and!; [apply Z.gtb_lt; lia|apply Z.leb_le; unfold max_volume; lia|].
    right. apply Nat.ltb_lt. unfold kMaxLevelsPerSide. lia.
  - unfold spec_dispatch. cbn -[spec_add live_map]. unfold spec_add. cbn [ev_price ev add_event].
    rewrite Htk. cbn [negb]. rewrite decide_True.
    + rewrite (mi_orders _ _ _ _ _ Hi), Hm. done.
    + right. rewrite (mi_orders _ _ _ _ _ Hi), live_map_size by done. lia.
  - rewrite length_app. cbn [length]. lia.
  - apply Forall_app. split; [eapply Forall_impl; [exact Hl|]; intros x (H1 & H2 & H3); split_and!; (done || lia)|].
    constructor; [|constructor]. cbn. split_and!; try done; lia.
  - apply Forall_app. split; [apply Hi|]. by constructor.
  - intros Htk32. destruct (mi_seq _ _ _ _ _ Hi) as [Hsq _]. pose proof (mi_out _ _ _ _ _ Hi).
    destruct (mi_token _ _ _ _ _ Hi) as [Htok _].
    unfold well_sent, event_fits. cbn. rewrite Htok. split_and!; try done; try ranges; apply Htk32.
Qed.

(** What is left after an order of the list is gone. *)
Lemma removed_live l i o :
  NoDup (go_no <$> l) -> l !! i = Some o ->
  NoDup (go_no <$> swap_remove i l) /\ live_map (swap_remove i l) = delete (go_no o) (live_map l) /\
  forall P : GenOrder -> Prop, Forall P l -> Forall P (swap_remove i l).
Proof.
  intros Hnd Hi. pose proof (swap_remove_perm i l o Hi) as Hp.
  pose proof Hnd as Hnd'. rewrite <- Hp in Hnd'. apply NoDup_cons in Hnd' as [Hno Hnd'].
  split_and!; [done| |].
  - rewrite (live_map_perm l (o :: swap_remove i l)) by done.
    rewrite live_map_cons.
    rewrite delete_insert_id; [done|]. by apply live_map_fresh.
  - intros P HP. rewrite <- Hp in HP. by apply Forall_cons_1 in HP as [_ HP].
Qed.

Lemma accepted_cancel n k B i o s :
  accepted (n + 1) k B s -> gn_live s !! i = Some o -> (n < max_live)%nat -> Z.of_nat k < 2 ^ 60 ->
  accepted n (k + 1) B (cancel_idx i s).
Proof.
  intros [a Hi] Ho Hn Hk. unfold cancel_idx. rewrite Ho. set (ev := cancel_event s (go_no o)).
  pose proof (mi_nodup _ _ _ _ _ Hi) as Hnd. pose proof (mi_len _ _ _ _ _ Hi) as Hlen.
  destruct (removed_live (gn_live s) i o Hnd Ho) as (R1 & R2 & R3).
  apply (emit_inv (n + 1) n k B s a ev 0 0 (swap_remove i (gn_live s)) Hi Hk); [lia|done| | |done| | |apply R3, Hi|].
  - unfold admissible. cbn -[Nat.ltb]. rewrite (mi_orders _ _ _ _ _ Hi), live_map_size by done.
    apply Nat.ltb_lt. lia.
  - unfold spec_dispatch. cbn -[spec_cancel live_map]. unfold spec_cancel. cbn [ev_order_no ev cancel_event].
    rewrite (mi_orders _ _ _ _ _ Hi), live_map_lookup, R2; [done|done|by eapply list_elem_of_lookup_2].
  - rewrite (swap_remove_length i _ o Ho) in Hlen. lia.
  - rewrite Z.add_0_r. apply R3, Hi.
  - intros Htk32. destruct (mi_seq _ _ _ _ _ Hi) as [Hsq _]. pose proof (mi_out _ _ _ _ _ Hi).
    destruct (mi_token _ _ _ _ _ Hi) as [Htok _]. pose proof (mi_next _ _ _ _ _ Hi).
    pose proof (Forall_lookup_1 _ _ _ _ (mi_live _ _ _ _ _ Hi) Ho) as (_ & _ & Hno).
    unfold well_sent, event_fits. cbn. rewrite Htok. split_and!; try done; try ranges; apply Htk32.
Qed.

Lemma spec_reduce_0 (m : gmap Z Resting) q : spec_reduce m 0 q = (m, false).
Proof. done. Qed.

Lemma accepted_trade n k B i o s :
  accepted n k B s -> gn_live s !! i = Some o -> (n < max_live)%nat -> Z.of_nat k < 2 ^ 60 ->
  accepted n (k + 1) B (trade_idx i s).
Proof.
  intros Hacc Ho Hn Hk. unfold trade_idx. rewrite Ho.
  destruct (draw_spec 5 40 s ltac:(lia)) as (r & q & -> & Hq).
  apply (accepted_rng _ _ _ r) in Hacc as [a Hi]. set (s1 := set_rng r s) in *.
  change (gn_live s) with (gn_live s1) in Ho.
  pose proof (mi_nodup _ _ _ _ _ Hi) as Hnd. pose proof (mi_len _ _ _ _ _ Hi) as Hlen.
  pose proof (mi_live _ _ _ _ _ Hi) as Hl. pose proof (Forall_lookup_1 _ _ _ _ Hl Ho) as (Hoq & Hot & Hno).
  set (tq := Z.min (go_qty o) q). assert (1 <= tq <= go_qty o) as Htq by (unfold tq; lia).
  rewrite (wrap_s_id 32) by ranges.
  set (no := if go_side o then go_no o else 0). set (no2 := if go_side o then 0 else go_no o).
  set (o' := {| go_no := _; go_price := _; go_side := _; go_qty := go_qty o - tq |}).
  cbn [gn_live bump push_out set_gen]. set (live' := if _ <=? 0 then _ else _).
  assert (forall m, spec_trade m (print_event s1 (go_price o) tq no no2) =
    ((spec_reduce m (go_no o) tq).1, if (spec_reduce m (go_no o) tq).2 then kOk else kUnknownOrder)) as Htr.
  { intros m. unfold spec_trade, no, no2. cbn [ev_order_no ev_order_no2 ev_qty print_event].
    destruct (go_side o); [|rewrite spec_reduce_0];
      destruct (spec_reduce m (go_no o) tq) as [m' []]; done. }
  assert (NoDup (go_no <$> <[i := o']> (gn_live s1))) as Hnd1.
  { rewrite list_fmap_insert. rewrite list_insert_id; [done|]. rewrite list_lookup_fmap, Ho. done. }
  assert (live_map (<[i := o']> (gn_live s1)) = <[go_no o := resting_order o']> (live_map (gn_live s1))) as Hm1.
  { assert (o' :: swap_remove i (gn_live s1) ≡ₚ <[i := o']> (gn_live s1)) as Hp.
    { rewrite <- (swap_remove_insert i (gn_live s1) o') by by eapply lookup_lt_Some.
      apply swap_remove_perm, list_lookup_insert_eq. by eapply lookup_lt_Some. }
    rewrite (live_map_perm _ _ Hnd1 (symmetry Hp)).
    rewrite (live_map_perm (gn_live s1) _ Hnd (symmetry (swap_remove_perm _ _ _ Ho))).
    rewrite !live_map_cons. symmetry. apply insert_insert_eq. }
  destruct (removed_live (gn_live s1) i o Hnd Ho) as (R1 & R2 & R3).
  assert (live_map (gn_live s1) !! go_no o = Some (resting_order o)) as Hlook
    by (apply live_map_lookup; [done|by eapply list_elem_of_lookup_2]).
  assert (NoDup (go_no <$> live') /\ (length live' <= length (gn_live s1))%nat /\
    spec_reduce (live_map (gn_live s1)) (go_no o) tq = (live_map live', true) /\
    Forall (fun o => 1 <= go_qty o <= 40 /\ tick_ok tick (go_price o) = true /\
                     0 < go_no o < mg_next_order (gn_gen s1) + 0) live') as (L1 & L2 & L3 & L4).
  { unfold spec_reduce. rewrite (proj2 (Z.eqb_neq _ _)), Hlook by lia. cbn [rs_qty resting_order].
    unfold live'. rewrite swap_remove_insert by by eapply lookup_lt_Some. rewrite Z.add_0_r.
    destruct (Z.leb_spec (go_qty o - tq) 0) as [Hle|Hgt].
    - rewrite (proj2 (Z.leb_le _ _)) by lia. rewrite R2. split_and!; [done| |done|by apply R3].
      rewrite (swap_remove_length i _ o Ho). lia.
    - rewrite (proj2 (Z.leb_gt _ _)) by lia. rewrite Hm1.
      split_and!; [done|by rewrite length_insert|done|].
      apply Forall_insert; [done|]. cbn [o' go_qty go_price go_no]. split_and!; try done; lia. }
  apply (emit_inv n n k B s1 a (print_event s1 (go_price o) tq no no2) 0 1 live' Hi Hk);
    [lia|done| | |done|lia|done| |].
  - unfold admissible. cbn -[Nat.ltb]. rewrite (mi_orders _ _ _ _ _ Hi), live_map_size by done.
    apply andb_true_intro. split; [apply Nat.ltb_lt; lia|apply Z.gtb_lt; unfold tq; lia].
  - unfold spec_dispatch. cbn -[spec_trade live_map print_event]. rewrite Htr.
    by rewrite (mi_orders _ _ _ _ _ Hi), L3.
  - unfold live'. rewrite swap_remove_insert by by eapply lookup_lt_Some.
    case_if; [apply R3, Hi|]. apply Forall_insert; [apply Hi|].
    apply (Forall_lookup_1 _ _ _ _ (mi_prices _ _ _ _ _ Hi) Ho).
  - intros Htk32. destruct (mi_seq _ _ _ _ _ Hi) as [Hsq _]. pose proof (mi_out _ _ _ _ _ Hi).
    destruct (mi_token _ _ _ _ _ Hi) as [Htok Htrade]. pose proof (mi_next _ _ _ _ _ Hi).
    pose proof (Forall_lookup_1 _ _ _ _ (mi_prices _ _ _ _ _ Hi) Ho) as Hpx.
    unfold well_sent, event_fits, no, no2. cbn -[s1]. rewrite Htok.
    split_and!; try done; try apply Htk32; try apply Hpx; try apply Htrade; destruct (go_side o); ranges.
Qed.

Lemma accepted_trim fuel : forall j k B s,
  accepted (150 + j) k B s -> (length (gn_live s) <= 150 + fuel)%nat -> (j < 10)%nat ->
  Z.of_nat (k + j) < 2 ^ 60 -> accepted 150 (k + j) B (trim fuel s).
Proof.
  induction fuel as [|fuel IH]; intros j k B s Hacc Hf Hj Hk; cbn [trim].
  { destruct Hacc as [a Hi]. apply (accepted_weaken 150 150 k _ B B); [lia..|].
    exists a. destruct Hi. split; try done; lia. }
  case_if.
  - destruct Hacc as [a Hi]. pose proof (mi_len _ _ _ _ _ Hi). destruct j as [|j]; [lia|].
    destruct (lookup_lt_is_Some_2 (gn_live s) 0) as [o Ho]; [lia|].
    replace (k + S j)%nat with (k + 1 + j)%nat by lia. apply IH; [|..|lia|lia].
    + apply (accepted_cancel (150 + j) k B 0 o); [|done|unfold max_live; lia|lia].
      exists a. by replace (150 + j + 1)%nat with (150 + S j)%nat by lia.
    + unfold cancel_idx. rewrite Ho. cbn [gn_live set_live].
      pose proof (swap_remove_length 0 _ o Ho). lia.
  - destruct Hacc as [a Hi]. apply (accepted_weaken 150 150 k _ B B); [lia..|].
    exists a. destruct Hi. split; try done; lia.
Qed.

Lemma accepted_drawn n k B price side s :
  accepted n k B s -> (n < max_live)%nat -> Z.of_nat k < 2 ^ 60 -> Z.rem price tick = 0 -> in_s 64 price ->
  accepted (n + 1) (k + 1) B (add_drawn price side s) /\
  gen_mid (add_drawn price side s) = gen_mid s /\ gen_tick (add_drawn price side s) = gen_tick s.
Proof.
  intros Hacc Hn Hk Hp Hrange. unfold add_drawn. destruct (draw_spec 5 40 s ltac:(lia)) as (r & q & -> & Hq).
  split; [|done]. apply accepted_add; [by apply accepted_rng|done|done|done|done|lia].
Qed.

Lemma accepted_pair n k B j s :
  accepted n k B s -> (n + 2 <= max_live)%nat -> Z.of_nat k < 2 ^ 59 -> 0 <= B < 2 ^ 60 -> 1 <= j <= 3 ->
  accepted (n + 2) (k + 2) B (add_pair j s).
Proof.
  intros [a Hi] Hn Hk HB Hj.
  pose proof (mi_mid _ _ _ _ _ Hi) as Hm. pose proof (mi_tick _ _ _ _ _ Hi) as Ht.
  pose proof (mi_bound _ _ _ _ _ Hi) as Hb.
  assert (0 <= tick * j <= 2 ^ 22) as Htj by nia.
  assert (forall d, d = gen_mid s - tick * j \/ d = gen_mid s + tick * j -> in_s 64 d /\ Z.rem d tick = 0) as Hd.
  { intros d Hd. split; [destruct Hd as [-> | ->]; ranges|].
    destruct Hd as [-> | ->]; [eapply (rem_grid tick _ _ (- j) ltac:(lia) Hm)|eapply (rem_grid tick _ _ j ltac:(lia) Hm)]; lia. }
  unfold add_pair. set (p1 := i64 (gen_mid s - _)).
  assert (p1 = gen_mid s - tick * j) as Hp1.
  { unfold p1, gen_tick. rewrite Ht, (wrap_s_id 64 (tick * j)) by ranges. apply wrap_s_id; [lia|]. apply Hd. by left. }
  destruct (accepted_drawn n k B p1 kBuy s) as (Hacc1 & Em & Et);
    [by exists a|lia|lia|rewrite Hp1; apply Hd; by left|rewrite Hp1; apply Hd; by left|].
  rewrite Em, Et. unfold gen_tick. rewrite Ht, (wrap_s_id 64 (tick * j)) by ranges.
  rewrite (wrap_s_id 64 (gen_mid s + _)) by (lia || (apply Hd; by right)).
  replace (n + 2)%nat with (n + 1 + 1)%nat by lia. replace (k + 2)%nat with (k + 1 + 1)%nat by lia.
  apply accepted_drawn; [done|lia|lia|apply Hd; by right|apply Hd; by right].
Qed.

Lemma live_nonempty s : live_empty s = false -> gn_live s <> [].
Proof. unfold live_empty. by destruct (gn_live s). Qed.

Lemma accepted_step k B s :
  accepted 150 k B s -> Z.of_nat k < 2 ^ 58 -> 2 ^ 24 <= B < 2 ^ 59 ->
  accepted 150 (k + 10) (B + 2 ^ 20) (mbo_step s).
Proof.
  intros Hacc Hk HB. unfold mbo_step. set (B' := B + 2 ^ 20). assert (2 ^ 24 <= B' < 2 ^ 60) as HB' by lia.
  destruct (draw_spec 0 9 s ltac:(lia)) as (r1 & v1 & -> & _). apply (accepted_rng _ _ _ r1) in Hacc.
  assert (forall b : bool, accepted 150 k B' (if b then let '(s, c) := draw 0 1 (set_rng r1 s) in walk_mid c s
    else set_rng r1 s)) as Hwalk.
  { intros []; [|eapply accepted_weaken; [..|exact Hacc]; lia].
    destruct (draw_spec 0 1 (set_rng r1 s) ltac:(lia)) as (r2 & c & -> & _).
    apply accepted_walk; [by apply accepted_rng|lia]. }
  specialize (Hwalk (v1 <? 4)). set (s1 := if v1 <? 4 then _ else _) in *. clearbody s1.
  apply (accepted_pair _ _ _ 1) in Hwalk as Hpair; [|unfold max_live; lia|lia..]. clear Hwalk.
  set (s2 := add_pair 1 s1) in *. clearbody s2.
  destruct (draw_spec 0 9 s2 ltac:(lia)) as (r3 & v3 & -> & _). apply (accepted_rng _ _ _ r3) in Hpair.
  assert (accepted 154 (k + 4) B' (if v3 <? 5 then add_pair 2 (set_rng r3 s2) else set_rng r3 s2)) as H3.
  { case_if; [|eapply accepted_weaken; [..|exact Hpair]; lia].
    apply (accepted_weaken (152 + 2) 154 (k + 2 + 2) _ B' B'); [lia..|].
    apply accepted_pair; [done|unfold max_live; lia|lia..]. }
  set (s3 := if v3 <? 5 then _ else _) in *. clearbody s3.
  assert (forall t m, accepted 154 m B' t -> (m <= k + 5)%nat ->
    forall (f : nat -> Gen R -> Gen R) (b : Z), (forall i o u, accepted 154 m B' u ->
      gn_live u !! i = Some o -> accepted 154 (m + 1) B' (f i u)) ->
    accepted 154 (m + 1) B' (if negb (live_empty t) then
       let '(t, r) := draw 0 9 t in if r <? b then let '(t, i) := pick t in f i t else t else t)) as Hopt.
  { intros t m Ht Hm f b Hf. assert (accepted 154 (m + 1) B' t) as Ht1
      by (eapply accepted_weaken; [..|exact Ht]; lia).
    destruct (negb (live_empty t)) eqn:Hne; [|done].
    destruct (draw_spec 0 9 t ltac:(lia)) as (r & v & -> & _). case_if; [|by apply accepted_rng].
    apply live_nonempty in Hne. destruct (pick_spec (set_rng r t) Hne) as (r' & i & o & -> & Ho).
    apply (Hf i o); [by do 2 apply accepted_rng|done]. }
  assert (accepted 154 (k + 4 + 1) B' (if negb (live_empty s3) then let '(s, r) := draw 0 9 s3 in
    if r <? 4 then let '(s, i) := pick s in cancel_idx i s else s else s3)) as H4.
  { apply (Hopt s3 (k + 4)%nat H3 ltac:(lia) cancel_idx). intros i o u Hu Ho.
    apply (accepted_weaken 153 154 (k + 4 + 1) _ B' B'); [lia..|].
    apply (accepted_cancel _ _ _ _ o); [done|done|unfold max_live; lia|lia]. }
  set (s4 := if negb (live_empty s3) then _ else _) in *. clearbody s4.
  assert (accepted 154 (k + 4 + 1 + 1) B' (if negb (live_empty s4) then let '(s, r) := draw 0 9 s4 in
    if r <? 6 then let '(s, i) := pick s in trade_idx i s else s else s4)) as H5.
  { apply (Hopt s4 (k + 4 + 1)%nat H4 ltac:(lia) trade_idx). intros i o u Hu Ho.
    apply (accepted_trade _ _ _ _ o); [done|done|unfold max_live; lia|lia]. }
  set (s5 := if negb (live_empty s4) then _ else _) in *. clearbody s5.
  replace (k + 10)%nat with (k + 4 + 1 + 1 + 4)%nat by lia.
  apply accepted_trim; [done|lia..].
Qed.
End Stream.

Lemma iter_accepted {R} `{!Rng R} token tick cap steps (s : Gen R) :
  0 < tick <= 2 ^ 20 -> (max_live < cap)%nat -> Z.of_nat steps < 2 ^ 31 ->
  accepted token tick cap 150 6 (2 ^ 40) s ->
  accepted token tick cap 150 (6 + 10 * steps) (2 ^ 40 + Z.of_nat steps * 2 ^ 20) (Nat.iter steps mbo_step s).
Proof.
  intros Ht Hc Hn Hacc. induction steps as [|n IH]; [exact Hacc|].
  change (Nat.iter (S n) mbo_step s) with (mbo_step (Nat.iter n mbo_step s)).
  replace (6 + 10 * S n)%nat with (6 + 10 * n + 10)%nat by lia.
  replace (2 ^ 40 + Z.of_nat (S n) * 2 ^ 20) with (2 ^ 40 + Z.of_nat n * 2 ^ 20 + 2 ^ 20) by lia.
  apply accepted_step; [done|done|apply IH; lia|lia|lia].
Qed.

(** The live quantity at a price of a side. *)
Definition live_at (side : Side) (price : Price) (l : list GenOrder) : Z :=
  zsum (fun o => if Bool.eqb (go_side o) side && (go_price o =? price) then go_qty o else 0) l.

Lemma live_at_cons side price o l :
  live_at side price (o :: l) =
    (if Bool.eqb (go_side o) side && (go_price o =? price) then go_qty o else 0) + live_at side price l.
Proof. done. Qed.

Lemma live_at_depth side price l :
  NoDup (go_no <$> l) -> Forall (fun o => 1 <= go_qty o <= 40) l ->
  from_option pl_total_quantity 0 (depth_at side None (live_map l) price) = live_at side price l.
Proof.
  intros Hnd Hq.
  assert (msum (qty_at side price) (live_map l) = live_at side price l /\
    0 <= msum (one_at side price) (live_map l) /\
    (msum (one_at side price) (live_map l) = 0 -> live_at side price l = 0)) as (H1 & H2 & H3).
  { induction l as [|o l IH]; [by rewrite !msum_empty|].
    apply NoDup_cons in Hnd as [Hno Hnd]. apply Forall_cons_1 in Hq as [Ho Hq].
    specialize (IH Hnd Hq) as (I1 & I2 & I3). rewrite live_map_cons, !msum_insert by by apply live_map_fresh.
    rewrite live_at_cons, I1. set (M := msum (one_at side price) (live_map l)) in *. clearbody M.
    unfold qty_at, one_at, at_level. cbn [resting_order rs_side rs_price rs_qty].
    case_if; lia. }
  unfold depth_at. cbn [seed_one seed_qty]. case_if; cbn; lia.
Qed.

(** Everything [generate_mbo] emits is accepted. *)
Lemma generate_mbo_accepted {R} `{!Rng R} token mid tick (rng : R) steps cap :
  0 < tick <= 2 ^ 20 -> 0 <= mid <= 2 ^ 40 -> Z.rem mid tick = 0 -> Z.of_nat steps < 2 ^ 31 ->
  (max_live < cap)%nat ->
  exists a k B, mbo_inv token tick (RoundUpPow2 cap) 150 k B
    (generate_mbo steps (MtbtGenerator_new token mid tick rng) []) a /\ Z.of_nat k < 2 ^ 40.
Proof.
  intros Ht Hm Hr Hn Hc. unfold generate_mbo.
  destruct (RoundUpPow2_spec cap) as (pw & Hpw & Hle).
  set (g := MtbtGenerator_new token mid tick rng).
  assert (accepted token tick (RoundUpPow2 cap) 0 0 (2 ^ 40)
    {| gn_gen := g; gn_out := []; gn_live := [] |}) as H0.
  { exists ab_empty. split; try done; cbn; try lia; try constructor; try done; ranges. }
  assert (max_live < RoundUpPow2 cap)%nat as Hc' by lia.
  apply (accepted_pair token tick (RoundUpPow2 cap) Ht Hc' _ _ _ 1) in H0; [|unfold max_live; lia|lia..].
  apply (accepted_pair token tick (RoundUpPow2 cap) Ht Hc' _ _ _ 2) in H0; [|unfold max_live; lia|lia..].
  apply (accepted_pair token tick (RoundUpPow2 cap) Ht Hc' _ _ _ 3) in H0; [|unfold max_live; lia|lia..].
  apply accepted_weaken with (n' := 150%nat) (k' := 6%nat) (B' := 2 ^ 40) in H0; [|lia..].
  apply (iter_accepted token tick (RoundUpPow2 cap) steps _ Ht Hc' Hn) in H0 as [a Hi].
  eexists a, _, _. split; [exact Hi|]. lia.
Qed.

(** A book for the token survives the stream. *)
Lemma mbo_repr {R} `{!Rng R} token mid tick (rng : R) steps cap a k B :
  mbo_inv token tick (RoundUpPow2 cap) 150 k B
    (generate_mbo steps (MtbtGenerator_new token mid tick rng) []) a ->
  let s := generate_mbo steps (MtbtGenerator_new token mid tick rng) [] in
  exists ob, apply_events (OrderBook_new token tick cap) (gn_out s) =
      Some (ob, replicate (length (gn_out s)) kOk) /\ book_repr ob a.
Proof.
  intros Hi. cbv zeta. pose proof (mi_spec _ _ _ _ _ _ _ _ Hi) as Hspec.
  rewrite <- (new_capacity token tick cap) in Hspec.
  destruct (apply_events_refines _ _ _ _ _ (OrderBook_new_repr token tick cap) Hspec)
    as (ob & Hrun & _ & _ & Hrep). by exists ob.
Qed.

(** A book that shows exactly a list of live orders, by number and by price level. *)
Definition shows_live (ob : OrderBook) (live : list GenOrder) : Prop :=
  (forall no, (fun i => resting_of (ob_orders ob !!! i)) <$>
     FindOrder (ob_orders ob) (ob_order_mask ob) no = live_map live !! no) /\
  (forall side price, displayed_qty_at ob side price = live_at side price live) /\
  ob_stale ob = false /\ ob_gap_count ob = 0.

Lemma mbo_shows_live {R} `{!Rng R} token mid tick (rng : R) steps cap a k B :
  mbo_inv token tick (RoundUpPow2 cap) 150 k B
    (generate_mbo steps (MtbtGenerator_new token mid tick rng) []) a ->
  let s := generate_mbo steps (MtbtGenerator_new token mid tick rng) [] in
  exists ob, apply_events (OrderBook_new token tick cap) (gn_out s) =
      Some (ob, replicate (length (gn_out s)) kOk) /\ shows_live ob (gn_live s).
Proof.
  intros Hi. cbv zeta. destruct (mbo_repr _ _ _ _ _ _ _ _ _ Hi) as (ob & Hrun & Hrep).
  set (s := generate_mbo _ _ _) in *. clearbody s.
  destruct (mi_clean _ _ _ _ _ _ _ _ Hi) as (S1 & S2 & S3 & S4).
  exists ob. split; [done|]. unfold shows_live. rewrite <- (mi_orders _ _ _ _ _ _ _ _ Hi). split_and!.
  - intros no. by apply (find_resting ob a Hrep).
  - intros side price. rewrite (repr_displayed ob a Hrep), (mi_orders _ _ _ _ _ _ _ _ Hi).
    replace (ab_seed side a) with (@None (Price * Quantity)) by by destruct side.
    apply live_at_depth; [apply Hi|]. eapply Forall_impl; [apply Hi|]. naive_solver.
  - rewrite <- S3. apply Hrep.
  - rewrite <- S4. apply Hrep.
Qed.

(** C8.  The synthetic order-by-order feed is one the book tracks exactly.  From a
    fresh generator with a mid on the tick grid, whatever the random draws, the
    stream of [generate_mbo] (adds, cancels, trades, swap-removals of the live list)
    is accepted event by event by a book for the token created for more than 160
    orders: every event is answered [kOk], there is no gap, the hash table holds
    exactly the generator's live orders, and the displayed quantity at every price
    is the sum of the live orders there.  At most 150 orders are live. *)
Theorem mbo_stream_tracked {R} `{!Rng R} token mid tick (rng : R) steps cap :
  0 < tick <= 2 ^ 20 -> 0 <= mid <= 2 ^ 40 -> Z.rem mid tick = 0 -> Z.of_nat steps < 2 ^ 31 ->
  (max_live < cap)%nat ->
  let s := generate_mbo steps (MtbtGenerator_new token mid tick rng) [] in
  (length (gn_live s) <= 150)%nat /\
  exists ob, apply_events (OrderBook_new token tick cap) (gn_out s) =
      Some (ob, replicate (length (gn_out s)) kOk) /\
    (forall no, (fun i => resting_of (ob_orders ob !!! i)) <$>
       FindOrder (ob_orders ob) (ob_order_mask ob) no = live_map (gn_live s) !! no) /\
    (forall side price, displayed_qty_at ob side price = live_at side price (gn_live s)) /\
    ob_stale ob = false /\ ob_gap_count ob = 0.
Proof.
  intros Ht Hm Hr Hn Hc. cbv zeta.
  destruct (generate_mbo_accepted token mid tick rng steps cap) as (a & k & B & Hi & _); [done..|].
  split; [apply Hi|]. exact (mbo_shows_live _ _ _ _ _ _ _ _ _ Hi).
Qed.

(** A linear congruential generator in place of the Mersenne twister. *)
Definition lcg (x : Z) : Z := (6364136223846793005 * x + 1442695040888963407) mod 2 ^ 64.
#[global] Program Instance lcg_rng : Rng Z := {
  rng_next x := (lcg x, lcg x);
  uniform lo hi x := (lcg x, if lo <=? hi then lo + Z.shiftr (lcg x) 33 mod (hi - lo + 1) else lo);
}.
Next Obligation. intros r. cbn. unfold lcg. apply Z.mod_pos_bound. lia. Qed.
Next Obligation.
  intros lo hi r Hle. cbn. rewrite (proj2 (Z.leb_le _ _) Hle).
  pose proof (Z.mod_pos_bound (Z.shiftr (lcg r) 33) (hi - lo + 1) ltac:(lia)). lia.
Qed.

Lemma mbo_stream_tracked_witness :
  let s := generate_mbo 20 (MtbtGenerator_new 7 10000 5 1) [] in
  (60 <= length (gn_out s))%nat /\
  exists ob, apply_events (OrderBook_new 7 5 256) (gn_out s) =
    Some (ob, replicate (length (gn_out s)) kOk).
Proof.
  split; [vm_compute; lia|].
  destruct (mbo_stream_tracked 7 10000 5 1 20 256) as (_ & ob & Hrun & _);
    [lia|lia|reflexivity|lia|vm_compute; lia|]. exists ob. exact Hrun.
Defined.

(** ** The quote feed *)

(** A two-sided quote two ticks wide, or a print within three ticks of a mid on the
    grid; all prices positive and quantities of 1 to 50. *)
Definition quote_feed_event (token : Token) (tick : Price) (ev : MarketEvent) : Prop :=
  ev_token ev = token /\
  match msg_type (ev_type ev) with
  | Some kSnapQuote =>
      0 < ev_bid_price ev /\ ev_ask_price ev = ev_bid_price ev + 2 * tick /\
      Z.rem (ev_bid_price ev) tick = 0 /\ 1 <= ev_bid_qty ev <= 50 /\ 1 <= ev_ask_qty ev <= 50
  | Some kTrade => 0 < ev_price ev /\ Z.rem (ev_price ev) tick = 0 /\ 1 <= ev_qty ev <= 50
  | _ => False
  end.

Record feed_inv {R} (token : Token) (tick : Price) (B : Z) (s : Gen R) : Prop := {
  fi_token : mg_token (gn_gen s) = token;
  fi_tick : mg_tick (gn_gen s) = tick;
  fi_mid : Z.rem (gen_mid s) tick = 0 /\ 0 <= gen_mid s <= B;
  fi_seq : mg_seq (gn_gen s) = 1 + Z.of_nat (length (gn_out s));
  fi_seqs : ev_seq_no <$> gn_out s = seqZ 1 (Z.of_nat (length (gn_out s)));
  fi_events : Forall (quote_feed_event token tick) (gn_out s);
}.

Section Feed.
Context {R : Type} `{!Rng R} (token : Token) (tick : Price) (Htick : 0 < tick <= 2 ^ 20).
Implicit Types (s : Gen R).

Lemma feed_rng B r s : feed_inv token tick B s -> feed_inv token tick B (set_rng r s).
Proof. intros []. by split. Qed.

Lemma feed_emit B s ev orders trades :
  feed_inv token tick B s -> Z.of_nat (length (gn_out s)) < 2 ^ 60 ->
  ev_seq_no ev = mg_seq (gn_gen s) -> quote_feed_event token tick ev ->
  feed_inv token tick B (bump orders trades (push_out ev s)) /\
  length (gn_out (bump orders trades (push_out ev s))) = S (length (gn_out s)).
Proof.
  intros [H1 H2 H3 H4 H5 H6] Hk Hs Hev. cbn [gn_out bump push_out set_gen].
  assert (length (gn_out s ++ [ev]) = S (length (gn_out s))) as El by (rewrite length_app; simpl; lia).
  split; [|done]. split; try done; cbn [gn_out gn_gen bump push_out set_gen with_gen mg_seq].
  - rewrite El, H4, wrap_u_id by ranges. lia.
  - rewrite El, fmap_app, H5, seqZ_S. cbn. by rewrite Hs, H4.
  - apply Forall_app. by split; [|constructor].
Qed.

Lemma feed_walk B c s :
  feed_inv token tick B s -> 2 ^ 24 <= B < 2 ^ 60 ->
  feed_inv token tick (B + 2 ^ 20) (walk_mid c s) /\ 10 * tick <= gen_mid (walk_mid c s).
Proof.
  intros [H1 H2 [H3 H3'] H4 H5 H6] HB.
  assert (gen_mid (walk_mid c s) =
    Z.max (10 * tick) (gen_mid s + tick * (if c =? 0 then 1 else -1))) as E.
  { unfold walk_mid, gen_mid in *. cbn. rewrite H2. rewrite !(wrap_s_id 64 (tick * 10)) by ranges.
    set (d := if c =? 0 then tick else i64 (- tick)).
    assert (d = tick * (if c =? 0 then 1 else -1) /\ - tick <= d <= tick) as [<- Hd].
    { unfold d. case_if; [lia|]. rewrite wrap_s_id by ranges. lia. }
    rewrite wrap_s_id by ranges. case_if; lia. }
  split; [|lia]. split; try done. split; [|rewrite E; destruct (c =? 0); lia].
  rewrite E. destruct (Z.max_spec (10 * tick) (gen_mid s + tick * (if c =? 0 then 1 else -1))) as [[_ ->]|[_ ->]].
  - eapply (rem_grid tick); [lia|exact H3|done].
  - apply (rem_grid tick 0 _ 10); [lia|apply Z.rem_0_l|]; lia.
Qed.

Lemma feed_step B s :
  feed_inv token tick B s -> 2 ^ 24 <= B < 2 ^ 59 -> Z.of_nat (length (gn_out s)) < 2 ^ 59 ->
  feed_inv token tick (B + 2 ^ 20) (generate_step s) /\
  (length (gn_out s) + 1 <= length (gn_out (generate_step s)) <= length (gn_out s) + 2)%nat.
Proof.
  intros Hf HB Hk. unfold generate_step. set (len := length (gn_out s)) in *.
  destruct (draw_spec 0 1 s ltac:(lia)) as (r1 & c & -> & _). apply (feed_rng _ r1) in Hf.
  destruct (feed_walk B c _ Hf ltac:(lia)) as [Hw Hfloor]. set (s1 := walk_mid c _) in *.
  assert (length (gn_out s1) = len) as E1 by done. clearbody s1. clear Hf.
  destruct (draw_spec 1 50 s1 ltac:(lia)) as (r2 & bq & -> & Hbq).
  destruct (draw_spec 1 50 (set_rng r2 s1) ltac:(lia)) as (r3 & aq & -> & Haq).
  apply (feed_rng _ r2), (feed_rng _ r3) in Hw. set (s2 := set_rng r3 _) in *.
  change (gen_mid s1) with (gen_mid s2) in Hfloor. change (gn_out s1) with (gn_out s2) in E1. clearbody s2.
  pose proof (fi_mid _ _ _ _ Hw) as [Hgrid Hmid]. pose proof (fi_tick _ _ _ _ Hw) as Htk.
  pose proof (fi_token _ _ _ _ Hw) as Htok.
  destruct (feed_emit _ s2 (quote_event s2 bq aq) 0 0 Hw) as [Hq El]; [lia|done| |].
  { split; [done|]. cbn. unfold gen_tick. rewrite Htk.
    rewrite !wrap_s_id by ranges. split_and!; try lia. apply (rem_grid tick _ _ (-1) ltac:(lia) Hgrid). lia. }
  set (s3 := bump 0 0 _) in *. assert (gen_mid s3 = gen_mid s2) as Em by done.
  clearbody s3. destruct (draw_spec 0 3 s3 ltac:(lia)) as (r4 & roll & -> & _).
  apply (feed_rng _ r4) in Hq. set (s4 := set_rng r4 s3) in *.
  change (gn_out s3) with (gn_out s4) in El. change (gen_mid s3) with (gen_mid s4) in Em. clearbody s4.
  case_if; [|split; [done|lia]].
  destruct (draw_spec 0 1 s4 ltac:(lia)) as (r5 & c5 & -> & _).
  destruct (draw_spec 1 3 (set_rng r5 s4) ltac:(lia)) as (r6 & d & -> & Hd).
  destruct (draw_spec 1 50 (set_rng r6 (set_rng r5 s4)) ltac:(lia)) as (r7 & q & -> & Hqq).
  apply (feed_rng _ r5), (feed_rng _ r6), (feed_rng _ r7) in Hq.
  change (gen_mid (set_rng r6 (set_rng r5 s4))) with (gen_mid (set_rng r7 (set_rng r6 (set_rng r5 s4)))).
  change (gen_tick (set_rng r6 (set_rng r5 s4))) with (gen_tick (set_rng r7 (set_rng r6 (set_rng r5 s4)))).
  set (s5 := set_rng r7 _) in *.
  change (gn_out s4) with (gn_out s5) in El. change (gen_mid s4) with (gen_mid s5) in Em. clearbody s5.
  pose proof (fi_tick _ _ _ _ Hq) as Htk5. pose proof (fi_token _ _ _ _ Hq) as Htok5.
  pose proof (fi_mid _ _ _ _ Hq) as [Hgrid5 _].
  set (dir := if c5 =? 0 then 1 else -1). assert (dir = 1 \/ dir = -1) as Hdir by (unfold dir; case_if; auto).
  assert (- 2 ^ 22 <= dir * tick * d <= 2 ^ 22 /\ - 3 * tick <= dir * tick * d) as Hdtd by nia.
  destruct (feed_emit _ s5 (print_event s5 (i64 (gen_mid s5 + i64 (i64 (dir * gen_tick s5) * d))) q
    (mg_next_order (gn_gen s5)) (i64 (mg_next_order (gn_gen s5) + 1))) 2 1 Hq) as [Hp Ep]; [lia|done| |].
  { split; [done|]. cbn. unfold gen_tick. rewrite Htk5.
    rewrite (wrap_s_id 64 (dir * tick)) by ranges. rewrite (wrap_s_id 64 (_ * d)) by ranges.
    rewrite wrap_s_id by ranges. split_and!; try lia.
    apply (rem_grid tick _ _ (dir * d) ltac:(lia) Hgrid5). lia. }
  split; [done|]. lia.
Qed.
End Feed.

(** The quote feed is well formed and contiguous.  Whatever the draws, [generate]
    emits for the generator's token an unbroken sequence numbered from 1, in which
    every quote is two-sided, two ticks wide, on the tick grid, and every price,
    also of the prints, is positive. *)
Theorem quote_feed_well_formed {R} `{!Rng R} token mid tick (rng : R) count :
  0 < tick <= 2 ^ 20 -> 0 <= mid <= 2 ^ 40 -> Z.rem mid tick = 0 -> Z.of_nat count < 2 ^ 31 ->
  let s := generate count
    {| gn_gen := MtbtGenerator_new token mid tick rng; gn_out := []; gn_live := [] |} in
  ev_seq_no <$> gn_out s = seqZ 1 (Z.of_nat (length (gn_out s))) /\
  Forall (quote_feed_event token tick) (gn_out s) /\ (count <= length (gn_out s) <= 2 * count)%nat.
Proof.
  intros Ht Hm Hr Hc. cbv zeta. set (s0 := {| gn_gen := _; gn_out := _; gn_live := _ |}).
  assert (feed_inv token tick (2 ^ 40 + Z.of_nat count * 2 ^ 20) (generate count s0) /\
    (count <= length (gn_out (generate count s0)) <= 2 * count)%nat) as [Hinv Hl]; [|by destruct Hinv].
  induction count as [|n IH]; [split; [by split; try done; cbn; lia|done]|].
  change (generate (S n) s0) with (generate_step (generate n s0)).
  destruct (IH ltac:(lia)) as [IH1 IH2].
  replace (2 ^ 40 + Z.of_nat (S n) * 2 ^ 20) with (2 ^ 40 + Z.of_nat n * 2 ^ 20 + 2 ^ 20) by lia.
  destruct (feed_step token tick Ht _ _ IH1) as [H1 H2]; [lia|lia|].
  split; [done|]. lia.
Qed.

Lemma quote_feed_well_formed_witness :
  let s := generate 10 {| gn_gen := MtbtGenerator_new 7 10000 5 1; gn_out := []; gn_live := [] |} in
  (10 <= length (gn_out s))%nat /\ Forall (quote_feed_event 7 5) (gn_out s).
Proof.
  destruct (quote_feed_well_formed 7 10000 5 1 10) as (_ & H & Hl); [lia|lia|reflexivity|lia|].
  split; [apply Hl|exact H].
Defined.
