(* ===== verification/FeedHandler.v ===== *)
(** * FeedHandler: two redundant sources, one ordered event stream
      (src/feed_handler/feed_handler.hpp)

    [streams_], a vector of 65536 [StreamStats] indexed by stream id, is a
    finite map in which an absent id still has its initial statistics.  The
    callback is a function on the listener's state, as in [MtbtParser]. *)

From Stdlib Require Import ZArith Lia.
From stdpp Require Import base gmap list sorting numbers option.
From S2P Require Import Prelude Types Codec MtbtParser.

Local Open Scope Z_scope.

Definition kMaxStreams : Z := 65536.

Inductive FeedSource : Set := kPrimary | kSecondary.

Record StreamStats := {
  ss_next_seq : Z;
  ss_packets : Z;
  ss_messages : Z;
  ss_duplicates : Z;
  ss_gaps : Z;
  ss_last_gap_lo : Z;
  ss_last_gap_hi : Z;
  ss_needs_retransmit : bool;
}.

Definition zero_stats : StreamStats :=
  {| ss_next_seq := 0; ss_packets := 0; ss_messages := 0; ss_duplicates := 0; ss_gaps := 0;
     ss_last_gap_lo := 0; ss_last_gap_hi := 0; ss_needs_retransmit := false |}.

#[global] Instance StreamStats_inhabited : Inhabited StreamStats := populate zero_stats.

Definition add_duplicates (n : Z) (st : StreamStats) : StreamStats :=
  {| ss_next_seq := ss_next_seq st; ss_packets := ss_packets st; ss_messages := ss_messages st;
     ss_duplicates := u64 (ss_duplicates st + n); ss_gaps := ss_gaps st;
     ss_last_gap_lo := ss_last_gap_lo st; ss_last_gap_hi := ss_last_gap_hi st;
     ss_needs_retransmit := ss_needs_retransmit st |}.

Definition bump_packets (st : StreamStats) : StreamStats :=
  {| ss_next_seq := ss_next_seq st; ss_packets := u64 (ss_packets st + 1);
     ss_messages := ss_messages st; ss_duplicates := ss_duplicates st; ss_gaps := ss_gaps st;
     ss_last_gap_lo := ss_last_gap_lo st; ss_last_gap_hi := ss_last_gap_hi st;
     ss_needs_retransmit := ss_needs_retransmit st |}.

Definition bump_messages (st : StreamStats) : StreamStats :=
  {| ss_next_seq := ss_next_seq st; ss_packets := ss_packets st;
     ss_messages := u64 (ss_messages st + 1); ss_duplicates := ss_duplicates st;
     ss_gaps := ss_gaps st; ss_last_gap_lo := ss_last_gap_lo st;
     ss_last_gap_hi := ss_last_gap_hi st; ss_needs_retransmit := ss_needs_retransmit st |}.

Definition record_gap (seq : Z) (st : StreamStats) : StreamStats :=
  {| ss_next_seq := ss_next_seq st; ss_packets := ss_packets st; ss_messages := ss_messages st;
     ss_duplicates := ss_duplicates st; ss_gaps := u64 (ss_gaps st + 1);
     ss_last_gap_lo := ss_next_seq st; ss_last_gap_hi := seq; ss_needs_retransmit := true |}.

Definition set_next_seq (n : Z) (st : StreamStats) : StreamStats :=
  {| ss_next_seq := n; ss_packets := ss_packets st; ss_messages := ss_messages st;
     ss_duplicates := ss_duplicates st; ss_gaps := ss_gaps st;
     ss_last_gap_lo := ss_last_gap_lo st; ss_last_gap_hi := ss_last_gap_hi st;
     ss_needs_retransmit := ss_needs_retransmit st |}.

Definition set_retransmit (b : bool) (st : StreamStats) : StreamStats :=
  {| ss_next_seq := ss_next_seq st; ss_packets := ss_packets st; ss_messages := ss_messages st;
     ss_duplicates := ss_duplicates st; ss_gaps := ss_gaps st;
     ss_last_gap_lo := ss_last_gap_lo st; ss_last_gap_hi := ss_last_gap_hi st;
     ss_needs_retransmit := b |}.

Record FeedHandler := { fh_streams : gmap Z StreamStats; fh_malformed : Z }.

Definition FeedHandler_new : FeedHandler := {| fh_streams := ∅; fh_malformed := 0 |}.

(** [streams_[id]]; ids are 16-bit, so the index is always in range. *)
Definition stream (fh : FeedHandler) (stream_id : Z) : StreamStats :=
  default zero_stats (fh_streams fh !! stream_id).

Definition set_stream (stream_id : Z) (st : StreamStats) (fh : FeedHandler) : FeedHandler :=
  {| fh_streams := <[stream_id := st]> (fh_streams fh); fh_malformed := fh_malformed fh |}.

Definition fh_bump_malformed (fh : FeedHandler) : FeedHandler :=
  {| fh_streams := fh_streams fh; fh_malformed := u64 (fh_malformed fh + 1) |}.

Definition clear_retransmit (stream_id : Z) (fh : FeedHandler) : FeedHandler :=
  if stream_id <? kMaxStreams
  then set_stream stream_id (set_retransmit false (stream fh stream_id)) fh else fh.

Section Feed.
Context {S : Type} (emit : MarketEvent -> S -> S).

(** The loop body once the message is decoded (lines 81-98). *)
Definition feed_message (seq : Z) (ev : MarketEvent) (acc : StreamStats * Z * S)
    : StreamStats * Z * S :=
  let '(st, emitted, s) := acc in
  if negb (ss_next_seq st =? 0) && (seq <? ss_next_seq st) then (add_duplicates 1 st, emitted, s)
  else
    let st := if negb (ss_next_seq st =? 0) && (seq >? ss_next_seq st)
              then record_gap seq st else st in
    let st := set_next_seq (u64 (seq + 1)) st in
    if is_heartbeat ev then (st, emitted, s) else (bump_messages st, emitted + 1, emit ev s).

(** [n] is [msg_count - i]; the flag says whether the batch was cut short. *)
Fixpoint feed_loop (n : nat) (i : Z) (data : bytes) (len : Z) (hdr : MtbtHeader) (off : nat)
    (acc : StreamStats * Z * S) : option (StreamStats * Z * S * bool) :=
  match n with
  | O => Some (acc, false)
  | Datatypes.S n' =>
      let seq := u64 (h_seq_no hdr + i) in
      m ← parse_message (drop off data) (u64 (len - Z.of_nat off)) (h_stream_id hdr) seq
            (h_timestamp hdr);
      match m with
      | None => Some (acc, true)
      | Some (consumed, ev) =>
          feed_loop n' (i + 1) data len hdr (off + consumed) (feed_message seq ev acc)
      end
  end.

Definition on_packet (source : FeedSource) (data : bytes) (len : Z) (fh : FeedHandler) (s : S)
    : option (FeedHandler * S * Z) :=
  h ← parse_header data len;
  match h with
  | None => Some (fh_bump_malformed fh, s, 0)
  | Some hdr =>
      if h_stream_id hdr >=? kMaxStreams then Some (fh_bump_malformed fh, s, 0)
      else
        let st := stream fh (h_stream_id hdr) in
        let packet_hi := u64 (h_seq_no hdr + h_msg_count hdr) in
        if negb (ss_next_seq st =? 0) && (packet_hi <=? ss_next_seq st)
        then Some (set_stream (h_stream_id hdr) (add_duplicates (h_msg_count hdr) st) fh, s, 0)
        else
          r ← feed_loop (Z.to_nat (h_msg_count hdr)) 0 data len hdr kMtbtHeaderSize
                (bump_packets st, 0, s);
          let '(st, emitted, s, bad) := (r : StreamStats * Z * S * bool) in
          let fh := set_stream (h_stream_id hdr) st fh in
          Some (if bad then fh_bump_malformed fh else fh, s, emitted)
  end.
End Feed.

(** ** The loop is a fold over the packet's messages *)

Section Loop.
Context {S : Type} (emit : MarketEvent -> S -> S).

Definition feed_messages (acc : StreamStats * Z * S) (msgs : list MarketEvent)
    : StreamStats * Z * S :=
  foldl (fun acc ev => feed_message emit (ev_seq_no ev) ev acc) acc msgs.

Lemma feed_loop_spec n i data len hdr off acc :
  Z.of_nat off <= len <= Z.of_nat (length data) -> len < 2 ^ 64 ->
  let msgs := messages n i data len hdr off in
  feed_loop emit n i data len hdr off acc =
    Some (feed_messages acc msgs, negb (length msgs =? n)%nat).
Proof.
  revert i off acc. induction n as [|n IH]; intros i off acc Hoff Hlen;
    cbn [feed_loop messages]; [done|].
  destruct (message_step data len hdr off i Hoff Hlen) as (m & -> & -> & Hm).
  cbn [mbind option_bind]. destruct m as [[c ev]|]; [|done].
  destruct Hm as [Hc (_ & Hseq & _)]. rewrite IH by (lia || done). cbv zeta.
  cbn [length Nat.eqb feed_messages foldl]. by rewrite Hseq.
Qed.
End Loop.

(** ** Consecutive messages against the expected number *)

Definition consecutive (s : Z) (msgs : list MarketEvent) : Prop :=
  forall k ev, msgs !! k = Some ev -> ev_seq_no ev = s + Z.of_nat k.

Lemma consecutive_cons s ev msgs :
  consecutive s (ev :: msgs) -> ev_seq_no ev = s /\ consecutive (s + 1) msgs.
Proof.
  intros H. split; [rewrite (H 0%nat ev eq_refl); simpl; lia|].
  intros k x Hk. rewrite (H (S k) x Hk). lia.
Qed.

(** The messages a stream expecting [next] (0: anything) has not seen yet. *)
Definition fresh (next s : Z) (msgs : list MarketEvent) : list MarketEvent :=
  drop (Z.to_nat (next - s)) msgs.

Definition gap_fields (st : StreamStats) : Z * Z * Z * bool :=
  (ss_gaps st, ss_last_gap_lo st, ss_last_gap_hi st, ss_needs_retransmit st).

(** The gap bookkeeping of a batch that starts at [s]. *)
Definition gap_after (st : StreamStats) (s : Z) : Z * Z * Z * bool :=
  if negb (ss_next_seq st =? 0) && (s >? ss_next_seq st)
  then (u64 (ss_gaps st + 1), ss_next_seq st, s, true) else gap_fields st.

Section Fold.
Context {S : Type} (emit : MarketEvent -> S -> S).

Lemma feed_messages_spec st em s0 s msgs :
  consecutive s msgs -> 0 <= s -> s + Z.of_nat (length msgs) < 2 ^ 64 ->
  let new := fresh (ss_next_seq st) s msgs in
  exists st', feed_messages emit (st, em, s0) msgs =
      (st', em + Z.of_nat (length (book_events new)),
       foldl (fun s ev => emit ev s) s0 (book_events new)) /\
    ss_next_seq st' = (if decide (new = []) then ss_next_seq st else s + Z.of_nat (length msgs)) /\
    gap_fields st' = (if decide (msgs = []) then gap_fields st else gap_after st s).
Proof.
  revert st em s0 s. induction msgs as [|ev msgs IH]; intros st em s0 s Hc Hs Hmax; cbv zeta.
  { exists st. unfold fresh. rewrite drop_nil. simpl. by rewrite Z.add_0_r. }
  apply consecutive_cons in Hc as [Hev Hc]. cbn [length] in *.
  unfold feed_messages in *. cbn [foldl]. unfold feed_message at 2. rewrite Hev.
  rewrite (decide_False (P := ev :: msgs = [])) by done.
  destruct (negb (ss_next_seq st =? 0) && (s <? ss_next_seq st)) eqn:Hdup; bool_arith.
  - destruct (IH (add_duplicates 1 st) em s0 (s + 1)) as (st' & -> & Hn & Hg); [done|lia..|].
    exists st'. unfold fresh in *. simpl ss_next_seq in *.
    replace (Z.to_nat (ss_next_seq st - s)) with (Datatypes.S (Z.to_nat (ss_next_seq st - (s + 1))))
      by lia.
    rewrite skipn_cons. split_and!; [done|rewrite Hn; repeat case_decide; (done || lia)|].
    rewrite Hg. unfold gap_after. simpl ss_next_seq. rewrite !Z.gtb_ltb.
    rewrite !(proj2 (Z.ltb_ge _ _)) by lia. rewrite !andb_false_r. by case_decide.
  - set (st1 := set_next_seq (u64 (s + 1)) _).
    assert (ss_next_seq st1 = s + 1) as Hn1 by (apply wrap_u_id; ranges).
    assert (gap_fields st1 = gap_after st s) as Hg1.
    { unfold st1, gap_after. by destruct (_ && _). }
    assert (fresh (ss_next_seq st) s (ev :: msgs) = ev :: msgs) as ->.
    { unfold fresh. replace (Z.to_nat (ss_next_seq st - s)) with 0%nat by (destruct Hdup; bool_arith; lia).
      done. }
    rewrite (decide_False (P := ev :: msgs = [])) by done.
    assert (forall st2 em2 s2, ss_next_seq st2 = s + 1 -> gap_fields st2 = gap_after st s ->
      exists st', foldl (fun acc ev => feed_message emit (ev_seq_no ev) ev acc) (st2, em2, s2) msgs =
        (st', em2 + Z.of_nat (length (book_events msgs)),
         foldl (fun s ev => emit ev s) s2 (book_events msgs)) /\
        ss_next_seq st' = s + Z.of_nat (Datatypes.S (length msgs)) /\
        gap_fields st' = gap_after st s) as Hrest.
    { intros st2 em2 s2 E2 G2. destruct (IH st2 em2 s2 (s + 1)) as (st' & -> & Hn & Hg); [done|lia..|].
      unfold fresh in *. rewrite E2, Z.sub_diag in *. cbn [Z.to_nat] in *. rewrite drop_0 in *.
      exists st'. split_and!; [done| |].
      - rewrite Hn. case_decide as E; [subst; simpl; lia|lia].
      - rewrite Hg. unfold gap_after at 1. rewrite E2, Z.gtb_ltb, Z.ltb_irrefl, andb_false_r.
        by case_decide. }
    destruct (is_heartbeat ev) eqn:Hhb; unfold book_events in *.
    + rewrite filter_cons_False by congruence. by apply Hrest.
    + rewrite filter_cons_True by done. cbn [foldl length].
      destruct (Hrest (bump_messages st1) (em + 1) (emit ev s0)) as (st' & -> & Hn & Hg);
        [done|done|].
      exists st'. split_and!; [|done|done]. do 2 f_equal. lia.
Qed.
End Fold.

(** ** One packet *)

(** The sequence numbers of the packet stay below 2^64 (they restart daily). *)
Definition no_wrap (data : bytes) : Prop :=
  Z.of_nat (length data) < 2 ^ 64 /\
  match parse_header data (Z.of_nat (length data)) with
  | Some (Some hdr) => h_seq_no hdr + h_msg_count hdr < 2 ^ 64
  | _ => True
  end.

(** What [on_packet] does to the stream [sid] of the packet. *)
Definition stream_after (st : StreamStats) (s : Z) (msgs : list MarketEvent) (st' : StreamStats)
    : Prop :=
  ss_next_seq st' = (if decide (fresh (ss_next_seq st) s msgs = []) then ss_next_seq st
                     else s + Z.of_nat (length msgs)) /\
  gap_fields st' = (if decide (msgs = []) then gap_fields st else gap_after st s).

Lemma packet_consecutive data hdr :
  parse_header data (Z.of_nat (length data)) = Some (Some hdr) -> no_wrap data ->
  let msgs := packet_messages data (Z.of_nat (length data)) hdr in
  0 <= h_seq_no hdr /\ consecutive (h_seq_no hdr) msgs /\
  Z.of_nat (length msgs) <= h_msg_count hdr /\
  h_seq_no hdr + Z.of_nat (length msgs) < 2 ^ 64 /\
  Forall (fun ev => ev_stream_id ev = h_stream_id hdr) msgs.
Proof.
  intros Hh [Hlen Hw]. rewrite Hh in Hw.
  destruct (parse_header_total data (Z.of_nat (length data)) ltac:(lia)) as (h & Hh' & Hspec).
  rewrite Hh in Hh'. simplify_eq. destruct Hspec as (Hsz & _ & Hseq & Hcnt).
  unfold packet_messages. set (msgs := messages _ _ _ _ _ _).
  assert (length msgs <= Z.to_nat (h_msg_count hdr))%nat as Hml by apply messages_length.
  unfold in_u in *. assert (forall k ev, msgs !! k = Some ev ->
    stamped (h_stream_id hdr) (u64 (h_seq_no hdr + (0 + Z.of_nat k))) (h_timestamp hdr) ev) as Hst.
  { intros k ev Hk. unfold msgs in Hk. apply messages_stamped in Hk; [exact Hk|lia|done]. }
  split_and!; try lia.
  - intros k ev Hk. pose proof (lookup_lt_Some _ _ _ Hk). destruct (Hst k ev Hk) as (_ & -> & _).
    rewrite wrap_u_id by ranges. lia.
  - apply Forall_lookup. intros k ev Hk. by destruct (Hst k ev Hk).
Qed.

Lemma fresh_nil next s msgs : s + Z.of_nat (length msgs) <= next -> fresh next s msgs = [].
Proof. intros. unfold fresh. apply drop_ge. lia. Qed.

Lemma stream_set_eq k st fh : stream (set_stream k st fh) k = st.
Proof. unfold stream. simpl. by rewrite lookup_insert_eq. Qed.

Lemma stream_set_ne k j st fh : k <> j -> stream (set_stream k st fh) j = stream fh j.
Proof. intros. unfold stream. simpl. by rewrite lookup_insert_ne. Qed.

Lemma stream_if_bump (b : bool) fh k :
  stream (if b then fh_bump_malformed fh else fh) k = stream fh k.
Proof. by destruct b. Qed.

Section OnPacket.
Context {S : Type} (emit : MarketEvent -> S -> S).

Lemma on_packet_short source data fh s :
  parse_header data (Z.of_nat (length data)) = Some None ->
  on_packet emit source data (Z.of_nat (length data)) fh s = Some (fh_bump_malformed fh, s, 0).
Proof. intros H. unfold on_packet. by rewrite H. Qed.

Lemma on_packet_spec source data hdr fh s :
  parse_header data (Z.of_nat (length data)) = Some (Some hdr) -> no_wrap data ->
  let st := stream fh (h_stream_id hdr) in
  let msgs := packet_messages data (Z.of_nat (length data)) hdr in
  let evs := book_events (fresh (ss_next_seq st) (h_seq_no hdr) msgs) in
  exists fh', on_packet emit source data (Z.of_nat (length data)) fh s =
      Some (fh', foldl (fun s ev => emit ev s) s evs, Z.of_nat (length evs)) /\
    stream_after st (h_seq_no hdr) msgs (stream fh' (h_stream_id hdr)) /\
    forall j, j <> h_stream_id hdr -> stream fh' j = stream fh j.
Proof.
  intros Hh Hw st msgs evs.
  destruct (packet_consecutive data hdr Hh Hw) as (Hs0 & Hc & Hml & Hmax & _). fold msgs in Hc, Hml, Hmax.
  destruct (parse_header_total data (Z.of_nat (length data)) ltac:(lia)) as (h & Hh' & Hspec).
  rewrite Hh in Hh'. simplify_eq. destruct Hspec as (Hsz & Hsid & Hseq & Hcnt).
  destruct Hw as [Hlen Hw]. rewrite Hh in Hw.
  unfold on_packet. rewrite Hh. cbn [mbind option_bind].
  rewrite Z.geb_leb, (proj2 (Z.leb_gt _ _)) by (unfold kMaxStreams; ranges).
  fold st. rewrite wrap_u_id by ranges.
  destruct (negb (ss_next_seq st =? 0) && (_ <=? ss_next_seq st)) eqn:Hd; bool_arith.
  - assert (fresh (ss_next_seq st) (h_seq_no hdr) msgs = []) as Hnil by (apply fresh_nil; lia).
    unfold evs. rewrite Hnil. eexists. split; [reflexivity|]. split; [|intros; by apply stream_set_ne].
    rewrite stream_set_eq. split; [by rewrite Hnil|]. unfold gap_after.
    rewrite Z.gtb_ltb, (proj2 (Z.ltb_ge _ _)) by (ranges). rewrite andb_false_r. by case_decide.
  - rewrite feed_loop_spec by (done || lia). cbn [mbind option_bind].
    destruct (feed_messages_spec emit (bump_packets st) 0 s (h_seq_no hdr) msgs Hc Hs0 Hmax)
      as (st' & Hf & Hn & Hg).
    change (messages _ _ _ _ _ _) with msgs. rewrite Hf. eexists. split; [reflexivity|].
    split.
    + rewrite stream_if_bump, stream_set_eq. exact (conj Hn Hg).
    + intros j Hj. rewrite stream_if_bump. by apply stream_set_ne.
Qed.
End OnPacket.

(** ** Histories of packets *)

Definition collect (ev : MarketEvent) (evs : list MarketEvent) : list MarketEvent := evs ++ [ev].

Lemma collect_all evs l : foldl (fun s ev => collect ev s) evs l = evs ++ l.
Proof.
  revert evs. induction l as [|x l IH]; intros evs; simpl; [by rewrite app_nil_r|].
  rewrite IH. unfold collect. by rewrite <- app_assoc.
Qed.

Fixpoint feed_run (fh : FeedHandler) (evs : list MarketEvent) (pkts : list (FeedSource * bytes))
    : option (FeedHandler * list MarketEvent) :=
  match pkts with
  | [] => Some (fh, evs)
  | (source, data) :: pkts =>
      '(fh, evs, _) ← on_packet collect source data (Z.of_nat (length data)) fh evs;
      feed_run fh evs pkts
  end.

(** *** The callback does not matter

    What a packet does to the feed handler, and which events it emits, is the same
    for every listener. *)
Lemma feed_messages_natural msgs : forall st,
  exists st' evs, evs ⊆ msgs /\ forall (S : Type) (emit : MarketEvent -> S -> S) em s,
    feed_messages emit (st, em, s) msgs =
      (st', em + Z.of_nat (length evs), foldl (fun s ev => emit ev s) s evs).
Proof.
  induction msgs as [|ev msgs IH]; intros st.
  { exists st, []. split; [done|]. intros. cbn. by rewrite Z.add_0_r. }
  unfold feed_messages. cbn [foldl]. unfold feed_message at 2.
  destruct (_ && (ev_seq_no ev <? _)).
  { destruct (IH (add_duplicates 1 st)) as (st' & evs & Hs & H). exists st', evs. split; [set_solver|]. intros. apply H. }
  set (st1 := set_next_seq _ _). destruct (is_heartbeat ev).
  { destruct (IH st1) as (st' & evs & Hs & H). exists st', evs. split; [set_solver|]. intros. apply H. }
  destruct (IH (bump_messages st1)) as (st' & evs & Hs & H). exists st', (ev :: evs). split; [set_solver|]. intros.
  etransitivity; [apply H|]. cbn [length foldl]. f_equal. f_equal. lia.
Qed.

(** The packet belongs to the stream [k]. *)
Definition of_stream (k : Z) (data : bytes) : Prop :=
  match parse_header data (Z.of_nat (length data)) with
  | Some (Some hdr) => h_stream_id hdr = k
  | _ => False
  end.

#[global] Instance of_stream_dec k data : Decision (of_stream k data).
Proof. unfold of_stream. destruct (parse_header _ _) as [[hdr|]|]; apply _. Defined.

(** It emits events of its own stream only and leaves the others as they are. *)
Lemma on_packet_effect source data fh :
  Z.of_nat (length data) < 2 ^ 64 ->
  exists fh' evs, (forall (S : Type) (emit : MarketEvent -> S -> S) s,
      on_packet emit source data (Z.of_nat (length data)) fh s =
        Some (fh', foldl (fun s ev => emit ev s) s evs, Z.of_nat (length evs))) /\
    forall k, ~ of_stream k data -> stream fh' k = stream fh k /\ Forall (fun ev => ev_stream_id ev <> k) evs.
Proof.
  intros Hlen. unfold on_packet, of_stream.
  destruct (parse_header_total data (Z.of_nat (length data)) ltac:(lia)) as ([hdr|] & -> & Hh);
    cbn [mbind option_bind]; [|by exists (fh_bump_malformed fh), []].
  destruct (h_stream_id hdr >=? kMaxStreams); [by exists (fh_bump_malformed fh), []|].
  destruct (negb _ && _).
  { eexists _, []. split; [done|]. intros k Hk. split; [by apply stream_set_ne|done]. }
  destruct Hh as (Hsz & _). set (st := bump_packets _).
  set (msgs := messages (Z.to_nat (h_msg_count hdr)) 0 data (Z.of_nat (length data)) hdr kMtbtHeaderSize).
  destruct (feed_messages_natural msgs st) as (st' & evs & Hsub & H).
  eexists _, evs. split.
  - intros. rewrite feed_loop_spec by (done || lia). fold msgs. cbn [mbind option_bind]. by rewrite H.
  - intros k Hk. split; [rewrite stream_if_bump; by apply stream_set_ne|].
    apply Forall_forall. intros ev Hev. apply list_elem_of_In, Hsub, list_elem_of_lookup in Hev as [i Hi].
    unfold msgs in Hi. apply messages_stamped in Hi as [-> _]; [done|lia|done].
Qed.

Lemma on_packet_natural source data fh :
  Z.of_nat (length data) < 2 ^ 64 ->
  exists fh' evs, forall (S : Type) (emit : MarketEvent -> S -> S) s,
    on_packet emit source data (Z.of_nat (length data)) fh s =
      Some (fh', foldl (fun s ev => emit ev s) s evs, Z.of_nat (length evs)).
Proof. intros Hlen. destruct (on_packet_effect source data fh Hlen) as (fh' & evs & H & _). by exists fh', evs. Qed.

(** Events already emitted on a stream are in order and below what it expects. *)
Definition seq_lt (a b : MarketEvent) : Prop := ev_seq_no a < ev_seq_no b.
Definition on_stream (k : Z) (evs : list MarketEvent) : list MarketEvent :=
  filter (fun ev => ev_stream_id ev = k) evs.

Definition ordered_upto (k : Z) (fh : FeedHandler) (evs : list MarketEvent) : Prop :=
  StronglySorted seq_lt (on_stream k evs) /\
  0 <= ss_next_seq (stream fh k) /\
  Forall (fun ev => ev_seq_no ev < ss_next_seq (stream fh k)) (on_stream k evs).

Lemma consecutive_bounds s msgs ev :
  consecutive s msgs -> ev ∈ msgs -> s <= ev_seq_no ev < s + Z.of_nat (length msgs).
Proof.
  intros Hc Hin. apply list_elem_of_lookup in Hin as [i Hi].
  rewrite (Hc i ev Hi). apply lookup_lt_Some in Hi. lia.
Qed.

Lemma consecutive_sorted s msgs : consecutive s msgs -> StronglySorted seq_lt msgs.
Proof.
  revert s. induction msgs as [|ev msgs IH]; intros s Hc; [constructor|].
  apply consecutive_cons in Hc as [Hev Hc]. constructor; [by apply (IH (s + 1))|].
  apply Forall_forall. intros x Hx. apply list_elem_of_In in Hx.
  pose proof (consecutive_bounds _ _ _ Hc Hx). unfold seq_lt. lia.
Qed.

Lemma consecutive_drop s n msgs :
  consecutive s msgs -> consecutive (s + Z.of_nat n) (drop n msgs).
Proof. intros Hc k ev Hk. rewrite lookup_drop in Hk. rewrite (Hc _ _ Hk). lia. Qed.

Lemma sorted_filter {A} (R : relation A) (P : A -> Prop) `{!forall x, Decision (P x)} l :
  StronglySorted R l -> StronglySorted R (filter P l).
Proof.
  induction 1 as [|x l Hs IH Hall]; [constructor|]. rewrite filter_cons. case_decide; [|done].
  constructor; [done|]. apply Forall_forall. intros y Hy. apply list_elem_of_In in Hy.
  apply list_elem_of_filter in Hy as [_ Hy]. by eapply Forall_forall, list_elem_of_In.
Qed.

(** The new events of a packet: in order, at or above what was expected, below
    what is expected next. *)
Lemma fresh_events next s msgs :
  consecutive s msgs -> 0 <= s -> 0 <= next ->
  let new := book_events (fresh next s msgs) in
  StronglySorted seq_lt new /\
  forall ev, ev ∈ new -> next <= ev_seq_no ev < s + Z.of_nat (length msgs) /\ ev ∈ msgs.
Proof.
  intros Hc Hs Hn new. pose proof (consecutive_drop s (Z.to_nat (next - s)) msgs Hc) as Hd.
  split; [by eapply sorted_filter, consecutive_sorted|].
  intros ev Hev. apply list_elem_of_filter in Hev as [_ Hev].
  pose proof (consecutive_bounds _ _ _ Hd Hev) as Hb. rewrite length_drop in Hb.
  assert (ev ∈ msgs) as Hin by (by eapply subseteq_drop).
  pose proof (consecutive_bounds _ _ _ Hc Hin). split; [lia|done].
Qed.

Lemma on_stream_app k l1 l2 : on_stream k (l1 ++ l2) = on_stream k l1 ++ on_stream k l2.
Proof. apply list.filter_app. Qed.

Lemma on_stream_all k l : Forall (fun ev => ev_stream_id ev = k) l -> on_stream k l = l.
Proof. intros H. induction H as [|x l Hx H IH]; [done|]. unfold on_stream in *. by rewrite filter_cons_True, IH. Qed.

Lemma on_stream_none k l : Forall (fun ev => ev_stream_id ev <> k) l -> on_stream k l = [].
Proof.
  intros H. induction H as [|x l Hx H IH]; [done|]. unfold on_stream in *. by rewrite filter_cons_False.
Qed.

(** A packet of the stream whose numbers do not wrap around. *)
Lemma own_packet_ordered k source data fh evs :
  ordered_upto k fh evs -> of_stream k data -> no_wrap data ->
  exists fh' evs' n, on_packet collect source data (Z.of_nat (length data)) fh evs
      = Some (fh', evs', n) /\ ordered_upto k fh' evs'.
Proof.
  intros (Hso & Hn0 & Hlt) Hk Hw. unfold of_stream in Hk.
  destruct (parse_header data (Z.of_nat (length data))) as [[hdr|]|] eqn:Hh; [|done..]. subst k.
  destruct (packet_consecutive data hdr Hh Hw) as (Hs0 & Hc & _ & _ & Hsid).
  destruct (on_packet_spec collect source data hdr fh evs Hh Hw) as (fh' & -> & [Hnext _] & _).
  rewrite collect_all. eexists _, _, _. split; [done|].
  set (msgs := packet_messages _ _ _) in *. set (st := stream fh (h_stream_id hdr)) in *.
  destruct (fresh_events (ss_next_seq st) (h_seq_no hdr) msgs Hc Hs0 Hn0) as [Hns Hnb].
  set (new := book_events (fresh (ss_next_seq st) (h_seq_no hdr) msgs)) in *.
  assert (Forall (fun ev => ev_stream_id ev = h_stream_id hdr) new) as Hnsid.
  { apply Forall_forall. intros ev Hev. apply list_elem_of_In in Hev.
    eapply Forall_forall in Hsid; [exact Hsid|]. apply list_elem_of_In. by apply Hnb. }
  assert (ss_next_seq st <= ss_next_seq (stream fh' (h_stream_id hdr)) /\ forall ev, ev ∈ new ->
    ev_seq_no ev < ss_next_seq (stream fh' (h_stream_id hdr))) as [Hmono Hup].
  { rewrite Hnext. case_decide as E.
    - split; [done|]. intros ev Hev. unfold new, book_events in Hev. rewrite E in Hev.
      by apply not_elem_of_nil in Hev.
    - split; [|intros ev Hev; apply Hnb in Hev; lia].
      assert (¬ h_seq_no hdr + Z.of_nat (length msgs) <= ss_next_seq st); [|lia].
      intros Hle. apply E. apply fresh_nil. lia. }
  unfold ordered_upto. rewrite on_stream_app, (on_stream_all _ new Hnsid). split_and!; [|lia|].
  - apply StronglySorted_app_2; try done. intros x y Hx Hy. unfold seq_lt.
    apply Hnb in Hy. eapply Forall_forall in Hlt; [|by apply list_elem_of_In]. simpl in Hlt. lia.
  - apply Forall_app. split; [|apply Forall_forall; intros ev Hev; by apply Hup, list_elem_of_In].
    eapply Forall_impl; [|exact Hlt]. simpl. intros; lia.
Qed.

Lemma on_packet_ordered k source data fh evs fh' evs' n :
  ordered_upto k fh evs -> Z.of_nat (length data) < 2 ^ 64 -> (of_stream k data -> no_wrap data) ->
  on_packet collect source data (Z.of_nat (length data)) fh evs = Some (fh', evs', n) ->
  ordered_upto k fh' evs'.
Proof.
  intros Ho Hlen Hw Hp. destruct (decide (of_stream k data)) as [Hk|Hk].
  - destruct (own_packet_ordered k source data fh evs Ho Hk (Hw Hk)) as (fh2 & evs2 & m & Hp2 & H). congruence.
  - destruct (on_packet_effect source data fh Hlen) as (fh2 & new & Hp2 & Hfr). rewrite Hp2, collect_all in Hp.
    injection Hp as <- <- _. destruct (Hfr k Hk) as [Hst Hnew]. unfold ordered_upto.
    by rewrite on_stream_app, (on_stream_none k new Hnew), app_nil_r, Hst.
Qed.

Lemma feed_run_total pkts : forall fh evs,
  Forall (fun sp : FeedSource * bytes => Z.of_nat (length sp.2) < 2 ^ 64) pkts ->
  exists fh' evs', feed_run fh evs pkts = Some (fh', evs') /\
    forall k, Forall (fun sp : FeedSource * bytes => of_stream k sp.2 -> no_wrap sp.2) pkts ->
      ordered_upto k fh evs -> ordered_upto k fh' evs'.
Proof.
  induction pkts as [|[source data] pkts IH]; intros fh evs Hall; cbn [feed_run]; [by exists fh, evs|].
  apply Forall_cons_1 in Hall as [Hlen Hall].
  destruct (on_packet_natural source data fh Hlen) as (fh1 & new & Hp). pose proof (Hp _ collect evs) as Hp1.
  rewrite Hp1. cbn [mbind option_bind]. set (evs1 := foldl _ _ _) in *.
  destruct (IH fh1 evs1 Hall) as (fh2 & evs2 & -> & H). exists fh2, evs2. split; [done|].
  intros k Hw Ho. apply Forall_cons_1 in Hw as [Hw1 Hw]. apply (H k Hw).
  by eapply on_packet_ordered.
Qed.

(** C14.  At-most-once, in-order delivery.  Whatever byte strings arrive from the two
    sources (duplicated, overlapping, reordered, truncated, malformed, with losses), every
    packet is processed within its bounds.  On every stream whose own packets do not wrap
    around, that is whose first number plus message count stays below 2^64, the events
    emitted have strictly increasing sequence numbers: no message of such a stream is
    delivered twice or out of order, whatever happens on the others.  (A packet that
    wraps around does break the order of its stream, [wrapping_packet_redelivers].) *)
Theorem feed_strictly_increasing pkts :
  Forall (fun sp : FeedSource * bytes => Z.of_nat (length sp.2) < 2 ^ 64) pkts ->
  exists fh evs, feed_run FeedHandler_new [] pkts = Some (fh, evs) /\
    forall k, Forall (fun sp : FeedSource * bytes => of_stream k sp.2 -> no_wrap sp.2) pkts ->
      StronglySorted seq_lt (on_stream k evs).
Proof.
  intros Hall. destruct (feed_run_total pkts FeedHandler_new [] Hall) as (fh & evs & Hrun & H).
  exists fh, evs. split; [done|]. intros k Hk. apply (H k Hk). split_and!; [constructor|done|constructor].
Qed.

Lemma feed_strictly_increasing_witness :
  exists fh evs, feed_run FeedHandler_new []
      [(kPrimary, sample_packet); (kSecondary, sample_packet); (kPrimary, [1; 2])] = Some (fh, evs) /\
    StronglySorted seq_lt (on_stream 3 evs).
Proof.
  destruct (feed_strictly_increasing
    [(kPrimary, sample_packet); (kSecondary, sample_packet); (kPrimary, [1; 2])]) as (fh & evs & Hr & Hs).
  { repeat constructor. }
  exists fh, evs. split; [exact Hr|]. apply Hs.
  repeat constructor; vm_compute; try reflexivity; exact I.
Defined.

(** ** Arbitration between the sources *)

(** The packet [data] carries messages [a, ..., a + c - 1] of stream [k], whose
    true content is [truth]. *)
Definition carries (truth : Z -> MarketEvent) (k a c : Z) (data : bytes) : Prop :=
  no_wrap data /\ 1 <= c /\
  exists hdr, parse_header data (Z.of_nat (length data)) = Some (Some hdr) /\
    h_stream_id hdr = k /\ h_seq_no hdr = a /\ h_msg_count hdr = c /\
    packet_messages data (Z.of_nat (length data)) hdr = truth <$> seqZ a c.

(** What is expected after a window, and arrivals that never leave a hole. *)
Definition next_after (next a c : Z) : Z := if next =? 0 then a + c else Z.max next (a + c).

Fixpoint gapless (next : Z) (ws : list (Z * Z)) : Prop :=
  match ws with
  | [] => True
  | (a, c) :: ws => (next = 0 \/ a <= next) /\ gapless (next_after next a c) ws
  end.

Lemma seqZ_split a m n : a <= m <= n -> seqZ a (n - a) = seqZ a (m - a) ++ seqZ m (n - m).
Proof.
  intros H. replace (n - a) with (m - a + (n - m)) by lia.
  rewrite seqZ_app by lia. do 2 f_equal. lia.
Qed.

Lemma fresh_window truth next a c :
  1 <= c -> 0 <= a -> next = 0 \/ a <= next ->
  fresh next a (truth <$> seqZ a c) =
    truth <$> (if next =? 0 then seqZ a c else seqZ next (a + c - next)).
Proof.
  intros Hc Ha Hn. unfold fresh. destruct (next =? 0) eqn:E; bool_arith.
  { subst. by replace (Z.to_nat (0 - a)) with 0%nat by lia. }
  destruct (Z.le_gt_cases (a + c) next).
  - rewrite drop_ge by (rewrite length_fmap, length_seqZ; lia).
    rewrite (seqZ_nil next) by lia. done.
  - replace c with (a + c - a) at 1 by lia. rewrite (seqZ_split a next (a + c)) by lia.
    rewrite fmap_app. apply drop_app_length'. rewrite length_fmap, length_seqZ. lia.
Qed.

Section Arbitration.
Context (truth : Z -> MarketEvent) (k a0 : Z).

(** Everything from [a0] on has been delivered once, and nothing else. *)
Definition delivered_upto (fh : FeedHandler) (evs : list MarketEvent) : Prop :=
  let next := ss_next_seq (stream fh k) in
  if next =? 0 then evs = [] else a0 <= next /\ evs = book_events (truth <$> seqZ a0 (next - a0)).

Lemma carries_step source data a c fh evs :
  carries truth k a c data -> 0 <= ss_next_seq (stream fh k) ->
  (ss_next_seq (stream fh k) = 0 -> a = a0) ->
  ss_next_seq (stream fh k) = 0 \/ a <= ss_next_seq (stream fh k) ->
  delivered_upto fh evs ->
  exists fh' evs' n, on_packet collect source data (Z.of_nat (length data)) fh evs
      = Some (fh', evs', n) /\ delivered_upto fh' evs' /\
    ss_next_seq (stream fh' k) = next_after (ss_next_seq (stream fh k)) a c.
Proof.
  intros (Hw & Hc & hdr & Hh & Hk & Ha & Hcnt & Hmsgs) Hn0 Hfirst Hgap Hd.
  destruct (packet_consecutive data hdr Hh Hw) as (Hs0 & _ & _ & _ & _).
  destruct (on_packet_spec collect source data hdr fh evs Hh Hw) as (fh' & Hp & [Hnext _] & _).
  rewrite Hk, Ha, Hmsgs, fresh_window in * by lia. rewrite collect_all in Hp.
  rewrite length_fmap, length_seqZ, Z2Nat.id in Hnext by lia.
  eexists _, _, _. split; [exact Hp|]. set (next := ss_next_seq (stream fh k)) in *.
  assert (ss_next_seq (stream fh' k) = next_after next a c) as E.
  { rewrite Hnext. unfold next_after. destruct (next =? 0) eqn:E0; bool_arith.
    - rewrite seqZ_cons by lia. by rewrite decide_False.
    - destruct (Z.le_gt_cases (a + c) next).
      + rewrite seqZ_nil by lia. rewrite decide_True by done. lia.
      + rewrite seqZ_cons by lia. rewrite decide_False by done. lia. }
  split; [|exact E]. unfold delivered_upto in *. fold next in Hd. rewrite E. unfold next_after.
  destruct (next =? 0) eqn:E0; bool_arith.
  - rewrite (Hfirst E0) in *. subst evs. rewrite (proj2 (Z.eqb_neq _ _)) by lia.
    split; [lia|]. simpl. do 3 f_equal. lia.
  - destruct Hd as [Hle ->]. rewrite (proj2 (Z.eqb_neq _ _)) by lia. split; [lia|].
    unfold book_events. rewrite <- list.filter_app, <- fmap_app. do 2 f_equal.
    destruct (Z.le_gt_cases (a + c) next).
    + rewrite Z.max_l, (seqZ_nil next), app_nil_r by lia. done.
    + rewrite Z.max_r by lia. symmetry. apply seqZ_split. lia.
Qed.
End Arbitration.

(** C15.  Exactly-once arbitration.  Let packets of a stream arrive, from either source,
    each carrying a true window of the stream that does not wrap around, repeated and
    overlapping at will, and let each window, in the order of arrival, start at or before
    the number after the highest one received so far, so that no arrival ever leaves a hole
    behind it.  Then every message from the first one received up to the highest one
    received is delivered exactly once and in order, heartbeats aside.  (The condition is on
    the order of arrival: a hole filled by a later packet is not filled for the
    listener, [late_packet_discarded].) *)
Theorem feed_exactly_once truth k a0 c0 s0 d0 pkts ws :
  carries truth k a0 c0 d0 ->
  Forall2 (fun sp w => carries truth k w.1 w.2 sp.2) pkts ws ->
  gapless (a0 + c0) ws ->
  exists fh, feed_run FeedHandler_new [] ((s0, d0) :: pkts) =
    Some (fh, book_events (truth <$> seqZ a0 (ss_next_seq (stream fh k) - a0))) /\
    ss_next_seq (stream fh k) = foldl (fun n w => Z.max n (w.1 + w.2)) (a0 + c0) ws.
Proof.
  intros H0 Hall Hgap. cbn [feed_run].
  assert (0 <= a0 /\ 1 <= c0) as [Ha0 Hc0].
  { destruct H0 as (Hw & ? & hdr & Hh & _ & <- & _). by destruct (packet_consecutive d0 hdr Hh Hw). }
  destruct (carries_step truth k a0 s0 d0 a0 c0 FeedHandler_new [] H0) as (fh & evs & n & -> & Hd & Hn);
    [done|done|by left|done|].
  cbn [mbind option_bind]. change (next_after _ a0 c0) with (a0 + c0) in Hn.
  rewrite <- Hn in Hgap |- *.
  assert (0 < ss_next_seq (stream fh k)) as Hpos by lia. clear Hn H0.
  revert fh evs Hgap Hd Hpos. induction Hall as [|[src data] [a c] pkts ws Hp Hall IH];
    intros fh evs Hgap Hd Hpos; cbn [feed_run foldl].
  - exists fh. split; [|done]. unfold delivered_upto in Hd.
    rewrite (proj2 (Z.eqb_neq _ _)) in Hd by lia. by destruct Hd as [_ <-].
  - simpl in Hp, Hgap. destruct Hgap as [Hg Hgap].
    destruct (carries_step truth k a0 src data a c fh evs Hp) as (fh1 & evs1 & m & -> & Hd1 & Hn1);
      [lia|lia|done|done|].
    cbn [mbind option_bind fst snd]. unfold next_after in *.
    rewrite (proj2 (Z.eqb_neq (ss_next_seq (stream fh k)) 0)) in * by lia.
    rewrite <- Hn1 in Hgap |- *. apply IH; [done..|lia].
Qed.

(** Cancels of orders numbered like their messages, on stream 3. *)
Definition cancel_truth (i : Z) : MarketEvent := set_order i kBuy 0 2885 0 (base_event 88 3 i 77).

Definition cancel_packet (a c : Z) : bytes :=
  le_bytes 2 3 ++ le_bytes 8 a ++ le_bytes 1 c ++ le_bytes 8 77 ++
  concat ((fun i => [88] ++ le_bytes 8 i ++ le_bytes 4 2885) <$> seqZ a c).

Ltac solve_carries :=
  split; [vm_compute; split; reflexivity|]; split; [vm_compute; discriminate|];
  eexists; split; [vm_compute; reflexivity|]; vm_compute; repeat split.

(** Source 2 lags and overlaps source 1: messages 5 to 10 are delivered once. *)
Lemma feed_exactly_once_witness :
  exists fh, feed_run FeedHandler_new []
    [(kPrimary, cancel_packet 5 2); (kSecondary, cancel_packet 5 2); (kPrimary, cancel_packet 7 2);
     (kSecondary, cancel_packet 6 5)] = Some (fh, cancel_truth <$> [5; 6; 7; 8; 9; 10]) /\
    ss_next_seq (stream fh 3) = 11.
Proof.
  destruct (feed_exactly_once cancel_truth 3 5 2 kPrimary (cancel_packet 5 2)
    [(kSecondary, cancel_packet 5 2); (kPrimary, cancel_packet 7 2); (kSecondary, cancel_packet 6 5)]
    [(5, 2); (7, 2); (6, 5)]) as (fh & Hrun & Hn).
  - solve_carries.
  - do 3 (apply Forall2_cons_2; [solve_carries|]). constructor.
  - vm_compute. repeat split; right; discriminate.
  - exists fh. rewrite Hrun, Hn. split; [vm_compute; reflexivity|reflexivity].
Defined.

(** Without the bound on the numbers delivery repeats: after 5 and 6, a packet of ten that
    starts at the last 64-bit number wraps the expected number around, and 5 and 6 are
    delivered again. *)
Lemma wrapping_packet_redelivers :
  (fun r : FeedHandler * list MarketEvent => map ev_seq_no r.2) <$>
    feed_run FeedHandler_new [] [(kPrimary, cancel_packet 5 2); (kPrimary, cancel_packet (2 ^ 64 - 1) 10)] =
    Some [5; 6; 2 ^ 64 - 1; 0; 1; 2; 3; 4; 5; 6; 7; 8].
Proof. vm_compute. reflexivity. Qed.

(** A hole is recorded but never filled.  When packet B arrives while the
    stream still expects packet A, the missing range is recorded exactly and
    retransmission is requested, and B is delivered; when A then arrives (from
    the slower source, or as the retransmission) all of it is discarded as
    duplicate and the request stays pending. *)
Theorem late_packet_discarded s1 s2 fh evs dataA hdrA dataB hdrB k :
  parse_header dataA (Z.of_nat (length dataA)) = Some (Some hdrA) -> no_wrap dataA ->
  parse_header dataB (Z.of_nat (length dataB)) = Some (Some hdrB) -> no_wrap dataB ->
  h_stream_id hdrA = k -> h_stream_id hdrB = k ->
  0 < ss_next_seq (stream fh k) -> h_seq_no hdrA = ss_next_seq (stream fh k) ->
  1 <= h_msg_count hdrA -> h_seq_no hdrB = h_seq_no hdrA + h_msg_count hdrA ->
  packet_messages dataB (Z.of_nat (length dataB)) hdrB <> [] ->
  exists fh1 fh2 n,
    let evs1 := evs ++ book_events (packet_messages dataB (Z.of_nat (length dataB)) hdrB) in
    on_packet collect s1 dataB (Z.of_nat (length dataB)) fh evs = Some (fh1, evs1, n) /\
    gap_fields (stream fh1 k) =
      (u64 (ss_gaps (stream fh k) + 1), h_seq_no hdrA, h_seq_no hdrB, true) /\
    on_packet collect s2 dataA (Z.of_nat (length dataA)) fh1 evs1 = Some (fh2, evs1, 0) /\
    gap_fields (stream fh2 k) = gap_fields (stream fh1 k).
Proof.
  intros HA HwA HB HwB HkA HkB Hpos Hseq Hcnt HseqB Hne.
  destruct (on_packet_spec collect s1 dataB hdrB fh evs HB HwB) as (fh1 & -> & [Hn1 Hg1] & _).
  rewrite HkB in *. rewrite collect_all. set (msgs := packet_messages dataB _ _) in *.
  assert (fresh (ss_next_seq (stream fh k)) (h_seq_no hdrB) msgs = msgs) as Hall.
  { unfold fresh. by replace (Z.to_nat _) with 0%nat by lia. }
  rewrite Hall in *. rewrite decide_False in Hn1 by done. rewrite decide_False in Hg1 by done.
  unfold gap_after in Hg1. rewrite (proj2 (Z.eqb_neq _ _)), Z.gtb_ltb, (proj2 (Z.ltb_lt _ _)) in Hg1 by lia.
  destruct (packet_consecutive dataA hdrA HA HwA) as (_ & _ & HlA & _).
  destruct (on_packet_spec collect s2 dataA hdrA fh1 (evs ++ book_events msgs) HA HwA)
    as (fh2 & HA2 & [_ Hg2] & _).
  rewrite HkA in *.
  assert (fresh (ss_next_seq (stream fh1 k)) (h_seq_no hdrA)
            (packet_messages dataA (Z.of_nat (length dataA)) hdrA) = []) as Hnil
    by (apply fresh_nil; lia).
  rewrite Hnil in HA2. cbn in HA2. exists fh1, fh2. eexists. cbv zeta.
  split; [reflexivity|]. split; [rewrite Hg1; simpl; by rewrite Hseq|].
  split; [exact HA2|]. rewrite Hg2. case_decide; [done|].
  unfold gap_after. rewrite Z.gtb_ltb, (proj2 (Z.ltb_ge _ _)) by lia. by rewrite andb_false_r.
Qed.

Definition after_first : FeedHandler :=
  from_option (fun r => r.1.1) FeedHandler_new
    (on_packet collect kPrimary (cancel_packet 5 2) 45 FeedHandler_new []).

Lemma late_packet_discarded_witness :
  exists fh1 fh2 n,
    on_packet collect kPrimary (cancel_packet 9 1) 32 after_first [] =
      Some (fh1, [cancel_truth 9], n) /\
    gap_fields (stream fh1 3) = (1, 7, 9, true) /\
    on_packet collect kSecondary (cancel_packet 7 2) 45 fh1 [cancel_truth 9] =
      Some (fh2, [cancel_truth 9], 0).
Proof.
  destruct (late_packet_discarded kPrimary kSecondary after_first []
    (cancel_packet 7 2) {| h_stream_id := 3; h_seq_no := 7; h_msg_count := 2; h_timestamp := 77 |}
    (cancel_packet 9 1) {| h_stream_id := 3; h_seq_no := 9; h_msg_count := 1; h_timestamp := 77 |} 3)
    as (fh1 & fh2 & n & H1 & H2 & H3 & _);
    [vm_compute; (reflexivity || discriminate || (split; reflexivity))..|].
  exists fh1, fh2, n. split; [exact H1|]. split; [exact H2|exact H3].
Defined.
