(* ===== verification/Replay.v ===== *)
(** * Replay: the capture tools (tools/mtbt_gen.cpp, tools/mtbt_replay.cpp)

    [mtbt_gen] writes a synthetic order-by-order session as a capture file and
    [mtbt_replay] runs a capture through the feed handler.  A tool is a function of
    its arguments (the argument vector, [argv[0]] included) and of the files it can
    open; its result is the exit code, the text on the standard output and, for the
    generator, the file it wrote.  [seeded] is the constructor of the random
    engine. *)

From Stdlib Require Import ZArith Lia Ascii String.
From stdpp Require Import base gmap numbers option list.
From S2P Require Import Prelude Types Text Codec MtbtParser Capture FeedHandler Generator.

Local Open Scope Z_scope.

(** [atoi] is [strtol] cut to an [int]. *)
Definition atoi (s : text) : Z := i32 (strtoll s).

(** [argc > i ? read(argv[i]) : dflt]. *)
Definition arg_or (argv : list text) (i : nat) (read : text -> Z) (dflt : Z) : Z :=
  match argv !! i with Some s => read s | None => dflt end.

(** ** mtbt_gen *)

Record GenResult := { gr_exit : Z; gr_stdout : text; gr_file : option bytes }.

Section Gen.
Context {R : Type} `{!Rng R} (seeded : Z -> R).

Definition gen_events (argv : list text) : list MarketEvent :=
  let count := arg_or argv 2 atoi 100000 in
  let token := u32 (arg_or argv 3 strtoul 2885) in
  let mid := arg_or argv 4 strtoll 1000000 in
  let tick := arg_or argv 5 strtoll 5 in
  gn_out (generate_mbo (Z.to_nat count) (MtbtGenerator_new token mid tick (seeded 12345)) []).

(** [can_open] is whether [fopen(out_path, "wb")] succeeds. *)
Definition mtbt_gen (argv : list text) (can_open : bool) : GenResult :=
  match argv !! 1%nat with
  | None => {| gr_exit := 2; gr_stdout := []; gr_file := None |}
  | Some out_path =>
      let token := u32 (arg_or argv 3 strtoul 2885) in
      let events := gen_events argv in
      let bytes := encode_captures events [] in
      if negb can_open then {| gr_exit := 1; gr_stdout := []; gr_file := None |}
      else
        {| gr_exit := 0;
           gr_stdout := lit "mtbt_gen: wrote " ++ dec (Z.of_nat (length events)) ++ lit " events (" ++
             dec (Z.of_nat (length bytes)) ++ lit " bytes) for token " ++ dec token ++ lit " to " ++
             out_path ++ [Ascii.ascii_of_nat 10];
           gr_file := Some bytes |}
  end.
End Gen.

(** ** mtbt_replay *)

Definition ReadU32 (f : bytes) : option (Z * bytes) :=
  '(b, f) ← fread 4 f;
  Some (Z.lor (Z.lor (Z.lor (b !!! 0%nat) (u32 (Z.shiftl (b !!! 1%nat) 8)))
                 (u32 (Z.shiftl (b !!! 2%nat) 16))) (u32 (Z.shiftl (b !!! 3%nat) 24)), f).

(** The [while] loop, with its two counters; [None] is an out-of-bounds read or
    exhausted [fuel]. *)
Fixpoint replay_loop (fuel : nat) (f : bytes) (feed : FeedHandler) (packets events : Z)
    : option (FeedHandler * Z * Z) :=
  match fuel with
  | O => None
  | S fuel =>
      match ReadU32 f with
      | None => Some (feed, packets, events)
      | Some (len, f) =>
          if (len =? 0) || (len >? 2 ^ 20) then Some (feed, packets, events)
          else
            match fread (Z.to_nat len) f with
            | None => Some (feed, packets, events)
            | Some (buf, f) =>
                let packets := u64 (packets + 1) in
                '(feed, _, n) ← on_packet (fun _ s => s) kPrimary buf len feed tt;
                replay_loop fuel f feed packets (u64 (events + n))
            end
      end
  end.

Definition replay_report (packets events malformed : Z) : text :=
  lit "mtbt_replay: packets=" ++ dec packets ++ lit " events=" ++ dec events ++
  lit " malformed=" ++ dec malformed ++ [Ascii.ascii_of_nat 10].

(** [file] is the content of the file named on the command line, if it opens.
    Every turn of the loop consumes at least four bytes. *)
Definition mtbt_replay (argv : list text) (file : option bytes) : option (Z * text) :=
  match argv !! 1%nat with
  | None => Some (2, [])
  | Some _ =>
      match file with
      | None => Some (1, [])
      | Some f =>
          '(feed, packets, events) ← replay_loop (S (length f)) f FeedHandler_new 0 0;
          Some (0, replay_report packets events (fh_malformed feed))
      end
  end.

(** ** The replay tool always finishes *)

Lemma ReadU32_Some f v r : ReadU32 f = Some (v, r) -> length f = (4 + length r)%nat.
Proof. exact (read_u32_le_Some f v r). Qed.

Lemma on_packet_total {S} (emit : MarketEvent -> S -> S) source data len fh s :
  len <= Z.of_nat (length data) -> len < 2 ^ 64 ->
  exists fh' s' n, on_packet emit source data len fh s = Some (fh', s', n).
Proof.
  intros Hl Hmax. unfold on_packet.
  destruct (parse_header_total data len Hl) as ([hdr|] & -> & Hh); cbn [mbind option_bind]; [|by repeat eexists].
  destruct Hh as (Hsz & _). repeat (case_if; [by repeat eexists|]).
  rewrite feed_loop_spec by lia. cbn [mbind option_bind]. destruct (feed_messages _ _ _) as [[st n] s'].
  by repeat eexists.
Qed.

Lemma replay_loop_total fuel : forall f feed packets events,
  (length f < fuel)%nat -> is_Some (replay_loop fuel f feed packets events).
Proof.
  induction fuel as [|fuel IH]; intros f feed packets events Hf; [lia|].
  cbn [replay_loop]. destruct (ReadU32 f) as [[len r]|] eqn:Hr; [|by eexists].
  apply ReadU32_Some in Hr. case_if; [by eexists|].
  destruct (fread (Z.to_nat len) r) as [[buf r']|] eqn:Hb; [|by eexists].
  apply fread_Some in Hb as [-> Hbl]. rewrite length_app in Hr.
  destruct (on_packet_total (fun _ s => s) kPrimary buf len feed tt) as (fh & [] & n & ->); [lia|bool_arith; lia|].
  cbn [mbind option_bind]. apply IH. lia.
Qed.

(** On any arguments and any file, truncated or corrupt, the replay tool finishes and
    never reads outside a record. *)
Theorem mtbt_replay_total argv file : is_Some (mtbt_replay argv file).
Proof.
  unfold mtbt_replay. destruct (argv !! 1%nat); [|by eexists]. destruct file as [f|]; [|by eexists].
  destruct (replay_loop_total (S (length f)) f FeedHandler_new 0 0) as [[[feed p] e] ->]; [lia|]. by eexists.
Qed.

(** ** Replaying what was generated *)

(** The stream of a session after its events up to number [next - 1]. *)
Definition replayed (next : Z) (feed : FeedHandler) : Prop :=
  fh_malformed feed = 0 /\ (ss_next_seq (stream feed 1) = 0 \/ ss_next_seq (stream feed 1) = next).

Lemma on_packet_record token ev pkt feed :
  well_sent token ev -> 0 < ev_seq_no ev < 2 ^ 63 -> encode_packet ev = Some pkt ->
  replayed (ev_seq_no ev) feed ->
  exists feed', on_packet (fun _ s => s) kPrimary pkt (Z.of_nat (length pkt)) feed tt = Some (feed', tt, 1) /\
    replayed (ev_seq_no ev + 1) feed'.
Proof.
  intros (Hf & Hc & Hs & _) Hseq Hp Hr. pose proof (packet_small ev pkt Hp) as Hsmall.
  rewrite encode_packet_fields, Hc in Hp. apply (inj Some) in Hp as <-.
  unfold capture_stream in *. rewrite Hs in *. cbn [Z.eqb] in *. change (u16 1) with 1 in *.
  set (pkt := header_fields _ _ _ _ ++ _) in *.
  set (hdr := {| h_stream_id := 1; h_seq_no := ev_seq_no ev; h_msg_count := 1; h_timestamp := ev_ts ev |}).
  assert (Z.of_nat kMtbtHeaderSize <= Z.of_nat (length pkt)) as Hsz.
  { unfold pkt. rewrite length_app, header_length. lia. }
  assert (parse_header pkt (Z.of_nat (length pkt)) = Some (Some hdr)) as Hh.
  { apply parse_header_fields; try apply Hf; try done. }
  assert (messages 1 0 pkt (Z.of_nat (length pkt)) hdr kMtbtHeaderSize = stamp_from hdr 0 [ev]) as Hm.
  { rewrite <- (header_length 1 (ev_seq_no ev) 1 (ev_ts ev)).
    pose proof (messages_fields hdr (Z.of_nat (length pkt)) (header_fields 1 (ev_seq_no ev) 1 (ev_ts ev)) [ev] [] 0) as H.
    cbn [fmap list_fmap concat length] in H. rewrite !app_nil_r in H. apply H; [by constructor|done]. }
  destruct Hr as [Hmal Hnext]. unfold on_packet. rewrite Hh. cbn [mbind option_bind h_stream_id hdr h_seq_no h_msg_count].
  change (1 >=? kMaxStreams) with false. cbv iota. rewrite (wrap_u_id 64 (_ + 1)) by ranges.
  set (st := stream feed 1) in *.
  assert (negb (ss_next_seq st =? 0) && (ev_seq_no ev + 1 <=? ss_next_seq st) = false) as ->.
  { destruct Hnext as [->| ->]; [done|]. rewrite (proj2 (Z.leb_gt _ _)) by lia. apply andb_false_r. }
  change (Z.to_nat 1) with 1%nat. rewrite feed_loop_spec by ranges. fold hdr. rewrite Hm, stamp_from_cons.
  cbn [mbind option_bind feed_messages foldl stamp_from imap length Nat.eqb negb]. unfold feed_message.
  assert (ev_seq_no (wire_event 1 (u64 (ev_seq_no ev + 0)) (ev_ts ev) ev) = ev_seq_no ev) as Eseq.
  { unfold wire_event. rewrite Z.add_0_r, wrap_u_id by ranges. by destruct (msg_type (ev_type ev)) as [[]|]. }
  assert (is_heartbeat (wire_event 1 (u64 (ev_seq_no ev + 0)) (ev_ts ev) ev) = false) as Ehb.
  { unfold is_heartbeat. rewrite wire_event_type. revert Hc. unfold captured. by destruct (msg_type (ev_type ev)) as [[]|]. }
  cbn [h_stream_id h_seq_no h_timestamp hdr]. rewrite Eseq, Ehb. cbn [ss_next_seq bump_packets].
  assert (negb (ss_next_seq st =? 0) && (ev_seq_no ev <? ss_next_seq st) = false) as ->.
  { destruct Hnext as [->| ->]; [done|]. rewrite Z.ltb_irrefl. apply andb_false_r. }
  assert (negb (ss_next_seq st =? 0) && (ev_seq_no ev >? ss_next_seq st) = false) as ->.
  { destruct Hnext as [->| ->]; [done|]. rewrite Z.gtb_ltb, Z.ltb_irrefl. apply andb_false_r. }
  eexists. split; [done|]. split; [done|]. right. rewrite stream_set_eq. cbn. rewrite wrap_u_id by ranges. done.
Qed.

Lemma replay_loop_records token fuel evs : forall next feed packets events,
  Forall (well_sent token) evs -> ev_seq_no <$> evs = seqZ next (Z.of_nat (length evs)) ->
  0 < next -> next + Z.of_nat (length evs) < 2 ^ 63 -> replayed next feed ->
  0 <= packets -> packets + Z.of_nat (length evs) < 2 ^ 64 ->
  0 <= events -> events + Z.of_nat (length evs) < 2 ^ 64 ->
  (length (concat (record_bytes <$> evs)) < fuel)%nat ->
  exists feed', replay_loop fuel (concat (record_bytes <$> evs)) feed packets events =
      Some (feed', packets + Z.of_nat (length evs), events + Z.of_nat (length evs)) /\ fh_malformed feed' = 0.
Proof.
  revert fuel. induction evs as [|ev evs IH]; intros fuel next feed packets events Hall Hseq Hn Hmax Hr Hp Hpm He Hem Hfuel.
  { destruct fuel; [simpl in Hfuel; lia|]. exists feed. cbn. rewrite !Z.add_0_r. split; [done|apply Hr]. }
  apply Forall_cons_1 in Hall as [Hev Hall]. pose proof Hev as (Hf & Hc & _).
  cbn [length] in *. rewrite seqZ_cons in Hseq by lia. rewrite fmap_cons in Hseq. injection Hseq as Eseq Hseq.
  rewrite fmap_cons in *. cbn [concat] in *.
  assert (exists pkt, encode_packet ev = Some pkt) as [pkt Hpkt]
    by (rewrite encode_packet_fields, Hc; by eexists).
  pose proof (packet_small ev pkt Hpkt) as Hsmall.
  unfold record_bytes at 1 in Hfuel. unfold record_bytes at 1. rewrite Hpkt in *.
  rewrite <- app_assoc in Hfuel |- *. rewrite !length_app, length_le_bytes in Hfuel.
  destruct fuel as [|fuel]; [lia|]. cbn [replay_loop].
  change ReadU32 with read_u32_le. rewrite read_u32_le_here by ranges. rewrite (proj2 (Z.eqb_neq _ _)) by lia.
  rewrite Z.gtb_ltb, (proj2 (Z.ltb_ge _ _)) by lia. cbn [orb]. unfold fread.
  rewrite Nat2Z.id, (proj2 (Nat.ltb_ge _ _)) by (rewrite length_app; lia).
  rewrite take_app_length, drop_app_length.
  destruct (on_packet_record token ev pkt feed) as (feed1 & -> & Hr1); [done|lia|done|by rewrite Eseq|].
  cbn [mbind option_bind]. rewrite !(wrap_u_id 64 (_ + 1)) by ranges.
  destruct (IH fuel (next + 1) feed1 (packets + 1) (events + 1)) as (feed2 & -> & Hm);
    [done| |lia|lia|by rewrite <- Eseq|lia|lia|lia|lia|lia|].
  { rewrite Hseq. f_equal; lia. }
  exists feed2. split; [|done]. f_equal. f_equal; [f_equal|]; lia.
Qed.

(** The generator's stream is a session a capture file can hold. *)
Lemma generate_mbo_sent {R} `{!Rng R} token mid tick (rng : R) steps :
  0 < tick <= 2 ^ 20 -> 0 <= mid <= 2 ^ 40 -> Z.rem mid tick = 0 -> Z.of_nat steps < 2 ^ 31 -> in_u 32 token ->
  let evs := gn_out (generate_mbo steps (MtbtGenerator_new token mid tick rng) []) in
  Forall (well_sent token) evs /\ ev_seq_no <$> evs = seqZ 1 (Z.of_nat (length evs)) /\
  Z.of_nat (length evs) < 2 ^ 40.
Proof.
  intros Ht Hm Hr Hn Htok. destruct (generate_mbo_accepted token mid tick rng steps 256) as (a & k & B & Hi & Hk);
    [done..|unfold max_live; lia|].
  pose proof (mi_out _ _ _ _ _ _ _ _ Hi). split_and!; [by apply Hi|apply Hi|lia].
Qed.

(** C16.  What the generator tool writes, the replay tool reads in full.  For any seed
    behaviour of the random engine, count, 32-bit token, positive tick (at most 2^20)
    and mid on its grid (from 0 to 2^40) given on the command line (or their
    defaults), [mtbt_gen] writes a file on which [mtbt_replay] finishes with exit code 0 and reports as many packets
    as events, both the number of events generated, and no malformed packet. *)
Theorem generated_capture_replays {R} `{!Rng R} (seeded : Z -> R) argv argv' path path' :
  argv !! 1%nat = Some path -> argv' !! 1%nat = Some path' ->
  0 < arg_or argv 5 strtoll 5 <= 2 ^ 20 -> 0 <= arg_or argv 4 strtoll 1000000 <= 2 ^ 40 ->
  Z.rem (arg_or argv 4 strtoll 1000000) (arg_or argv 5 strtoll 5) = 0 ->
  let g := mtbt_gen seeded argv true in
  let n := Z.of_nat (length (gen_events seeded argv)) in
  gr_exit g = 0 /\ mtbt_replay argv' (gr_file g) = Some (0, replay_report n n 0).
Proof.
  intros Hpath Hpath' Ht Hm Hr. cbv zeta. unfold mtbt_gen, mtbt_replay. rewrite Hpath, Hpath'.
  cbn [negb gr_exit gr_file]. split; [done|]. rewrite encode_captures_records, app_nil_l.
  unfold gen_events.
  destruct (generate_mbo_sent (u32 (arg_or argv 3 strtoul 2885)) _ _ (seeded 12345)
    (Z.to_nat (arg_or argv 2 atoi 100000)) Ht Hm Hr) as (Hall & Hseq & Hlen).
  { assert (arg_or argv 2 atoi 100000 < 2 ^ 31); [|lia]. unfold arg_or. destruct (argv !! 2%nat); [|lia].
    apply (wrap_s_range 32). lia. }
  { by apply wrap_u_range. }
  set (evs := gn_out _) in *. clearbody evs.
  destruct (replay_loop_records _ (S (length (concat (record_bytes <$> evs)))) evs 1 FeedHandler_new 0 0 Hall Hseq)
    as (feed & -> & Hmal); [lia|lia|by split; [|left]|lia..|].
  cbn [mbind option_bind]. by rewrite Hmal.
Qed.

Definition gen_argv : list text := [lit "mtbt_gen"; lit "out.mtbt"; lit "20"; lit "7"; lit "10000"; lit "5"].

Lemma generated_capture_replays_witness :
  (60 <= length (gen_events (fun s => s) gen_argv))%nat /\
  let n := Z.of_nat (length (gen_events (fun s => s) gen_argv)) in
  mtbt_replay [lit "mtbt_replay"; lit "out.mtbt"] (gr_file (mtbt_gen (fun s => s) gen_argv true)) =
    Some (0, replay_report n n 0).
Proof.
  split; [vm_compute; lia|].
  apply (generated_capture_replays (fun s => s) gen_argv [lit "mtbt_replay"; lit "out.mtbt"]
    (lit "out.mtbt") (lit "out.mtbt")); [reflexivity|reflexivity|vm_compute; intuition congruence
    |vm_compute; intuition congruence|vm_compute; reflexivity].
Defined.
