(* ===== verification/TimeUtils.v ===== *)
(** * Session clock (src/common/time_utils.hpp)

    IST-frame timestamps are unsigned 64-bit nanoseconds.  The clock reads
    ([rdtsc], [clock_gettime]) are inputs of the functions that use them.
    [LatencyTracker] is the recorder the pipeline feeds; its percentiles are in
    [LatencyStats], the calibration of the counter in [TscClock]. *)

From Stdlib Require Import ZArith Lia.
From stdpp Require Import base list numbers.
From S2P Require Import Prelude Types.

Local Open Scope Z_scope.

Definition kIstOffsetSeconds : Z := 5 * 3600 + 30 * 60.
Definition kNsPerSecond : Z := 1000000000.
Definition kNsPerDay : Z := 86400 * kNsPerSecond.

(** [ist_now_ns], given what [clock_gettime(CLOCK_REALTIME)] returned. *)
Definition ist_now_ns (tv_sec tv_nsec : Z) : Timestamp :=
  let utc_ns := u64 (u64 (u64 tv_sec * kNsPerSecond) + u64 tv_nsec) in
  u64 (utc_ns + u64 (u64 kIstOffsetSeconds * kNsPerSecond)).

Definition ist_midnight_ns (ist_ns : Timestamp) : Timestamp := u64 (ist_ns / kNsPerDay * kNsPerDay).

Definition ist_time_of_day_ns (reference_ist_ns hour minute second : Z) : Timestamp :=
  let tod := u64 ((hour * 3600 + minute * 60 + second) * kNsPerSecond) in
  u64 (ist_midnight_ns reference_ist_ns + tod).

Definition market_open_ns (t : Timestamp) : Timestamp := ist_time_of_day_ns t 9 15 0.
Definition market_close_ns (t : Timestamp) : Timestamp := ist_time_of_day_ns t 15 30 0.
Definition preopen_start_ns (t : Timestamp) : Timestamp := ist_time_of_day_ns t 9 0 0.
Definition preclose_cancel_ns (t : Timestamp) : Timestamp := ist_time_of_day_ns t 15 25 0.

Definition is_within_market_hours (t : Timestamp) : bool :=
  (t >=? market_open_ns t) && (t <? market_close_ns t).
Definition is_preopen (t : Timestamp) : bool :=
  (t >=? preopen_start_ns t) && (t <? market_open_ns t).

(** ** LatencyTracker *)

Record LatencyTracker := {
  lt_samples : list Z;
  lt_count : Z;
  lt_min : Z;
  lt_max : Z;
  lt_sum : Z;
}.

Definition LatencyTracker_new (max_samples : nat) : LatencyTracker :=
  {| lt_samples := replicate max_samples 0; lt_count := 0; lt_min := 2 ^ 64 - 1; lt_max := 0;
     lt_sum := 0 |}.

Definition lt_record (ns : Z) (t : LatencyTracker) : LatencyTracker :=
  {| lt_samples := if lt_count t <? Z.of_nat (length (lt_samples t))
                   then <[Z.to_nat (lt_count t) := ns]> (lt_samples t) else lt_samples t;
     lt_count := u64 (lt_count t + 1);
     lt_min := Z.min (lt_min t) ns;
     lt_max := Z.max (lt_max t) ns;
     lt_sum := u64 (lt_sum t + ns) |}.

Definition lt_reset (t : LatencyTracker) : LatencyTracker :=
  {| lt_samples := lt_samples t; lt_count := 0; lt_min := 2 ^ 64 - 1; lt_max := 0; lt_sum := 0 |}.

Definition lt_minimum (t : LatencyTracker) : Z := if lt_count t =? 0 then 0 else lt_min t.
Definition lt_mean (t : LatencyTracker) : Z := if lt_count t =? 0 then 0 else lt_sum t / lt_count t.
Definition lt_retained (t : LatencyTracker) : Z :=
  Z.min (lt_count t) (Z.of_nat (length (lt_samples t))).

(** ** The session windows by time of day *)

Definition time_of_day (t : Timestamp) : Z := t mod kNsPerDay.

(** A timestamp with a whole day left before 2^64 (the year 2554). *)
Definition representable (t : Timestamp) : Prop := 0 <= t /\ t + kNsPerDay < 2 ^ 64.

Lemma time_of_day_split t h m s :
  representable t -> 0 <= h * 3600 + m * 60 + s < 86400 ->
  ist_time_of_day_ns t h m s =
    t - time_of_day t + (h * 3600 + m * 60 + s) * kNsPerSecond.
Proof.
  intros [H0 Hm] Htod. unfold ist_time_of_day_ns, ist_midnight_ns, time_of_day.
  assert (0 < kNsPerDay) as Hd by done.
  pose proof (Z.div_mod t kNsPerDay ltac:(lia)) as E.
  pose proof (Z.mod_pos_bound t kNsPerDay Hd).
  unfold kNsPerDay, kNsPerSecond in *.
  rewrite (wrap_u_id 64 (t / _ * _)) by ranges.
  rewrite (wrap_u_id 64 (_ * 1000000000)) by ranges. rewrite wrap_u_id; ranges.
Qed.

Lemma window_test t h m s :
  representable t -> 0 <= h * 3600 + m * 60 + s < 86400 ->
  (t <? ist_time_of_day_ns t h m s) = (time_of_day t <? (h * 3600 + m * 60 + s) * kNsPerSecond).
Proof.
  intros Ht Htod. rewrite (time_of_day_split t h m s Ht Htod).
  destruct (time_of_day t <? _) eqn:E; bool_arith; [apply Z.ltb_lt|apply Z.ltb_ge]; lia.
Qed.

(** The session predicates are exactly the NSE windows in IST: normal market
    from 09:15:00 to 15:30:00, pre-open from 09:00:00 to 09:15:00, both closed on
    the left and open on the right and hence disjoint, and the pre-close sweep
    from 15:25:00 to the end of the day. *)
Theorem session_windows t :
  representable t ->
  is_within_market_hours t =
    (33300 * kNsPerSecond <=? time_of_day t) && (time_of_day t <? 55800 * kNsPerSecond) /\
  is_preopen t = (32400 * kNsPerSecond <=? time_of_day t) && (time_of_day t <? 33300 * kNsPerSecond) /\
  (t >=? preclose_cancel_ns t) = (55500 * kNsPerSecond <=? time_of_day t) /\
  is_within_market_hours t && is_preopen t = false.
Proof.
  intros Ht.
  assert (is_within_market_hours t =
    (33300 * kNsPerSecond <=? time_of_day t) && (time_of_day t <? 55800 * kNsPerSecond)) as E1.
  { unfold is_within_market_hours, market_open_ns, market_close_ns.
    rewrite Z.geb_leb, Z.leb_antisym, !window_test by (done || lia). by rewrite <- Z.leb_antisym. }
  assert (is_preopen t =
    (32400 * kNsPerSecond <=? time_of_day t) && (time_of_day t <? 33300 * kNsPerSecond)) as E2.
  { unfold is_preopen, market_open_ns, preopen_start_ns.
    rewrite Z.geb_leb, Z.leb_antisym, !window_test by (done || lia). by rewrite <- Z.leb_antisym. }
  split; [done|]. split; [done|]. split.
  - unfold preclose_cancel_ns. rewrite Z.geb_leb, Z.leb_antisym, window_test by (done || lia).
    by rewrite <- Z.leb_antisym.
  - rewrite E1, E2. apply not_true_is_false. intros H. bool_arith. lia.
Qed.

(** 10:00:00 IST on some day, and 15:29:59. *)
Lemma session_windows_witness :
  is_within_market_hours (20000 * kNsPerDay + 36000 * kNsPerSecond) = true /\
  is_preopen (20000 * kNsPerDay + 32400 * kNsPerSecond) = true /\
  (20000 * kNsPerDay + 55799 * kNsPerSecond >=?
     preclose_cancel_ns (20000 * kNsPerDay + 55799 * kNsPerSecond)) = true.
Proof.
  assert (forall d, 0 <= d < 86400 -> representable (20000 * kNsPerDay + d * kNsPerSecond)) as H
    by (intros d Hd; unfold representable, kNsPerDay, kNsPerSecond; ranges).
  rewrite (proj1 (session_windows _ (H 36000 ltac:(lia)))).
  rewrite (proj1 (proj2 (session_windows _ (H 32400 ltac:(lia))))).
  rewrite (proj1 (proj2 (proj2 (session_windows _ (H 55799 ltac:(lia)))))).
  split; [reflexivity|]. split; reflexivity.
Defined.
