(* ===== verification/TscClock.v ===== *)
(** * TscClock: calibration of the time-stamp counter (src/common/time_utils.hpp)

    [Calibrate] compares the counter with the monotonic clock over at least 100 ms; the
    readings of both are inputs, those of the clock in the loop as a list.  Conversions are
    in binary64 ([Rounding]). *)

From Stdlib Require Import ZArith Lia SpecFloat.
From stdpp Require Import base numbers option list.
From S2P Require Import Prelude Types Double Rounding TimeUtils.

Local Open Scope Z_scope.

Record timespec := { tv_sec : Z; tv_nsec : Z }.

(** [rdtsc] where there is no counter: the monotonic clock itself. *)
Definition rdtsc_fallback (ts : timespec) : Z := u64 (u64 (u64 (tv_sec ts) * kNsPerSecond) + u64 (tv_nsec ts)).

Definition kCalibrationNs : Z := 100 * 1000000.

(** [static_cast<uint64_t>(end.tv_sec - start.tv_sec) * kNsPerSecond +
     static_cast<uint64_t>(end.tv_nsec - start.tv_nsec)]. *)
Definition elapsed_since (start_ts end_ts : timespec) : Z :=
  u64 (u64 (u64 (i64 (tv_sec end_ts - tv_sec start_ts)) * kNsPerSecond) +
       u64 (i64 (tv_nsec end_ts - tv_nsec start_ts))).

(** The [do ... while]; [None] when the readings end before 100 ms have passed. *)
Fixpoint calibrate_wait (start_ts : timespec) (readings : list timespec) : option Z :=
  match readings with
  | [] => None
  | end_ts :: readings =>
      let elapsed_ns := elapsed_since start_ts end_ts in
      if elapsed_ns <? kCalibrationNs then calibrate_wait start_ts readings else Some elapsed_ns
  end.

Definition Calibrate (start_ts : timespec) (start_tsc : Z) (readings : list timespec) (end_tsc : Z)
    : option spec_float :=
  elapsed_ns ← calibrate_wait start_ts readings;
  let tpns := dbl_div (dbl (u64 (end_tsc - start_tsc))) (dbl elapsed_ns) in
  Some (if dbl_gt tpns (dbl 0) then tpns else dbl 1).

(** [static_cast<uint64_t>]; [None] where the cast is undefined. *)
Definition dbl_to_u64 (d : spec_float) : option Z :=
  v ← dbl_to_size d; if v <? 2 ^ 64 then Some v else None.

(** The members of [TscClock], on [ticks_per_ns_]. *)
Definition ticks_per_second (ticks_per_ns : spec_float) : option Z :=
  dbl_to_u64 (dbl_mul ticks_per_ns (dbl kNsPerSecond)).
Definition to_ns (ticks_per_ns : spec_float) (cycles : Z) : option Z :=
  dbl_to_u64 (dbl_div (dbl cycles) ticks_per_ns).

(** ** The elapsed time *)

Definition nanos (ts : timespec) : Z := tv_sec ts * kNsPerSecond + tv_nsec ts.

Definition clock_reading (ts : timespec) : Prop := 0 <= tv_sec ts < 2 ^ 63 /\ 0 <= tv_nsec ts < kNsPerSecond.

(** The unsigned sum is right although the nanosecond fields may decrease. *)
Lemma elapsed_exact s e :
  clock_reading s -> clock_reading e -> 0 <= nanos e - nanos s < 2 ^ 64 -> elapsed_since s e = nanos e - nanos s.
Proof.
  unfold clock_reading, nanos, elapsed_since, kNsPerSecond. intros [S1 S2] [E1 E2] Hd.
  rewrite !(wrap_s_id 64) by (lia || (unfold in_s; cbn; lia)).
  assert (forall a b, u64 (u64 a * b) = u64 (a * b)) as Hmul.
  { intros a b. unfold wrap_u. by rewrite Z.mul_mod_idemp_l. }
  rewrite Hmul, wrap_u_add_l, wrap_u_add_r by lia. rewrite wrap_u_id by (unfold in_u; cbn; lia). lia.
Qed.

(** The loop stops at the first reading 100 ms after the start. *)
Lemma calibrate_wait_first s rs n e :
  clock_reading s -> Forall clock_reading rs -> Forall (fun r => 0 <= nanos r - nanos s < 2 ^ 63) rs ->
  rs !! n = Some e -> kCalibrationNs <= nanos e - nanos s ->
  (forall j r, (j < n)%nat -> rs !! j = Some r -> nanos r - nanos s < kCalibrationNs) ->
  calibrate_wait s rs = Some (nanos e - nanos s).
Proof.
  intros Hs. revert n. induction rs as [|r rs IH]; intros n Hr Hm Hn Hge Hlt; [done|].
  apply Forall_cons_1 in Hr as [Hr Hrs]. apply Forall_cons_1 in Hm as [Hm Hms].
  cbn [calibrate_wait]. rewrite elapsed_exact by (done || lia). destruct n as [|n].
  - cbn in Hn. injection Hn as ->. by rewrite (proj2 (Z.ltb_ge _ _)).
  - rewrite (proj2 (Z.ltb_lt _ _)) by (apply (Hlt 0%nat r); [lia|done]).
    apply (IH n); [done|done|done|done|]. intros j x Hj Hx. apply (Hlt (S j) x); [lia|done].
Qed.

(** ** Conversions *)

Lemma pow_scale_pos : 0 < 2 ^ kScale.
Proof. apply Z.pow_pos_nonneg; scale; lia. Qed.

Lemma units_pos_gt f : canon f -> dbl_gt f (dbl 0) = (0 <? units f).
Proof.
  destruct f as [s|s| |s m e]; try contradiction; [done|]. intros (-> & _ & He & _). cbn [units].
  rewrite (proj2 (Z.ltb_lt _ _)); [done|]. apply Z.mul_pos_pos; [lia|]. apply Z.pow_pos_nonneg; scale; lia.
Qed.

(** The quotient of two conversions of 64-bit integers. *)
Lemma quotient_rn x d :
  in_u 64 x -> canon d -> 0 < units d -> 2 ^ kScale <= units d * 2 ^ 64 ->
  rn (units (dbl x) * 2 ^ kScale) (units d) (dbl_div (dbl x) d).
Proof.
  intros Hx Hd Hpos Hlow. destruct (dbl_u64 x Hx) as (Hc & Hu & _). pose proof pow_scale_pos.
  apply dbl_div_rn; [done|done|done|].
  assert (2 ^ 130 < 2 ^ 900) as Hbig by (apply Z.pow_lt_mono_r; lia).
  rewrite (Z.pow_add_r 2 kScale 900) by (scale; lia).
  apply Z.le_lt_trans with (2 ^ 64 * 2 ^ kScale * 2 ^ kScale); [nia|].
  apply Z.lt_le_trans with (units d * 2 ^ 64 * 2 ^ kScale * 2 ^ 66); [nia|]. nia.
Qed.

(** A longer interval never converts to fewer nanoseconds. *)
Lemma to_ns_mono d c1 c2 v2 :
  canon d -> 0 < units d -> 2 ^ kScale <= units d * 2 ^ 64 -> in_u 64 c1 -> in_u 64 c2 -> c1 <= c2 ->
  to_ns d c2 = Some v2 -> exists v1, to_ns d c1 = Some v1 /\ v1 <= v2.
Proof.
  intros Hd Hpos Hlow H1 H2 Hle Hv. pose proof (quotient_rn c1 d H1 Hd Hpos Hlow) as R1.
  pose proof (quotient_rn c2 d H2 Hd Hpos Hlow) as R2. pose proof pow_scale_pos as HP.
  assert (units (dbl_div (dbl c1) d) <= units (dbl_div (dbl c2) d)) as Hu.
  { apply (rn_mono _ _ _ _ _ _ Hpos Hpos R1 R2). pose proof (dbl_mono c1 c2 H1 H2 Hle).
    apply Z.mul_le_mono_nonneg_r; [lia|]. apply Z.mul_le_mono_nonneg_r; lia. }
  unfold to_ns, dbl_to_u64 in *. rewrite to_size_units in Hv |- * by (apply R1 || apply R2).
  cbn [mbind option_bind] in *. case_if_in Hv; [|done]. injection Hv as <-. bool_arith.
  pose proof (Z.div_le_mono _ _ _ HP Hu) as Hq. rewrite (proj2 (Z.ltb_lt _ _)) by lia. by eexists.
Qed.

(** With at least one tick a nanosecond every interval below [2^63] cycles converts. *)
Lemma to_ns_defined d c : canon d -> 2 ^ kScale <= units d -> 0 <= c <= 2 ^ 63 -> is_Some (to_ns d c).
Proof.
  intros Hd Hge Hc. pose proof pow_scale_pos as HP. assert (in_u 64 c) as Hu by (unfold in_u; cbn; lia).
  pose proof (quotient_rn c d Hu Hd ltac:(lia) ltac:(lia)) as R.
  destruct (scaled_float 1 63) as (g & Hg & Eg); [lia|lia|].
  assert (units (dbl c) <= units g) as H1.
  { assert (2 ^ 64 < 2 ^ 900) by (apply Z.pow_lt_mono_r; lia).
    apply (rn_mono (c * 2 ^ kScale) 1 (units g) 1); [lia|lia|apply dbl_rn; lia|by apply rn_canon|].
    rewrite Eg, Z.pow_add_r by (scale; lia). nia. }
  assert (units (dbl_div (dbl c) d) <= units g) as H2.
  { apply (rn_mono _ (units d) _ 1 _ _ ltac:(lia) ltac:(lia) R (rn_canon g Hg)). nia. }
  unfold to_ns, dbl_to_u64. rewrite to_size_units by apply R. cbn [mbind option_bind].
  rewrite (proj2 (Z.ltb_lt _ _)); [by eexists|]. apply Z.div_lt_upper_bound; [done|].
  rewrite Eg, Z.pow_add_r in H2 by (scale; lia). lia.
Qed.

(** The counter is calibrated soundly.  Whatever the counter reads, when the clock never
    runs backwards and some reading comes 100 ms after the start, the calibration stops at the
    first such reading with the exact elapsed time; the rate it keeps is a positive finite number, the correctly
    rounded quotient of ticks and nanoseconds (1.0 if the counter did not move); under that rate a
    longer interval never converts to fewer nanoseconds, and if the counter ticks at least once a
    nanosecond every interval of up to [2^63] cycles converts. *)
Theorem calibration_sound s tsc0 rs tsc1 n e :
  clock_reading s -> Forall clock_reading rs -> Forall (fun r => 0 <= nanos r - nanos s < 2 ^ 63) rs ->
  rs !! n = Some e -> kCalibrationNs <= nanos e - nanos s ->
  (forall j r, (j < n)%nat -> rs !! j = Some r -> nanos r - nanos s < kCalibrationNs) ->
  let ticks := u64 (tsc1 - tsc0) in
  let ns := nanos e - nanos s in
  exists rate, Calibrate s tsc0 rs tsc1 = Some rate /\ canon rate /\ 0 < units rate /\
    (if ticks =? 0 then rate = dbl 1
     else rn (units (dbl ticks) * 2 ^ kScale) (units (dbl ns)) rate) /\
    (forall c1 c2 v2, in_u 64 c1 -> in_u 64 c2 -> c1 <= c2 -> to_ns rate c2 = Some v2 ->
       exists v1, to_ns rate c1 = Some v1 /\ v1 <= v2) /\
    (ns <= ticks -> forall c, 0 <= c <= 2 ^ 63 -> is_Some (to_ns rate c)).
Proof.
  intros Hs Hrs Hmono Hn Hge Hfirst. cbv zeta. unfold Calibrate.
  rewrite (calibrate_wait_first s rs n e) by done. cbn [mbind option_bind].
  set (ticks := u64 (tsc1 - tsc0)). set (ns := nanos e - nanos s) in *.
  assert (in_u 64 ticks) as Ht by (apply wrap_u_range; lia).
  assert (0 < ns < 2 ^ 63) as Hns.
  { rewrite Forall_lookup in Hmono. specialize (Hmono n e Hn). unfold kCalibrationNs in Hge. subst ns. lia. }
  assert (in_u 64 ns) as Hnu by (unfold in_u; cbn; lia).
  destruct (dbl_u64 ns Hnu) as (Cn & Un & Pn). specialize (Pn ltac:(lia)). pose proof pow_scale_pos as HP.
  pose proof (quotient_rn ticks (dbl ns) Ht Cn ltac:(lia) ltac:(lia)) as R.
  destruct (dbl_int 1 ltac:(lia)) as [C1 E1].
  rewrite units_pos_gt by apply R. destruct (Z.eqb_spec ticks 0) as [Ez|Hnz].
  - assert (dbl_div (dbl ticks) (dbl ns) = S754_zero false \/ units (dbl_div (dbl ticks) (dbl ns)) = 0) as Hz.
    { right. apply (rn_exact _ (units (dbl ns)) _ (S754_zero false) ltac:(lia) R); [done|]. rewrite Ez. done. }
    assert (units (dbl_div (dbl ticks) (dbl ns)) = 0) as Hu by (destruct Hz as [->|?]; done).
    rewrite Hu. cbn [Z.ltb Z.compare]. exists (dbl 1).
    split_and!; [done|done|lia|done| |lia].
    intros c1 c2 v2 H1 H2 Hle. apply to_ns_mono; [exact C1|lia|lia|exact H1|exact H2|exact Hle].
  - destruct (dbl_u64 ticks Ht) as (_ & _ & Pt). unfold in_u in Ht. cbn in Ht. specialize (Pt ltac:(lia)).
    destruct (scaled_float 1 (-64)) as (g & Hg & Eg); [lia|lia|].
    assert (2 ^ kScale = 2 ^ 64 * 2 ^ (-64 + kScale)) as E64.
    { rewrite <- Z.pow_add_r by (scale; lia). f_equal; lia. }
    assert (units g <= units (dbl_div (dbl ticks) (dbl ns))) as Hlow.
    { apply (rn_mono _ 1 _ (units (dbl ns)) _ _ ltac:(lia) ltac:(lia) (rn_canon g Hg) R). rewrite Eg. nia. }
    assert (0 < 2 ^ (-64 + kScale)) by (apply Z.pow_pos_nonneg; scale; lia).
    rewrite (proj2 (Z.ltb_lt _ _)) by lia. eexists. split; [done|].
    split_and!; [apply R|lia|done| |].
    + intros c1 c2 v2 H1 H2 Hle. apply to_ns_mono; [apply R|lia|lia|exact H1|exact H2|exact Hle].
    + intros Hfast c Hc. apply to_ns_defined; [apply R| |done].
      rewrite <- (Z.mul_1_l (2 ^ kScale)), <- E1.
      apply (rn_mono _ 1 _ (units (dbl ns)) _ _ ltac:(lia) ltac:(lia) (rn_canon _ C1) R).
      pose proof (dbl_mono ns ticks Hnu ltac:(unfold in_u; cbn; lia) Hfast). rewrite E1. nia.
Qed.

(** 3 GHz: the second reading is late enough. *)
Lemma calibration_sound_witness :
  exists rate, Calibrate {| tv_sec := 5; tv_nsec := 950000000 |} 1000
      [{| tv_sec := 5; tv_nsec := 990000000 |}; {| tv_sec := 6; tv_nsec := 50000000 |}] 300001000 = Some rate /\
    0 < units rate /\ is_Some (to_ns rate 6000) /\ to_ns rate 6000 = Some 2000.
Proof.
  destruct (calibration_sound {| tv_sec := 5; tv_nsec := 950000000 |} 1000
    [{| tv_sec := 5; tv_nsec := 990000000 |}; {| tv_sec := 6; tv_nsec := 50000000 |}] 300001000 1
    {| tv_sec := 6; tv_nsec := 50000000 |}) as (rate & H1 & _ & H2 & _ & _ & H3).
  - vm_compute. intuition congruence.
  - repeat constructor; vm_compute; congruence.
  - repeat constructor; vm_compute; congruence.
  - reflexivity.
  - vm_compute. discriminate.
  - intros [|j] r Hj Hr; [|lia]. injection Hr as <-. vm_compute. reflexivity.
  - exists rate. split; [exact H1|]. split; [exact H2|]. split; [apply H3; vm_compute; intuition congruence|].
    assert ((Calibrate {| tv_sec := 5; tv_nsec := 950000000 |} 1000
      [{| tv_sec := 5; tv_nsec := 990000000 |}; {| tv_sec := 6; tv_nsec := 50000000 |}] 300001000
      ≫= fun r => to_ns r 6000) = Some 2000) as Hv by (vm_compute; reflexivity).
    rewrite H1 in Hv. exact Hv.
Defined.
