(* ===== verification/SymbolMaster.v ===== *)
(** * SymbolMaster: instrument reference data (src/session/symbol_master.hpp)

    [table_], a vector of 65536 rows indexed by token, is a finite map in which
    an absent row is the default (inactive) [Instrument].  Loading the table from
    its CSV file is in [SymbolCsv]; [put] is what it calls for every row. *)

From Stdlib Require Import ZArith Lia.
From stdpp Require Import base gmap list numbers strings.
From S2P Require Import Prelude Types.

Local Open Scope Z_scope.

Definition kSymbolTableSize : Z := 65536.

Inductive InstrumentType : Set :=
  kUnknown | kEquity | kFutIdx | kFutStk | kOptIdx | kOptStk.
Inductive OptionType : Set := kNone | kCall | kPut.

Record Instrument := {
  in_token : Token;
  in_segment : Z;
  in_instrument_type : InstrumentType;
  in_option_type : OptionType;
  in_lot_size : Quantity;
  in_tick_size : Price;
  in_strike_price : Price;
  in_prev_close : Price;
  in_circuit_pct_x100 : Z;
  in_expiry_yyyymmdd : Z;
  in_active : bool;
  in_symbol : string;
  in_series : string;
}.

Definition default_instrument : Instrument :=
  {| in_token := 0; in_segment := 0; in_instrument_type := kUnknown; in_option_type := kNone;
     in_lot_size := 1; in_tick_size := 0; in_strike_price := 0; in_prev_close := 0;
     in_circuit_pct_x100 := 0; in_expiry_yyyymmdd := 0; in_active := false; in_symbol := "";
     in_series := "" |}.

Definition activate (i : Instrument) : Instrument :=
  {| in_token := in_token i; in_segment := in_segment i;
     in_instrument_type := in_instrument_type i; in_option_type := in_option_type i;
     in_lot_size := in_lot_size i; in_tick_size := in_tick_size i;
     in_strike_price := in_strike_price i; in_prev_close := in_prev_close i;
     in_circuit_pct_x100 := in_circuit_pct_x100 i; in_expiry_yyyymmdd := in_expiry_yyyymmdd i;
     in_active := true; in_symbol := in_symbol i; in_series := in_series i |}.

Record SymbolMaster := { sm_table : gmap Z Instrument; sm_count : Z }.

Definition SymbolMaster_new : SymbolMaster := {| sm_table := ∅; sm_count := 0 |}.

Definition row (sm : SymbolMaster) (token : Token) : Instrument :=
  default default_instrument (sm_table sm !! token).

Definition put (inst : Instrument) (sm : SymbolMaster) : SymbolMaster :=
  if in_token inst >=? kSymbolTableSize then sm
  else
    {| sm_table := <[in_token inst := activate inst]> (sm_table sm);
       sm_count := if in_active (row sm (in_token inst)) then sm_count sm else sm_count sm + 1 |}.

Definition get (sm : SymbolMaster) (token : Token) : option Instrument :=
  if (token >=? kSymbolTableSize) || negb (in_active (row sm token)) then None
  else Some (row sm token).

Definition get_lot_size (sm : SymbolMaster) (token : Token) : Quantity :=
  match get sm token with Some i => in_lot_size i | None => 0 end.
Definition get_tick_size (sm : SymbolMaster) (token : Token) : Price :=
  match get sm token with Some i => in_tick_size i | None => 0 end.
Definition get_expiry (sm : SymbolMaster) (token : Token) : Z :=
  match get sm token with Some i => in_expiry_yyyymmdd i | None => 0 end.
Definition is_index_derivative (sm : SymbolMaster) (token : Token) : bool :=
  match get sm token with
  | Some i => match in_instrument_type i with kFutIdx | kOptIdx => true | _ => false end
  | None => false
  end.

(** [PriceBand] of the strategy ([RiskManager] has its own copy):
    [symbols_] may be null; the band is a percentage around the previous close. *)
Definition PriceBand (symbols : option SymbolMaster) (token : Token) : option (Price * Price) :=
  match symbols with
  | None => None
  | Some sm =>
      match get sm token with
      | None => None
      | Some inst =>
          if (in_prev_close inst <=? 0) || (in_circuit_pct_x100 inst =? 0) then None
          else
            let delta := Z.quot (i64 (in_prev_close inst * in_circuit_pct_x100 inst)) 10000 in
            Some (i64 (in_prev_close inst - delta), i64 (in_prev_close inst + delta))
      end
  end.

(** ** Insert and lookup *)

Lemma get_put sm inst token :
  get (put inst sm) token =
    if bool_decide (token = in_token inst) && (in_token inst <? kSymbolTableSize)
    then Some (activate inst) else get sm token.
Proof.
  unfold put. rewrite Z.geb_leb, Z.leb_antisym.
  destruct (in_token inst <? kSymbolTableSize) eqn:E; simpl; [|by rewrite andb_false_r].
  rewrite andb_true_r. unfold get, row; simpl. case_bool_decide as Ht.
  - subst. rewrite lookup_insert_eq. simpl. rewrite Z.geb_leb, Z.leb_antisym, E. done.
  - by rewrite lookup_insert_ne by done.
Qed.

(** The rows put into the table, by token: a later row of a token replaces an earlier one,
    and a token outside the table leaves no trace. *)
Definition puts_map (insts : list Instrument) : gmap Z Instrument :=
  foldl (fun (m : gmap Z Instrument) i =>
    if in_token i <? kSymbolTableSize then <[in_token i := activate i]> m else m) ∅ insts.

(** A table without active rows holds afterwards exactly what was put. *)
Lemma puts_from_empty insts sm :
  (forall token, get sm token = None) -> sm_count sm = 0 ->
  let sm' := foldl (fun sm i => put i sm) sm insts in
  (forall token, get sm' token = puts_map insts !! token) /\ sm_count sm' = Z.of_nat (size (puts_map insts)).
Proof.
  intros Hnone Hzero. cbv zeta. unfold puts_map.
  assert (forall sm (m : gmap Z Instrument),
    (forall token, get sm token = m !! token) /\ sm_count sm = Z.of_nat (size m) ->
    let sm' := foldl (fun sm i => put i sm) sm insts in
    let m' := foldl (fun (m : gmap Z Instrument) i =>
       if in_token i <? kSymbolTableSize then <[in_token i := activate i]> m else m) m insts in
    (forall token, get sm' token = m' !! token) /\ sm_count sm' = Z.of_nat (size m')) as H.
  { clear. induction insts as [|i insts IH]; intros sm m [Hg Hc]; simpl; [done|]. apply IH. split.
    - intros token. rewrite get_put, Hg.
      destruct (in_token i <? kSymbolTableSize); [|by rewrite andb_false_r].
      rewrite andb_true_r. case_bool_decide as E; [by subst; rewrite lookup_insert_eq|].
      by rewrite lookup_insert_ne.
    - pose proof (Hg (in_token i)) as Hi. unfold put, get in *. rewrite Z.geb_leb, Z.leb_antisym in *.
      destruct (in_token i <? kSymbolTableSize); simpl in *; [|done].
      destruct (in_active (row sm (in_token i))); simpl in *.
      + rewrite map_size_insert_Some; [done|by rewrite <- Hi].
      + rewrite map_size_insert_None by done. lia. }
  apply H. split; [|done]. intros token. by rewrite Hnone, lookup_empty.
Qed.

(** After any sequence of [put]s, [get] returns the last instrument put for
    the token, marked active, and nothing for a token never put or outside the
    table; [count] is the number of distinct tokens in the table. *)
Theorem symbol_master_is_map (insts : list Instrument) :
  let sm := foldl (fun sm i => put i sm) SymbolMaster_new insts in
  (forall token, get sm token = puts_map insts !! token) /\ sm_count sm = Z.of_nat (size (puts_map insts)).
Proof.
  apply puts_from_empty; [|done]. intros token. unfold get, row. simpl. rewrite lookup_empty.
  by rewrite orb_true_r.
Qed.
