(* ===== verification/Quoting.v ===== *)
(** * Quoting math (src/strategy/quoting_math.hpp)

    Integer functions shared by the strategy and the iRage adapter.  [int] is 32
    bits, prices and quantities are 64; division truncates towards zero. *)

From Stdlib Require Import ZArith Lia.
From stdpp Require Import base numbers.
From S2P Require Import Prelude Types.

Local Open Scope Z_scope.

Definition clamp_ticks (v lim : Z) : Z := if v >? lim then lim else if v <? - lim then - lim else v.

Definition inventory_skew_ticks (position_units max_position_units max_skew_ticks : Z) : Z :=
  if (max_skew_ticks <=? 0) || (max_position_units <=? 0) then 0
  else clamp_ticks (i32 (Z.quot (i64 (position_units * max_skew_ticks)) max_position_units))
         max_skew_ticks.

Definition flow_skew_ticks (bid_qty ask_qty max_skew_ticks : Z) : Z :=
  if max_skew_ticks <=? 0 then 0
  else
    let denom := i64 (bid_qty + ask_qty) in
    if denom <=? 0 then 0
    else clamp_ticks (i32 (Z.quot (i64 (i64 (bid_qty - ask_qty) * max_skew_ticks)) denom))
           max_skew_ticks.

Record DesiredQuotes := { dq_bid_price : Z; dq_ask_price : Z }.

Definition desired_quotes (best_bid best_ask tick bid_qty ask_qty position_units
    max_position_units max_inv_skew_ticks max_flow_skew_ticks : Z) : DesiredQuotes :=
  let inv := inventory_skew_ticks position_units max_position_units max_inv_skew_ticks in
  let flow := flow_skew_ticks bid_qty ask_qty max_flow_skew_ticks in
  let shift := i64 (i32 (flow - inv) * tick) in
  {| dq_bid_price := i64 (i64 (best_bid - tick) + shift);
     dq_ask_price := i64 (i64 (best_ask + tick) + shift) |}.

(** ** Skews *)

Lemma clamp_range v lim : 0 <= lim -> - lim <= clamp_ticks v lim <= lim.
Proof. intros. unfold clamp_ticks. rewrite Z.gtb_ltb. repeat case_if; lia. Qed.

Lemma clamp_pos v lim : 0 <= lim -> 0 <= v -> 0 <= clamp_ticks v lim.
Proof. intros. unfold clamp_ticks. rewrite Z.gtb_ltb. repeat case_if; lia. Qed.

Lemma clamp_neg v lim : 0 <= lim -> v <= 0 -> clamp_ticks v lim <= 0.
Proof. intros. unfold clamp_ticks. rewrite Z.gtb_ltb. repeat case_if; lia. Qed.

(** The truncated quotient of [a * k] by [m] keeps the sign of [a] and is at most
    [|a| * k] in size. *)
Lemma quot_sign a k m :
  0 <= k -> 0 < m -> (0 <= a -> 0 <= Z.quot (a * k) m <= a * k) /\
                     (a <= 0 -> a * k <= Z.quot (a * k) m <= 0).
Proof.
  intros Hk Hm. split; intros Ha.
  - assert (0 <= a * k) by nia. split; [by apply Z.quot_pos|]. apply Z.quot_le_upper_bound; nia.
  - assert (0 <= - a * k) by nia. replace (a * k) with (- (- a * k)) by lia.
    rewrite Z.quot_opp_l by lia.
    pose proof (Z.quot_pos (- a * k) m ltac:(lia) Hm).
    pose proof (Z.quot_le_upper_bound (- a * k) m (- a * k) Hm ltac:(nia)). lia.
Qed.

Section Skew.
(** The knobs are small: no product leaves its type. *)
Context (k : Z) (Hk : 0 <= k < 2 ^ 10).

Lemma inventory_skew_bounds pos max :
  Z.abs pos < 2 ^ 21 -> 
  - k <= inventory_skew_ticks pos max k <= k /\
  (0 <= pos -> 0 <= inventory_skew_ticks pos max k) /\
  (pos <= 0 -> inventory_skew_ticks pos max k <= 0).
Proof.
  intros Hp. unfold inventory_skew_ticks. case_if; [lia|].
  destruct (quot_sign pos k max) as [Hq1 Hq2]; [lia..|].
  assert (Z.abs (pos * k) < 2 ^ 31) as Hb by (rewrite Z.abs_mul; ranges || nia).
  rewrite (wrap_s_id 64) by ranges.
  assert (Z.abs (Z.quot (pos * k) max) < 2 ^ 31) by (destruct (Z.le_gt_cases 0 pos); lia).
  rewrite wrap_s_id by ranges.
  split; [apply clamp_range; lia|]. split; intros; [apply clamp_pos|apply clamp_neg]; lia.
Qed.

Lemma flow_skew_bounds bq aq :
  0 <= bq < 2 ^ 31 -> 0 <= aq < 2 ^ 31 ->
  - k <= flow_skew_ticks bq aq k <= k /\
  (aq <= bq -> 0 <= flow_skew_ticks bq aq k) /\ (bq <= aq -> flow_skew_ticks bq aq k <= 0).
Proof.
  intros Hb Ha. unfold flow_skew_ticks. case_if; [lia|].
  rewrite !(wrap_s_id 64 (bq + aq)), !(wrap_s_id 64 (bq - aq)) by ranges.
  case_if; [lia|].
  assert (Z.abs ((bq - aq) * k) < 2 ^ 62) by (rewrite Z.abs_mul; nia).
  rewrite (wrap_s_id 64) by ranges.
  destruct (quot_sign (bq - aq) k (bq + aq)) as [Hq1 Hq2]; [lia..|].
  (* |bq - aq| <= bq + aq, so the quotient is at most [k] in size *)
  assert (- k <= Z.quot ((bq - aq) * k) (bq + aq) <= k) as Hq.
  { split.
    - apply Z.quot_le_lower_bound; nia.
    - apply Z.quot_le_upper_bound; nia. }
  rewrite wrap_s_id by ranges.
  split; [apply clamp_range; lia|]. split; intros; [apply clamp_pos|apply clamp_neg]; lia.
Qed.
End Skew.

(** For prices, ticks and knobs of realistic size no intermediate overflows
    and the desired pair is the touch widened by one tick on each side and moved
    as a whole: its width is the spread plus two ticks whatever the skews; with
    both knobs at zero it is exactly (bid - tick, ask + tick); the move is at most
    (inventory + flow) ticks, never up when long with no buy pressure, never down
    when short with no sell pressure. *)
Theorem desired_quotes_shape bb ba tick bq aq pos max ki kf :
  Z.abs bb < 2 ^ 60 -> Z.abs ba < 2 ^ 60 -> 0 < tick < 2 ^ 40 ->
  0 <= bq < 2 ^ 31 -> 0 <= aq < 2 ^ 31 -> Z.abs pos < 2 ^ 21 ->
  0 <= ki < 2 ^ 10 -> 0 <= kf < 2 ^ 10 ->
  let q := desired_quotes bb ba tick bq aq pos max ki kf in
  dq_ask_price q - dq_bid_price q = ba - bb + 2 * tick /\
  Z.abs (dq_bid_price q - (bb - tick)) <= (ki + kf) * tick /\
  (ki = 0 -> kf = 0 -> dq_bid_price q = bb - tick /\ dq_ask_price q = ba + tick) /\
  (0 <= pos -> bq <= aq -> dq_bid_price q <= bb - tick) /\
  (pos <= 0 -> aq <= bq -> bb - tick <= dq_bid_price q).
Proof.
  intros Hbb Hba Ht Hbq Haq Hpos Hki Hkf. unfold desired_quotes. cbv zeta.
  destruct (inventory_skew_bounds ki Hki pos max Hpos) as (Hi & Hip & Hin).
  destruct (flow_skew_bounds kf Hkf bq aq Hbq Haq) as (Hf & Hfp & Hfn).
  set (inv := inventory_skew_ticks pos max ki) in *. set (flow := flow_skew_ticks bq aq kf) in *.
  rewrite (wrap_s_id 32) by ranges.
  assert (Z.abs ((flow - inv) * tick) <= (ki + kf) * tick) as Hs by (rewrite Z.abs_mul; nia).
  assert ((ki + kf) * tick < 2 ^ 52) by nia.
  rewrite (wrap_s_id 64 ((flow - inv) * tick)) by ranges.
  rewrite (wrap_s_id 64 (bb - tick)), (wrap_s_id 64 (ba + tick)) by ranges.
  set (shift := (flow - inv) * tick) in *.
  rewrite (wrap_s_id 64 (bb - tick + shift)), (wrap_s_id 64 (ba + tick + shift)) by ranges.
  cbn [dq_bid_price dq_ask_price].
  split; [lia|]. split; [lia|]. split; [intros -> ->; assert (shift = 0) by nia; lia|].
  split; intros Hp Hq.
  - specialize (Hip Hp). specialize (Hfn Hq). assert (shift <= 0) by (unfold shift; nia). lia.
  - specialize (Hin Hp). specialize (Hfp Hq). assert (0 <= shift) by (unfold shift; nia). lia.
Qed.

(** Long 60 of at most 100 with a four-tick skew: both quotes move down two ticks. *)
Lemma desired_quotes_shape_witness :
  let q := desired_quotes 10000 10010 5 100 100 60 100 4 4 in
  dq_bid_price q = 9985 /\ dq_ask_price q = 10005 /\ dq_ask_price q - dq_bid_price q = 20.
Proof.
  cbv zeta. split; [reflexivity|]. split; [reflexivity|].
  rewrite (proj1 (desired_quotes_shape 10000 10010 5 100 100 60 100 4 4
    ltac:(lia) ltac:(lia) ltac:(lia) ltac:(lia) ltac:(lia) ltac:(lia) ltac:(lia) ltac:(lia))).
  reflexivity.
Defined.
