(* ===== verification/MarketMaking.v ===== *)
(** * MarketMaking: the quoting strategy (src/strategy/market_making.hpp)

    [quotes_] and [position_], vectors of 65536 entries indexed by token, are
    finite maps in which an absent entry has its initial value.  [pending_] and
    [cancels_] are the first [pending_count_] and [cancel_count_] elements of the
    fixed arrays, capacity tests included.  [wall] is what [ist_now_ns] would
    return; a simulated clock replaces it.

    [StrategyBase] (src/strategy/strategy_base.hpp) is the interface the pipeline
    drives, with the promises it relies on. *)

From Stdlib Require Import ZArith Lia.
From stdpp Require Import base gmap list numbers option strings.
From S2P Require Import Prelude Types LevelArray OrderBook BookManager TimeUtils SymbolMaster Quoting.

Local Open Scope Z_scope.

Record MarketMakingConfig := {
  mc_segment : Z;
  mc_max_position_lots : Z;
  mc_max_spread_ticks : Z;
  mc_quote_ttl_ns : Z;
  mc_quote_lots : Z;
  mc_max_inv_skew_ticks : Z;
  mc_max_flow_skew_ticks : Z;
}.

Record QuoteState := {
  qs_bid_active : bool;
  qs_ask_active : bool;
  qs_bid_price : Price;
  qs_ask_price : Price;
  qs_bid_ts : Timestamp;
  qs_ask_ts : Timestamp;
  qs_bid_clordid : ClOrdId;
  qs_ask_clordid : ClOrdId;
}.

Definition zero_quote : QuoteState :=
  {| qs_bid_active := false; qs_ask_active := false; qs_bid_price := 0; qs_ask_price := 0;
     qs_bid_ts := 0; qs_ask_ts := 0; qs_bid_clordid := 0; qs_ask_clordid := 0 |}.

Definition kMaxPending : nat := 16.

Record MarketMaking := {
  mm_symbols : option SymbolMaster;
  mm_cfg : MarketMakingConfig;
  mm_quotes : gmap Z QuoteState;
  mm_position : gmap Z Z;
  mm_next_clordid : ClOrdId;
  mm_sim_now_ns : Timestamp;
  mm_pending : list Order;
  mm_cancels : list ClOrdId;
}.

Definition MarketMaking_new (symbols : option SymbolMaster) (cfg : MarketMakingConfig)
    : MarketMaking :=
  {| mm_symbols := symbols; mm_cfg := cfg; mm_quotes := ∅; mm_position := ∅;
     mm_next_clordid := 1; mm_sim_now_ns := 0; mm_pending := []; mm_cancels := [] |}.

Definition quote (mm : MarketMaking) (token : Token) : QuoteState :=
  default zero_quote (mm_quotes mm !! token).

Definition pos (mm : MarketMaking) (token : Token) : Quantity := default 0 (mm_position mm !! token).

Definition mm_position_of (mm : MarketMaking) (token : Token) : Quantity :=
  if token <? kMaxTokens then pos mm token else 0.

(** Field updates. *)
Definition set_quotes (q : gmap Z QuoteState) (mm : MarketMaking) : MarketMaking :=
  {| mm_symbols := mm_symbols mm; mm_cfg := mm_cfg mm; mm_quotes := q;
     mm_position := mm_position mm; mm_next_clordid := mm_next_clordid mm;
     mm_sim_now_ns := mm_sim_now_ns mm; mm_pending := mm_pending mm;
     mm_cancels := mm_cancels mm |}.

Definition set_out (id : ClOrdId) (pending : list Order) (cancels : list ClOrdId)
    (mm : MarketMaking) : MarketMaking :=
  {| mm_symbols := mm_symbols mm; mm_cfg := mm_cfg mm; mm_quotes := mm_quotes mm;
     mm_position := mm_position mm; mm_next_clordid := id; mm_sim_now_ns := mm_sim_now_ns mm;
     mm_pending := pending; mm_cancels := cancels |}.

Definition mm_set_position (p : gmap Z Z) (mm : MarketMaking) : MarketMaking :=
  {| mm_symbols := mm_symbols mm; mm_cfg := mm_cfg mm; mm_quotes := mm_quotes mm;
     mm_position := p; mm_next_clordid := mm_next_clordid mm;
     mm_sim_now_ns := mm_sim_now_ns mm; mm_pending := mm_pending mm;
     mm_cancels := mm_cancels mm |}.

Definition mm_set_now (ist_ns : Timestamp) (mm : MarketMaking) : MarketMaking :=
  {| mm_symbols := mm_symbols mm; mm_cfg := mm_cfg mm; mm_quotes := mm_quotes mm;
     mm_position := mm_position mm; mm_next_clordid := mm_next_clordid mm;
     mm_sim_now_ns := ist_ns; mm_pending := mm_pending mm; mm_cancels := mm_cancels mm |}.

(** One side of a [QuoteState], selected by [is_bid]. *)
Definition q_active (is_bid : bool) (q : QuoteState) : bool :=
  if is_bid then qs_bid_active q else qs_ask_active q.
Definition q_price (is_bid : bool) (q : QuoteState) : Price :=
  if is_bid then qs_bid_price q else qs_ask_price q.
Definition q_ts (is_bid : bool) (q : QuoteState) : Timestamp :=
  if is_bid then qs_bid_ts q else qs_ask_ts q.
Definition q_clordid (is_bid : bool) (q : QuoteState) : ClOrdId :=
  if is_bid then qs_bid_clordid q else qs_ask_clordid q.

Definition set_active (is_bid b : bool) (q : QuoteState) : QuoteState :=
  {| qs_bid_active := if is_bid then b else qs_bid_active q;
     qs_ask_active := if is_bid then qs_ask_active q else b;
     qs_bid_price := qs_bid_price q; qs_ask_price := qs_ask_price q;
     qs_bid_ts := qs_bid_ts q; qs_ask_ts := qs_ask_ts q;
     qs_bid_clordid := qs_bid_clordid q; qs_ask_clordid := qs_ask_clordid q |}.

Definition place (is_bid : bool) (price : Price) (ts : Timestamp) (id : ClOrdId) (q : QuoteState)
    : QuoteState :=
  {| qs_bid_active := if is_bid then true else qs_bid_active q;
     qs_ask_active := if is_bid then qs_ask_active q else true;
     qs_bid_price := if is_bid then price else qs_bid_price q;
     qs_ask_price := if is_bid then qs_ask_price q else price;
     qs_bid_ts := if is_bid then ts else qs_bid_ts q;
     qs_ask_ts := if is_bid then qs_ask_ts q else ts;
     qs_bid_clordid := if is_bid then id else qs_bid_clordid q;
     qs_ask_clordid := if is_bid then qs_ask_clordid q else id |}.

(** ** Private helpers *)

Definition TickSize (mm : MarketMaking) (token : Token) : Price :=
  let t := match mm_symbols mm with Some sm => get_tick_size sm token | None => 0 end in
  if t >? 0 then t else 1.

Definition LotSize (mm : MarketMaking) (token : Token) : Quantity :=
  let l := match mm_symbols mm with Some sm => get_lot_size sm token | None => 0 end in
  if l >? 0 then l else 1.

Definition ComputeDesired (mm : MarketMaking) (bb ba : PriceLevel) (tick pos_units max_pos_units : Z)
    : Price * Price :=
  let q := desired_quotes (pl_price bb) (pl_price ba) tick (pl_total_quantity bb)
             (pl_total_quantity ba) pos_units max_pos_units
             (mc_max_inv_skew_ticks (mm_cfg mm)) (mc_max_flow_skew_ticks (mm_cfg mm)) in
  (dq_bid_price q, dq_ask_price q).

(** The order [EmitNew] builds. *)
Definition new_quote_order (mm : MarketMaking) (token : Token) (is_bid : bool) (price : Price)
    (qty : Quantity) (now : Timestamp) : Order :=
  {| o_client_order_id := mm_next_clordid mm; o_exchange_order_no := 0; o_token := token;
     o_segment := mc_segment (mm_cfg mm); o_price := price; o_qty := qty; o_disclosed_qty := 0;
     o_side := if is_bid then kBuy else kSell; o_order_type := kLimit; o_validity := kDay;
     o_created_at := now |}.

(** Returns the new state and [*out_id] (0, its initial value, when full). *)
Definition EmitNew (token : Token) (is_bid : bool) (price : Price) (qty : Quantity)
    (now : Timestamp) (mm : MarketMaking) : MarketMaking * ClOrdId :=
  if (kMaxPending <=? length (mm_pending mm))%nat then (mm, 0)
  else
    let o := new_quote_order mm token is_bid price qty now in
    (set_out (i64 (mm_next_clordid mm + 1)) (mm_pending mm ++ [o]) (mm_cancels mm) mm,
     o_client_order_id o).

Definition EmitCancel (id : ClOrdId) (mm : MarketMaking) : MarketMaking :=
  if (length (mm_cancels mm) <? kMaxPending)%nat
  then set_out (mm_next_clordid mm) (mm_pending mm) (mm_cancels mm ++ [id]) mm else mm.

Definition CancelSide (token : Token) (bid : bool) (mm : MarketMaking) : MarketMaking :=
  let q := quote mm token in
  if q_active bid q then
    let mm := EmitCancel (q_clordid bid q) mm in
    set_quotes (<[token := set_active bid false q]> (mm_quotes mm)) mm
  else mm.

Definition QuoteOneSide (token : Token) (is_bid : bool) (desired : Price) (qty : Quantity)
    (allowed : bool) (now : Timestamp) (mm : MarketMaking) : MarketMaking :=
  let q := quote mm token in
  let active := q_active is_bid q in
  let cur_price := q_price is_bid q in
  let cur_ts := q_ts is_bid q in
  if negb allowed then CancelSide token is_bid mm
  else
    let stale := active && (u64 (now - cur_ts) >? mc_quote_ttl_ns (mm_cfg mm)) in
    if active && (cur_price =? desired) && negb stale then mm
    else
      let mm := if active then CancelSide token is_bid mm else mm in
      let '(mm, id) := EmitNew token is_bid desired qty now mm in
      set_quotes (<[token := place is_bid desired now id (quote mm token)]> (mm_quotes mm)) mm.

(** ** Handlers *)

Definition mm_now (wall : Timestamp) (mm : MarketMaking) : Timestamp :=
  if negb (mm_sim_now_ns mm =? 0) then mm_sim_now_ns mm else wall.

(** What the quoting decision is computed from, once all early returns passed. *)
Record QuotePlan := {
  qp_qty : Quantity;
  qp_bid : Price;
  qp_ask : Price;
  qp_bid_ok : bool;
  qp_ask_ok : bool;
}.

Definition in_band (band : option (Price * Price)) (p : Price) : bool :=
  match band with None => true | Some (lo, hi) => (lo <=? p) && (p <=? hi) end.

Definition plan (token : Token) (bid ask : PriceLevel) (mm : MarketMaking) : option QuotePlan :=
  let tick := TickSize mm token in
  if tick <=? 0 then None
  else
    let spread := i64 (pl_price ask - pl_price bid) in
    if spread >? i64 (mc_max_spread_ticks (mm_cfg mm) * tick) then None
    else
      let lot := LotSize mm token in
      let qty := i32 (mc_quote_lots (mm_cfg mm) * lot) in
      let net_lots := if lot >? 0 then Z.quot (pos mm token) lot else pos mm token in
      let band := PriceBand (mm_symbols mm) token in
      let max_lots := mc_max_position_lots (mm_cfg mm) in
      let '(desired_bid, desired_ask) :=
        ComputeDesired mm bid ask tick (pos mm token) (i32 (max_lots * lot)) in
      Some {| qp_qty := qty; qp_bid := desired_bid; qp_ask := desired_ask;
              qp_bid_ok := (net_lots <? max_lots) && in_band band desired_bid;
              qp_ask_ok := (net_lots >? - max_lots) && in_band band desired_ask |}.

Definition on_book_update (token : Token) (book : OrderBook) (wall : Timestamp) (mm : MarketMaking)
    : MarketMaking :=
  let mm := set_out (mm_next_clordid mm) [] [] mm in
  if token >=? kMaxTokens then mm
  else
    let now := mm_now wall mm in
    if now >=? preclose_cancel_ns now then CancelSide token false (CancelSide token true mm)
    else if negb (is_within_market_hours now) then mm
    else
      match best_bid book, best_ask book with
      | Some bid, Some ask =>
          match plan token bid ask mm with
          | None => mm
          | Some p =>
              let mm := QuoteOneSide token true (qp_bid p) (qp_qty p) (qp_bid_ok p) now mm in
              QuoteOneSide token false (qp_ask p) (qp_qty p) (qp_ask_ok p) now mm
          end
      | _, _ => mm
      end.

Definition mm_on_fill (fill : FillReport) (mm : MarketMaking) : MarketMaking :=
  let token := fr_token fill in
  if token >=? kMaxTokens then mm
  else
    let delta := if fr_side fill then fr_fill_qty fill else - fr_fill_qty fill in
    let mm := mm_set_position (<[token := i32 (pos mm token + delta)]> (mm_position mm)) mm in
    let done_side b q :=
      if (fr_client_order_id fill =? q_clordid b q) && (fr_remaining_qty fill =? 0)
      then set_active b false q else q in
    set_quotes (<[token := done_side false (done_side true (quote mm token))]> (mm_quotes mm)) mm.

(** The first token, in order, with an active quote of that id. *)
Fixpoint cancel_scan (ts : list Token) (id : ClOrdId) (mm : MarketMaking) : MarketMaking :=
  match ts with
  | [] => mm
  | t :: ts =>
      let q := quote mm t in
      if qs_bid_active q && (qs_bid_clordid q =? id) then
        set_quotes (<[t := set_active true false q]> (mm_quotes mm)) mm
      else if qs_ask_active q && (qs_ask_clordid q =? id) then
        set_quotes (<[t := set_active false false q]> (mm_quotes mm)) mm
      else cancel_scan ts id mm
  end.

Definition mm_on_cancel (id : ClOrdId) (reason_code : Z) (mm : MarketMaking) : MarketMaking :=
  cancel_scan (seqZ 0 kMaxTokens) id mm.

(** ** One side *)

(** What the quoting code never writes. *)
Definition same_setup (mm mm' : MarketMaking) : Prop :=
  mm_symbols mm' = mm_symbols mm /\ mm_cfg mm' = mm_cfg mm /\ mm_position mm' = mm_position mm /\
  mm_sim_now_ns mm' = mm_sim_now_ns mm.

#[global] Instance same_setup_preorder : PreOrder same_setup.
Proof. split; [done|]. intros x y z (?&?&?&?) (?&?&?&?). split_and!; congruence. Qed.

Lemma quote_set_eq token q mm qs :
  qs = mm_quotes mm -> quote (set_quotes (<[token := q]> qs) mm) token = q.
Proof. intros ->. unfold quote. simpl. by rewrite lookup_insert_eq. Qed.

Lemma quote_set_ne token t q qs mm :
  token <> t -> qs = mm_quotes mm -> quote (set_quotes (<[token := q]> qs) mm) t = quote mm t.
Proof. intros Hne ->. unfold quote. simpl. by rewrite lookup_insert_ne. Qed.

(** [CancelSide] with room in the cancel buffer. *)
Lemma CancelSide_spec token b mm :
  (length (mm_cancels mm) < kMaxPending)%nat ->
  let mm' := CancelSide token b mm in
  same_setup mm mm' /\ mm_pending mm' = mm_pending mm /\
  mm_next_clordid mm' = mm_next_clordid mm /\
  mm_cancels mm' = mm_cancels mm ++
    (if q_active b (quote mm token) then [q_clordid b (quote mm token)] else []) /\
  quote mm' token = (if q_active b (quote mm token) then set_active b false (quote mm token)
                     else quote mm token) /\
  forall t, t <> token -> quote mm' t = quote mm t.
Proof.
  intros Hroom. unfold CancelSide. destruct (q_active b (quote mm token)) eqn:Ha; cbv zeta.
  - unfold EmitCancel. rewrite (proj2 (Nat.ltb_lt _ _) Hroom). simpl.
    split_and!; [done..| |]; [by rewrite quote_set_eq|]. intros t Ht. by rewrite quote_set_ne.
  - rewrite app_nil_r. by split_and!.
Qed.

Lemma CancelSide_noop token b mm : q_active b (quote mm token) = false -> CancelSide token b mm = mm.
Proof. intros H. unfold CancelSide. by rewrite H. Qed.

(** [QuoteOneSide] with room in both buffers: hold, pull, or (re)place. *)
Lemma QuoteOneSide_spec token b desired qty allowed now mm :
  (length (mm_cancels mm) < kMaxPending)%nat -> (length (mm_pending mm) < kMaxPending)%nat ->
  let q := quote mm token in
  let stale := q_active b q && (u64 (now - q_ts b q) >? mc_quote_ttl_ns (mm_cfg mm)) in
  let hold := allowed && q_active b q && (q_price b q =? desired) && negb stale in
  let mm' := QuoteOneSide token b desired qty allowed now mm in
  same_setup mm mm' /\
  mm_cancels mm' = mm_cancels mm ++
    (if q_active b q && negb hold then [q_clordid b q] else []) /\
  mm_pending mm' = mm_pending mm ++
    (if allowed && negb hold then [new_quote_order mm token b desired qty now] else []) /\
  mm_next_clordid mm' =
    (if allowed && negb hold then i64 (mm_next_clordid mm + 1) else mm_next_clordid mm) /\
  quote mm' token =
    (if hold then q else if allowed then place b desired now (mm_next_clordid mm) q
     else set_active b false q) /\
  forall t, t <> token -> quote mm' t = quote mm t.
Proof.
  intros Hc Hp. cbv zeta. unfold QuoteOneSide. set (q := quote mm token) in *.
  assert (forall b q, q_active b q = false -> set_active b false q = q) as Hoff.
  { by intros [] [] ?; simpl in *; subst. }
  destruct allowed; cbn [negb andb].
  2: { destruct (CancelSide_spec token b mm Hc) as (H1 & H2 & H3 & H4 & H5 & H6). fold q in H4, H5.
       rewrite andb_true_r, app_nil_r. split_and!; try done.
       rewrite H5. destruct (q_active b q) eqn:Ha; [done|]. by rewrite Hoff. }
  destruct (q_active b q) eqn:Ha; cbn [andb negb].
  - destruct ((q_price b q =? desired) && negb (_ >? _)); cbn [andb negb].
    { rewrite !app_nil_r. by split_and!. }
    destruct (CancelSide_spec token b mm Hc) as (H1 & H2 & H3 & H4 & H5 & H6). fold q in H4, H5.
    rewrite Ha in H4, H5. destruct H1 as (E1 & E2 & E3 & E4).
    unfold EmitNew. rewrite H2, (proj2 (Nat.leb_gt _ _)) by lia. cbv zeta beta iota.
    unfold new_quote_order. rewrite E2, H3.
    split_and!; try done.
    + rewrite quote_set_eq by done. change (quote (set_out _ _ _ ?m) token) with (quote m token).
      rewrite H5. by destruct b.
    + intros t Ht. rewrite quote_set_ne by done. by apply H6.
  - unfold EmitNew. rewrite (proj2 (Nat.leb_gt _ _)) by lia. cbv zeta beta iota. rewrite app_nil_r.
    split_and!; try done.
    + rewrite quote_set_eq by done. done.
    + intros t Ht. by rewrite quote_set_ne.
Qed.

(** ** One update *)

Definition cleared (mm : MarketMaking) : MarketMaking := set_out (mm_next_clordid mm) [] [] mm.

(** The plan of an update that passes every early return. *)
Definition quoting_plan (token : Token) (book : OrderBook) (wall : Timestamp) (mm : MarketMaking)
    : option QuotePlan :=
  let now := mm_now wall mm in
  if (token <? kMaxTokens) && (now <? preclose_cancel_ns now) && is_within_market_hours now then
    bid ← best_bid book; ask ← best_ask book; plan token bid ask mm
  else None.

Definition sweeping (token : Token) (wall : Timestamp) (mm : MarketMaking) : bool :=
  (token <? kMaxTokens) && (mm_now wall mm >=? preclose_cancel_ns (mm_now wall mm)).

Lemma on_book_update_cases token book wall mm :
  on_book_update token book wall mm =
    if sweeping token wall mm then CancelSide token false (CancelSide token true (cleared mm))
    else match quoting_plan token book wall mm with
         | None => cleared mm
         | Some p =>
             QuoteOneSide token false (qp_ask p) (qp_qty p) (qp_ask_ok p) (mm_now wall mm)
               (QuoteOneSide token true (qp_bid p) (qp_qty p) (qp_bid_ok p) (mm_now wall mm)
                  (cleared mm))
         end.
Proof.
  unfold on_book_update, sweeping, quoting_plan. fold (cleared mm).
  change (mm_now wall (cleared mm)) with (mm_now wall mm).
  rewrite !Z.geb_leb, !Z.leb_antisym. destruct (token <? kMaxTokens); cbn [negb andb]; [|done].
  destruct (mm_now wall mm <? _); cbn [negb andb]; [|done].
  destruct (is_within_market_hours _); cbn [negb]; [|done].
  destruct (best_bid book) as [bid|]; [|done]. destruct (best_ask book) as [ask|]; [|done].
  cbn [mbind option_bind]. change (plan token bid ask (cleared mm)) with (plan token bid ask mm).
  by destruct (plan token bid ask mm).
Qed.

(** Both sides of a planned update. *)
Lemma planned_update token p now mm :
  let mm1 := QuoteOneSide token true (qp_bid p) (qp_qty p) (qp_bid_ok p) now (cleared mm) in
  let mm2 := QuoteOneSide token false (qp_ask p) (qp_qty p) (qp_ask_ok p) now mm1 in
  exists hold_b hold_a,
    same_setup mm mm2 /\
    mm_pending mm2 =
      (if qp_bid_ok p && negb hold_b then [new_quote_order mm token true (qp_bid p) (qp_qty p) now] else []) ++
      (if qp_ask_ok p && negb hold_a then [new_quote_order mm1 token false (qp_ask p) (qp_qty p) now] else []) /\
    mm_next_clordid mm1 = (if qp_bid_ok p && negb hold_b then i64 (mm_next_clordid mm + 1) else mm_next_clordid mm) /\
    mm_next_clordid mm2 = (if qp_ask_ok p && negb hold_a then i64 (mm_next_clordid mm1 + 1) else mm_next_clordid mm1) /\
    mm_cfg mm1 = mm_cfg mm.
Proof.
  cbv zeta.
  pose proof (QuoteOneSide_spec token true (qp_bid p) (qp_qty p) (qp_bid_ok p) now (cleared mm)
    ltac:(cbv; lia) ltac:(cbv; lia)) as H. cbv zeta in H.
  set (mm1 := QuoteOneSide token true _ _ _ _ _) in *.
  destruct H as (S1 & C1 & P1 & N1 & _).
  assert (length (mm_cancels mm1) < kMaxPending)%nat as Hc by (rewrite C1; case_if; cbv; lia).
  assert (length (mm_pending mm1) < kMaxPending)%nat as Hp by (rewrite P1; case_if; cbv; lia).
  pose proof (QuoteOneSide_spec token false (qp_ask p) (qp_qty p) (qp_ask_ok p) now mm1 Hc Hp) as H.
  cbv zeta in H. destruct H as (S2 & _ & P2 & N2 & _).
  eexists _, _. split_and!.
  - etransitivity; [exact S1|exact S2].
  - rewrite P2, P1. reflexivity.
  - exact N1.
  - exact N2.
  - apply S1.
Qed.

(** The conditions under which the strategy may send an order. *)
Record sound_order (token : Token) (book : OrderBook) (wall : Timestamp) (mm : MarketMaking)
    (o : Order) : Prop := {
  so_token : o_token o = token /\ token < kMaxTokens;
  so_hours : let now := mm_now wall mm in
    is_within_market_hours now = true /\ now < preclose_cancel_ns now /\ o_created_at o = now;
  so_spread : exists bid ask, best_bid book = Some bid /\ best_ask book = Some ask /\
    i64 (pl_price ask - pl_price bid) <= i64 (mc_max_spread_ticks (mm_cfg mm) * TickSize mm token);
  so_band : in_band (PriceBand (mm_symbols mm) token) (o_price o) = true;
  so_position : let net_lots := Z.quot (pos mm token) (LotSize mm token) in
    if o_side o then net_lots < mc_max_position_lots (mm_cfg mm)
    else - mc_max_position_lots (mm_cfg mm) < net_lots;
  so_fields : o_qty o = i32 (mc_quote_lots (mm_cfg mm) * LotSize mm token) /\
    o_segment o = mc_segment (mm_cfg mm) /\ o_order_type o = kLimit /\ o_validity o = kDay /\
    o_exchange_order_no o = 0;
}.

Lemma LotSize_pos mm token : 0 < LotSize mm token.
Proof. unfold LotSize. cbv zeta. rewrite Z.gtb_ltb. case_if; lia. Qed.

Lemma plan_sound token book wall mm p b o :
  quoting_plan token book wall mm = Some p ->
  (if b : bool then qp_bid_ok p else qp_ask_ok p) = true ->
  o_token o = token -> o_created_at o = mm_now wall mm -> o_side o = b ->
  o_price o = (if b then qp_bid p else qp_ask p) -> o_qty o = qp_qty p ->
  o_segment o = mc_segment (mm_cfg mm) -> o_order_type o = kLimit -> o_validity o = kDay ->
  o_exchange_order_no o = 0 -> sound_order token book wall mm o.
Proof.
  unfold quoting_plan. intros Hp Hok Ht Hn Hb Hpr Hq Hseg Hty Hval Hex. case_if_in Hp; [|done].
  apply bind_Some in Hp as (bid & Hbid & Hp). apply bind_Some in Hp as (ask & Hask & Hp).
  pose proof (LotSize_pos mm token) as Hlot. unfold plan in Hp. cbv zeta in Hp.
  case_if_in Hp; [done|]. case_if_in Hp; [done|].
  rewrite (Z.gtb_ltb (LotSize mm token)), (proj2 (Z.ltb_lt _ _) Hlot) in Hp.
  injection Hp as <-. cbn in Hok, Hpr, Hq.
  split; try done.
  - exists bid, ask. split_and!; [done..|]. lia.
  - rewrite Hpr. destruct b; bool_arith; done.
  - rewrite Hb. destruct b; rewrite ?Z.gtb_ltb in Hok; bool_arith; simpl; lia.
Qed.

Lemma pending_sound token book wall mm :
  Forall (sound_order token book wall mm) (mm_pending (on_book_update token book wall mm)).
Proof.
  rewrite on_book_update_cases. destruct (sweeping token wall mm).
  { destruct (CancelSide_spec token true (cleared mm) ltac:(cbv; lia)) as (_ & P1 & _ & C1 & _).
    destruct (CancelSide_spec token false (CancelSide token true (cleared mm))) as (_ & P2 & _).
    { rewrite C1. case_if; cbv; lia. }
    rewrite P2, P1. constructor. }
  destruct (quoting_plan token book wall mm) as [p|] eqn:Hp; [|constructor].
  destruct (planned_update token p (mm_now wall mm) mm) as (hb & ha & _ & HP & _ & _ & HC).
  rewrite HP. apply Forall_app. split; (case_if; [apply Forall_singleton|constructor]).
  - by apply (plan_sound token book wall mm p true).
  - apply (plan_sound token book wall mm p false); try done. simpl. by rewrite HC.
Qed.

Lemma pending_ids token book wall mm :
  0 <= mm_next_clordid mm -> mm_next_clordid mm + 2 < 2 ^ 63 ->
  let mm' := on_book_update token book wall mm in
  mm_next_clordid mm <= mm_next_clordid mm' <= mm_next_clordid mm + 2 /\
  o_client_order_id <$> mm_pending mm' =
    seqZ (mm_next_clordid mm) (mm_next_clordid mm' - mm_next_clordid mm) /\
  o_side <$> mm_pending mm' ∈ [[]; [kBuy]; [kSell]; [kBuy; kSell]].
Proof.
  intros Hid Hmax. cbv zeta. rewrite on_book_update_cases.
  destruct (sweeping token wall mm).
  { destruct (CancelSide_spec token true (cleared mm) ltac:(cbv; lia)) as (_ & P1 & N1 & C1 & _).
    destruct (CancelSide_spec token false (CancelSide token true (cleared mm))) as (_ & P2 & N2 & _).
    { rewrite C1. case_if; cbv; lia. }
    rewrite P2, N2, P1, N1. simpl. rewrite Z.sub_diag.
    split_and!; [lia..|done|set_solver]. }
  destruct (quoting_plan token book wall mm) as [p|] eqn:Hp.
  2: { simpl. rewrite Z.sub_diag. split_and!; [lia..|done|set_solver]. }
  destruct (planned_update token p (mm_now wall mm) mm) as (hb & ha & _ & HP & HN1 & HN2 & _).
  set (mm1 := QuoteOneSide token true _ _ _ _ (cleared mm)) in *. rewrite HP, HN2, HN1.
  assert (i64 (mm_next_clordid mm + 1) = mm_next_clordid mm + 1) as E1 by (apply wrap_s_id; ranges).
  assert (i64 (mm_next_clordid mm + 1 + 1) = mm_next_clordid mm + 2) as E2
    by (rewrite wrap_s_id; ranges).
  destruct (qp_bid_ok p && negb hb), (qp_ask_ok p && negb ha); simpl; rewrite ?HN1, ?E1, ?E2;
    (split_and!; [lia..| |set_solver]).
  - rewrite (seqZ_cons _ (_ - _)), seqZ_cons, seqZ_nil by lia. done.
  - rewrite (seqZ_cons _ (_ - _)), seqZ_nil by lia. done.
  - rewrite (seqZ_cons _ (_ - _)), seqZ_nil by lia. done.
  - by rewrite Z.sub_diag.
Qed.

(** C19.  The strategy sends only what its rules allow: whatever the book and its
    state, an update emits at most one buy and one sell, in that order, with fresh
    consecutive client order ids, and every order is for the updated token, inside
    the normal session and before the 15:25 sweep, with both sides quoted and the
    spread within the limit, priced inside the circuit band, of the configured lot
    multiple, and on a side whose position limit is not reached. *)
Theorem strategy_orders_sound token book wall mm :
  0 <= mm_next_clordid mm -> mm_next_clordid mm + 2 < 2 ^ 63 ->
  let mm' := on_book_update token book wall mm in
  Forall (sound_order token book wall mm) (mm_pending mm') /\
  o_client_order_id <$> mm_pending mm' =
    seqZ (mm_next_clordid mm) (mm_next_clordid mm' - mm_next_clordid mm) /\
  o_side <$> mm_pending mm' ∈ [[]; [kBuy]; [kSell]; [kBuy; kSell]].
Proof.
  intros Hid Hmax. split; [apply pending_sound|]. by apply pending_ids.
Qed.

(** ** The pre-close sweep *)

Lemma sweep_result token book wall mm :
  sweeping token wall mm = true ->
  let mm' := on_book_update token book wall mm in
  mm_sim_now_ns mm' = mm_sim_now_ns mm /\
  mm_pending mm' = [] /\
  mm_cancels mm' =
    (if qs_bid_active (quote mm token) then [qs_bid_clordid (quote mm token)] else []) ++
    (if qs_ask_active (quote mm token) then [qs_ask_clordid (quote mm token)] else []) /\
  qs_bid_active (quote mm' token) = false /\ qs_ask_active (quote mm' token) = false /\
  forall t, t <> token -> quote mm' t = quote mm t.
Proof.
  intros Hsw. cbv zeta. rewrite on_book_update_cases, Hsw.
  destruct (CancelSide_spec token true (cleared mm) ltac:(cbv; lia)) as ((_ & _ & _ & N1) & P1 & _ & C1 & Q1 & O1).
  set (mm1 := CancelSide token true (cleared mm)) in *.
  destruct (CancelSide_spec token false mm1) as ((_ & _ & _ & N2) & P2 & _ & C2 & Q2 & O2).
  { rewrite C1. case_if; cbv; lia. }
  change (quote (cleared mm) token) with (quote mm token) in *. simpl in C1, Q1.
  assert (q_active false (quote mm1 token) = qs_ask_active (quote mm token) /\
          q_clordid false (quote mm1 token) = qs_ask_clordid (quote mm token)) as [E1 E2].
  { rewrite Q1. by destruct (qs_bid_active (quote mm token)). }
  rewrite P2, C2, P1, C1, Q2, E1, E2. split_and!; try done.
  - by rewrite N2, N1.
  - destruct (qs_ask_active (quote mm token)); simpl; rewrite Q1;
      destruct (qs_bid_active (quote mm token)) eqn:E; done.
  - destruct (qs_ask_active (quote mm token)) eqn:E; [done|]. simpl in E1. congruence.
  - intros t Ht. rewrite O2, O1 by done. done.
Qed.

(** From 15:25 IST the strategy only pulls quotes: the update emits no
    order, asks to cancel exactly the active quotes of the token (bid first), and
    leaves both of its sides inactive and every other token untouched. *)
Theorem preclose_sweep token book wall mm :
  sweeping token wall mm = true ->
  let mm' := on_book_update token book wall mm in
  mm_pending mm' = [] /\
  mm_cancels mm' =
    (if qs_bid_active (quote mm token) then [qs_bid_clordid (quote mm token)] else []) ++
    (if qs_ask_active (quote mm token) then [qs_ask_clordid (quote mm token)] else []) /\
  qs_bid_active (quote mm' token) = false /\ qs_ask_active (quote mm' token) = false /\
  forall t, t <> token -> quote mm' t = quote mm t.
Proof. intros Hsw. by destruct (sweep_result token book wall mm Hsw) as (_ & ?). Qed.

(** ** No churn *)

(** The state of one side after it was quoted to plan. *)
Definition settled (b : bool) (ok : bool) (price : Price) (now : Timestamp) (cfg : MarketMakingConfig)
    (q : QuoteState) : Prop :=
  if ok then q_active b q = true /\ q_price b q = price /\
             (u64 (now - q_ts b q) >? mc_quote_ttl_ns cfg) = false
  else q_active b q = false.

Lemma QuoteOneSide_settles token b desired qty ok now mm :
  (length (mm_cancels mm) < kMaxPending)%nat -> (length (mm_pending mm) < kMaxPending)%nat ->
  0 <= mc_quote_ttl_ns (mm_cfg mm) ->
  settled b ok desired now (mm_cfg mm)
    (quote (QuoteOneSide token b desired qty ok now mm) token).
Proof.
  intros Hc Hp Httl. destruct (QuoteOneSide_spec token b desired qty ok now mm Hc Hp)
    as (_ & _ & _ & _ & HQ & _). rewrite HQ. unfold settled. clear HQ.
  destruct ok; cbn [andb]; [|by destruct b].
  set (hold := q_active b (quote mm token) && _ && _). destruct hold eqn:Hh.
  - unfold hold in Hh. apply andb_prop in Hh as [Hh Hs]. apply andb_prop in Hh as [Ha Hpr].
    rewrite Ha in *. apply Z.eqb_eq in Hpr. apply negb_true_iff in Hs. by split_and!.
  - split_and!; [by destruct b..|].
    assert (q_ts b (place b desired now (mm_next_clordid mm) (quote mm token)) = now) as ->
      by by destruct b.
    rewrite Z.sub_diag, Z.gtb_ltb. apply Z.ltb_ge. unfold wrap_u. by rewrite Z.mod_0_l.
Qed.

(** A settled side is held. *)
Lemma QuoteOneSide_hold token b desired qty ok now mm :
  (length (mm_cancels mm) < kMaxPending)%nat -> (length (mm_pending mm) < kMaxPending)%nat ->
  settled b ok desired now (mm_cfg mm) (quote mm token) ->
  let mm' := QuoteOneSide token b desired qty ok now mm in
  mm_pending mm' = mm_pending mm /\ mm_cancels mm' = mm_cancels mm /\
  quote mm' token = quote mm token /\ same_setup mm mm'.
Proof.
  intros Hc Hp Hs. destruct (QuoteOneSide_spec token b desired qty ok now mm Hc Hp)
    as (H1 & H2 & H3 & _ & H5 & _). cbv zeta. rewrite H2, H3, H5. clear H2 H3 H5. unfold settled in Hs.
  destruct ok.
  - destruct Hs as (Ha & Hpr & Hst). rewrite Ha, Hpr, Hst, Z.eqb_refl. simpl.
    by rewrite !app_nil_r.
  - rewrite Hs. simpl. rewrite !app_nil_r. split_and!; try done.
    destruct (quote mm token), b; simpl in *; by subst.
Qed.

Lemma other_side_kept token b desired qty ok now mm :
  (length (mm_cancels mm) < kMaxPending)%nat -> (length (mm_pending mm) < kMaxPending)%nat ->
  let q' := quote (QuoteOneSide token b desired qty ok now mm) token in
  q_active (negb b) q' = q_active (negb b) (quote mm token) /\
  q_price (negb b) q' = q_price (negb b) (quote mm token) /\
  q_ts (negb b) q' = q_ts (negb b) (quote mm token).
Proof.
  intros Hc Hp. destruct (QuoteOneSide_spec token b desired qty ok now mm Hc Hp)
    as (_ & _ & _ & _ & -> & _). destruct ok; repeat case_if; by destruct b.
Qed.

Lemma settled_ext b ok price now cfg q q' :
  q_active b q' = q_active b q -> q_price b q' = q_price b q -> q_ts b q' = q_ts b q ->
  settled b ok price now cfg q -> settled b ok price now cfg q'.
Proof. unfold settled. intros -> -> ->. done. Qed.

Lemma planned_settles token book wall mm :
  0 <= mc_quote_ttl_ns (mm_cfg mm) -> sweeping token wall mm = false ->
  let mm1 := on_book_update token book wall mm in
  same_setup mm mm1 /\ (forall p, quoting_plan token book wall mm = Some p ->
    settled true (qp_bid_ok p) (qp_bid p) (mm_now wall mm) (mm_cfg mm) (quote mm1 token) /\
    settled false (qp_ask_ok p) (qp_ask p) (mm_now wall mm) (mm_cfg mm) (quote mm1 token)).
Proof.
  intros Httl Hsw. cbv zeta. rewrite on_book_update_cases, Hsw.
  destruct (quoting_plan token book wall mm) as [p|] eqn:Hp; [|by split].
  pose proof (QuoteOneSide_spec token true (qp_bid p) (qp_qty p) (qp_bid_ok p) (mm_now wall mm)
    (cleared mm) ltac:(cbv; lia) ltac:(cbv; lia)) as (S1 & C1 & P1 & _).
  pose proof (QuoteOneSide_settles token true (qp_bid p) (qp_qty p) (qp_bid_ok p) (mm_now wall mm)
    (cleared mm) ltac:(cbv; lia) ltac:(cbv; lia) Httl) as Hb.
  set (mm1 := QuoteOneSide token true _ _ _ _ (cleared mm)) in *.
  assert (length (mm_cancels mm1) < kMaxPending)%nat as Hc by (rewrite C1; case_if; cbv; lia).
  assert (length (mm_pending mm1) < kMaxPending)%nat as Hpd by (rewrite P1; case_if; cbv; lia).
  assert (mm_cfg mm1 = mm_cfg mm) as Ec by apply S1.
  pose proof (QuoteOneSide_settles token false (qp_ask p) (qp_qty p) (qp_ask_ok p) (mm_now wall mm)
    mm1 Hc Hpd ltac:(by rewrite Ec)) as Ha.
  pose proof (other_side_kept token false (qp_ask p) (qp_qty p) (qp_ask_ok p) (mm_now wall mm)
    mm1 Hc Hpd) as (K1 & K2 & K3).
  pose proof (QuoteOneSide_spec token false (qp_ask p) (qp_qty p) (qp_ask_ok p) (mm_now wall mm)
    mm1 Hc Hpd) as (S2 & _).
  split; [etransitivity; [exact S1|exact S2]|]. intros p' [= <-].
  split; [by apply (settled_ext true _ _ _ _ _ _ K1 K2 K3)|]. by rewrite Ec in Ha.
Qed.

(** No churn: running the same update twice at the same time, on the same
    book, sends nothing the second time (no order and no cancel). *)
Theorem update_idempotent token book wall mm :
  0 <= mc_quote_ttl_ns (mm_cfg mm) ->
  let mm' := on_book_update token book wall mm in
  let mm'' := on_book_update token book wall mm' in
  mm_pending mm'' = [] /\ mm_cancels mm'' = [].
Proof.
  intros Httl. cbv zeta. destruct (sweeping token wall mm) eqn:Hsw.
  { assert (forall m, sweeping token wall m = true ->
      q_active true (quote m token) = false -> q_active false (quote m token) = false ->
      mm_pending (on_book_update token book wall m) = [] /\
      mm_cancels (on_book_update token book wall m) = []) as Hquiet.
    { intros m Hm Hb Ha. rewrite on_book_update_cases, Hm. 
      by rewrite (CancelSide_noop token true), (CancelSide_noop token false). }
    destruct (sweep_result token book wall mm Hsw) as (Hs & _ & _ & Hb & Ha & _).
    apply Hquiet; [|done|done]. unfold sweeping, mm_now in *. by rewrite Hs. }
  set (mm1 := on_book_update token book wall mm).
  assert (same_setup mm mm1 /\ (forall p, quoting_plan token book wall mm = Some p ->
    settled true (qp_bid_ok p) (qp_bid p) (mm_now wall mm) (mm_cfg mm) (quote mm1 token) /\
    settled false (qp_ask_ok p) (qp_ask p) (mm_now wall mm) (mm_cfg mm) (quote mm1 token)))
    as [Hset Hplan] by by apply planned_settles.
  pose proof Hset as (Es & Ec & Ep & En).
  assert (forall t, mm_now t mm1 = mm_now t mm) as Enow by (intros t; unfold mm_now; by rewrite En).
  assert (quoting_plan token book wall mm1 = quoting_plan token book wall mm) as Hsame.
  { unfold quoting_plan. rewrite Enow. unfold plan, TickSize, LotSize, ComputeDesired, pos.
    by rewrite Es, Ec, Ep. }
  rewrite on_book_update_cases. unfold sweeping in *. rewrite Enow, Hsw, Hsame.
  destruct (quoting_plan token book wall mm) as [p|] eqn:Hp; [|done].
  destruct (Hplan p eq_refl) as [Hb Ha]. rewrite <- Ec in Hb, Ha.
  destruct (QuoteOneSide_hold token true (qp_bid p) (qp_qty p) (qp_bid_ok p) (mm_now wall mm)
    (cleared mm1) ltac:(cbv; lia) ltac:(cbv; lia) Hb) as (P1 & C1 & Q1 & (_ & Ec1 & _)).
  set (mm2 := QuoteOneSide token true _ _ _ _ (cleared mm1)) in *.
  destruct (QuoteOneSide_hold token false (qp_ask p) (qp_qty p) (qp_ask_ok p) (mm_now wall mm) mm2)
    as (P2 & C2 & _).
  - rewrite C1. cbv. lia.
  - rewrite P1. cbv. lia.
  - rewrite Q1, Ec1. exact Ha.
  - by rewrite P2, C2, P1, C1.
Qed.

(** ** The interface the pipeline drives *)

Class StrategyBase (S : Type) := {
  sb_on_book_update : Token -> OrderBook -> Timestamp -> S -> S;
  sb_on_fill : FillReport -> S -> S;
  sb_on_cancel : ClOrdId -> Z -> S -> S;
  sb_get_pending_orders : S -> list Order;
  sb_get_pending_cancels : S -> list ClOrdId;
  sb_set_now : Timestamp -> S -> S;
  (** the clock the strategy goes by *)
  sb_now : Timestamp -> S -> Timestamp;
  (** Orders are for the token that was updated, and none is produced outside the
      normal session. *)
  sb_orders_for_token token book wall s :
    Forall (fun o => o_token o = token) (sb_get_pending_orders (sb_on_book_update token book wall s));
  sb_quiet_when_closed token book wall s :
    is_within_market_hours (sb_now wall s) = false ->
    sb_get_pending_orders (sb_on_book_update token book wall s) = [];
}.

Lemma mm_orders_for_token token book wall mm :
  Forall (fun o => o_token o = token) (mm_pending (on_book_update token book wall mm)).
Proof.
  eapply Forall_impl; [apply pending_sound|]. intros o Ho. simpl. by destruct (so_token _ _ _ _ _ Ho).
Qed.

Lemma mm_quiet_when_closed token book wall mm :
  is_within_market_hours (mm_now wall mm) = false ->
  mm_pending (on_book_update token book wall mm) = [].
Proof.
  intros Hclosed. pose proof (pending_sound token book wall mm) as H.
  destruct (mm_pending _) as [|o os]; [done|]. apply Forall_cons_1 in H as [H _].
  destruct (so_hours _ _ _ _ _ H) as [Hopen _]. congruence.
Qed.

#[global] Instance MarketMaking_strategy : StrategyBase MarketMaking := {
  sb_on_book_update := on_book_update; sb_on_fill := mm_on_fill; sb_on_cancel := mm_on_cancel;
  sb_get_pending_orders := mm_pending; sb_get_pending_cancels := mm_cancels;
  sb_set_now := mm_set_now; sb_now := mm_now;
  sb_orders_for_token := mm_orders_for_token; sb_quiet_when_closed := mm_quiet_when_closed;
}.

(** ** Concrete session *)

Definition nifty : Instrument :=
  {| in_token := 7; in_segment := kSegmentFo; in_instrument_type := kFutIdx; in_option_type := kNone;
     in_lot_size := 50; in_tick_size := 5; in_strike_price := 0; in_prev_close := 10000;
     in_circuit_pct_x100 := 1000; in_expiry_yyyymmdd := 20251030; in_active := true;
     in_symbol := "NIFTY"; in_series := "FUT" |}.

Definition sample_cfg : MarketMakingConfig :=
  {| mc_segment := kSegmentFo; mc_max_position_lots := 10; mc_max_spread_ticks := 3;
     mc_quote_ttl_ns := 500000; mc_quote_lots := 1; mc_max_inv_skew_ticks := 0;
     mc_max_flow_skew_ticks := 0 |}.

Definition sample_mm (now : Timestamp) : MarketMaking :=
  mm_set_now now (MarketMaking_new (Some (put nifty SymbolMaster_new)) sample_cfg).

Definition ten_am : Timestamp := 20000 * kNsPerDay + 36000 * kNsPerSecond.
Definition at_1526 : Timestamp := 20000 * kNsPerDay + 55560 * kNsPerSecond.

Definition sample_book : OrderBook :=
  default (OrderBook_new 0 0 0) (fst <$> apply_events (OrderBook_new 7 5 8)
    [sample_add 1 kBuy 10000 100 1; sample_add 2 kSell 10010 80 2]).

Lemma strategy_orders_sound_witness :
  let mm := on_book_update 7 sample_book 0 (sample_mm ten_am) in
  (fun o => (o_client_order_id o, o_side o, o_price o, o_qty o)) <$> mm_pending mm =
    [(1, kBuy, 9995, 50); (2, kSell, 10015, 50)] /\
  Forall (sound_order 7 sample_book 0 (sample_mm ten_am)) (mm_pending mm).
Proof.
  split; [vm_compute; reflexivity|].
  apply (strategy_orders_sound 7 sample_book 0 (sample_mm ten_am)); vm_compute;
    [discriminate|reflexivity].
Defined.

Lemma preclose_sweep_witness :
  let mm := mm_set_now at_1526 (on_book_update 7 sample_book 0 (sample_mm ten_am)) in
  mm_cancels (on_book_update 7 sample_book 0 mm) = [1; 2].
Proof.
  cbv zeta. rewrite (proj1 (proj2 (preclose_sweep 7 sample_book 0
    (mm_set_now at_1526 (on_book_update 7 sample_book 0 (sample_mm ten_am)))
    ltac:(vm_compute; reflexivity)))).
  vm_compute. reflexivity.
Defined.

Lemma update_idempotent_witness :
  let mm := on_book_update 7 sample_book 0 (sample_mm ten_am) in
  mm_pending mm <> [] /\ mm_pending (on_book_update 7 sample_book 0 mm) = [].
Proof.
  split; [vm_compute; discriminate|].
  apply (update_idempotent 7 sample_book 0 (sample_mm ten_am)). vm_compute. discriminate.
Defined.
