(* ===== verification/RiskManager.v ===== *)
(** * RiskManager: the pre-trade gate (src/risk/risk_manager.hpp)

    The three vectors of 65536 entries indexed by token are finite maps in which
    an absent entry is 0.  [check] reads them at [o.token] with no bounds test:
    a read outside is [None].  The token bucket is IEEE binary64 arithmetic, in
    the executable [SpecFloat] formalisation.  [wall] is what [ist_now_ns] would
    return; the atomics are read once per check. *)

From Stdlib Require Import ZArith Lia SpecFloat.
From stdpp Require Import base gmap list numbers option.
From S2P Require Import Prelude Types Double TimeUtils SymbolMaster.

Local Open Scope Z_scope.

(** ** State *)

Inductive RejectReason : Set :=
  | kApproved | kKillSwitch | kOutsideMarketHours | kOrderTooLarge | kLotSizeMismatch
  | kPriceBandBreach | kPriceSanity | kPositionLimit | kRateLimitExceeded.

#[global] Instance RejectReason_eq_dec : EqDecision RejectReason.
Proof. solve_decision. Defined.

Record RiskConfig := {
  rc_max_orders_per_sec : Z;
  rc_max_order_qty : Quantity;
  rc_max_token_position_lots : Z;
  rc_max_cm_notional_inr : Z;
  rc_max_daily_loss_inr : Z;
  rc_allow_preopen : bool;
  rc_price_sanity_pct : Z;
}.

Record RiskManager := {
  rm_symbols : option SymbolMaster;
  rm_cfg : RiskConfig;
  rm_position : gmap Z Z;
  rm_ref_bid : gmap Z Z;
  rm_ref_ask : gmap Z Z;
  rm_tokens : spec_float;
  rm_last_refill_ns : Z;
  rm_kill_switch : bool;
  rm_daily_loss_kill : bool;
  rm_cashflow_paisa : Z;
  rm_mark_pnl_inr : Z;
  rm_sim_now_ns : Timestamp;
}.

Definition RiskManager_new (symbols : option SymbolMaster) (cfg : RiskConfig) : RiskManager :=
  {| rm_symbols := symbols; rm_cfg := cfg; rm_position := ∅; rm_ref_bid := ∅; rm_ref_ask := ∅;
     rm_tokens := dbl (rc_max_orders_per_sec cfg); rm_last_refill_ns := 0;
     rm_kill_switch := false; rm_daily_loss_kill := false; rm_cashflow_paisa := 0;
     rm_mark_pnl_inr := 0; rm_sim_now_ns := 0 |}.

Definition rm_set_now (ist_ns : Timestamp) (rm : RiskManager) : RiskManager :=
  {| rm_symbols := rm_symbols rm; rm_cfg := rm_cfg rm; rm_position := rm_position rm;
     rm_ref_bid := rm_ref_bid rm; rm_ref_ask := rm_ref_ask rm; rm_tokens := rm_tokens rm;
     rm_last_refill_ns := rm_last_refill_ns rm; rm_kill_switch := rm_kill_switch rm;
     rm_daily_loss_kill := rm_daily_loss_kill rm; rm_cashflow_paisa := rm_cashflow_paisa rm;
     rm_mark_pnl_inr := rm_mark_pnl_inr rm; rm_sim_now_ns := ist_ns |}.

Definition update_reference (token : Token) (bid ask : Price) (rm : RiskManager) : RiskManager :=
  if token <? kSymbolTableSize then
    {| rm_symbols := rm_symbols rm; rm_cfg := rm_cfg rm; rm_position := rm_position rm;
       rm_ref_bid := <[token := bid]> (rm_ref_bid rm);
       rm_ref_ask := <[token := ask]> (rm_ref_ask rm); rm_tokens := rm_tokens rm;
       rm_last_refill_ns := rm_last_refill_ns rm; rm_kill_switch := rm_kill_switch rm;
       rm_daily_loss_kill := rm_daily_loss_kill rm; rm_cashflow_paisa := rm_cashflow_paisa rm;
       rm_mark_pnl_inr := rm_mark_pnl_inr rm; rm_sim_now_ns := rm_sim_now_ns rm |}
  else rm.

Definition set_bucket (tokens : spec_float) (last : Z) (rm : RiskManager) : RiskManager :=
  {| rm_symbols := rm_symbols rm; rm_cfg := rm_cfg rm; rm_position := rm_position rm;
     rm_ref_bid := rm_ref_bid rm; rm_ref_ask := rm_ref_ask rm; rm_tokens := tokens;
     rm_last_refill_ns := last; rm_kill_switch := rm_kill_switch rm;
     rm_daily_loss_kill := rm_daily_loss_kill rm; rm_cashflow_paisa := rm_cashflow_paisa rm;
     rm_mark_pnl_inr := rm_mark_pnl_inr rm; rm_sim_now_ns := rm_sim_now_ns rm |}.

Definition set_kill_switch (on : bool) (rm : RiskManager) : RiskManager :=
  {| rm_symbols := rm_symbols rm; rm_cfg := rm_cfg rm; rm_position := rm_position rm;
     rm_ref_bid := rm_ref_bid rm; rm_ref_ask := rm_ref_ask rm; rm_tokens := rm_tokens rm;
     rm_last_refill_ns := rm_last_refill_ns rm; rm_kill_switch := on;
     rm_daily_loss_kill := rm_daily_loss_kill rm; rm_cashflow_paisa := rm_cashflow_paisa rm;
     rm_mark_pnl_inr := rm_mark_pnl_inr rm; rm_sim_now_ns := rm_sim_now_ns rm |}.

Definition set_books (position : gmap Z Z) (cashflow pnl : Z) (kill : bool) (rm : RiskManager)
    : RiskManager :=
  {| rm_symbols := rm_symbols rm; rm_cfg := rm_cfg rm; rm_position := position;
     rm_ref_bid := rm_ref_bid rm; rm_ref_ask := rm_ref_ask rm; rm_tokens := rm_tokens rm;
     rm_last_refill_ns := rm_last_refill_ns rm; rm_kill_switch := rm_kill_switch rm;
     rm_daily_loss_kill := kill; rm_cashflow_paisa := cashflow; rm_mark_pnl_inr := pnl;
     rm_sim_now_ns := rm_sim_now_ns rm |}.

Definition kill_switch_active (rm : RiskManager) : bool := rm_kill_switch rm || rm_daily_loss_kill rm.

(** [v[token]] on one of the vectors. *)
Definition vec (v : gmap Z Z) (token : Token) : Z := default 0 (v !! token).
Definition vec_read (v : gmap Z Z) (token : Token) : option Z :=
  if (0 <=? token) && (token <? kSymbolTableSize) then Some (vec v token) else None.

Definition rm_position_of (rm : RiskManager) (token : Token) : Quantity :=
  if token <? kSymbolTableSize then vec (rm_position rm) token else 0.

(** ** Private checks *)

Definition rm_LotSize (rm : RiskManager) (token : Token) : Quantity :=
  match rm_symbols rm with Some sm => get_lot_size sm token | None => 0 end.

(** The risk manager's own copy of the band computation of the strategy. *)
Definition rm_PriceBand (rm : RiskManager) (token : Token) : option (Price * Price) :=
  symbols ← rm_symbols rm;
  inst ← get symbols token;
  if (in_prev_close inst <=? 0) || (in_circuit_pct_x100 inst =? 0) then None
  else
    let delta := Z.quot (i64 (in_prev_close inst * in_circuit_pct_x100 inst)) 10000 in
    Some (i64 (in_prev_close inst - delta), i64 (in_prev_close inst + delta)).

Definition PriceSane (rm : RiskManager) (o : Order) : option bool :=
  ref ← (if o_side o then vec_read (rm_ref_ask rm) (o_token o)
         else vec_read (rm_ref_bid rm) (o_token o));
  if ref <=? 0 then Some true
  else
    let diff := if o_price o >? ref then i64 (o_price o - ref) else i64 (ref - o_price o) in
    Some (i64 (diff * 100) <=? i64 (ref * rc_price_sanity_pct (rm_cfg rm))).

Definition PositionOk (rm : RiskManager) (o : Order) (lot : Quantity) : option bool :=
  let signed_qty := if o_side o then o_qty o else i32 (- o_qty o) in
  p ← vec_read (rm_position rm) (o_token o);
  let projected := i64 (p + signed_qty) in
  let l := if lot >? 0 then lot else 1 in
  let lots := Z.quot projected l in
  let lots := if lots <? 0 then i64 (- lots) else lots in
  if lots >? rc_max_token_position_lots (rm_cfg rm) then Some false
  else if o_segment o =? kSegmentCm then
    let notional_inr := Z.quot (i64 (o_qty o * o_price o)) 100 in
    Some (negb (notional_inr >? rc_max_cm_notional_inr (rm_cfg rm)))
  else Some true.

(** The bucket after the refill of [ConsumeRateToken]. *)
Definition refill (now : Timestamp) (rm : RiskManager) : RiskManager :=
  let rate_per_ns := dbl_div (dbl (rc_max_orders_per_sec (rm_cfg rm))) (dbl kNsPerSecond) in
  let rm := if rm_last_refill_ns rm =? 0 then set_bucket (rm_tokens rm) now rm else rm in
  if now >? rm_last_refill_ns rm then
    let tokens := dbl_add (rm_tokens rm)
                    (dbl_mul (dbl (u64 (now - rm_last_refill_ns rm))) rate_per_ns) in
    let cap := dbl (rc_max_orders_per_sec (rm_cfg rm)) in
    set_bucket (if dbl_gt tokens cap then cap else tokens) now rm
  else rm.

Definition ConsumeRateToken (now : Timestamp) (rm : RiskManager) : RiskManager * bool :=
  let rm := refill now rm in
  if dbl_ge (rm_tokens rm) (dbl 1)
  then (set_bucket (dbl_sub (rm_tokens rm) (dbl 1)) (rm_last_refill_ns rm) rm, true)
  else (rm, false).

(** ** The gate *)

Definition rm_now (wall : Timestamp) (rm : RiskManager) : Timestamp :=
  if negb (rm_sim_now_ns rm =? 0) then rm_sim_now_ns rm else wall.

Definition check (wall : Timestamp) (o : Order) (rm : RiskManager)
    : option (RiskManager * RejectReason) :=
  if kill_switch_active rm then Some (rm, kKillSwitch)
  else
    let now := rm_now wall rm in
    if negb (is_within_market_hours now) && negb (rc_allow_preopen (rm_cfg rm) && is_preopen now)
    then Some (rm, kOutsideMarketHours)
    else if (o_qty o <=? 0) || (o_qty o >? rc_max_order_qty (rm_cfg rm)) then Some (rm, kOrderTooLarge)
    else
      let lot := rm_LotSize rm (o_token o) in
      if (o_segment o =? kSegmentFo) && (lot >? 0) && negb (Z.rem (o_qty o) lot =? 0)
      then Some (rm, kLotSizeMismatch)
      else
        if match rm_PriceBand rm (o_token o) with
           | Some (lo, hi) => (o_price o <? lo) || (o_price o >? hi)
           | None => false
           end
        then Some (rm, kPriceBandBreach)
        else
          sane ← PriceSane rm o;
          if negb sane then Some (rm, kPriceSanity)
          else
            pos_ok ← PositionOk rm o lot;
            if negb pos_ok then Some (rm, kPositionLimit)
            else
              let '(rm, ok) := ConsumeRateToken now rm in
              Some (rm, if ok then kApproved else kRateLimitExceeded).

(** Both copies compute the same band: an order the strategy kept inside the band is not
    rejected for it. *)
Lemma rm_PriceBand_shared rm token : rm_PriceBand rm token = PriceBand (rm_symbols rm) token.
Proof. unfold rm_PriceBand, PriceBand. destruct (rm_symbols rm) as [sm|]; cbn; [by destruct (get sm token)|done]. Qed.

(** ** Fills *)

Definition RecomputePnl (token : Token) (mark_paisa : Price) (rm : RiskManager) : RiskManager :=
  let pos_value_paisa := i64 (vec (rm_position rm) token * mark_paisa) in
  let pnl_paisa := i64 (rm_cashflow_paisa rm + pos_value_paisa) in
  let pnl := Z.quot pnl_paisa 100 in
  set_books (rm_position rm) (rm_cashflow_paisa rm) pnl
    (if pnl <? i64 (- rc_max_daily_loss_inr (rm_cfg rm)) then true else rm_daily_loss_kill rm) rm.

Definition rm_on_fill (fill : FillReport) (rm : RiskManager) : RiskManager :=
  if fr_token fill >=? kSymbolTableSize then rm
  else
    let signed_qty := if fr_side fill then fr_fill_qty fill else i32 (- fr_fill_qty fill) in
    let position := <[fr_token fill := i32 (vec (rm_position rm) (fr_token fill) + i32 signed_qty)]>
                      (rm_position rm) in
    let cashflow := i64 (rm_cashflow_paisa rm + i64 (i64 (- signed_qty) * fr_fill_price fill)) in
    RecomputePnl (fr_token fill) (fr_fill_price fill)
      (set_books position cashflow (rm_mark_pnl_inr rm) (rm_daily_loss_kill rm) rm).

(** ** What an approval means *)

(** The limits, stated on unbounded integers. *)
Record within_limits (wall : Timestamp) (rm : RiskManager) (o : Order) : Prop := {
  wl_kill : rm_kill_switch rm = false /\ rm_daily_loss_kill rm = false;
  wl_session : is_within_market_hours (rm_now wall rm) = true \/
    (rc_allow_preopen (rm_cfg rm) = true /\ is_preopen (rm_now wall rm) = true);
  wl_qty : 0 < o_qty o <= rc_max_order_qty (rm_cfg rm);
  wl_lot : o_segment o = kSegmentFo -> 0 < rm_LotSize rm (o_token o) ->
    (rm_LotSize rm (o_token o) | o_qty o);
  wl_band : forall lo hi, rm_PriceBand rm (o_token o) = Some (lo, hi) ->
    lo <= o_price o <= hi;
  wl_sane : let ref := vec (if o_side o then rm_ref_ask rm else rm_ref_bid rm) (o_token o) in
    0 < ref -> 100 * Z.abs (o_price o - ref) <= rc_price_sanity_pct (rm_cfg rm) * ref;
  wl_position :
    Z.abs (vec (rm_position rm) (o_token o) + (if o_side o then o_qty o else - o_qty o)) <
      (rc_max_token_position_lots (rm_cfg rm) + 1) * Z.max 1 (rm_LotSize rm (o_token o));
  wl_notional : o_segment o = kSegmentCm ->
    o_qty o * o_price o < (rc_max_cm_notional_inr (rm_cfg rm) + 1) * 100;
  wl_rate : dbl_ge (rm_tokens (refill (rm_now wall rm) rm)) (dbl 1) = true;
}.

(** Sizes for which no intermediate leaves 64 bits. *)
Record risk_ranges (rm : RiskManager) (o : Order) : Prop := {
  rr_token : 0 <= o_token o < kSymbolTableSize;
  rr_qty : 0 <= o_qty o < 2 ^ 31;
  rr_price : 0 <= o_price o < 2 ^ 32;
  rr_position : in_s 32 (vec (rm_position rm) (o_token o));
  rr_refs : forall b : bool, vec (if b then rm_ref_ask rm else rm_ref_bid rm) (o_token o) < 2 ^ 40;
  rr_pct : 0 <= rc_price_sanity_pct (rm_cfg rm) < 2 ^ 16;
  rr_lots : 0 <= rc_max_token_position_lots (rm_cfg rm);
  rr_notional : 0 <= rc_max_cm_notional_inr (rm_cfg rm);
}.

Section Gate.
Context (rm : RiskManager) (o : Order) (Hr : risk_ranges rm o).

Lemma vec_read_in v : vec_read v (o_token o) = Some (vec v (o_token o)).
Proof.
  destruct Hr. unfold vec_read. rewrite (proj2 (Z.leb_le _ _)), (proj2 (Z.ltb_lt _ _)) by lia. done.
Qed.

Lemma PriceSane_spec :
  exists b, PriceSane rm o = Some b /\
    (b = true <-> let ref := vec (if o_side o then rm_ref_ask rm else rm_ref_bid rm) (o_token o) in
      0 < ref -> 100 * Z.abs (o_price o - ref) <= rc_price_sanity_pct (rm_cfg rm) * ref).
Proof.
  unfold PriceSane.
  assert ((if o_side o then vec_read (rm_ref_ask rm) (o_token o)
           else vec_read (rm_ref_bid rm) (o_token o)) =
          Some (vec (if o_side o then rm_ref_ask rm else rm_ref_bid rm) (o_token o))) as ->
    by (destruct (o_side o); apply vec_read_in).
  cbn [mbind option_bind]. pose proof (rr_refs _ _ Hr (o_side o)) as Href.
  destruct Hr as [_ _ Hp _ _ Hpct _ _].
  set (ref := vec _ _) in *. case_if.
  { eexists. split; [done|]. split; [lia|done]. }
  eexists. split; [done|].
  assert ((if o_price o >? ref then i64 (o_price o - ref) else i64 (ref - o_price o)) =
          Z.abs (o_price o - ref)) as ->.
  { rewrite Z.gtb_ltb. destruct (ref <? o_price o) eqn:E; bool_arith; rewrite wrap_s_id by ranges; lia. }
  rewrite !wrap_s_id by (ranges || (split; nia)). rewrite Z.leb_le. split; lia.
Qed.

Lemma PositionOk_spec :
  exists b, PositionOk rm o (rm_LotSize rm (o_token o)) = Some b /\
    (b = true <->
      Z.abs (vec (rm_position rm) (o_token o) + (if o_side o then o_qty o else - o_qty o)) <
        (rc_max_token_position_lots (rm_cfg rm) + 1) * Z.max 1 (rm_LotSize rm (o_token o)) /\
      (o_segment o = kSegmentCm ->
       o_qty o * o_price o < (rc_max_cm_notional_inr (rm_cfg rm) + 1) * 100)).
Proof.
  unfold PositionOk. rewrite vec_read_in. cbn [mbind option_bind].
  destruct Hr as [_ Hq Hp Hpos _ _ Hlots Hnot]. set (p := vec _ _) in *.
  set (lot := rm_LotSize rm (o_token o)).
  assert ((if o_side o then o_qty o else i32 (- o_qty o)) = (if o_side o then o_qty o else - o_qty o)) as ->
    by (destruct (o_side o); [done|rewrite wrap_s_id by ranges; done]).
  set (sq := if o_side o then o_qty o else - o_qty o).
  assert (- 2 ^ 31 < sq < 2 ^ 31) as Hsq by (unfold sq; destruct (o_side o); lia).
  rewrite (wrap_s_id 64 (p + sq)) by ranges.
  assert ((if lot >? 0 then lot else 1) = Z.max 1 lot) as -> by (rewrite Z.gtb_ltb; case_if; lia).
  set (l := Z.max 1 lot). assert (1 <= l) as Hl by lia.
  assert ((if Z.quot (p + sq) l <? 0 then i64 (- Z.quot (p + sq) l) else Z.quot (p + sq) l) =
          Z.abs (p + sq) / l) as ->.
  { pose proof (Z.quot_abs (p + sq) l ltac:(lia)) as Hqa. rewrite (Z.abs_eq l) in Hqa by lia.
    rewrite Z.quot_div_nonneg in Hqa by lia.
    assert (0 <= Z.abs (p + sq) / l <= Z.abs (p + sq)).
    { split; [apply Z.div_pos; lia|]. apply Z.div_le_upper_bound; nia. }
    case_if; [rewrite wrap_s_id by ranges|]; lia. }
  assert (forall m, (Z.abs (p + sq) / l >? m) = negb (Z.abs (p + sq) <? (m + 1) * l)) as ->.
  { intros m. rewrite Z.gtb_ltb, <- Z.leb_antisym.
    destruct (_ <=? _) eqn:E; bool_arith; [apply Z.ltb_lt|apply Z.ltb_ge].
    - apply Z.lt_le_trans with (m := m + 1); [lia|]. apply Z.div_le_lower_bound; lia.
    - apply Z.lt_succ_r. apply Z.div_lt_upper_bound; lia. }
  destruct (Z.abs (p + sq) <? _) eqn:Elim; cbn [negb]; bool_arith.
  2: { eexists. split; [done|]. split; [done|lia]. }
  destruct (o_segment o =? kSegmentCm) eqn:Eseg; bool_arith.
  - eexists. split; [done|]. rewrite wrap_s_id by (split; nia). rewrite Z.gtb_ltb, <- Z.leb_antisym, Z.leb_le.
    rewrite Z.quot_div_nonneg by nia.
    assert (o_qty o * o_price o / 100 <= rc_max_cm_notional_inr (rm_cfg rm) <->
            o_qty o * o_price o < (rc_max_cm_notional_inr (rm_cfg rm) + 1) * 100).
    { split; intros; [pose proof (Z.div_mod (o_qty o * o_price o) 100);
        pose proof (Z.mod_pos_bound (o_qty o * o_price o) 100); lia|].
      apply Z.lt_succ_r, Z.div_lt_upper_bound; lia. }
    naive_solver.
  - eexists. split; [done|]. naive_solver.
Qed.
End Gate.

Lemma refill_frame now rm :
  rm_symbols (refill now rm) = rm_symbols rm /\ rm_cfg (refill now rm) = rm_cfg rm /\
  rm_position (refill now rm) = rm_position rm /\ rm_daily_loss_kill (refill now rm) = rm_daily_loss_kill rm /\
  rm_kill_switch (refill now rm) = rm_kill_switch rm.
Proof. unfold refill. cbv zeta. repeat case_match; done. Qed.

(** A rejection other than by the rate limiter leaves the manager untouched. *)
Definition bucket_only (rm rm' : RiskManager) : Prop :=
  exists tokens last, rm' = set_bucket tokens last rm.

Lemma bucket_only_refl rm : bucket_only rm rm.
Proof. exists (rm_tokens rm), (rm_last_refill_ns rm). by destruct rm. Qed.

Lemma bucket_only_trans rm1 rm2 rm3 : bucket_only rm1 rm2 -> bucket_only rm2 rm3 -> bucket_only rm1 rm3.
Proof. intros (t1 & l1 & ->) (t2 & l2 & ->). by exists t2, l2. Qed.

(** The limits other than the rate do not look at the bucket. *)
Lemma risk_ranges_bucket rm rm' o : bucket_only rm rm' -> risk_ranges rm o -> risk_ranges rm' o.
Proof. intros (t & l & ->) []. by split. Qed.

Lemma refill_bucket now rm : bucket_only rm (refill now rm).
Proof.
  unfold refill, bucket_only. cbv zeta.
  repeat case_match; try (by eexists _, _); exists (rm_tokens rm), (rm_last_refill_ns rm); by destruct rm.
Qed.

(** [check] answers for every token of the table and changes the bucket only. *)
Lemma check_total wall o rm :
  0 <= o_token o < kSymbolTableSize ->
  exists rm' r, check wall o rm = Some (rm', r) /\ bucket_only rm rm'.
Proof.
  intros Ht. assert (forall v, vec_read v (o_token o) = Some (vec v (o_token o))) as Hv.
  { intros v. unfold vec_read. rewrite (proj2 (Z.leb_le _ _)), (proj2 (Z.ltb_lt _ _)) by lia. done. }
  assert (exists b, PriceSane rm o = Some b) as [sane Hs].
  { unfold PriceSane. destruct (o_side o); rewrite Hv; cbn [mbind option_bind]; case_match; by eexists. }
  assert (exists b, PositionOk rm o (rm_LotSize rm (o_token o)) = Some b) as [ok Hp].
  { unfold PositionOk. rewrite Hv. cbn [mbind option_bind]. repeat case_match; by eexists. }
  assert (bucket_only rm (ConsumeRateToken (rm_now wall rm) rm).1) as Hb.
  { unfold ConsumeRateToken. destruct (refill_bucket (rm_now wall rm) rm) as (tk & last & ->).
    destruct (dbl_ge _ _); by eexists _, _. }
  unfold check. cbv zeta.
  repeat (case_match; [eexists _, _; (split; [done|apply bucket_only_refl])|]).
  all: rewrite ?Hs, ?Hp; cbn [mbind option_bind].
  all: repeat (case_match; [eexists _, _; (split; [done|apply bucket_only_refl])|]); simplify_eq/=.
  all: rewrite ?Hs, ?Hp; cbn [mbind option_bind].
  all: destruct (ConsumeRateToken _ _); try (destruct sane, ok); cbn [negb];
    eexists _, _; (split; [done|first [exact Hb|apply bucket_only_refl]]).
Qed.

(** The boolean guards against the limits. *)
Lemma session_guard a b c :
  negb a && negb (b && c) = false <-> a = true \/ (b = true /\ c = true).
Proof. destruct a, b, c; naive_solver. Qed.

Lemma qty_guard q m : (q <=? 0) || (q >? m) = false <-> 0 < q <= m.
Proof. rewrite orb_false_iff, Z.gtb_ltb, Z.leb_gt, Z.ltb_ge. lia. Qed.

Lemma lot_guard seg lot q :
  (seg =? kSegmentFo) && (lot >? 0) && negb (Z.rem q lot =? 0) = false <->
  (seg = kSegmentFo -> 0 < lot -> (lot | q)).
Proof.
  rewrite Z.gtb_ltb, !andb_false_iff, Z.eqb_neq, Z.ltb_ge, negb_false_iff, Z.eqb_eq. split.
  - intros H Hs Hl. apply Z.rem_divide; [lia|]. destruct H as [[]|]; [done|lia|done].
  - intros H. destruct (decide (seg = kSegmentFo)); [|tauto]. destruct (decide (0 < lot)); [|lia].
    right. apply Z.rem_divide; [lia|auto].
Qed.

Lemma band_guard (band : option (Price * Price)) p :
  match band with Some (lo, hi) => (p <? lo) || (p >? hi) | None => false end = false <->
  (forall lo hi, band = Some (lo, hi) -> lo <= p <= hi).
Proof.
  destruct band as [[lo hi]|]; [|naive_solver].
  rewrite orb_false_iff, Z.gtb_ltb, !Z.ltb_ge. naive_solver.
Qed.

(** Every branch of the gate against the limits. *)
Lemma check_exact wall rm o :
  risk_ranges rm o ->
  exists rm' r, check wall o rm = Some (rm', r) /\ (r = kApproved <-> within_limits wall rm o) /\
    (r <> kApproved -> r <> kRateLimitExceeded -> rm' = rm) /\ bucket_only rm rm'.
Proof.
  intros Hr. unfold check.
  pose proof (bucket_only_refl rm) as Hid.
  assert (forall r, r <> kApproved -> ~ within_limits wall rm o ->
    exists rm' r', Some (rm, r) = Some (rm', r') /\ (r' = kApproved <-> within_limits wall rm o) /\
      (r' <> kApproved -> r' <> kRateLimitExceeded -> rm' = rm) /\ bucket_only rm rm') as Hrej.
  { intros r Hne Hno. exists rm, r. split_and!; [done|naive_solver|done|done]. }
  destruct (kill_switch_active rm) eqn:Hk.
  { apply Hrej; [done|]. intros [[H1 H2] _]. unfold kill_switch_active in Hk. by rewrite H1, H2 in Hk. }
  cbv zeta. destruct (negb _ && negb _) eqn:Hses.
  { apply Hrej; [done|]. intros [_ Hw]. apply session_guard in Hw. congruence. }
  destruct ((o_qty o <=? 0) || _) eqn:Hqty.
  { apply Hrej; [done|]. intros [_ _ Hw]. apply qty_guard in Hw. congruence. }
  destruct ((o_segment o =? kSegmentFo) && _ && _) eqn:Hlot.
  { apply Hrej; [done|]. intros [_ _ _ Hw]. apply lot_guard in Hw. congruence. }
  destruct (match rm_PriceBand rm (o_token o) with
            | Some (lo, hi) => (o_price o <? lo) || (o_price o >? hi) | None => false end) eqn:Hband.
  { apply Hrej; [done|]. intros [_ _ _ _ Hw]. apply band_guard in Hw. congruence. }
  destruct (PriceSane_spec rm o Hr) as (sane & -> & Hsane). cbn [mbind option_bind].
  destruct sane; cbn [negb].
  2: { apply Hrej; [done|]. intros Hw. by discriminate (proj2 Hsane (wl_sane _ _ _ Hw)). }
  destruct (PositionOk_spec rm o Hr) as (pos_ok & -> & Hpos). cbn [mbind option_bind].
  destruct pos_ok; cbn [negb].
  2: { apply Hrej; [done|]. intros Hw.
       by discriminate (proj2 Hpos (conj (wl_position _ _ _ Hw) (wl_notional _ _ _ Hw))). }
  unfold ConsumeRateToken. cbv zeta. destruct (refill_bucket (rm_now wall rm) rm) as (tk & last & E).
  destruct (dbl_ge (rm_tokens (refill (rm_now wall rm) rm)) (dbl 1)) eqn:Hrate.
  - eexists _, _. split; [done|]. split_and!; [|done|rewrite E; by eexists _, _].
    split; [|done]. intros _. apply orb_false_elim in Hk. destruct (proj1 Hpos eq_refl) as [Hp1 Hp2].
    split; try done; [by apply session_guard|by apply qty_guard|by apply lot_guard|by apply band_guard
                     |by apply Hsane].
  - eexists _, _. split; [done|]. split_and!; [|done|rewrite E; by eexists _, _].
    split; [done|]. intros Hw. pose proof (wl_rate _ _ _ Hw). congruence.
Qed.

(** C20.  The gate approves exactly the orders within all the limits.  For an
    order of a listed token and values of realistic size, [check] reads in bounds
    and approves if and only if no kill switch is set, the session is open (or
    pre-open is allowed), the quantity is positive and at most the maximum, an FO
    quantity is a lot multiple, the price is inside the circuit band and within
    the sanity percentage of the reference, the projected position stays below
    one lot more than the limit, the CM notional is within its cap, and the bucket
    holds a token; a rejection on any other ground than the rate changes nothing,
    and an approval changes nothing but the bucket. *)
Theorem risk_gate_exact wall rm o :
  risk_ranges rm o ->
  exists rm' r, check wall o rm = Some (rm', r) /\ (r = kApproved <-> within_limits wall rm o) /\
    (r <> kApproved -> r <> kRateLimitExceeded -> rm' = rm) /\ bucket_only rm rm'.
Proof. apply check_exact. Qed.

Definition sample_risk_cfg : RiskConfig :=
  {| rc_max_orders_per_sec := 2; rc_max_order_qty := 10000; rc_max_token_position_lots := 100;
     rc_max_cm_notional_inr := 1000000000; rc_max_daily_loss_inr := 100000;
     rc_allow_preopen := false; rc_price_sanity_pct := 2 |}.

(** 10:00 IST, a reference of 100.00 / 100.10. *)
Definition sample_rm : RiskManager :=
  update_reference 7 10000 10010
    (rm_set_now (20000 * kNsPerDay + 36000 * kNsPerSecond) (RiskManager_new None sample_risk_cfg)).

Definition sample_order (price : Z) : Order :=
  {| o_client_order_id := 1; o_exchange_order_no := 0; o_token := 7; o_segment := kSegmentFo;
     o_price := price; o_qty := 50; o_disclosed_qty := 0; o_side := kBuy; o_order_type := kLimit;
     o_validity := kDay; o_created_at := 0 |}.

Lemma sample_ranges price : 0 <= price < 2 ^ 32 -> risk_ranges sample_rm (sample_order price).
Proof.
  intros Hp. split; [by vm_compute|by vm_compute|exact Hp|by vm_compute| |by vm_compute..].
  intros []; by vm_compute.
Qed.

Lemma risk_gate_exact_witness :
  within_limits 0 sample_rm (sample_order 9995) /\ ~ within_limits 0 sample_rm (sample_order 10500).
Proof.
  split.
  - destruct (risk_gate_exact 0 sample_rm (sample_order 9995)) as (rm' & r & Hc & Hiff & _).
    { by apply sample_ranges. }
    apply Hiff. apply (f_equal (fmap snd)) in Hc. vm_compute in Hc. by injection Hc as <-.
  - destruct (risk_gate_exact 0 sample_rm (sample_order 10500)) as (rm' & r & Hc & Hiff & _).
    { by apply sample_ranges. }
    intros Hw. apply Hiff in Hw. subst r. apply (f_equal (fmap snd)) in Hc. vm_compute in Hc. discriminate.
Defined.

(** ** The daily-loss switch latches *)

Inductive RiskOp :=
  | OpCheck (wall : Timestamp) (o : Order) | OpFill (f : FillReport) | OpKill (on : bool)
  | OpReference (token : Token) (bid ask : Price) | OpNow (t : Timestamp).

Definition risk_step (rm : RiskManager) (op : RiskOp) : option RiskManager :=
  match op with
  | OpCheck wall o => fst <$> check wall o rm
  | OpFill f => Some (rm_on_fill f rm)
  | OpKill on => Some (set_kill_switch on rm)
  | OpReference token bid ask => Some (update_reference token bid ask rm)
  | OpNow t => Some (rm_set_now t rm)
  end.

Fixpoint risk_run (rm : RiskManager) (ops : list RiskOp) : option RiskManager :=
  match ops with [] => Some rm | op :: ops => rm ← risk_step rm op; risk_run rm ops end.

Lemma check_killed wall o rm : rm_daily_loss_kill rm = true -> check wall o rm = Some (rm, kKillSwitch).
Proof. intros H. unfold check, kill_switch_active. by rewrite H, orb_true_r. Qed.

Lemma killed_step rm op :
  rm_daily_loss_kill rm = true ->
  exists rm', risk_step rm op = Some rm' /\ rm_daily_loss_kill rm' = true.
Proof.
  intros H. destruct op as [wall o|f|on|t b a|t]; simpl.
  - rewrite check_killed by done. simpl. eauto.
  - eexists. split; [done|]. unfold rm_on_fill, RecomputePnl. repeat case_if; done.
  - by eexists.
  - eexists. split; [done|]. unfold update_reference. by case_if.
  - by eexists.
Qed.

(** A fill that takes the marked PnL below the daily loss limit stops trading
    for good: whatever fills, references, clock changes or manual switch changes
    follow, every later order is rejected by the kill switch. *)
Theorem daily_loss_latches rm fill ops :
  fr_token fill < kSymbolTableSize ->
  rm_mark_pnl_inr (rm_on_fill fill rm) < i64 (- rc_max_daily_loss_inr (rm_cfg rm)) ->
  exists rm', risk_run (rm_on_fill fill rm) ops = Some rm' /\
    kill_switch_active rm' = true /\
    forall wall o, check wall o rm' = Some (rm', kKillSwitch).
Proof.
  intros Htok Hloss.
  assert (rm_daily_loss_kill (rm_on_fill fill rm) = true) as Hk.
  { revert Hloss. unfold rm_on_fill. rewrite Z.geb_leb, (proj2 (Z.leb_gt _ _)) by done.
    unfold RecomputePnl. cbv zeta. cbn. intros Hloss. by rewrite (proj2 (Z.ltb_lt _ _)). }
  clear Htok Hloss. revert Hk. generalize (rm_on_fill fill rm) as r. clear rm fill.
  induction ops as [|op ops IH]; intros r Hk; cbn [risk_run].
  - exists r. split_and!; [done| |intros; by apply check_killed].
    unfold kill_switch_active. by rewrite Hk, orb_true_r.
  - destruct (killed_step r op Hk) as (r' & -> & Hk'). cbn [mbind option_bind]. by apply IH.
Qed.

Definition sample_fill (token : Token) (side : Side) (price qty : Z) : FillReport :=
  {| fr_exchange_order_no := 1; fr_client_order_id := 1; fr_token := token; fr_fill_price := price;
     fr_fill_qty := qty; fr_remaining_qty := 0; fr_fill_time := 0; fr_trade_no := 1;
     fr_side := side |}.

(** Bought 20000 at 100.00, then 1 at 90.00: a marked loss of 200000 rupees. *)
Lemma daily_loss_latches_witness :
  let rm := rm_on_fill (sample_fill 7 kBuy 10000 20000) sample_rm in
  exists rm', risk_run (rm_on_fill (sample_fill 7 kBuy 9000 1) rm)
      [OpKill true; OpKill false; OpCheck 0 (sample_order 9995)] = Some rm' /\
    check 0 (sample_order 9995) rm' = Some (rm', kKillSwitch).
Proof.
  cbv zeta. destruct (daily_loss_latches (rm_on_fill (sample_fill 7 kBuy 10000 20000) sample_rm)
    (sample_fill 7 kBuy 9000 1) [OpKill true; OpKill false; OpCheck 0 (sample_order 9995)])
    as (rm' & Hr & _ & Hc); [vm_compute; reflexivity..|].
  exists rm'. split; [exact Hr|apply Hc].
Defined.

(** ** Profit and loss *)

Definition signed_qty (f : FillReport) : Z := if fr_side f then fr_fill_qty f else - fr_fill_qty f.

Definition fills (fs : list FillReport) (rm : RiskManager) : RiskManager :=
  foldl (fun rm f => rm_on_fill f rm) rm fs.

(** Fills of one token, of a day's realistic size. *)
Definition day_fills (token : Token) (fs : list FillReport) : Prop :=
  (length fs <= 1024)%nat /\
  Forall (fun f => fr_token f = token /\ 0 <= fr_fill_qty f < 2 ^ 20 /\ 0 <= fr_fill_price f < 2 ^ 30) fs.

Section Books.
Context (symbols : option SymbolMaster) (cfg : RiskConfig) (token : Token).
Context (Htok : 0 <= token < kSymbolTableSize).
Abbreviation cost f := (signed_qty f * fr_fill_price f).

Lemma day_fills_snoc fs f :
  day_fills token (fs ++ [f]) ->
  day_fills token fs /\ fr_token f = token /\ Z.abs (signed_qty f) < 2 ^ 20 /\
  Z.abs (cost f) <= 2 ^ 50 /\
  Z.abs (zsum signed_qty fs) <= 2 ^ 20 * 1024 /\ Z.abs (zsum (fun f => cost f) fs) <= 2 ^ 50 * 1024.
Proof.
  intros [Hl Hall]. rewrite length_app in Hl. simpl in Hl. apply Forall_app in Hall as [Hall Hf].
  assert (forall g, 0 <= fr_fill_qty g < 2 ^ 20 -> 0 <= fr_fill_price g < 2 ^ 30 ->
    Z.abs (signed_qty g) < 2 ^ 20 /\ Z.abs (cost g) <= 2 ^ 50) as Hone.
  { intros g Hq Hp. unfold signed_qty. destruct (fr_side g); (split; [lia|]); nia. }
  apply Forall_singleton in Hf as (Ht & Hq & Hp). destruct (Hone f Hq Hp).
  split; [split; [lia|done]|]. split_and!; try done.
  - etransitivity; [apply (zsum_bound _ _ (2 ^ 20)); [lia|]|nia].
    eapply Forall_impl; [|exact Hall]. intros g (_ & H1 & H2). destruct (Hone g H1 H2). lia.
  - etransitivity; [apply (zsum_bound _ _ (2 ^ 50)); [lia|]|nia].
    eapply Forall_impl; [|exact Hall]. intros g (_ & H1 & H2). by destruct (Hone g H1 H2).
Qed.

Lemma fills_books fs :
  day_fills token fs ->
  let rm := fills fs (RiskManager_new symbols cfg) in
  vec (rm_position rm) token = zsum signed_qty fs /\
  rm_cashflow_paisa rm = - zsum (fun f => cost f) fs.
Proof.
  induction fs as [|f fs IH] using rev_ind; intros Hd; [done|].
  destruct (day_fills_snoc fs f Hd) as (Hd' & Ht & Hq & Hc & Hsq & Hsc).
  destruct (IH Hd') as [Hp Hcash]. unfold fills in *. rewrite foldl_snoc.
  set (rm := foldl _ _ fs) in *. unfold rm_on_fill. rewrite Ht.
  rewrite Z.geb_leb, (proj2 (Z.leb_gt _ _)) by lia.
  assert ((if fr_side f then fr_fill_qty f else i32 (- fr_fill_qty f)) = signed_qty f) as ->.
  { unfold signed_qty in *. destruct (fr_side f); [done|]. apply wrap_s_id; ranges. }
  rewrite !zsum_app. cbn [zsum foldr]. unfold RecomputePnl. cbn.
  rewrite Hp, Hcash. unfold vec. rewrite lookup_insert_eq. cbn [default].
  rewrite (wrap_s_id 32 (signed_qty f)) by ranges.
  rewrite (wrap_s_id 64 (- signed_qty f)) by ranges.
  assert (- signed_qty f * fr_fill_price f = - cost f) as -> by lia.
  rewrite (wrap_s_id 64 (- cost f)) by ranges.
  rewrite wrap_s_id by ranges. rewrite wrap_s_id by ranges. unfold id. lia.
Qed.

Lemma fills_pnl fs f :
  day_fills token (fs ++ [f]) ->
  rm_mark_pnl_inr (fills (fs ++ [f]) (RiskManager_new symbols cfg)) =
    Z.quot (zsum (fun g => signed_qty g * (fr_fill_price f - fr_fill_price g)) (fs ++ [f])) 100.
Proof.
  intros Hd. destruct (fills_books (fs ++ [f]) Hd) as [Hp Hcash].
  destruct (day_fills_snoc fs f Hd) as (_ & Ht & Hq & Hc & Hsq & Hsc).
  assert (0 <= fr_fill_price f < 2 ^ 30) as Hpr.
  { destruct Hd as [_ Hall]. apply Forall_app in Hall as [_ Hall].
    by apply Forall_singleton in Hall as (_ & _ & ?). }
  unfold fills in *. rewrite foldl_snoc in Hp, Hcash |- *. set (rm := foldl _ _ fs) in *.
  revert Hp Hcash. unfold rm_on_fill. rewrite Ht.
  rewrite Z.geb_leb, (proj2 (Z.leb_gt _ _)) by lia. unfold RecomputePnl. cbn. intros -> ->.
  rewrite zsum_linear, !zsum_app. cbn [zsum foldr].
  set (Q := zsum signed_qty fs) in *. set (C := zsum (fun f => cost f) fs) in *.
  rewrite (wrap_s_id 64 (_ * _)) by (split; nia).
  rewrite wrap_s_id by (split; nia). f_equal. lia.
Qed.
End Books.

(** On fills of a single token the books are exact: the position is the sum
    of the signed quantities, the cash flow minus their cost, and the marked PnL,
    at the price of the last fill, is the sum over all fills of quantity times
    price move, in rupees; nothing overflows at a day's realistic size. *)
Theorem single_token_pnl symbols cfg token fs f :
  0 <= token < kSymbolTableSize -> day_fills token (fs ++ [f]) ->
  let rm := fills (fs ++ [f]) (RiskManager_new symbols cfg) in
  rm_position_of rm token = zsum signed_qty (fs ++ [f]) /\
  rm_cashflow_paisa rm = - zsum (fun g => signed_qty g * fr_fill_price g) (fs ++ [f]) /\
  rm_mark_pnl_inr rm =
    Z.quot (zsum (fun g => signed_qty g * (fr_fill_price f - fr_fill_price g)) (fs ++ [f])) 100.
Proof.
  intros Ht Hd. cbv zeta. destruct (fills_books symbols cfg token Ht (fs ++ [f]) Hd) as [Hp Hc].
  unfold rm_position_of. rewrite (proj2 (Z.ltb_lt _ _)) by lia.
  split_and!; [exact Hp|exact Hc|]. by apply (fills_pnl symbols cfg token).
Qed.

Lemma single_token_pnl_witness :
  let fs := [sample_fill 7 kBuy 10000 100; sample_fill 7 kSell 10100 40] in
  rm_mark_pnl_inr (fills (fs ++ [sample_fill 7 kSell 10200 60]) (RiskManager_new None sample_risk_cfg))
    = 160.
Proof.
  cbv zeta. destruct (single_token_pnl None sample_risk_cfg 7
    [sample_fill 7 kBuy 10000 100; sample_fill 7 kSell 10100 40] (sample_fill 7 kSell 10200 60))
    as (_ & _ & E).
  - by vm_compute.
  - split; [vm_compute; lia|]. apply (bool_decide_unpack _). vm_compute. exact I.
  - rewrite E. vm_compute. reflexivity.
Defined.

(** With two tokens the marked PnL is wrong: after buying A and then B, both
    at cost (a true PnL of zero), it is minus the whole cost of A, so that a
    purchase of A worth more than the loss limit trips the kill switch as soon as
    another token fills. *)
Theorem two_token_pnl_drops_position symbols cfg a b qa pa qb pb :
  0 <= a < kSymbolTableSize -> 0 <= b < kSymbolTableSize -> a <> b ->
  0 < qa < 2 ^ 20 -> 0 < qb < 2 ^ 20 -> 0 < pa < 2 ^ 30 -> 0 < pb < 2 ^ 30 ->
  0 <= rc_max_daily_loss_inr cfg < 2 ^ 62 ->
  let fill t q p := sample_fill t kBuy p q in
  let rm := fills [fill a qa pa; fill b qb pb] (RiskManager_new symbols cfg) in
  rm_mark_pnl_inr rm = Z.quot (- (qa * pa)) 100 /\
  (rc_max_daily_loss_inr cfg < qa * pa / 100 -> kill_switch_active rm = true).
Proof.
  intros Ha Hb Hne Hqa Hqb Hpa Hpb Hmax. cbv zeta. unfold fills. cbn [foldl].
  assert (0 < qa * pa < 2 ^ 50 /\ 0 < qb * pb < 2 ^ 50) as [Hca Hcb] by nia.
  unfold rm_on_fill. cbn [fr_token sample_fill fr_side fr_fill_qty fr_fill_price kBuy].
  rewrite !Z.geb_leb, !(fun x y => proj2 (Z.leb_gt x y)) by lia.
  unfold RecomputePnl. cbn. unfold vec.
  rewrite !lookup_insert_eq, lookup_insert_ne, !lookup_empty by done. cbn. unfold id.
  rewrite !Z.add_0_l, !(wrap_s_id 32 qa), !(wrap_s_id 32 qb) by ranges.
  rewrite !(wrap_s_id 64 (- qa)), !(wrap_s_id 64 (- qb)) by ranges.
  rewrite !(wrap_s_id 64 (- qa * pa)), !(wrap_s_id 64 (- qb * pb)) by (split; nia).
  rewrite !(wrap_s_id 64 (qb * pb)) by ranges.
  rewrite !(wrap_s_id 64 (- qa * pa + - qb * pb)) by (split; nia).
  replace (- qa * pa + - qb * pb + qb * pb) with (- (qa * pa)) by lia.
  rewrite !(wrap_s_id 64 (- (qa * pa))) by (split; nia).
  split; [done|]. intros Hbig. unfold kill_switch_active. cbn.
  rewrite (wrap_s_id 64 (- rc_max_daily_loss_inr cfg)) by ranges.
  rewrite (Z.quot_opp_l (qa * pa)), (Z.quot_div_nonneg (qa * pa)) by lia.
  rewrite (proj2 (Z.ltb_lt (- (qa * pa / 100)) _)) by lia. done.
Qed.

Lemma two_token_pnl_drops_position_witness :
  let fill t q p := sample_fill t kBuy p q in
  kill_switch_active (fills [fill 7 1000 1000000; fill 9 1 100]
    (RiskManager_new None sample_risk_cfg)) = true.
Proof.
  cbv zeta. apply (two_token_pnl_drops_position None sample_risk_cfg 7 9 1000 1000000 1 100);
    vm_compute; try (split; (reflexivity || discriminate)); try reflexivity; discriminate.
Defined.
