(* ===== verification/RateLimit.v ===== *)
(** * RateLimit: the token bucket over time ([ConsumeRateToken] of
      src/risk/risk_manager.hpp)

    The bucket is a double that [refill] raises by the elapsed time and every approved
    order lowers by one.  All steps of a risk manager are considered, from construction on
    and with clock readings in any order; the rounding of every operation is accounted
    for with [Rounding]. *)

From Stdlib Require Import ZArith Lia SpecFloat.
From stdpp Require Import base gmap list numbers option.
From S2P Require Import Prelude Types Double Rounding TimeUtils SymbolMaster RiskManager.

Local Open Scope Z_scope.

(** ** Verdicts of a history *)

Definition risk_verdict (rm : RiskManager) (op : RiskOp) : option (RiskManager * list RejectReason) :=
  match op with
  | OpCheck wall o => '(rm, r) ← check wall o rm; Some (rm, [r])
  | _ => rm ← risk_step rm op; Some (rm, [])
  end.

Fixpoint risk_trace (rm : RiskManager) (ops : list RiskOp) : option (RiskManager * list RejectReason) :=
  match ops with
  | [] => Some (rm, [])
  | op :: ops =>
      '(rm, rs) ← risk_verdict rm op; '(rm, rs') ← risk_trace rm ops; Some (rm, rs ++ rs')
  end.

Definition approvals (rs : list RejectReason) : nat := length (filter (fun r => r = kApproved) rs).

Lemma approvals_app rs rs' : approvals (rs ++ rs') = (approvals rs + approvals rs')%nat.
Proof. unfold approvals. by rewrite list.filter_app, length_app. Qed.

(** An order is decided before the bucket, or by the bucket. *)
Lemma check_consumes wall o rm rm' r :
  check wall o rm = Some (rm', r) ->
  (rm' = rm /\ r <> kApproved) \/
  exists ok, ConsumeRateToken (rm_now wall rm) rm = (rm', ok) /\ r = if ok then kApproved else kRateLimitExceeded.
Proof.
  intros Hc. unfold check in Hc. cbv zeta in Hc.
  repeat case_if_in Hc; simplify_eq; try (by left).
  destruct (PriceSane rm o) as [sane|]; [|done]. cbn [mbind option_bind] in Hc.
  destruct sane; cbn [negb] in Hc; [|simplify_eq; by left].
  destruct (PositionOk rm o _) as [pok|]; [|done]. cbn [mbind option_bind] in Hc.
  destruct pok; cbn [negb] in Hc; [|simplify_eq; by left].
  destruct (ConsumeRateToken _ _) as [rm1 ok] eqn:E. simplify_eq. right. by exists ok.
Qed.

(** ** The bucket in exact units *)

Abbreviation P := (2 ^ kScale).

Lemma P_pos : 0 < P.
Proof. apply Z.pow_pos_nonneg; scale; lia. Qed.

Section Bucket.
Context (n : Z) (Hn : 1 <= n <= 2 ^ 20).

(** A bucket of capacity [n]. *)
Record bucket_ok (rm : RiskManager) : Prop := {
  bk_rate : rc_max_orders_per_sec (rm_cfg rm) = n;
  bk_canon : canon (rm_tokens rm);
  bk_cap : units (rm_tokens rm) <= n * P;
}.

Lemma cap_units : canon (dbl n) /\ units (dbl n) = n * P.
Proof. apply dbl_int. lia. Qed.

(** Tokens per nanosecond. *)
Definition rate : spec_float := dbl_div (dbl n) (dbl kNsPerSecond).

Lemma rate_units :
  canon rate /\ units rate * 2 ^ 52 * kNsPerSecond <= n * P * (2 ^ 52 + 1) /\
  P <= units rate * 2 ^ 31.
Proof.
  destruct cap_units as [Cn En]. destruct (dbl_int kNsPerSecond) as [Cs Es]; [unfold kNsPerSecond; lia|].
  pose proof P_pos as HP.
  assert (rn (n * P * P) (kNsPerSecond * P) rate) as Hr.
  { rewrite <- En, <- Es. apply dbl_div_rn; [done|done|rewrite Es; unfold kNsPerSecond; lia|].
    rewrite En, Es. scale. rewrite (Z.pow_add_r 2 kScale) by lia. unfold kNsPerSecond.
    assert (2 ^ 20 < 2 ^ 900) as Hbig by (apply Z.pow_lt_mono_r; lia). revert Hbig. generalize (2 ^ 900). intros X HX.
    replace (1000000000 * P * (P * X)) with (1000000000 * X * (P * P)) by ring.
    rewrite <- Z.mul_assoc. apply Z.mul_lt_mono_pos_r; [by apply Z.mul_pos_pos|lia]. }
  split; [apply Hr|]. split.
  - pose proof (rn_upper (n * P * P) (kNsPerSecond * P) _ ltac:(unfold kNsPerSecond; lia) Hr) as Hu.
    assert (kNsPerSecond * P * 2 ^ (kMinShift + 52) <= n * P * P) as Hbig.
    { scale. assert (2 ^ (kScale - 1074 + 52) * 2 ^ 30 <= P) as Hs.
      { rewrite <- Z.pow_add_r by lia. apply Z.pow_le_mono_r; lia. }
      unfold kNsPerSecond. assert (0 < 2 ^ (kScale - 1074 + 52)) by (apply Z.pow_pos_nonneg; lia). nia. }
    specialize (Hu Hbig). apply (Z.mul_le_mono_pos_r _ _ P HP). lia.
  - destruct (scaled_float 1 (-31)) as (g & Hg & Eg); [lia|lia|].
    assert (units g * 2 ^ 31 = P) as Eg31.
    { rewrite Eg, Z.mul_1_l, <- Z.pow_add_r by (scale; lia). f_equal; lia. }
    pose proof (rn_mono (units g) 1 (n * P * P) (kNsPerSecond * P) _ _ ltac:(lia) ltac:(unfold kNsPerSecond; lia)
      (rn_canon g Hg) Hr) as Hm.
    assert (units g <= units rate); [|lia]. apply Hm. unfold kNsPerSecond. nia.
Qed.

(** What [d] elapsed nanoseconds bring, at most, in units of [P / (2^52 * 10^9)]. *)
Lemma earned_units d :
  0 < d < 2 ^ 64 ->
  let e := dbl_mul (dbl d) rate in
  canon e /\ P <= units e * 2 ^ 32 /\ units e < 2 ^ 200 * P /\
  units e * 2 ^ 52 * kNsPerSecond <= d * n * P * (2 ^ 52 + 4).
Proof.
  intros Hd. cbv zeta. pose proof P_pos as HP. destruct rate_units as (Cr & Hr & Hr31).
  destruct (dbl_u64 d) as (Cd & Hd64 & Hd1); [unfold in_u; cbn; lia|]. specialize (Hd1 ltac:(lia)).
  assert (rn (d * P) 1 (dbl d)) as Rd.
  { apply dbl_rn. assert (2 ^ 64 < 2 ^ 900) by (apply Z.pow_lt_mono_r; lia). lia. }
  assert (2 ^ (kMinShift + 52) * 2 ^ 100 <= P) as Hsmall.
  { scale. rewrite <- Z.pow_add_r by lia. apply Z.pow_le_mono_r; lia. }
  assert (0 < 2 ^ (kMinShift + 52)) as HT by (apply Z.pow_pos_nonneg; scale; lia).
  pose proof (rn_upper (d * P) 1 _ ltac:(lia) Rd ltac:(nia)) as Ud.
  assert (units rate <= 2 ^ 20 * P) as Hrmax by (unfold kNsPerSecond in Hr; nia).
  assert (rn (units (dbl d) * units rate) P (dbl_mul (dbl d) rate)) as Re.
  { apply dbl_mul_rn; [done|done|]. scale. rewrite (Z.pow_add_r 2 kScale) by lia.
    assert (2 ^ 84 < 2 ^ 900) by (apply Z.pow_lt_mono_r; lia).
    pose proof (units_nonneg rate). pose proof (units_nonneg (dbl d)).
    assert (units (dbl d) * units rate <= 2 ^ 64 * P * (2 ^ 20 * P)) by (apply Z.mul_le_mono_nonneg; lia). nia. }
  assert (P * (2 ^ (kMinShift + 52)) <= units (dbl d) * units rate) as Hbig by nia.
  pose proof (rn_upper (units (dbl d) * units rate) P _ HP Re Hbig) as Ue.
  split; [apply Re|]. split_and!.
  - destruct (scaled_float 1 (-32)) as (g & Hg & Eg); [lia|lia|].
    assert (units g * 2 ^ 32 = P) as Eg32.
    { rewrite Eg, Z.mul_1_l, <- Z.pow_add_r by (scale; lia). f_equal; lia. }
    pose proof (rn_mono (units g) 1 (units (dbl d) * units rate) P _ _ ltac:(lia) HP (rn_canon g Hg) Re) as Hm.
    assert (units g <= units (dbl_mul (dbl d) rate)); [|lia]. apply Hm. nia.
  - assert (units (dbl d) * units rate <= 2 ^ 64 * P * (2 ^ 20 * P)) as Hmax.
    { pose proof (units_nonneg rate). pose proof (units_nonneg (dbl d)). apply Z.mul_le_mono_nonneg; lia. }
    assert (units (dbl_mul (dbl d) rate) * 2 ^ 52 * P <= 2 ^ 84 * P * (2 ^ 52 + 1) * P) as H by nia.
    apply Z.mul_le_mono_pos_r in H; [|done]. nia.
  - set (e := units (dbl_mul (dbl d) rate)) in *. set (ud := units (dbl d)) in *. set (ur := units rate) in *.
    pose proof (units_nonneg rate : 0 <= ur). pose proof (units_nonneg (dbl d) : 0 <= ud).
    assert (ud * 2 ^ 52 * (ur * 2 ^ 52 * kNsPerSecond) <= d * P * (2 ^ 52 + 1) * (n * P * (2 ^ 52 + 1))) as Hprod.
    { apply Z.mul_le_mono_nonneg; unfold kNsPerSecond in *; lia. }
    assert (e * 2 ^ 52 * P * (2 ^ 104 * kNsPerSecond) <= ud * ur * (2 ^ 52 + 1) * (2 ^ 104 * kNsPerSecond)) as He.
    { apply Z.mul_le_mono_nonneg_r; [unfold kNsPerSecond; lia|lia]. }
    assert (ud * ur * (2 ^ 52 + 1) * (2 ^ 104 * kNsPerSecond) <= d * n * P * P * (2 ^ 52 + 1) ^ 3) as Hx by lia.
    assert (0 <= d * n * P * P) as Hdn by nia.
    assert (e * 2 ^ 52 * kNsPerSecond * (2 ^ 104 * P) <= d * n * P * (2 ^ 52 + 4) * (2 ^ 104 * P)) as Hfin.
    { assert ((2 ^ 52 + 1) ^ 3 <= (2 ^ 52 + 4) * 2 ^ 104) by lia. nia. }
    by apply Z.mul_le_mono_pos_r in Hfin; [|lia].
Qed.

(** The scale in which everything is an integer. *)
Definition kGrain : Z := 2 ^ 52 * kNsPerSecond.

(** A refill after [d] nanoseconds adds what the rate gives, up to the rounding of
    four operations, and never beyond the capacity. *)
Lemma refilled_units d u :
  0 < d < 2 ^ 64 -> canon u -> units u <= n * P ->
  let sum := dbl_add u (dbl_mul (dbl d) rate) in
  let u' := if dbl_gt sum (dbl n) then dbl n else sum in
  canon u' /\ units u' <= n * P /\
  units u' * kGrain <= units u * kGrain + d * n * P * (2 ^ 52 + 4) + n * P * kNsPerSecond.
Proof.
  intros Hd Cu Hu. cbv zeta. pose proof P_pos as HP. destruct cap_units as [Cn En].
  destruct (earned_units d Hd) as (Ce & He1 & He2 & He3). set (e := dbl_mul (dbl d) rate) in *.
  pose proof (units_nonneg u) as Hu0.
  assert (rn (units u + units e) 1 (dbl_add u e)) as Rs.
  { apply dbl_add_rn; [done|done|]. scale. rewrite (Z.pow_add_r 2 kScale) by lia.
    assert (2 ^ 201 < 2 ^ 900) by (apply Z.pow_lt_mono_r; lia). nia. }
  assert (2 ^ (kMinShift + 52) * 2 ^ 100 <= P) as Hsmall.
  { scale. rewrite <- Z.pow_add_r by lia. apply Z.pow_le_mono_r; lia. }
  assert (0 < 2 ^ (kMinShift + 52)) as HT by (apply Z.pow_pos_nonneg; scale; lia).
  pose proof (rn_upper (units u + units e) 1 _ ltac:(lia) Rs ltac:(lia)) as Us.
  rewrite canon_gt, En by (done || apply Rs). unfold kGrain, kNsPerSecond in *.
  destruct (Z.ltb_spec (n * P) (units (dbl_add u e))) as [Hgt|Hle].
  - rewrite En. split_and!; [done|lia|].
    assert (n * P <= units u + units e) as Hx; [|lia].
    destruct (Z.le_gt_cases (n * P) (units u + units e)) as [|Hlt]; [done|exfalso].
    pose proof (rn_mono (units u + units e) 1 (n * P) 1 _ (dbl n) ltac:(lia) ltac:(lia) Rs) as Hm.
    rewrite <- En in Hm at 1. specialize (Hm (rn_canon _ Cn) ltac:(lia)). lia.
  - split_and!; [apply Rs|done|].
    destruct (Z.le_gt_cases (units u + units e) (n * P)) as [Hsum|Hsum]; lia.
Qed.

Lemma refill_bounds now rm :
  bucket_ok rm -> in_u 64 now -> in_u 64 (rm_last_refill_ns rm) ->
  let rm' := refill now rm in
  bucket_ok rm' /\
  (if rm_last_refill_ns rm =? 0 then rm_last_refill_ns rm' = now /\ rm_tokens rm' = rm_tokens rm
   else if now >? rm_last_refill_ns rm then
     rm_last_refill_ns rm' = now /\
     units (rm_tokens rm') * kGrain <=
       units (rm_tokens rm) * kGrain + (now - rm_last_refill_ns rm) * n * P * (2 ^ 52 + 4) + n * P * kNsPerSecond
   else rm' = rm).
Proof.
  intros [H1 H2 H3] Hnow Hlast. unfold refill. cbv zeta. unfold in_u in *.
  destruct (rm_last_refill_ns rm =? 0) eqn:E0; cbn [rm_last_refill_ns set_bucket].
  { rewrite Z.gtb_ltb, Z.ltb_irrefl. done. }
  destruct (now >? rm_last_refill_ns rm) eqn:E1; [|done]. bool_arith. rewrite H1. fold rate.
  rewrite wrap_u_id by ranges.
  destruct (refilled_units (now - rm_last_refill_ns rm) (rm_tokens rm)) as (R1 & R2 & R3); [lia|done|done|].
  split; [by split|]. split; [done|exact R3].
Qed.

(** What an order takes is exactly one token. *)
Lemma consume_bounds now rm rm' ok :
  bucket_ok rm -> in_u 64 now -> in_u 64 (rm_last_refill_ns rm) -> ConsumeRateToken now rm = (rm', ok) ->
  bucket_ok rm' /\ rm_last_refill_ns rm' = rm_last_refill_ns (refill now rm) /\
  rm_sim_now_ns rm' = rm_sim_now_ns rm /\
  units (rm_tokens rm') = units (rm_tokens (refill now rm)) - (if ok then P else 0).
Proof.
  intros Hb Hnow Hl Hc. pose proof P_pos as HP. destruct (refill_bounds now rm Hb Hnow Hl) as [Hb' _].
  assert (rm_sim_now_ns (refill now rm) = rm_sim_now_ns rm) as Hsim.
  { unfold refill. cbv zeta. by repeat case_if. }
  destruct (dbl_int 1 ltac:(lia)) as [C1 E1]. rewrite Z.mul_1_l in E1.
  unfold ConsumeRateToken in Hc. cbv zeta in Hc. set (rm1 := refill now rm) in *. clearbody rm1.
  destruct Hb' as [B1 B2 B3]. rewrite canon_ge, E1 in Hc by done.
  destruct (Z.leb_spec P (units (rm_tokens rm1))) as [Hge|Hlt]; injection Hc as <- <-.
  - destruct (dbl_sub_one (rm_tokens rm1) B2) as [Cs Es]; [nia|].
    split_and!; [|done|done|exact Es]. split; [done|exact Cs|].
    change (units (dbl_sub (rm_tokens rm1) (dbl 1)) <= n * P). lia.
  - split_and!; [by split|done|done|lia].
Qed.

(** ** Approvals in a window of time *)

Section Window.
Context (t0 t1 : Z) (Ht : 0 <= t0 <= t1) (Ht1 : t1 < 2 ^ 64).

(** The clock readings of an operation lie in the window; 0 switches a simulated clock
    off. *)
Definition clock_in (op : RiskOp) : Prop :=
  match op with
  | OpCheck wall _ => t0 <= wall <= t1
  | OpNow t => t = 0 \/ t0 <= t <= t1
  | _ => True
  end.

Record clocked (rm : RiskManager) : Prop := {
  ck_bucket : bucket_ok rm;
  ck_last : in_u 64 (rm_last_refill_ns rm);
  ck_clock : rm_sim_now_ns rm = 0 \/ t0 <= rm_sim_now_ns rm <= t1;
}.

Lemma rm_now_in wall rm : clocked rm -> t0 <= wall <= t1 -> t0 <= rm_now wall rm <= t1.
Proof. intros [_ _ Hs] Hw. unfold rm_now. case_if; bool_arith; lia. Qed.

Lemma consume_clocked now rm rm' ok :
  clocked rm -> t0 <= now <= t1 -> ConsumeRateToken now rm = (rm', ok) -> clocked rm'.
Proof.
  intros [H1 H2 H3] Hnow Hc. assert (in_u 64 now) as Hu by (unfold in_u; cbn; lia).
  destruct (consume_bounds now rm rm' ok H1 Hu H2 Hc) as (B1 & B2 & B3 & _).
  split; [done| |by rewrite B3]. rewrite B2. destruct (refill_bounds now rm H1 Hu H2) as [_ Hr].
  destruct (_ =? 0); [by destruct Hr as [-> _]|]. destruct (_ >? _); [by destruct Hr as [-> _]|]. by rewrite Hr.
Qed.

(** What the operations that are not checks leave alone. *)
Lemma other_clocked op rm rm' :
  clocked rm -> clock_in op -> match op with OpCheck _ _ => False | _ => True end ->
  risk_step rm op = Some rm' ->
  clocked rm' /\ rm_tokens rm' = rm_tokens rm /\ rm_last_refill_ns rm' = rm_last_refill_ns rm.
Proof.
  intros [[H1 H2 H3] H4 H5] Hop Hne Hs.
  destruct op as [wall o|f|on|t b a|t]; cbn in Hs, Hop; [done|injection Hs as <-..].
  - unfold rm_on_fill, RecomputePnl. repeat case_if; (split; [by split|done]).
  - done.
  - unfold update_reference. case_if; done.
  - done.
Qed.

Lemma run_clocked ops : forall rm rm', clocked rm -> Forall clock_in ops -> risk_run rm ops = Some rm' -> clocked rm'.
Proof.
  induction ops as [|op ops IH]; intros rm rm' Hc Hall Hr; cbn [risk_run] in Hr; [by injection Hr as <-|].
  apply Forall_cons_1 in Hall as [Hop Hall]. apply bind_Some in Hr as (rm1 & Hs & Hr).
  apply (IH rm1 rm'); [|done|done]. destruct op as [wall o|f|on|t b a|t]; try by eapply other_clocked.
  cbn in Hs. apply fmap_Some in Hs as ([rm2 r] & Hk & ->). cbn [fst].
  destruct (check_consumes _ _ _ _ _ Hk) as [[-> _]|(ok & Ht' & _)]; [done|].
  eapply consume_clocked; [done| |exact Ht']. by apply rm_now_in.
Qed.

(** After [k] operations with [a] approvals: the capacity and the elapsed time pay for what
    was spent. *)
Definition spent (k a : Z) (rm : RiskManager) : Prop :=
  a = 0 \/ 0 < a /\ t0 <= rm_last_refill_ns rm /\
    (units (rm_tokens rm) + a * P) * kGrain <=
      n * P * kGrain + (Z.min (rm_last_refill_ns rm) t1 - t0) * n * P * (2 ^ 52 + 4) + k * n * P * kNsPerSecond.

Lemma spent_later k a rm : spent k a rm -> spent (k + 1) a rm.
Proof.
  pose proof P_pos. intros [->|(H1 & H2 & H3)]; [by left|right]. split_and!; [done|done|].
  assert (0 <= n * P * kNsPerSecond) by (unfold kNsPerSecond; nia). lia.
Qed.

Lemma refill_spent k a now rm :
  0 < t0 -> 0 <= k -> clocked rm -> spent k a rm -> t0 <= now <= t1 ->
  let rm' := refill now rm in
  t0 <= rm_last_refill_ns rm' /\
  (units (rm_tokens rm') + a * P) * kGrain <=
    n * P * kGrain + (Z.min (rm_last_refill_ns rm') t1 - t0) * n * P * (2 ^ 52 + 4) + (k + 1) * n * P * kNsPerSecond.
Proof.
  intros Hpos Hk [Hb Hl _] Hs Hnow. cbv zeta. pose proof P_pos as HP.
  destruct (refill_bounds now rm Hb ltac:(unfold in_u; cbn; lia) Hl) as [Hb' Hr].
  assert (0 <= n * P * kNsPerSecond) as Hg by (unfold kNsPerSecond; nia).
  assert (0 < kGrain) as HG by done. set (l := rm_last_refill_ns rm) in *. set (u := units (rm_tokens rm)) in *.
  set (l' := rm_last_refill_ns (refill now rm)) in *. set (u' := units (rm_tokens (refill now rm))) in *.
  assert (t0 <= l') as Htl.
  { destruct (l =? 0); [destruct Hr as [-> _]; lia|].
    destruct (now >? l) eqn:E2; bool_arith; [destruct Hr as [-> _]; lia|]. unfold l'. rewrite Hr. fold l. lia. }
  split; [done|].
  assert (0 <= (Z.min l' t1 - t0) * n * P * (2 ^ 52 + 4)) as Hw.
  { assert (0 <= Z.min l' t1 - t0) by lia. nia. }
  destruct Hs as [->|(Ha' & Htl0 & Hs)].
  - pose proof (bk_cap _ Hb') as Hc. fold u' in Hc. nia.
  - rewrite (proj2 (Z.eqb_neq l 0)) in Hr by lia. destruct (now >? l) eqn:E; bool_arith.
    + destruct Hr as [El Hr]. rewrite El. rewrite (Z.min_l now) by lia. rewrite (Z.min_l l) in Hs by lia. lia.
    + assert (l' = l /\ u' = u) as [-> ->] by (unfold l', u'; by rewrite Hr). lia.
Qed.

Lemma verdict_spent k a op rm rm' rs :
  0 < t0 -> 0 <= k -> 0 <= a -> clocked rm -> spent k a rm -> clock_in op -> risk_verdict rm op = Some (rm', rs) ->
  clocked rm' /\ spent (k + 1) (a + Z.of_nat (approvals rs)) rm'.
Proof.
  intros Hpos Hk Ha Hc Hs Hop Hv.
  assert (forall rm1, risk_step rm op = Some rm1 -> match op with OpCheck _ _ => False | _ => True end ->
    clocked rm1 /\ spent (k + 1) (a + Z.of_nat (approvals [])) rm1) as Hother.
  { intros rm1 H1 Hne. destruct (other_clocked op rm rm1 Hc Hop Hne H1) as (Hc1 & E1 & E2). split; [done|].
    change (approvals []) with 0%nat. rewrite Z.add_0_r. apply spent_later. unfold spent. by rewrite E1, E2. }
  destruct op as [wall o|f|on|t b x|t]; cbn [risk_verdict] in Hv;
    try (apply bind_Some in Hv as (rm1 & H1 & [= <- <-]); by apply Hother).
  apply bind_Some in Hv as ([rm1 r] & Hk1 & [= <- <-]). pose proof (rm_now_in wall rm Hc Hop) as Hnow.
  destruct (check_consumes _ _ _ _ _ Hk1) as [[-> Hr]|(ok & Ht' & ->)].
  { split; [done|]. unfold approvals. rewrite filter_cons_False by done. cbn. rewrite Z.add_0_r. by apply spent_later. }
  split; [by eapply consume_clocked|].
  destruct (refill_spent k a _ rm Hpos Hk Hc Hs Hnow) as [R1 R2].
  assert (in_u 64 (rm_now wall rm)) as Hu by (unfold in_u; cbn; lia).
  destruct (consume_bounds _ rm rm1 ok (ck_bucket _ Hc) Hu (ck_last _ Hc) Ht') as (_ & E1 & _ & E2).
  unfold spent. rewrite E1, E2. destruct ok.
  - change (approvals [kApproved]) with 1%nat. right. split_and!; [lia|done|lia].
  - change (approvals [kRateLimitExceeded]) with 0%nat. rewrite Z.add_0_r.
    destruct (Z.eq_dec a 0) as [->|Hne]; [by left|right]. split_and!; [lia|done|lia].
Qed.

Lemma trace_spent ops : forall k a rm rm' rs,
  0 < t0 -> 0 <= k -> 0 <= a -> clocked rm -> spent k a rm -> Forall clock_in ops ->
  risk_trace rm ops = Some (rm', rs) ->
  clocked rm' /\ spent (k + Z.of_nat (length ops)) (a + Z.of_nat (approvals rs)) rm'.
Proof.
  induction ops as [|op ops IH]; intros k a rm rm' rs Hpos Hk Ha Hc Hs Hall Hr; cbn [risk_trace] in Hr.
  { injection Hr as <- <-. change (approvals []) with 0%nat. cbn. by rewrite !Z.add_0_r. }
  apply Forall_cons_1 in Hall as [Hop Hall]. apply bind_Some in Hr as ([rm1 rs1] & Hv & Hr).
  apply bind_Some in Hr as ([rm2 rs2] & Hr & [= <- <-]).
  destruct (verdict_spent k a op rm rm1 rs1 Hpos Hk Ha Hc Hs Hop Hv) as [Hc1 Hs1].
  destruct (IH (k + 1) (a + Z.of_nat (approvals rs1)) rm1 rm2 rs2) as [Hc2 Hs2]; [done|lia|lia|done..|].
  split; [done|]. rewrite approvals_app. cbn [length].
  replace (k + Z.of_nat (S (length ops))) with (k + 1 + Z.of_nat (length ops)) by lia.
  by replace (a + Z.of_nat (approvals rs1 + approvals rs2))
    with (a + Z.of_nat (approvals rs1) + Z.of_nat (approvals rs2)) by lia.
Qed.
End Window.

Lemma clocked_new symbols cfg :
  rc_max_orders_per_sec cfg = n -> clocked 0 (2 ^ 64 - 1) (RiskManager_new symbols cfg).
Proof.
  intros E. destruct cap_units as [Cn En]. split; [|done|by left].
  split; cbn [RiskManager_new rm_cfg rm_tokens]; rewrite ?E; [done|done|]. by rewrite En.
Qed.
End Bucket.

(** C21.  The rate limiter keeps its rate over time.  Take a manager configured for [n] orders
    a second, [n] at most 2^20, in any state it can reach by checks, fills, reference updates,
    switches and clock settings.  In any following stretch of at most 2^30 such operations
    whose clock readings all lie, in whatever order, between [t0] and [t1], at most 2^50 ns
    (13 days) apart, it approves fewer than [n + n * (t1 - t0) / 10^9 + 1] orders: never more
    than a full bucket and what the elapsed time earns, and at most [n] at one instant.  The
    bound is for the binary64 arithmetic the code uses. *)
Theorem rate_limit_window symbols cfg n pre ops t0 t1 rm rm' rs :
  rc_max_orders_per_sec cfg = n -> 1 <= n <= 2 ^ 20 ->
  Forall (clock_in 0 (2 ^ 64 - 1)) pre -> risk_run (RiskManager_new symbols cfg) pre = Some rm ->
  0 < t0 <= t1 -> t1 < 2 ^ 64 -> t1 - t0 <= 2 ^ 50 -> Z.of_nat (length ops) <= 2 ^ 30 ->
  (rm_sim_now_ns rm = 0 \/ t0 <= rm_sim_now_ns rm <= t1) -> Forall (clock_in t0 t1) ops ->
  risk_trace rm ops = Some (rm', rs) ->
  Z.of_nat (approvals rs) * kNsPerSecond < (n + 1) * kNsPerSecond + n * (t1 - t0).
Proof.
  intros En Hn Hpre Hrun Ht Ht1 Hw Hlen Hsim Hall Htr. pose proof P_pos as HP.
  assert (clocked n 0 (2 ^ 64 - 1) rm) as [H1 H2 _].
  { eapply (run_clocked n Hn 0 (2 ^ 64 - 1)); [lia|lia|by apply clocked_new|exact Hpre|exact Hrun]. }
  destruct (trace_spent n Hn t0 t1 ltac:(lia) Ht1 ops 0 0 rm rm' rs) as [_ Hs]; [lia|lia|lia|by split|by left|done|done|].
  unfold kNsPerSecond in *. destruct Hs as [Hs|(Ha & Hl & Hs)]; [nia|].
  rewrite !Z.add_0_l in *. set (a := Z.of_nat (approvals rs)) in *. set (k := Z.of_nat (length ops)) in *.
  pose proof (units_nonneg (rm_tokens rm')) as Hu. unfold kGrain, kNsPerSecond in Hs.
  set (w := Z.min (rm_last_refill_ns rm') t1 - t0) in *. assert (0 <= w <= t1 - t0) as Hww by lia.
  assert (a * (2 ^ 52 * 1000000000) * P <=
    (n * (2 ^ 52 * 1000000000) + w * n * (2 ^ 52 + 4) + k * n * 1000000000) * P) as Hp by nia.
  apply Z.mul_le_mono_pos_r in Hp; [|done].
  assert (w * n <= (t1 - t0) * n) by nia. assert (k * n <= 2 ^ 30 * 2 ^ 20) by nia.
  assert ((t1 - t0) * n <= 2 ^ 50 * 2 ^ 20) by nia. lia.
Qed.

(** At two orders a second: a full bucket at ten, two more orders a second later. *)
Definition ten : Z := 20000 * kNsPerDay + 36000 * kNsPerSecond.

Definition bursts : list RiskOp :=
  replicate 3 (OpCheck ten (sample_order 9995)) ++
  OpNow (ten + kNsPerSecond) :: replicate 3 (OpCheck (ten + kNsPerSecond) (sample_order 9995)).

Lemma rate_limit_window_witness :
  exists rm' rs, risk_trace sample_rm bursts = Some (rm', rs) /\
    rs = [kApproved; kApproved; kRateLimitExceeded; kApproved; kApproved; kRateLimitExceeded] /\
    Z.of_nat (approvals rs) * kNsPerSecond < (2 + 1) * kNsPerSecond + 2 * (ten + kNsPerSecond - ten).
Proof.
  assert (exists rm' rs, risk_trace sample_rm bursts = Some (rm', rs) /\
    rs = [kApproved; kApproved; kRateLimitExceeded; kApproved; kApproved; kRateLimitExceeded]) as (rm' & rs & H1 & H2).
  { eexists _, _. split; [vm_compute; reflexivity|reflexivity]. }
  exists rm', rs. split; [exact H1|]. split; [exact H2|].
  assert (Forall (clock_in 0 (2 ^ 64 - 1)) [OpNow ten; OpReference 7 10000 10010]) as Hpre.
  { repeat (apply List.Forall_cons || apply List.Forall_nil); cbn [clock_in]; try exact I;
      try right; split; vm_compute; discriminate. }
  assert (Forall (clock_in ten (ten + kNsPerSecond)) bursts) as Hops.
  { repeat (apply List.Forall_cons || apply List.Forall_nil); cbn [clock_in]; try exact I;
      try right; split; vm_compute; discriminate. }
  assert (risk_run (RiskManager_new None sample_risk_cfg) [OpNow ten; OpReference 7 10000 10010]
    = Some sample_rm) as Hrun by (vm_compute; reflexivity).
  apply (rate_limit_window None sample_risk_cfg 2 [OpNow ten; OpReference 7 10000 10010] bursts
    ten (ten + kNsPerSecond) sample_rm rm' rs);
    [reflexivity|lia|exact Hpre|exact Hrun|..|exact Hops|exact H1].
  - split; vm_compute; [reflexivity|discriminate].
  - vm_compute. reflexivity.
  - vm_compute. discriminate.
  - vm_compute. discriminate.
  - right. split; vm_compute; discriminate.
Defined.
