(* ===== verification/NnfEncoder.v ===== *)
(** * NnfEncoder: NNF wire messages (src/order_manager/nnf_encoder.hpp)

    A buffer is a list of bytes; every store that would fall outside it is
    [None].  A [const char*] argument is the bytes before its terminator, or
    [None] for a null pointer. *)

From Stdlib Require Import ZArith Lia.
From stdpp Require Import base list numbers option.
From S2P Require Import Prelude Types Codec TimeUtils.

Local Open Scope Z_scope.

Definition kTcNewOrder : Z := 2073.
Definition kTcModifyOrder : Z := 2074.
Definition kTcCancelOrder : Z := 2075.
Definition kTcHeartbeat : Z := 23.
Definition kTcSignOn : Z := 2300.
Definition kTcSignOff : Z := 2320.

Definition kHdrTransCode : nat := 0.
Definition kHdrLogTime : nat := 2.
Definition kHdrAlphaChar : nat := 6.
Definition kHdrTraderId : nat := 8.
Definition kHdrErrorCode : nat := 12.
Definition kHdrTimestamp : nat := 14.
Definition kHdrTimestamp2 : nat := 22.
Definition kHdrMsgLength : nat := 30.
Definition kNnfHeaderSize : nat := 32.
Definition kNnfMaxMsg : nat := 256.

Definition nnf_order_type_char (t : OrderType) : Z :=
  match t with kLimit => 76 | kMarket => 77 | kStopLoss => 83 | kStopLossMarket => 81 end.

Record NnfEncoder := {
  ne_trader_id : Z;
  ne_branch_id : Z;
  ne_alpha : Z * Z;
  ne_participant : bytes;
}.

Definition NnfEncoder_new : NnfEncoder :=
  {| ne_trader_id := 0; ne_branch_id := 0; ne_alpha := (32, 32); ne_participant := replicate 12 32 |}.

Definition set_trader_id (id : Z) (e : NnfEncoder) : NnfEncoder :=
  {| ne_trader_id := id; ne_branch_id := ne_branch_id e; ne_alpha := ne_alpha e;
     ne_participant := ne_participant e |}.
Definition set_alpha_char (a b : Z) (e : NnfEncoder) : NnfEncoder :=
  {| ne_trader_id := ne_trader_id e; ne_branch_id := ne_branch_id e; ne_alpha := (a, b);
     ne_participant := ne_participant e |}.
Definition set_branch_id (b : Z) (e : NnfEncoder) : NnfEncoder :=
  {| ne_trader_id := ne_trader_id e; ne_branch_id := b; ne_alpha := ne_alpha e;
     ne_participant := ne_participant e |}.
Definition set_participant_id (pid : option bytes) (e : NnfEncoder) : NnfEncoder :=
  let blank := replicate 12 32 in
  {| ne_trader_id := ne_trader_id e; ne_branch_id := ne_branch_id e; ne_alpha := ne_alpha e;
     ne_participant :=
       match pid with
       | None => blank
       | Some s => let n := Nat.min (length s) 12 in take n s ++ drop n blank
       end |}.

(** [memcpy(p + off, bs, |bs|)] and [memset]. *)
Definition store_bytes (bs : bytes) (off : nat) (p : bytes) : option bytes :=
  if decide (off + length bs <= length p)%nat then Some (patch off bs p) else None.

Definition Two (v : Z) (off : nat) (p : bytes) : option bytes :=
  p ← store_byte (u8 (48 + (v / 10) mod 10)) off p;
  store_byte (u8 (48 + v mod 10)) (off + 1) p.

Definition encode_timestamp (off : nat) (ist_ns : Timestamp) (p : bytes) : option bytes :=
  let tod := ist_ns mod kNsPerDay in
  let hh := tod / (3600 * kNsPerSecond) in
  let mm := (tod / (60 * kNsPerSecond)) mod 60 in
  let ss := (tod / kNsPerSecond) mod 60 in
  let hundredths := (tod mod kNsPerSecond) / 10000000 in
  p ← Two hh (off + 0) p; p ← Two mm (off + 2) p; p ← Two ss (off + 4) p;
  Two hundredths (off + 6) p.

Definition WriteHeader (e : NnfEncoder) (tc now_ist len : Z) (buf : bytes) : option bytes :=
  buf ← store_le 2 tc kHdrTransCode buf;
  buf ← store_le 4 0 kHdrLogTime buf;
  buf ← store_byte (u8 (ne_alpha e).1) (kHdrAlphaChar + 0) buf;
  buf ← store_byte (u8 (ne_alpha e).2) (kHdrAlphaChar + 1) buf;
  buf ← store_le 4 (ne_trader_id e) kHdrTraderId buf;
  buf ← store_le 2 0 kHdrErrorCode buf;
  buf ← encode_timestamp kHdrTimestamp now_ist buf;
  buf ← store_bytes (replicate 8 0) kHdrTimestamp2 buf;
  store_le 2 len kHdrMsgLength buf.

Definition encode_new_order (e : NnfEncoder) (o : Order) (now_ist open_close : Z) (buf : bytes)
    : option (bytes * nat) :=
  let kTotal := (kNnfHeaderSize + 48)%nat in
  if (kNnfMaxMsg <? kTotal)%nat then Some (buf, 0%nat)
  else
    buf ← WriteHeader e kTcNewOrder now_ist (Z.of_nat kTotal) buf;
    let b := kNnfHeaderSize in
    buf ← store_le 4 (i32 (o_token o)) (b + 0) buf;
    buf ← store_le 2 (if o_side o then 1 else 2) (b + 4) buf;
    buf ← store_le 4 (o_qty o) (b + 6) buf;
    buf ← store_le 4 (o_disclosed_qty o) (b + 10) buf;
    buf ← store_le 8 (o_price o) (b + 14) buf;
    buf ← store_byte (u8 (nnf_order_type_char (o_order_type o))) (b + 22) buf;
    buf ← store_le 2 (validity_code (o_validity o)) (b + 23) buf;
    buf ← store_le 8 (o_client_order_id o) (b + 25) buf;
    buf ← store_bytes (ne_participant e) (b + 33) buf;
    buf ← store_le 2 (ne_branch_id e) (b + 45) buf;
    buf ← store_byte (u8 open_close) (b + 47) buf;
    Some (buf, kTotal).

Definition encode_modify (e : NnfEncoder) (o : Order) (now_ist : Z) (buf : bytes)
    : option (bytes * nat) :=
  let kTotal := (kNnfHeaderSize + 36)%nat in
  buf ← WriteHeader e kTcModifyOrder now_ist (Z.of_nat kTotal) buf;
  let b := kNnfHeaderSize in
  buf ← store_le 8 (o_exchange_order_no o) (b + 0) buf;
  buf ← store_le 4 (i32 (o_token o)) (b + 8) buf;
  buf ← store_le 8 (o_price o) (b + 12) buf;
  buf ← store_le 4 (o_qty o) (b + 20) buf;
  buf ← store_le 4 (o_disclosed_qty o) (b + 24) buf;
  buf ← store_le 8 (o_client_order_id o) (b + 28) buf;
  Some (buf, kTotal).

Definition encode_cancel (e : NnfEncoder) (exchange_order_no token clordid now_ist : Z) (buf : bytes)
    : option (bytes * nat) :=
  let kTotal := (kNnfHeaderSize + 20)%nat in
  buf ← WriteHeader e kTcCancelOrder now_ist (Z.of_nat kTotal) buf;
  let b := kNnfHeaderSize in
  buf ← store_le 8 exchange_order_no (b + 0) buf;
  buf ← store_le 4 (i32 token) (b + 8) buf;
  buf ← store_le 8 clordid (b + 12) buf;
  Some (buf, kTotal).

Definition encode_heartbeat (e : NnfEncoder) (now_ist : Z) (buf : bytes) : option (bytes * nat) :=
  buf ← WriteHeader e kTcHeartbeat now_ist (Z.of_nat kNnfHeaderSize) buf; Some (buf, kNnfHeaderSize).

Definition encode_sign_on (e : NnfEncoder) (password : option bytes) (now_ist : Z) (buf : bytes)
    : option (bytes * nat) :=
  let kBody := 32%nat in
  let kTotal := (kNnfHeaderSize + kBody)%nat in
  buf ← WriteHeader e kTcSignOn now_ist (Z.of_nat kTotal) buf;
  buf ← store_bytes (replicate kBody 0) kNnfHeaderSize buf;
  buf ← match password with
        | None => Some buf
        | Some s => store_bytes (take (Nat.min (length s) kBody) s) kNnfHeaderSize buf
        end;
  Some (buf, kTotal).

Definition encode_sign_off (e : NnfEncoder) (now_ist : Z) (buf : bytes) : option (bytes * nat) :=
  buf ← WriteHeader e kTcSignOff now_ist (Z.of_nat kNnfHeaderSize) buf; Some (buf, kNnfHeaderSize).

(** ** Writing left to right

    Every message is written field after field, so the buffer is always what was
    written followed by what was there before. *)

Lemma store_byte_next b w r off :
  off = length w -> (1 <= length r)%nat ->
  store_byte b off (w ++ r) = Some ((w ++ [b]) ++ drop 1 r).
Proof.
  intros -> Hr. rewrite store_byte_Some by (rewrite length_app; lia). f_equal.
  destruct r as [|x r]; [simpl in Hr; lia|]. rewrite insert_app_r_alt by lia.
  rewrite Nat.sub_diag. simpl. by rewrite <- app_assoc.
Qed.

Lemma patch_next bs w r :
  (length bs <= length r)%nat -> patch (length w) bs (w ++ r) = (w ++ bs) ++ drop (length bs) r.
Proof.
  intros Hr. unfold patch. rewrite take_app_length, drop_app_ge by lia.
  rewrite <- app_assoc. do 3 f_equal. lia.
Qed.

Lemma store_le_next n v w r off :
  off = length w -> (n <= length r)%nat ->
  store_le n v off (w ++ r) = Some ((w ++ le_bytes n v) ++ drop n r).
Proof.
  intros -> Hr. rewrite store_le_spec by (rewrite length_app; lia). f_equal.
  rewrite patch_next by by rewrite length_le_bytes. by rewrite length_le_bytes.
Qed.

Lemma store_bytes_next bs w r off :
  off = length w -> (length bs <= length r)%nat ->
  store_bytes bs off (w ++ r) = Some ((w ++ bs) ++ drop (length bs) r).
Proof.
  intros -> Hr. unfold store_bytes. rewrite decide_True by (rewrite length_app; lia).
  by rewrite patch_next.
Qed.

Definition two_digits (v : Z) : bytes := [u8 (48 + (v / 10) mod 10); u8 (48 + v mod 10)].

Lemma Two_next v w r off :
  off = length w -> (2 <= length r)%nat -> Two v off (w ++ r) = Some ((w ++ two_digits v) ++ drop 2 r).
Proof.
  intros -> Hr. unfold Two. rewrite store_byte_next by (done || lia). cbn [mbind option_bind].
  rewrite store_byte_next by (rewrite ?length_app, ?length_drop; simpl; lia).
  rewrite <- (app_assoc w). rewrite drop_drop. done.
Qed.

Definition timestamp_digits (ist_ns : Timestamp) : bytes :=
  let tod := ist_ns mod kNsPerDay in
  two_digits (tod / (3600 * kNsPerSecond)) ++ two_digits ((tod / (60 * kNsPerSecond)) mod 60) ++
  two_digits ((tod / kNsPerSecond) mod 60) ++ two_digits ((tod mod kNsPerSecond) / 10000000).

Lemma encode_timestamp_next t w r off :
  off = length w -> (8 <= length r)%nat ->
  encode_timestamp off t (w ++ r) = Some ((w ++ timestamp_digits t) ++ drop 8 r).
Proof.
  intros -> Hr. unfold encode_timestamp, timestamp_digits. cbv zeta.
  repeat (rewrite Two_next by (rewrite ?length_app, ?length_drop; simpl; lia); cbn [mbind option_bind]).
  rewrite !drop_drop. rewrite <- !app_assoc. done.
Qed.

(** ** Layouts *)

Definition header_layout (e : NnfEncoder) (tc now_ist len : Z) : bytes :=
  le_bytes 2 tc ++ le_bytes 4 0 ++ [u8 (ne_alpha e).1] ++ [u8 (ne_alpha e).2] ++
  le_bytes 4 (ne_trader_id e) ++ le_bytes 2 0 ++ timestamp_digits now_ist ++ replicate 8 0 ++
  le_bytes 2 len.

Definition new_order_body (e : NnfEncoder) (o : Order) (open_close : Z) : bytes :=
  le_bytes 4 (i32 (o_token o)) ++ le_bytes 2 (if o_side o then 1 else 2) ++ le_bytes 4 (o_qty o) ++
  le_bytes 4 (o_disclosed_qty o) ++ le_bytes 8 (o_price o) ++
  [u8 (nnf_order_type_char (o_order_type o))] ++ le_bytes 2 (validity_code (o_validity o)) ++
  le_bytes 8 (o_client_order_id o) ++ ne_participant e ++ le_bytes 2 (ne_branch_id e) ++
  [u8 open_close].

Definition modify_body (o : Order) : bytes :=
  le_bytes 8 (o_exchange_order_no o) ++ le_bytes 4 (i32 (o_token o)) ++ le_bytes 8 (o_price o) ++
  le_bytes 4 (o_qty o) ++ le_bytes 4 (o_disclosed_qty o) ++ le_bytes 8 (o_client_order_id o).

Definition cancel_body (exchange_order_no token clordid : Z) : bytes :=
  le_bytes 8 exchange_order_no ++ le_bytes 4 (i32 token) ++ le_bytes 8 clordid.

Definition sign_on_body (password : option bytes) : bytes :=
  let s := take 32 (default [] password) in s ++ replicate (32 - length s) 0.

(** The participant id always has its twelve bytes. *)
Definition encoder_ok (e : NnfEncoder) : Prop := length (ne_participant e) = 12%nat.

Lemma set_participant_ok pid e : encoder_ok (set_participant_id pid e).
Proof.
  unfold encoder_ok, set_participant_id. cbn [ne_participant]. destruct pid as [s|]; [|done].
  cbv zeta. rewrite length_app, length_take, length_drop, length_replicate. lia.
Qed.

Ltac written :=
  rewrite ?length_app, ?length_drop, ?length_le_bytes, ?length_replicate;
  repeat match goal with H : length ?x = _ |- context [length ?x] => rewrite H end; simpl; lia.

(** Performs the stores of a message in turn. *)
Ltac write_fields :=
  repeat (first [ rewrite store_le_next by written
                | rewrite store_byte_next by written
                | rewrite encode_timestamp_next by written
                | rewrite store_bytes_next by written ];
          cbn [mbind option_bind]).

Lemma header_layout_length e tc now len : length (header_layout e tc now len) = kNnfHeaderSize.
Proof. unfold header_layout. rewrite !length_app, !length_le_bytes. done. Qed.

Lemma WriteHeader_layout e tc now len buf :
  (kNnfHeaderSize <= length buf)%nat ->
  WriteHeader e tc now len buf = Some (header_layout e tc now len ++ drop kNnfHeaderSize buf).
Proof.
  unfold kNnfHeaderSize. intros Hl. unfold WriteHeader.
  unfold kHdrTransCode, kHdrLogTime, kHdrAlphaChar, kHdrTraderId, kHdrErrorCode, kHdrTimestamp,
    kHdrTimestamp2, kHdrMsgLength.
  change buf with ([] ++ buf) at 1. write_fields.
  rewrite !drop_drop. unfold header_layout. rewrite <- !app_assoc. done.
Qed.

Section Messages.
Context (e : NnfEncoder) (now_ist : Timestamp) (buf : bytes).
Abbreviation hdr tc len := (header_layout e tc now_ist len).

Lemma encode_new_order_layout o oc :
  encoder_ok e -> (80 <= length buf)%nat ->
  encode_new_order e o now_ist oc buf =
    Some ((hdr kTcNewOrder 80 ++ new_order_body e o oc) ++ drop 80 buf, 80%nat).
Proof.
  unfold encoder_ok. intros He Hl. unfold encode_new_order. cbv zeta.
  change (kNnfMaxMsg <? kNnfHeaderSize + 48)%nat with false. cbv iota.
  change (Z.of_nat (kNnfHeaderSize + 48)) with 80.
  rewrite WriteHeader_layout by (unfold kNnfHeaderSize; lia). cbn [mbind option_bind].
  pose proof (header_layout_length e kTcNewOrder now_ist 80) as Hh. unfold kNnfHeaderSize in *.
  set (h := header_layout _ _ _ _) in *.
  write_fields.
  rewrite He, !drop_drop. unfold new_order_body. rewrite <- !app_assoc. done.
Qed.

Lemma encode_modify_layout o :
  (68 <= length buf)%nat ->
  encode_modify e o now_ist buf =
    Some ((hdr kTcModifyOrder 68 ++ modify_body o) ++ drop 68 buf, 68%nat).
Proof.
  intros Hl. unfold encode_modify. cbv zeta. change (Z.of_nat (kNnfHeaderSize + 36)) with 68.
  rewrite WriteHeader_layout by (unfold kNnfHeaderSize; lia). cbn [mbind option_bind].
  pose proof (header_layout_length e kTcModifyOrder now_ist 68) as Hh. unfold kNnfHeaderSize in *.
  set (h := header_layout _ _ _ _) in *. write_fields.
  rewrite !drop_drop. unfold modify_body. rewrite <- !app_assoc. done.
Qed.

Lemma encode_cancel_layout no token id :
  (52 <= length buf)%nat ->
  encode_cancel e no token id now_ist buf =
    Some ((hdr kTcCancelOrder 52 ++ cancel_body no token id) ++ drop 52 buf, 52%nat).
Proof.
  intros Hl. unfold encode_cancel. cbv zeta. change (Z.of_nat (kNnfHeaderSize + 20)) with 52.
  rewrite WriteHeader_layout by (unfold kNnfHeaderSize; lia). cbn [mbind option_bind].
  pose proof (header_layout_length e kTcCancelOrder now_ist 52) as Hh. unfold kNnfHeaderSize in *.
  set (h := header_layout _ _ _ _) in *. write_fields.
  rewrite !drop_drop. unfold cancel_body. rewrite <- !app_assoc. done.
Qed.

Lemma encode_heartbeat_layout :
  (32 <= length buf)%nat ->
  encode_heartbeat e now_ist buf = Some (hdr kTcHeartbeat 32 ++ drop 32 buf, 32%nat).
Proof. intros Hl. unfold encode_heartbeat. by rewrite WriteHeader_layout. Qed.

Lemma encode_sign_off_layout :
  (32 <= length buf)%nat ->
  encode_sign_off e now_ist buf = Some (hdr kTcSignOff 32 ++ drop 32 buf, 32%nat).
Proof. intros Hl. unfold encode_sign_off. by rewrite WriteHeader_layout. Qed.

Lemma encode_sign_on_layout password :
  (64 <= length buf)%nat ->
  encode_sign_on e password now_ist buf =
    Some ((hdr kTcSignOn 64 ++ sign_on_body password) ++ drop 64 buf, 64%nat).
Proof.
  intros Hl. unfold encode_sign_on. cbv zeta. change (Z.of_nat (kNnfHeaderSize + 32)) with 64.
  rewrite WriteHeader_layout by (unfold kNnfHeaderSize; lia). cbn [mbind option_bind].
  pose proof (header_layout_length e kTcSignOn now_ist 64) as Hh. unfold kNnfHeaderSize in *.
  set (h := header_layout _ _ _ _) in *.
  rewrite store_bytes_next by written. cbn [mbind option_bind].
  rewrite length_replicate, drop_drop. unfold sign_on_body.
  destruct password as [s|]; cbn [default mbind option_bind]; cbv zeta.
  - assert (take (Nat.min (length s) 32) s = take 32 s) as ->.
    { destruct (Nat.le_gt_cases (length s) 32); [rewrite Nat.min_l, !take_ge by lia|rewrite Nat.min_r by lia]; done. }
    unfold id. set (t := take 32 s).
    assert (length t <= 32)%nat as Ht by (unfold t; rewrite length_take; lia).
    rewrite <- app_assoc. rewrite store_bytes_next; [|done|rewrite length_app, length_replicate; lia].
    cbn [mbind option_bind]. rewrite drop_app_le by (rewrite length_replicate; lia).
    rewrite drop_replicate. by rewrite <- !app_assoc.
  - reflexivity.
Qed.
End Messages.

(** ** Reading the messages back *)

Lemma load_skip_bytes n l rest off :
  (length l <= off)%nat -> load_le n (l ++ rest) off = load_le n rest (off - length l).
Proof. intros Hl. unfold load_le. by rewrite load_loop_app_r. Qed.

Lemma timestamp_digits_length t : length (timestamp_digits t) = 8%nat.
Proof. done. Qed.

(** The header fields of any message. *)
Lemma header_fields_read e tc now len rest :
  in_u 16 tc -> in_s 32 (ne_trader_id e) -> in_u 15 len ->
  let msg := header_layout e tc now len ++ rest in
  load_le 2 msg kHdrTransCode = Some tc /\ load_le_i32 msg kHdrTraderId = Some (ne_trader_id e) /\
  load_le 2 msg kHdrMsgLength = Some len /\
  take 8 (drop kHdrTimestamp msg) = timestamp_digits now.
Proof.
  intros Htc Htr Hlen. cbv zeta. unfold header_layout, load_le_i32,
    kHdrTransCode, kHdrTraderId, kHdrMsgLength, kHdrTimestamp.
  change [u8 (ne_alpha e).1] with ([u8 (ne_alpha e).1] : bytes). rewrite <- !app_assoc.
  assert (forall (a : Z) (l : bytes) n off, (1 <= off)%nat -> load_le n ([a] ++ l) off = load_le n l (off - 1)) as Hb.
  { intros. by rewrite load_skip_bytes by (simpl; lia). }
  split_and!.
  - load_fields. by rewrite wrap_u_id.
  - repeat first [rewrite load_here by lia | rewrite load_skip by lia | rewrite Hb by (simpl; lia)];
      cbn [Nat.sub]; rewrite ?load_here by lia. simpl. f_equal. by apply i32_of_u32.
  - repeat first [ rewrite load_skip by (cbn; lia); cbn [Nat.sub] | rewrite Hb by (cbn; lia); cbn [Nat.sub]
                 | rewrite load_skip_bytes by (cbn; lia); rewrite ?timestamp_digits_length, ?length_replicate; cbn [Nat.sub] ].
    rewrite load_here by lia. f_equal. apply wrap_u_id. ranges.
  - reflexivity.
Qed.

(** A field of the body. *)
Lemma load_body n e tc now len body rest off :
  load_le n ((header_layout e tc now len ++ body) ++ rest) (kNnfHeaderSize + off) =
    load_le n (body ++ rest) off.
Proof.
  rewrite <- app_assoc, load_skip_bytes by (rewrite header_layout_length; lia).
  rewrite header_layout_length. f_equal. lia.
Qed.

Lemma load_skip_byte n (a : Z) l off :
  (1 <= off)%nat -> load_le n ([a] ++ l) off = load_le n l (off - 1).
Proof. intros. by rewrite load_skip_bytes by (simpl; lia). Qed.

Ltac body_fields :=
  repeat first
    [ rewrite load_here by lia
    | rewrite load_skip by lia; cbn [Nat.sub]
    | rewrite load_skip_byte by lia; cbn [Nat.sub] ];
  cbn [fmap option_fmap option_map].

Definition order_fits (o : Order) : Prop :=
  in_s 32 (o_token o) /\ in_s 32 (o_qty o) /\ in_s 32 (o_disclosed_qty o) /\ in_s 64 (o_price o) /\
  in_s 64 (o_client_order_id o) /\ in_s 64 (o_exchange_order_no o).

(** C22.  A NEW ORDER message carries the order: in any buffer of at least 80 bytes
    the encoder succeeds, returns 80, leaves the rest of the buffer as it was, and
    a receiver reading the documented little-endian offsets gets back the token,
    the side code, the quantities, the price in paisa, the type character, the
    validity and the client order id. *)
Theorem new_order_roundtrip e o now oc buf :
  encoder_ok e -> order_fits o -> (80 <= length buf)%nat ->
  exists msg, encode_new_order e o now oc buf = Some (msg, 80%nat) /\
    length msg = length buf /\ drop 80 msg = drop 80 buf /\
    load_le_i32 msg (kNnfHeaderSize + 0) = Some (o_token o) /\
    load_le 2 msg (kNnfHeaderSize + 4) = Some (if o_side o then 1 else 2) /\
    load_le_i32 msg (kNnfHeaderSize + 6) = Some (o_qty o) /\
    load_le_i32 msg (kNnfHeaderSize + 10) = Some (o_disclosed_qty o) /\
    load_le_i64 msg (kNnfHeaderSize + 14) = Some (o_price o) /\
    msg !! (kNnfHeaderSize + 22)%nat = Some (nnf_order_type_char (o_order_type o)) /\
    load_le 2 msg (kNnfHeaderSize + 23) = Some (validity_code (o_validity o)) /\
    load_le_i64 msg (kNnfHeaderSize + 25) = Some (o_client_order_id o).
Proof.
  intros He (Ht & Hq & Hd & Hp & Hid & _) Hl.
  eexists. split; [by apply encode_new_order_layout|].
  set (body := new_order_body e o oc).
  assert (length body = 48%nat) as Hb.
  { unfold body, new_order_body. rewrite !length_app, !length_le_bytes, He. done. }
  split; [rewrite !length_app, header_layout_length, Hb, length_drop; unfold kNnfHeaderSize; lia|].
  split; [apply drop_app_length'; rewrite length_app, header_layout_length, Hb; done|].
  unfold load_le_i32, load_le_i64. rewrite !load_body.
  assert (((header_layout e kTcNewOrder now 80 ++ body) ++ drop 80 buf) !! (kNnfHeaderSize + 22)%nat =
          body !! 22%nat) as ->.
  { rewrite lookup_app_l by (rewrite length_app, header_layout_length, Hb; unfold kNnfHeaderSize; lia).
    rewrite lookup_app_r by (rewrite header_layout_length; lia).
    rewrite header_layout_length. f_equal. }
  assert (body !! 22%nat = Some (u8 (nnf_order_type_char (o_order_type o)))) as -> by reflexivity.
  unfold body, new_order_body. rewrite <- !app_assoc. body_fields.
  change (8 * Z.of_nat 4) with 32. change (8 * Z.of_nat 8) with 64. change (8 * Z.of_nat 2) with 16.
  rewrite (wrap_s_id 32 (o_token o)) by (done || lia).
  rewrite !i32_of_u32, !i64_of_u64 by done.
  split_and!; try done; [by destruct (o_side o)|by destruct (o_order_type o)|by destruct (o_validity o)].
Qed.

Definition sample_limit : Order :=
  {| o_client_order_id := 77; o_exchange_order_no := 0; o_token := 35001; o_segment := kSegmentFo;
     o_price := 2450050; o_qty := 75; o_disclosed_qty := 0; o_side := kSell; o_order_type := kLimit;
     o_validity := kIoc; o_created_at := 0 |}.

Lemma new_order_roundtrip_witness :
  exists msg, encode_new_order (set_trader_id 9 NnfEncoder_new) sample_limit
      (36000 * kNsPerSecond) 79 (replicate 256 0) = Some (msg, 80%nat) /\
    load_le_i64 msg 46 = Some 2450050 /\ load_le_i32 msg 38 = Some 75.
Proof.
  destruct (new_order_roundtrip (set_trader_id 9 NnfEncoder_new) sample_limit (36000 * kNsPerSecond) 79
    (replicate 256 0)) as (msg & He & _ & _ & _ & _ & Hq & _ & Hp & _).
  - reflexivity.
  - vm_compute. repeat split; (reflexivity || discriminate).
  - vm_compute. lia.
  - exists msg. split; [exact He|]. split; [exact Hp|exact Hq].
Defined.

(** The six messages. *)
Inductive NnfMessage :=
  | MsgNew (o : Order) (open_close : Z) | MsgModify (o : Order)
  | MsgCancel (exchange_order_no token clordid : Z) | MsgHeartbeat
  | MsgSignOn (password : option bytes) | MsgSignOff.

Definition encode (e : NnfEncoder) (m : NnfMessage) (now : Timestamp) (buf : bytes)
    : option (bytes * nat) :=
  match m with
  | MsgNew o oc => encode_new_order e o now oc buf
  | MsgModify o => encode_modify e o now buf
  | MsgCancel no token id => encode_cancel e no token id now buf
  | MsgHeartbeat => encode_heartbeat e now buf
  | MsgSignOn pw => encode_sign_on e pw now buf
  | MsgSignOff => encode_sign_off e now buf
  end.

Definition trans_code (m : NnfMessage) : Z :=
  match m with
  | MsgNew _ _ => kTcNewOrder | MsgModify _ => kTcModifyOrder | MsgCancel _ _ _ => kTcCancelOrder
  | MsgHeartbeat => kTcHeartbeat | MsgSignOn _ => kTcSignOn | MsgSignOff => kTcSignOff
  end.

Definition message_length (m : NnfMessage) : nat :=
  match m with
  | MsgNew _ _ => 80 | MsgModify _ => 68 | MsgCancel _ _ _ => 52 | MsgHeartbeat => 32
  | MsgSignOn _ => 64 | MsgSignOff => 32
  end.

(** Framing is consistent: in a buffer of [kNnfMaxMsg] bytes every message is
    encoded without leaving the buffer, its header carries its transaction code,
    the trader id, the HHMMSSss time of day and a length field equal to the
    returned length, and the bytes past that length are untouched. *)
Theorem nnf_framing e m now buf :
  encoder_ok e -> in_s 32 (ne_trader_id e) -> length buf = kNnfMaxMsg ->
  exists msg, encode e m now buf = Some (msg, message_length m) /\
    length msg = kNnfMaxMsg /\
    load_le 2 msg kHdrTransCode = Some (trans_code m) /\
    load_le 2 msg kHdrMsgLength = Some (Z.of_nat (message_length m)) /\
    load_le_i32 msg kHdrTraderId = Some (ne_trader_id e) /\
    take 8 (drop kHdrTimestamp msg) = timestamp_digits now /\
    drop (message_length m) msg = drop (message_length m) buf.
Proof.
  intros He Htr Hl.
  assert (exists body, encode e m now buf =
      Some ((header_layout e (trans_code m) now (Z.of_nat (message_length m)) ++ body) ++
            drop (message_length m) buf, message_length m) /\
      (kNnfHeaderSize + length body = message_length m)%nat) as (body & -> & Hb).
  { unfold kNnfMaxMsg in Hl. destruct m as [o oc|o|no t id| |pw|]; simpl encode.
    - eexists. split; [apply encode_new_order_layout; [done|lia]|].
      unfold new_order_body. rewrite !length_app, !length_le_bytes, He. done.
    - eexists. split; [apply encode_modify_layout; lia|].
      unfold modify_body. rewrite !length_app, !length_le_bytes. done.
    - eexists. split; [apply encode_cancel_layout; lia|].
      unfold cancel_body. rewrite !length_app, !length_le_bytes. done.
    - exists []. rewrite app_nil_r. split; [apply encode_heartbeat_layout; lia|done].
    - eexists. split; [apply encode_sign_on_layout; lia|].
      unfold sign_on_body. cbv zeta. set (s := take 32 _).
      assert (length s <= 32)%nat by (unfold s; rewrite length_take; lia).
      rewrite length_app, length_replicate. cbn [message_length]. unfold kNnfHeaderSize. lia.
    - exists []. rewrite app_nil_r. split; [apply encode_sign_off_layout; lia|done]. }
  eexists. split; [done|].
  assert (message_length m <= 80)%nat as Hml by (destruct m; simpl; lia).
  unfold kNnfMaxMsg in *.
  split; [rewrite !length_app, header_layout_length, length_drop; lia|].
  rewrite <- (app_assoc (header_layout _ _ _ _)).
  destruct (header_fields_read e (trans_code m) now (Z.of_nat (message_length m))
    (body ++ drop (message_length m) buf)) as (H1 & H2 & H3 & H4).
  { destruct m; vm_compute; split; (reflexivity || discriminate). }
  { done. }
  { ranges. }
  split_and!; try done.
  rewrite app_assoc. apply drop_app_length'. rewrite length_app, header_layout_length. lia.
Qed.

Lemma nnf_framing_witness :
  exists msg, encode NnfEncoder_new (MsgSignOn (Some [115; 101; 99])) (36000 * kNsPerSecond)
      (replicate 256 7) = Some (msg, 64%nat) /\
    load_le 2 msg kHdrMsgLength = Some 64 /\ load_le 2 msg kHdrTransCode = Some 2300.
Proof.
  destruct (nnf_framing NnfEncoder_new (MsgSignOn (Some [115; 101; 99])) (36000 * kNsPerSecond)
    (replicate 256 7)) as (msg & He & _ & Ht & Hm & _).
  - reflexivity.
  - vm_compute. split; (reflexivity || discriminate).
  - reflexivity.
  - exists msg. split; [exact He|]. split; [exact Hm|exact Ht].
Defined.
