(* ===== verification/OrderManager.v ===== *)
(** * OrderManager: the life of our own orders (src/order_manager/order_manager.hpp)

    [table_], 4096 slots indexed by the low bits of the client order id, is a
    finite map in which an absent slot is as constructed.  The constructor does
    not initialise the [order] of a slot, so a fresh slot holds whatever the
    memory held ([om_junk]).  Encoding goes through [NnfEncoder]. *)

From Stdlib Require Import ZArith Lia.
From stdpp Require Import base gmap list numbers option.
From S2P Require Import Prelude Types Codec TimeUtils NnfEncoder.

Local Open Scope Z_scope.

Inductive OrderState : Set :=
  kIdle | kPendingNew | kAcknowledged | kPartiallyFilled | kFilled | kCancelled | kRejected.

#[global] Instance OrderState_eq_dec : EqDecision OrderState.
Proof. solve_decision. Defined.

Record LiveOrder := {
  lo_order : Order;
  lo_state : OrderState;
  lo_exchange_order_no : Z;
  lo_filled_qty : Quantity;
  lo_reject_code : Z;
  lo_occupied : bool;
}.

Definition kOrderTableSize : Z := 4096.

Record OrderManager := {
  om_encoder : NnfEncoder;
  om_table : gmap Z LiveOrder;
  om_junk : Z -> Order;
  om_next_clordid : ClOrdId;
  om_live_count : Z;
}.

Definition OrderManager_new (junk : Z -> Order) : OrderManager :=
  {| om_encoder := set_alpha_char 32 32 NnfEncoder_new; om_table := ∅; om_junk := junk;
     om_next_clordid := 1; om_live_count := 0 |}.

Definition Index (clordid : ClOrdId) : Z := Z.land (u64 clordid) (kOrderTableSize - 1).

Definition slot (om : OrderManager) (i : Z) : LiveOrder :=
  default {| lo_order := om_junk om i; lo_state := kIdle; lo_exchange_order_no := 0;
             lo_filled_qty := 0; lo_reject_code := 0; lo_occupied := false |} (om_table om !! i).

Definition set_slot (i : Z) (lo : LiveOrder) (om : OrderManager) : OrderManager :=
  {| om_encoder := om_encoder om; om_table := <[i := lo]> (om_table om); om_junk := om_junk om;
     om_next_clordid := om_next_clordid om; om_live_count := om_live_count om |}.

Definition set_live_count (n : Z) (om : OrderManager) : OrderManager :=
  {| om_encoder := om_encoder om; om_table := om_table om; om_junk := om_junk om;
     om_next_clordid := om_next_clordid om; om_live_count := n |}.

Definition with_encoder (e : NnfEncoder) (om : OrderManager) : OrderManager :=
  {| om_encoder := e; om_table := om_table om; om_junk := om_junk om;
     om_next_clordid := om_next_clordid om; om_live_count := om_live_count om |}.

(** Returns the id handed out. *)
Definition next_clordid (om : OrderManager) : OrderManager * ClOrdId :=
  ({| om_encoder := om_encoder om; om_table := om_table om; om_junk := om_junk om;
      om_next_clordid := i64 (om_next_clordid om + 1); om_live_count := om_live_count om |},
   om_next_clordid om).

Definition with_clordid (id : ClOrdId) (o : Order) : Order :=
  {| o_client_order_id := id; o_exchange_order_no := o_exchange_order_no o; o_token := o_token o;
     o_segment := o_segment o; o_price := o_price o; o_qty := o_qty o;
     o_disclosed_qty := o_disclosed_qty o; o_side := o_side o; o_order_type := o_order_type o;
     o_validity := o_validity o; o_created_at := o_created_at o |}.

Definition with_exchange_no (no : Z) (o : Order) : Order :=
  {| o_client_order_id := o_client_order_id o; o_exchange_order_no := no; o_token := o_token o;
     o_segment := o_segment o; o_price := o_price o; o_qty := o_qty o;
     o_disclosed_qty := o_disclosed_qty o; o_side := o_side o; o_order_type := o_order_type o;
     o_validity := o_validity o; o_created_at := o_created_at o |}.

Definition terminal (s : OrderState) : bool :=
  match s with kFilled | kCancelled | kRejected => true | _ => false end.

(** The order is passed by reference: the new one is part of the result, as are
    the buffer and the returned length.  [None] is a store outside [buf]. *)
Definition new_order (o : Order) (buf : bytes) (now_ist open_close : Z) (om : OrderManager)
    : option (OrderManager * Order * bytes * nat) :=
  let '(om, o) :=
    if o_client_order_id o =? 0
    then let '(om, id) := next_clordid om in (om, with_clordid id o) else (om, o) in
  let i := Index (o_client_order_id o) in
  let s := slot om i in
  if lo_occupied s && negb (terminal (lo_state s)) then Some (om, o, buf, 0%nat)
  else
    let om := set_slot i {| lo_order := o; lo_state := kPendingNew; lo_exchange_order_no := 0;
                            lo_filled_qty := 0; lo_reject_code := 0; lo_occupied := true |} om in
    let om := set_live_count (u64 (om_live_count om + 1)) om in
    '(buf, len) ← encode_new_order (om_encoder om) o now_ist open_close buf;
    Some (om, o, buf, len).

(** The slot's index, when its order has that id. *)
Definition get (om : OrderManager) (clordid : ClOrdId) : option Z :=
  if o_client_order_id (lo_order (slot om (Index clordid))) =? clordid
  then Some (Index clordid) else None.

Definition state_of (om : OrderManager) (clordid : ClOrdId) : OrderState :=
  match get om clordid with Some i => lo_state (slot om i) | None => kIdle end.

Definition set_state (s : OrderState) (lo : LiveOrder) : LiveOrder :=
  {| lo_order := lo_order lo; lo_state := s; lo_exchange_order_no := lo_exchange_order_no lo;
     lo_filled_qty := lo_filled_qty lo; lo_reject_code := lo_reject_code lo;
     lo_occupied := lo_occupied lo |}.

Definition Release (i : Z) (om : OrderManager) : OrderManager :=
  let lo := slot om i in
  if lo_occupied lo then
    let om := set_slot i {| lo_order := lo_order lo; lo_state := lo_state lo;
                            lo_exchange_order_no := lo_exchange_order_no lo;
                            lo_filled_qty := lo_filled_qty lo;
                            lo_reject_code := lo_reject_code lo; lo_occupied := false |} om in
    if om_live_count om >? 0 then set_live_count (om_live_count om - 1) om else om
  else om.

Definition on_ack (clordid : ClOrdId) (exchange_order_no : Z) (om : OrderManager)
    : OrderManager * bool :=
  match get om clordid with
  | None => (om, false)
  | Some i =>
      let lo := slot om i in
      if bool_decide (lo_state lo <> kPendingNew) then (om, false)
      else (set_slot i {| lo_order := with_exchange_no exchange_order_no (lo_order lo);
                          lo_state := kAcknowledged; lo_exchange_order_no := exchange_order_no;
                          lo_filled_qty := lo_filled_qty lo; lo_reject_code := lo_reject_code lo;
                          lo_occupied := lo_occupied lo |} om, true)
  end.

Definition set_filled (q : Quantity) (lo : LiveOrder) : LiveOrder :=
  {| lo_order := lo_order lo; lo_state := lo_state lo;
     lo_exchange_order_no := lo_exchange_order_no lo; lo_filled_qty := q;
     lo_reject_code := lo_reject_code lo; lo_occupied := lo_occupied lo |}.

Definition om_on_fill (fill : FillReport) (om : OrderManager) : OrderManager * bool :=
  match get om (fr_client_order_id fill) with
  | None => (om, false)
  | Some i =>
      let lo := slot om i in
      let lo := set_filled (i32 (lo_filled_qty lo + fr_fill_qty fill)) lo in
      if (lo_filled_qty lo >=? o_qty (lo_order lo)) || (fr_remaining_qty fill =? 0)
      then (Release i (set_slot i (set_state kFilled lo) om), true)
      else (set_slot i (set_state kPartiallyFilled lo) om, true)
  end.

Definition on_cancel_ack (clordid : ClOrdId) (om : OrderManager) : OrderManager * bool :=
  match get om clordid with
  | None => (om, false)
  | Some i => (Release i (set_slot i (set_state kCancelled (slot om i)) om), true)
  end.

Definition set_reject (code : Z) (lo : LiveOrder) : LiveOrder :=
  {| lo_order := lo_order lo; lo_state := kRejected;
     lo_exchange_order_no := lo_exchange_order_no lo; lo_filled_qty := lo_filled_qty lo;
     lo_reject_code := code; lo_occupied := lo_occupied lo |}.

Definition on_reject (clordid : ClOrdId) (error_code : Z) (om : OrderManager)
    : OrderManager * bool :=
  match get om clordid with
  | None => (om, false)
  | Some i => (Release i (set_slot i (set_reject error_code (slot om i)) om), true)
  end.

(** Length 0: nothing to cancel. *)
Definition om_encode_cancel (clordid : ClOrdId) (buf : bytes) (now_ist : Timestamp)
    (om : OrderManager) : option (bytes * nat) :=
  match get om clordid with
  | None => Some (buf, 0%nat)
  | Some i =>
      let lo := slot om i in
      if lo_exchange_order_no lo =? 0 then Some (buf, 0%nat)
      else encode_cancel (om_encoder om) (lo_exchange_order_no lo) (o_token (lo_order lo)) clordid
             now_ist buf
  end.

(** ** Counting the live slots *)

Definition occupied_slots (m : gmap Z LiveOrder) : gmap Z LiveOrder :=
  filter (fun kv : Z * LiveOrder => lo_occupied kv.2 = true) m.

Definition occupied_count (m : gmap Z LiveOrder) : Z := Z.of_nat (size (occupied_slots m)).

Definition b2z (b : bool) : Z := if b then 1 else 0.

Lemma occupied_slots_lookup m i :
  is_Some (occupied_slots m !! i) <-> exists lo, m !! i = Some lo /\ lo_occupied lo = true.
Proof.
  unfold occupied_slots. split.
  - intros [lo H]. apply map_lookup_filter_Some in H as [? ?]. eauto.
  - intros (lo & H1 & H2). exists lo. by apply map_lookup_filter_Some.
Qed.

Lemma occupied_slots_insert m i lo :
  occupied_slots (<[i := lo]> m) =
    if lo_occupied lo then <[i := lo]> (occupied_slots m) else delete i (occupied_slots m).
Proof.
  unfold occupied_slots. destruct (lo_occupied lo) eqn:E.
  - by rewrite map_filter_insert_True.
  - rewrite map_filter_insert_False by (simpl; congruence). by rewrite map_filter_delete.
Qed.

(** Writing a slot changes the count by its own occupancy. *)
Lemma occupied_count_set om i lo :
  occupied_count (<[i := lo]> (om_table om)) =
    occupied_count (om_table om) - b2z (lo_occupied (slot om i)) + b2z (lo_occupied lo).
Proof.
  unfold occupied_count. rewrite occupied_slots_insert.
  assert (lo_occupied (slot om i) = true <-> is_Some (occupied_slots (om_table om) !! i)) as Hocc.
  { rewrite occupied_slots_lookup. unfold slot. destruct (om_table om !! i) as [x|]; simpl; naive_solver. }
  destruct (occupied_slots (om_table om) !! i) as [x|] eqn:E.
  - rewrite (proj2 Hocc) by by eexists.
    destruct (lo_occupied lo); simpl.
    + rewrite map_size_insert_Some by by eexists. lia.
    + rewrite map_size_delete_Some by by eexists.
      assert (size (occupied_slots (om_table om)) <> 0%nat); [|lia].
      apply map_size_ne_0_lookup. exists i. by eexists.
  - destruct (lo_occupied (slot om i)); [by destruct (proj1 Hocc eq_refl)|].
    destruct (lo_occupied lo); simpl.
    + rewrite map_size_insert_None by done. lia.
    + rewrite delete_id by done. lia.
Qed.

Definition live (s : OrderState) : bool :=
  match s with kPendingNew | kAcknowledged | kPartiallyFilled => true | _ => false end.

Record manager_ok (om : OrderManager) : Prop := {
  mo_count : om_live_count om = occupied_count (om_table om);
  mo_keys : map_Forall (fun i _ => 0 <= i < kOrderTableSize) (om_table om);
  mo_live : forall i, lo_occupied (slot om i) = true -> live (lo_state (slot om i)) = true;
}.

Lemma Index_range id : 0 <= Index id < kOrderTableSize.
Proof.
  unfold Index, kOrderTableSize. change (4096 - 1) with (2 ^ 12 - 1). rewrite land_mask by lia.
  change 4096 with (2 ^ 12). apply Z.mod_pos_bound. lia.
Qed.

Lemma slot_set_eq i lo om : slot (set_slot i lo om) i = lo.
Proof. unfold slot. simpl. by rewrite lookup_insert_eq. Qed.

Lemma slot_set_ne i j lo om : i <> j -> slot (set_slot i lo om) j = slot om j.
Proof. intros. unfold slot. simpl. by rewrite lookup_insert_ne. Qed.

Lemma occupied_count_bound om :
  manager_ok om -> 0 <= occupied_count (om_table om) <= kOrderTableSize.
Proof.
  intros [_ Hk _]. split; [unfold occupied_count; lia|].
  assert (occupied_slots (om_table om) ⊆ om_table om) as Hsub by apply map_filter_subseteq.
  apply map_subseteq_size in Hsub.
  assert (size (om_table om) <= 4096)%nat; [|unfold occupied_count, kOrderTableSize; lia].
  rewrite <- size_dom. transitivity (size (list_to_set (seqZ 0 4096) : gset Z)).
  - apply subseteq_size. intros i Hi. apply elem_of_dom in Hi as [lo Hi].
    apply elem_of_list_to_set, elem_of_seqZ. specialize (Hk i lo Hi). unfold kOrderTableSize in Hk.
    simpl in Hk. lia.
  - rewrite size_list_to_set by apply NoDup_seqZ. rewrite length_seqZ. lia.
Qed.

Lemma get_Some om id i : get om id = Some i ->
  i = Index id /\ o_client_order_id (lo_order (slot om i)) = id.
Proof. unfold get. intros H. case_if_in H; [|done]. simplify_eq. done. Qed.

(** A write that keeps occupancy, to a live state. *)
Lemma ok_set_same om i lo :
  manager_ok om -> 0 <= i < kOrderTableSize -> lo_occupied lo = lo_occupied (slot om i) ->
  (lo_occupied lo = true -> live (lo_state lo) = true) -> manager_ok (set_slot i lo om).
Proof.
  intros [Hc Hk Hl] Hi Ho Hlive. split; simpl.
  - rewrite occupied_count_set, Ho. lia.
  - by apply map_Forall_insert_2.
  - intros j. destruct (decide (i = j)) as [<-|Hne]; [by rewrite slot_set_eq|].
    rewrite slot_set_ne by done. apply Hl.
Qed.

(** A write of a terminal state followed by [Release]. *)
Lemma ok_release om i lo :
  manager_ok om -> 0 <= i < kOrderTableSize -> lo_occupied lo = lo_occupied (slot om i) ->
  manager_ok (Release i (set_slot i lo om)).
Proof.
  intros Hom Hi Ho. pose proof (occupied_count_bound om Hom) as Hb. pose proof Hom as [Hc Hk Hl].
  unfold Release. rewrite slot_set_eq. destruct (lo_occupied lo) eqn:E.
  - set (off := {| lo_order := lo_order lo; lo_state := lo_state lo |}).
    assert (om_live_count om = occupied_count (<[i := off]> (om_table om)) + 1) as Hcnt.
    { rewrite Hc, occupied_count_set, <- Ho. simpl. lia. }
    assert (0 <= occupied_count (<[i := off]> (om_table om))) by (unfold occupied_count; lia).
    cbv zeta. simpl. rewrite Z.gtb_ltb, (proj2 (Z.ltb_lt _ _)) by lia.
    split; simpl.
    + rewrite insert_insert_eq. lia.
    + by apply map_Forall_insert_2, map_Forall_insert_2.
    + intros j. unfold slot. simpl. destruct (decide (i = j)) as [<-|Hne].
      * by rewrite lookup_insert_eq.
      * rewrite !lookup_insert_ne by done. apply Hl.
  - apply ok_set_same; try done; congruence.
Qed.

(** ** Histories *)

Inductive OmOp :=
  | OpNew (o : Order) (buf : bytes) (now_ist open_close : Z)
  | OpAck (id : ClOrdId) (no : Z) | OpFill (f : FillReport) | OpCancelAck (id : ClOrdId)
  | OpReject (id : ClOrdId) (code : Z).

Definition om_step (om : OrderManager) (op : OmOp) : option OrderManager :=
  match op with
  | OpNew o buf now oc => (fun r => r.1.1.1) <$> new_order o buf now oc om
  | OpAck id no => Some (on_ack id no om).1
  | OpFill f => Some (om_on_fill f om).1
  | OpCancelAck id => Some (on_cancel_ack id om).1
  | OpReject id code => Some (on_reject id code om).1
  end.

Fixpoint om_run (om : OrderManager) (ops : list OmOp) : option OrderManager :=
  match ops with [] => Some om | op :: ops => om ← om_step om op; om_run om ops end.

(** The message buffer is large enough, as the pipeline's is. *)
Definition op_fits (op : OmOp) : Prop :=
  match op with OpNew _ buf _ _ => (80 <= length buf)%nat | _ => True end.

(** What a [new_order] call does, on either outcome. *)
Lemma new_order_cases o buf now oc om :
  encoder_ok (om_encoder om) -> (80 <= length buf)%nat ->
  exists om0 o0, om_table om0 = om_table om /\ om_junk om0 = om_junk om /\
    om_encoder om0 = om_encoder om /\ om_live_count om0 = om_live_count om /\
    o0 = (if o_client_order_id o =? 0 then with_clordid (om_next_clordid om) o else o) /\
    let i := Index (o_client_order_id o0) in
    new_order o buf now oc om =
      if lo_occupied (slot om i) && negb (terminal (lo_state (slot om i))) then Some (om0, o0, buf, 0%nat)
      else Some (set_live_count (u64 (om_live_count om + 1))
                   (set_slot i {| lo_order := o0; lo_state := kPendingNew; lo_exchange_order_no := 0;
                      lo_filled_qty := 0; lo_reject_code := 0; lo_occupied := true |} om0),
                 o0, (header_layout (om_encoder om) kTcNewOrder now 80 ++
                      new_order_body (om_encoder om) o0 oc) ++ drop 80 buf, 80%nat).
Proof.
  intros He Hl. unfold new_order. destruct (o_client_order_id o =? 0).
  - exists (next_clordid om).1, (with_clordid (om_next_clordid om) o). do 5 (split; [done|]).
    cbv zeta. cbn [next_clordid fst snd]. unfold slot.
    cbn [om_table om_junk set_slot om_encoder set_live_count om_live_count].
    destruct (lo_occupied _ && _); [done|]. by rewrite encode_new_order_layout.
  - exists om, o. do 5 (split; [done|]). cbv zeta. unfold slot.
    cbn [om_table om_junk set_slot om_encoder set_live_count om_live_count].
    destruct (lo_occupied _ && _); [done|]. by rewrite encode_new_order_layout.
Qed.

Lemma step_ok om op :
  manager_ok om -> encoder_ok (om_encoder om) -> op_fits op ->
  exists om', om_step om op = Some om' /\ manager_ok om' /\ om_encoder om' = om_encoder om.
Proof.
  intros Hom He Hop.
  assert (forall i lo, om_encoder (Release i (set_slot i lo om)) = om_encoder om) as Hrel.
  { intros i lo. unfold Release. by repeat case_if. }
  destruct op as [o buf now oc|id no|f|id|id code]; simpl.
  - destruct (new_order_cases o buf now oc om He Hop)
      as (om0 & o0 & E1 & E2 & E3 & E4 & _ & ->). set (i := Index _).
    pose proof (occupied_count_bound om Hom) as Hb. pose proof Hom as [Hc Hk Hl].
    assert (forall j, slot om0 j = slot om j) as Hs by (intros j; unfold slot; by rewrite E1, E2).
    destruct (lo_occupied (slot om i) && negb (terminal (lo_state (slot om i)))) eqn:Hbusy.
    + eexists. split; [done|]. split; [|exact E3]. simpl.
      split; [congruence|by rewrite E1|]. intros j. rewrite Hs. apply Hl.
    + assert (lo_occupied (slot om i) = false) as Hfree.
      { destruct (lo_occupied (slot om i)) eqn:Ho; [|done]. specialize (Hl i Ho).
        by destruct (lo_state (slot om i)). }
      eexists. split; [done|]. split; [|exact E3]. simpl. split; simpl.
      * rewrite E1, occupied_count_set, Hfree. simpl.
        unfold kOrderTableSize in Hb. rewrite wrap_u_id by ranges. lia.
      * rewrite E1. apply map_Forall_insert_2; [apply Index_range|done].
      * intros j. unfold slot. simpl. rewrite E1, E2. destruct (decide (i = j)) as [<-|Hne].
        -- by rewrite lookup_insert_eq.
        -- rewrite lookup_insert_ne by done. apply Hl.
  - eexists. split; [done|]. unfold on_ack. destruct (get om id) as [i|] eqn:Hg; [|done].
    apply get_Some in Hg as [-> _]. case_bool_decide; [done|]. split; [|done].
    apply ok_set_same; [done|apply Index_range|done|done].
  - eexists. split; [done|]. unfold om_on_fill.
    destruct (get om (fr_client_order_id f)) as [i|] eqn:Hg; [|done].
    apply get_Some in Hg as [-> _]. cbv zeta. destruct (_ || _); simpl.
    + split; [|apply Hrel]. apply ok_release; [done|apply Index_range|done].
    + split; [|done]. apply ok_set_same; [done|apply Index_range|done|done].
  - eexists. split; [done|]. unfold on_cancel_ack. destruct (get om id) as [i|] eqn:Hg; [|done].
    apply get_Some in Hg as [-> _]. simpl. split; [|apply Hrel].
    apply ok_release; [done|apply Index_range|done].
  - eexists. split; [done|]. unfold on_reject. destruct (get om id) as [i|] eqn:Hg; [|done].
    apply get_Some in Hg as [-> _]. simpl. split; [|apply Hrel].
    apply ok_release; [done|apply Index_range|done].
Qed.

Lemma om_ok_new junk : manager_ok (OrderManager_new junk).
Proof. split; [done|apply map_Forall_empty|done]. Qed.

Lemma run_ok ops om :
  manager_ok om -> encoder_ok (om_encoder om) -> Forall op_fits ops ->
  exists om', om_run om ops = Some om' /\ manager_ok om' /\ om_encoder om' = om_encoder om.
Proof.
  intros Hom He Hall. revert om Hom He. induction Hall as [|op ops Hop Hall IH]; intros om Hom He; [by exists om|].
  cbn [om_run]. destruct (step_ok om op Hom He Hop) as (om1 & -> & Hom1 & E1). cbn [mbind option_bind].
  destruct (IH om1 Hom1 ltac:(by rewrite E1)) as (om2 & ? & ? & ?). exists om2. split_and!; [done|done|congruence].
Qed.

(** C23.  The live count never drifts: after any history of new orders, acks,
    fills, cancel acks and rejects, in any order and for any ids (duplicates,
    unknown ids and late reports included), whatever was in the uninitialised
    table, [live_count] is the number of occupied slots, at most 4096, and an
    occupied slot holds an order in a live state. *)
Theorem live_count_exact junk ops :
  Forall op_fits ops ->
  exists om, om_run (OrderManager_new junk) ops = Some om /\
    om_live_count om = occupied_count (om_table om) /\ om_live_count om <= kOrderTableSize /\
    forall i, lo_occupied (slot om i) = true -> live (lo_state (slot om i)) = true.
Proof.
  intros Hall. destruct (run_ok ops (OrderManager_new junk) (om_ok_new junk) eq_refl Hall)
    as (om & Hrun & Hom & _).
  exists om. pose proof (occupied_count_bound om Hom). destruct Hom as [Hc _ Hl]. split_and!; [done..|lia|done].
Qed.

Definition sample_order (id : ClOrdId) : Order := with_clordid id sample_limit.
Definition sample_fill (id : ClOrdId) (qty remaining : Z) : FillReport :=
  {| fr_exchange_order_no := 1; fr_client_order_id := id; fr_token := 35001;
     fr_fill_price := 2450050; fr_fill_qty := qty; fr_remaining_qty := remaining;
     fr_fill_time := 0; fr_trade_no := 1; fr_side := kSell |}.
Definition scratch : bytes := replicate 256 0.

Definition sample_history : list OmOp :=
  [OpNew (sample_order 1) scratch 0 79; OpNew (sample_order 0) scratch 0 79;
   OpNew (sample_order 2) scratch 0 79; OpAck 1 500; OpFill (sample_fill 1 75 0);
   OpFill (sample_fill 1 5 0); OpReject 9 17].

Lemma live_count_exact_witness :
  exists om, om_run (OrderManager_new sample_order) sample_history = Some om /\
    om_live_count om = occupied_count (om_table om) /\ om_live_count om = 1.
Proof.
  destruct (live_count_exact sample_order sample_history) as (om & Hrun & Hc & _).
  { repeat constructor; vm_compute; lia. }
  exists om. split; [exact Hrun|]. split; [exact Hc|].
  assert (om_live_count <$> om_run (OrderManager_new sample_order) sample_history = Some 1) as H
    by (vm_compute; reflexivity).
  rewrite Hrun in H. by injection H.
Defined.

(** ** The life of one order

    [order_life] is what becomes of one order, seen alone: no table, no slots, no other
    orders.  An ack counts only while the order is pending; a fill adds to the filled
    quantity (an [int32]) and completes the order when the quantity is reached or the report
    says nothing remains; a cancel ack and a reject end it. *)

Record OrderLife := {
  ol_state : OrderState;
  ol_exchange_no : option Z;
  ol_filled : Quantity;
  ol_reject_code : Z;
}.

Definition newborn : OrderLife :=
  {| ol_state := kPendingNew; ol_exchange_no := None; ol_filled := 0; ol_reject_code := 0 |}.

Definition order_life_step (id : ClOrdId) (qty : Quantity) (l : OrderLife) (op : OmOp) : OrderLife :=
  match op with
  | OpNew _ _ _ _ => l
  | OpAck id' no =>
      if bool_decide (id' = id /\ ol_state l = kPendingNew)
      then {| ol_state := kAcknowledged; ol_exchange_no := Some no; ol_filled := ol_filled l;
              ol_reject_code := ol_reject_code l |}
      else l
  | OpFill f =>
      if bool_decide (fr_client_order_id f = id) then
        let filled := i32 (ol_filled l + fr_fill_qty f) in
        {| ol_state := if bool_decide (qty <= filled \/ fr_remaining_qty f = 0) then kFilled
                       else kPartiallyFilled;
           ol_exchange_no := ol_exchange_no l; ol_filled := filled;
           ol_reject_code := ol_reject_code l |}
      else l
  | OpCancelAck id' =>
      if bool_decide (id' = id)
      then {| ol_state := kCancelled; ol_exchange_no := ol_exchange_no l; ol_filled := ol_filled l;
              ol_reject_code := ol_reject_code l |}
      else l
  | OpReject id' code =>
      if bool_decide (id' = id)
      then {| ol_state := kRejected; ol_exchange_no := ol_exchange_no l; ol_filled := ol_filled l;
              ol_reject_code := code |}
      else l
  end.

Definition order_life (id : ClOrdId) (qty : Quantity) (ops : list OmOp) : OrderLife :=
  fold_left (order_life_step id qty) ops newborn.

(** What the slot of an order [o] holds at that point of its life. *)
Definition shown (o : Order) (l : OrderLife) : LiveOrder :=
  {| lo_order := from_option (fun no => with_exchange_no no o) o (ol_exchange_no l);
     lo_state := ol_state l; lo_exchange_order_no := default 0 (ol_exchange_no l);
     lo_filled_qty := ol_filled l; lo_reject_code := ol_reject_code l;
     lo_occupied := live (ol_state l) |}.

Lemma Release_slot om i lo j :
  slot (Release i (set_slot i lo om)) j =
    if decide (i = j) then
      {| lo_order := lo_order lo; lo_state := lo_state lo;
         lo_exchange_order_no := lo_exchange_order_no lo; lo_filled_qty := lo_filled_qty lo;
         lo_reject_code := lo_reject_code lo; lo_occupied := false |}
    else slot om j.
Proof.
  unfold Release. rewrite slot_set_eq.
  destruct (lo_occupied lo) eqn:E; cbv zeta.
  - assert (forall b : bool, forall om' n, slot (if b then set_live_count n om' else om') j = slot om' j) as Hb
      by by intros [].
    rewrite Hb. case_decide as Hd; [subst; by rewrite slot_set_eq|].
    by rewrite !slot_set_ne.
  - case_decide as Hd; [subst; rewrite slot_set_eq; destruct lo; simpl in *; by subst|].
    by rewrite slot_set_ne.
Qed.

Section Lifecycle.
Context (om : OrderManager) (o : Order) (l : OrderLife).
Abbreviation id := (o_client_order_id o).
Context (Hid : slot om (Index id) = shown o l) (Hlive : live (ol_state l) = true).

Lemma shown_id : o_client_order_id (lo_order (shown o l)) = id.
Proof. unfold shown. by destruct (ol_exchange_no l). Qed.

Lemma shown_qty : o_qty (lo_order (shown o l)) = o_qty o.
Proof. unfold shown. by destruct (ol_exchange_no l). Qed.

(** A report for our id finds our slot; one for another id misses it. *)
Lemma get_own : get om id = Some (Index id).
Proof. unfold get. by rewrite Hid, shown_id, Z.eqb_refl. Qed.

Lemma get_other id' i : id' <> id -> get om id' = Some i -> i <> Index id.
Proof.
  intros Hne Hg E. apply get_Some in Hg as [_ Hi]. rewrite E, Hid, shown_id in Hi. congruence.
Qed.

Lemma new_order_shown o' buf now oc om' :
  encoder_ok (om_encoder om) -> (80 <= length buf)%nat ->
  om_step om (OpNew o' buf now oc) = Some om' -> slot om' (Index id) = shown o l.
Proof.
  intros He Hl Hs. simpl in Hs.
  destruct (new_order_cases o' buf now oc om He Hl) as (om0 & o0 & E1 & E2 & _ & _ & _ & Heq).
  cbv zeta in Heq. rewrite Heq in Hs. set (i := Index (o_client_order_id o0)) in *. rewrite <- Hid.
  destruct (_ && _) eqn:Hbusy in Hs; simplify_eq/=.
  - unfold slot. by rewrite E1, E2.
  - assert (i <> Index id) as Hne.
    { intros E. rewrite E, Hid in Hbusy. cbn [shown lo_occupied lo_state] in Hbusy.
      rewrite Hlive in Hbusy. by destruct (ol_state l). }
    unfold slot. simpl. by rewrite lookup_insert_ne, E1, E2 by done.
Qed.

Lemma step_shown op om' :
  encoder_ok (om_encoder om) -> op_fits op -> om_step om op = Some om' ->
  slot om' (Index id) = shown o (order_life_step id (o_qty o) l op).
Proof.
  intros He Hop Hs. destruct op as [o' buf now oc|id' no|f|id'|id' code];
    [by eapply new_order_shown|simpl in Hs; injection Hs as <-..]; cbn [order_life_step].
  - unfold on_ack. destruct (decide (id' = id)) as [->|Hne].
    + rewrite get_own, Hid. cbn [shown lo_state]. repeat case_bool_decide; try naive_solver.
      cbn [fst]. rewrite slot_set_eq. unfold shown. cbn. rewrite Hlive. by destruct (ol_exchange_no l).
    + rewrite bool_decide_eq_false_2 by naive_solver.
      destruct (get om id') as [i|] eqn:Hg; [|done]. pose proof (get_other _ _ Hne Hg).
      case_bool_decide; [done|]. cbn [fst]. by rewrite slot_set_ne.
  - unfold om_on_fill. case_bool_decide as Hf.
    + rewrite Hf, get_own, Hid. cbv zeta. cbn [set_filled lo_filled_qty lo_order].
      rewrite shown_qty. cbn [shown lo_filled_qty]. set (q := i32 _).
      destruct (Z.geb_spec q (o_qty o)) as [Hq|Hq]; destruct (Z.eqb_spec (fr_remaining_qty f) 0) as [Hr|Hr];
        cbn [orb fst];
        first [rewrite bool_decide_eq_true_2 by lia; by rewrite Release_slot, decide_True
              |rewrite bool_decide_eq_false_2 by lia; rewrite slot_set_eq].
      unfold shown. cbn. by rewrite Hlive.
    + destruct (get om _) as [i|] eqn:Hg; [|done]. pose proof (get_other _ _ Hf Hg). cbv zeta.
      destruct (_ || _); cbn [fst]; [rewrite Release_slot, decide_False by done|rewrite slot_set_ne by done]; done.
  - unfold on_cancel_ack. case_bool_decide as Hf.
    + subst id'. rewrite get_own, Hid. cbn [fst]. by rewrite Release_slot, decide_True.
    + destruct (get om _) as [i|] eqn:Hg; [|done]. pose proof (get_other _ _ Hf Hg).
      cbn [fst]. by rewrite Release_slot, decide_False.
  - unfold on_reject. case_bool_decide as Hf.
    + subst id'. rewrite get_own, Hid. cbn [fst]. by rewrite Release_slot, decide_True.
    + destruct (get om _) as [i|] eqn:Hg; [|done]. pose proof (get_other _ _ Hf Hg).
      cbn [fst]. by rewrite Release_slot, decide_False.
Qed.
End Lifecycle.

Lemma run_shown o ops : forall om l om',
  encoder_ok (om_encoder om) -> manager_ok om -> Forall op_fits ops ->
  slot om (Index (o_client_order_id o)) = shown o l ->
  (forall k, (k < length ops)%nat ->
    live (ol_state (fold_left (order_life_step (o_client_order_id o) (o_qty o)) (take k ops) l)) = true) ->
  om_run om ops = Some om' ->
  slot om' (Index (o_client_order_id o)) =
    shown o (fold_left (order_life_step (o_client_order_id o) (o_qty o)) ops l).
Proof.
  induction ops as [|op ops IH]; intros om l om' He Hok Hall Hs Hlive Hrun; [by simplify_eq/=|].
  apply Forall_cons_1 in Hall as [Hop Hall]. cbn [om_run] in Hrun.
  destruct (step_ok om op Hok He Hop) as (om1 & E1 & Hok1 & Ee). rewrite E1 in Hrun. cbn [mbind option_bind] in Hrun.
  cbn [fold_left]. apply (IH om1 _ om'); [by rewrite Ee|done|done| | |done].
  - apply (step_shown om o l Hs (Hlive 0%nat ltac:(simpl; lia)) op om1 He Hop E1).
  - intros k Hk. apply (Hlive (S k)). simpl. lia.
Qed.

(** C24.  Every order lives as if it were alone.  Take a manager in any reachable state,
    whatever was in its uninitialised table, that accepts a new order (it returns a length
    above 0), and any further history in which that order is live before each operation: new
    orders, among them ones that map to its slot, and reports for any ids.  Then the manager
    runs, and the order's slot is exactly what [order_life] says of the order's own reports:
    its state, filled quantity, exchange order number and reject code, the order itself
    unchanged, found by its id, and in the live table exactly while its state is a live one.
    This is the life cycle of the code; [unacknowledged_order_ends] shows where it is wider
    than the documented one. *)
Theorem live_order_lifecycle junk pre o buf now oc om0 om1 o' buf' len ops :
  Forall op_fits pre -> om_run (OrderManager_new junk) pre = Some om0 ->
  (80 <= length buf)%nat -> new_order o buf now oc om0 = Some (om1, o', buf', len) -> (0 < len)%nat ->
  let id := o_client_order_id o' in
  Forall op_fits ops ->
  (forall k, (k < length ops)%nat ->
    live (ol_state (order_life id (o_qty o') (take k ops))) = true) ->
  exists om2, om_run om1 ops = Some om2 /\ get om2 id = Some (Index id) /\
    state_of om2 id = ol_state (order_life id (o_qty o') ops) /\
    slot om2 (Index id) = shown o' (order_life id (o_qty o') ops).
Proof.
  intros Hpre Hrun Hbuf Hnew Hlen id Hall Hlive.
  destruct (run_ok pre _ (om_ok_new junk) eq_refl Hpre) as (om0' & Hrun' & Hok & Ee).
  rewrite Hrun in Hrun'. injection Hrun' as <-. assert (encoder_ok (om_encoder om0)) as He by by rewrite Ee.
  destruct (step_ok om0 (OpNew o buf now oc) Hok He Hbuf) as (om1' & E1 & Hok1 & Ee1).
  cbn [om_step] in E1. rewrite Hnew in E1. cbn in E1. injection E1 as <-.
  assert (slot om1 (Index id) = shown o' newborn) as Hs.
  { destruct (new_order_cases o buf now oc om0 He Hbuf) as (omx & o0 & _ & _ & _ & _ & _ & Heq).
    cbv zeta in Heq. rewrite Heq in Hnew. destruct (_ && _); simplify_eq; [lia|].
    unfold slot. cbn. by rewrite lookup_insert_eq. }
  destruct (run_ok ops om1 Hok1 ltac:(by rewrite Ee1) Hall) as (om2 & Hrun2 & _).
  assert (slot om2 (Index id) = shown o' (order_life id (o_qty o') ops)) as Hs2.
  { apply (run_shown o' ops om1 newborn om2); try done. by rewrite Ee1. }
  exists om2. pose proof (get_own om2 o' _ Hs2) as Hg. split_and!; [done|exact Hg| |done].
  unfold state_of. fold id in Hg. by rewrite Hg, Hs2.
Qed.

Definition om_with_1 : OrderManager :=
  default (OrderManager_new sample_order)
    (om_run (OrderManager_new sample_order) [OpNew (sample_order 1) scratch 0 79]).

(** Order 1: an intruder on its slot, a report for another order, an ack, a partial fill and
    the rest. *)
Definition life_of_1 : list OmOp :=
  [OpNew (sample_order 4097) scratch 0 79; OpReject 9 17; OpAck 1 500;
   OpFill (sample_fill 1 25 50); OpFill (sample_fill 1 50 0)].

Lemma live_order_lifecycle_witness :
  exists om2, om_run om_with_1 life_of_1 = Some om2 /\ state_of om2 1 = kFilled /\
    slot om2 (Index 1) =
      {| lo_order := with_exchange_no 500 (sample_order 1); lo_state := kFilled;
         lo_exchange_order_no := 500; lo_filled_qty := 75; lo_reject_code := 0; lo_occupied := false |}.
Proof.
  assert (exists buf', new_order (sample_order 1) scratch 0 79 (OrderManager_new sample_order)
    = Some (om_with_1, sample_order 1, buf', 80%nat)) as [buf' Hnew].
  { eexists. vm_compute. reflexivity. }
  destruct (live_order_lifecycle sample_order [] (sample_order 1) scratch 0 79
    (OrderManager_new sample_order) om_with_1 (sample_order 1) buf' 80 life_of_1)
    as (om2 & H1 & _ & H2 & H3).
  - constructor.
  - reflexivity.
  - vm_compute. lia.
  - exact Hnew.
  - lia.
  - repeat constructor; vm_compute; lia.
  - intros k Hk. do 5 (destruct k as [|k]; [reflexivity|]). simpl in Hk. lia.
  - exists om2. split; [exact H1|]. split; [exact H2|exact H3].
Defined.

(** The file's opening comment lets an order fill, be cancelled or be rejected only once
    acknowledged; the code does all four from PENDING_NEW, without an ack ever arriving. *)
Lemma unacknowledged_order_ends :
  state_of om_with_1 1 = kPendingNew /\
  state_of (om_on_fill (sample_fill 1 10 65) om_with_1).1 1 = kPartiallyFilled /\
  state_of (om_on_fill (sample_fill 1 75 0) om_with_1).1 1 = kFilled /\
  state_of (on_cancel_ack 1 om_with_1).1 1 = kCancelled /\
  state_of (on_reject 1 17 om_with_1).1 1 = kRejected.
Proof. vm_compute. done. Qed.

(** A terminal state is not final: after a cancel ack, a late partial fill of
    the same id puts the order back in PARTIALLY_FILLED, although it has left the
    live table (its slot stays free and the live count does not change). *)
Theorem late_fill_reopens om fill i :
  get om (fr_client_order_id fill) = Some i ->
  lo_state (slot om i) = kCancelled -> lo_occupied (slot om i) = false ->
  in_s 32 (lo_filled_qty (slot om i) + fr_fill_qty fill) ->
  lo_filled_qty (slot om i) + fr_fill_qty fill < o_qty (lo_order (slot om i)) ->
  fr_remaining_qty fill <> 0 ->
  let om' := (om_on_fill fill om).1 in
  state_of om' (fr_client_order_id fill) = kPartiallyFilled /\
  lo_occupied (slot om' i) = false /\ om_live_count om' = om_live_count om.
Proof.
  intros Hg Hst Ho Hfit Hlt Hrem. cbv zeta. unfold om_on_fill. rewrite Hg. cbv zeta.
  cbn [lo_filled_qty set_filled lo_order]. rewrite wrap_s_id by (done || lia).
  rewrite Z.geb_leb, (proj2 (Z.leb_gt _ _)), (proj2 (Z.eqb_neq _ _)) by done. simpl.
  rewrite slot_set_eq. split_and!; [|done|done].
  unfold state_of, get. pose proof (get_Some _ _ _ Hg) as [-> Hid].
  rewrite slot_set_eq. cbn [lo_order set_state set_filled]. by rewrite Hid, Z.eqb_refl, slot_set_eq.
Qed.

Lemma late_fill_reopens_witness :
  let om := (on_cancel_ack 1 om_with_1).1 in
  state_of om 1 = kCancelled /\
  state_of (om_on_fill (sample_fill 1 10 65) om).1 1 = kPartiallyFilled.
Proof.
  split; [vm_compute; reflexivity|].
  apply (late_fill_reopens (on_cancel_ack 1 om_with_1).1 (sample_fill 1 10 65) 1);
    vm_compute; try reflexivity; try discriminate. split; (reflexivity || discriminate).
Defined.
