(* ===== verification/Pipeline.v ===== *)
(** * Pipeline: tick to trade (src/pipeline.hpp)

    One event through the book, the strategy, the risk gate and the order
    manager, with the pointers of the class replaced by the states they point to.
    The strategy is anything that keeps the promises of [StrategyBase];
    [MarketMaking] is the instance the program runs.  Inputs of a step are the
    readings of the wall clock and the elapsed time of the latency measurement.  [None] stands
    for what the components may not survive: the hang of [EraseOrder], a read
    outside the risk vectors, a store outside the message buffer. *)

From Stdlib Require Import ZArith Lia.
From stdpp Require Import base gmap list numbers option.
From S2P Require Import Prelude Types Codec TimeUtils LevelArray OrderBook BookManager.
From S2P Require Import SymbolMaster MarketMaking RiskManager NnfEncoder OrderManager.

Local Open Scope Z_scope.

Record PipelineStats := {
  ps_events : Z;
  ps_orders_generated : Z;
  ps_orders_approved : Z;
  ps_orders_rejected : Z;
  ps_orders_sent : Z;
}.

Definition zero_pipeline_stats : PipelineStats :=
  {| ps_events := 0; ps_orders_generated := 0; ps_orders_approved := 0; ps_orders_rejected := 0;
     ps_orders_sent := 0 |}.

(** The successive readings of [ist_now_ns] during one call (none is used once a
    simulated clock is set). *)
Definition Clock := nat -> Timestamp.

Definition kMaxSent : nat := 16.

Record Pipeline (S : Type) := {
  pp_books : BookManager;
  pp_strat : S;
  pp_risk : RiskManager;
  pp_om : OrderManager;
  pp_tick_to_trade : LatencyTracker;
  pp_stats : PipelineStats;
  pp_now_ns : Timestamp;
  pp_msg_buf : bytes;
  pp_last_msg_len : nat;
  pp_sent_orders : list Order;
}.
Arguments pp_books {S}. Arguments pp_strat {S}. Arguments pp_risk {S}. Arguments pp_om {S}.
Arguments pp_tick_to_trade {S}. Arguments pp_stats {S}. Arguments pp_now_ns {S}.
Arguments pp_msg_buf {S}. Arguments pp_last_msg_len {S}. Arguments pp_sent_orders {S}.

Definition add_stats (events generated approved rejected sent : Z) (s : PipelineStats)
    : PipelineStats :=
  {| ps_events := u64 (ps_events s + events);
     ps_orders_generated := u64 (ps_orders_generated s + generated);
     ps_orders_approved := u64 (ps_orders_approved s + approved);
     ps_orders_rejected := u64 (ps_orders_rejected s + rejected);
     ps_orders_sent := u64 (ps_orders_sent s + sent) |}.

Section Pipeline.
Context {S : Type} {SB : StrategyBase S}.

Definition Pipeline_new (books : BookManager) (strat : S) (risk : RiskManager) (om : OrderManager)
    (max_samples : nat) (junk : bytes) : Pipeline S :=
  {| pp_books := books; pp_strat := strat; pp_risk := risk; pp_om := om;
     pp_tick_to_trade := LatencyTracker_new max_samples; pp_stats := zero_pipeline_stats;
     pp_now_ns := 0; pp_msg_buf := junk; pp_last_msg_len := 0; pp_sent_orders := [] |}.

Definition set_now (ist_ns : Timestamp) (p : Pipeline S) : Pipeline S :=
  {| pp_books := pp_books p; pp_strat := sb_set_now ist_ns (pp_strat p);
     pp_risk := rm_set_now ist_ns (pp_risk p); pp_om := pp_om p;
     pp_tick_to_trade := pp_tick_to_trade p; pp_stats := pp_stats p; pp_now_ns := ist_ns;
     pp_msg_buf := pp_msg_buf p; pp_last_msg_len := pp_last_msg_len p;
     pp_sent_orders := pp_sent_orders p |}.

Definition with_stats (s : PipelineStats) (p : Pipeline S) : Pipeline S :=
  {| pp_books := pp_books p; pp_strat := pp_strat p; pp_risk := pp_risk p; pp_om := pp_om p;
     pp_tick_to_trade := pp_tick_to_trade p; pp_stats := s; pp_now_ns := pp_now_ns p;
     pp_msg_buf := pp_msg_buf p; pp_last_msg_len := pp_last_msg_len p;
     pp_sent_orders := pp_sent_orders p |}.

Definition with_market (books : BookManager) (strat : S) (risk : RiskManager) (p : Pipeline S)
    : Pipeline S :=
  {| pp_books := books; pp_strat := strat; pp_risk := risk; pp_om := pp_om p;
     pp_tick_to_trade := pp_tick_to_trade p; pp_stats := pp_stats p; pp_now_ns := pp_now_ns p;
     pp_msg_buf := pp_msg_buf p; pp_last_msg_len := pp_last_msg_len p;
     pp_sent_orders := pp_sent_orders p |}.

Definition with_orders (risk : RiskManager) (om : OrderManager) (s : PipelineStats) (buf : bytes)
    (len : nat) (sent : list Order) (p : Pipeline S) : Pipeline S :=
  {| pp_books := pp_books p; pp_strat := pp_strat p; pp_risk := risk; pp_om := om;
     pp_tick_to_trade := pp_tick_to_trade p; pp_stats := s; pp_now_ns := pp_now_ns p;
     pp_msg_buf := buf; pp_last_msg_len := len; pp_sent_orders := sent |}.

Definition with_latency (t : LatencyTracker) (p : Pipeline S) : Pipeline S :=
  {| pp_books := pp_books p; pp_strat := pp_strat p; pp_risk := pp_risk p; pp_om := pp_om p;
     pp_tick_to_trade := t; pp_stats := pp_stats p; pp_now_ns := pp_now_ns p;
     pp_msg_buf := pp_msg_buf p; pp_last_msg_len := pp_last_msg_len p;
     pp_sent_orders := pp_sent_orders p |}.

(** The body of [for (const Order& o : orders) { ... }]; [sent] is the local
    counter.  Order [k] of the span is checked at the reading [clk (2k+1)] of the
    wall clock and stamped at [clk (2k+2)]. *)
Definition order_body (clk : Clock) (k : nat) (o : Order) (sent : Z) (p : Pipeline S)
    : option (Pipeline S * Z) :=
  '(risk, r) ← check (clk (2 * k + 1)%nat) o (pp_risk p);
  if bool_decide (r <> kApproved) then
    Some (with_orders risk (pp_om p) (add_stats 0 0 0 1 0 (pp_stats p)) (pp_msg_buf p)
            (pp_last_msg_len p) (pp_sent_orders p) p, sent)
  else
    let stats := add_stats 0 0 1 0 0 (pp_stats p) in
    let stamp := if negb (pp_now_ns p =? 0) then pp_now_ns p else clk (2 * k + 2)%nat in
    '(om, order, buf, len) ← new_order o (pp_msg_buf p) stamp 79 (pp_om p);
    if (0 <? len)%nat then
      let sent_orders :=
        if (length (pp_sent_orders p) <? kMaxSent)%nat then pp_sent_orders p ++ [order]
        else pp_sent_orders p in
      Some (with_orders risk om (add_stats 0 0 0 0 1 stats) buf len sent_orders p, sent + 1)
    else Some (with_orders risk om stats buf (pp_last_msg_len p) (pp_sent_orders p) p, sent).

Fixpoint order_loop (clk : Clock) (k : nat) (orders : list Order) (sent : Z) (p : Pipeline S)
    : option (Pipeline S * Z) :=
  match orders with
  | [] => Some (p, sent)
  | o :: orders =>
      '(p, sent) ← order_body clk k o sent p;
      order_loop clk (k + 1) orders sent p
  end.

(** From the book to the strategy: [apply_event], [update_reference] from the top
    of the book, [on_book_update]. *)
Definition market_step (ev : MarketEvent) (wall : Timestamp) (book : OrderBook) (p : Pipeline S)
    : option (Pipeline S) :=
  '(book, _) ← apply_event book ev;
  let books := {| bm_slots := <[ev_token ev := book]> (bm_slots (pp_books p));
                  bm_watched := bm_watched (pp_books p) |} in
  let price (l : option PriceLevel) := match l with Some l => pl_price l | None => 0 end in
  let risk := update_reference (ev_token ev) (price (best_bid book)) (price (best_ask book))
                (pp_risk p) in
  let strat := sb_on_book_update (ev_token ev) book wall (pp_strat p) in
  Some (with_market books strat risk p).

Definition process (ev : MarketEvent) (clk : Clock) (elapsed_ns : Z) (p : Pipeline S)
    : option (Pipeline S * Z) :=
  let p := with_stats (add_stats 1 0 0 0 0 (pp_stats p)) p in
  match get_book (ev_token ev) (pp_books p) with
  | None => Some (p, 0)
  | Some book =>
      p ← market_step ev (clk 0%nat) book p;
      let orders := sb_get_pending_orders (pp_strat p) in
      if (length orders =? 0)%nat then Some (p, 0)
      else
        let stats := add_stats 0 (Z.of_nat (length orders)) 0 0 0 (pp_stats p) in
        let p := with_orders (pp_risk p) (pp_om p) stats (pp_msg_buf p) (pp_last_msg_len p) [] p in
        '(p, sent) ← order_loop clk 0 orders 0 p;
        Some (if sent >? 0 then with_latency (lt_record elapsed_ns (pp_tick_to_trade p)) p else p,
              sent)
  end.

Definition on_fill (fill : FillReport) (p : Pipeline S) : Pipeline S :=
  {| pp_books := pp_books p; pp_strat := sb_on_fill fill (pp_strat p);
     pp_risk := rm_on_fill fill (pp_risk p); pp_om := (om_on_fill fill (pp_om p)).1;
     pp_tick_to_trade := pp_tick_to_trade p; pp_stats := pp_stats p; pp_now_ns := pp_now_ns p;
     pp_msg_buf := pp_msg_buf p; pp_last_msg_len := pp_last_msg_len p;
     pp_sent_orders := pp_sent_orders p |}.
End Pipeline.

(** ** What a step sends *)

Record pipeline_ok {S} (p : Pipeline S) : Prop := {
  po_om : manager_ok (pp_om p);
  po_encoder : encoder_ok (om_encoder (pp_om p));
  po_buf : (80 <= length (pp_msg_buf p))%nat;
}.

(** The span through the gate, order after order: the risk state each one meets and the verdict
    it gets. *)
Fixpoint check_span (clk : Clock) (k : nat) (rm : RiskManager) (orders : list Order)
    : option (RiskManager * list (RiskManager * RejectReason)) :=
  match orders with
  | [] => Some (rm, [])
  | o :: orders =>
      '(rm1, r) ← check (clk (2 * k + 1)%nat) o rm;
      '(rm2, vs) ← check_span clk (k + 1) rm1 orders;
      Some (rm2, (rm, r) :: vs)
  end.

(** Approved means within the limits, at the state and the time of the check. *)
Fixpoint verdicts_exact (clk : Clock) (k : nat) (orders : list Order)
    (vs : list (RiskManager * RejectReason)) : Prop :=
  match orders, vs with
  | [], [] => True
  | o :: orders, (rm, r) :: vs =>
      (r = kApproved <-> within_limits (clk (2 * k + 1)%nat) rm o) /\ verdicts_exact clk (k + 1) orders vs
  | _, _ => False
  end.

Fixpoint passed (orders : list Order) (vs : list (RiskManager * RejectReason)) : list Order :=
  match orders, vs with
  | o :: orders, (_, r) :: vs => if bool_decide (r = kApproved) then o :: passed orders vs else passed orders vs
  | _, _ => []
  end.

(** An order without an id takes the next one. *)
Definition numbered (next : ClOrdId) (o : Order) : Order :=
  if o_client_order_id o =? 0 then with_clordid next o else o.

Definition next_after (next : ClOrdId) (o : Order) : ClOrdId :=
  if o_client_order_id o =? 0 then i64 (next + 1) else next.

Fixpoint number (next : ClOrdId) (orders : list Order) : ClOrdId * list Order :=
  match orders with
  | [] => (next, [])
  | o :: orders =>
      let '(last, os) := number (next_after next o) orders in (last, numbered next o :: os)
  end.

Definition place (o : Order) : Z := Index (o_client_order_id o).

Definition taken (om : OrderManager) : gset Z := dom (occupied_slots (om_table om)).

(** First come, first served on the free slots. *)
Fixpoint accepted (busy : gset Z) (orders : list Order) : list Order :=
  match orders with
  | [] => []
  | o :: orders =>
      if bool_decide (place o ∈ busy) then accepted busy orders
      else o :: accepted ({[place o]} ∪ busy) orders
  end.

Definition fresh_slot (o : Order) : LiveOrder :=
  {| lo_order := o; lo_state := kPendingNew; lo_exchange_order_no := 0; lo_filled_qty := 0;
     lo_reject_code := 0; lo_occupied := true |}.

(** Exactly the orders of [sent] are stored. *)
Definition stores (om : OrderManager) (sent : list Order) (om' : OrderManager) : Prop :=
  (forall o, o ∈ sent -> slot om' (place o) = fresh_slot o) /\
  (forall i, (forall o, o ∈ sent -> place o <> i) -> slot om' i = slot om i).

Lemma add_stats_add e g a r s e' g' a' r' s' st :
  add_stats e' g' a' r' s' (add_stats e g a r s st) =
  add_stats (e + e') (g + g') (a + a') (r + r') (s + s') st.
Proof. unfold add_stats. simpl. f_equal; rewrite wrap_u_add_l by done; f_equal; lia. Qed.

Lemma stores_nil om om' : (forall i, slot om' i = slot om i) -> stores om [] om'.
Proof. intros H. split; [intros o Ho; by apply elem_of_nil in Ho|done]. Qed.

Lemma stores_app om1 om2 om3 s1 s2 :
  (forall o o', o ∈ s1 -> o' ∈ s2 -> place o <> place o') ->
  stores om1 s1 om2 -> stores om2 s2 om3 -> stores om1 (s1 ++ s2) om3.
Proof.
  intros Hd [A1 A2] [B1 B2]. split.
  - intros o [Ho|Ho]%elem_of_app; [|by apply B1]. rewrite B2; [by apply A1|].
    intros o' Ho' E. by eapply Hd.
  - intros i Hi. rewrite B2, A2; [done| |]; intros o Ho; apply Hi, elem_of_app; auto.
Qed.

Lemma taken_spec om i : i ∈ taken om <-> lo_occupied (slot om i) = true.
Proof.
  unfold taken. rewrite elem_of_dom, occupied_slots_lookup. unfold slot.
  destruct (om_table om !! i); simpl; naive_solver.
Qed.

Lemma accepted_free busy orders o : o ∈ accepted busy orders -> place o ∉ busy.
Proof.
  revert busy. induction orders as [|x orders IH]; intros busy; [by intros ?%elem_of_nil|]. simpl.
  case_bool_decide; [apply IH|]. intros [->|Ho]%elem_of_cons; [done|]. apply IH in Ho. set_solver.
Qed.

Lemma new_order_next o buf now oc om om' o' buf' len :
  new_order o buf now oc om = Some (om', o', buf', len) ->
  om_next_clordid om' = next_after (om_next_clordid om) o.
Proof.
  unfold new_order, next_after. intros H. destruct (o_client_order_id o =? 0); cbn [next_clordid] in H;
    cbv zeta in H; destruct (_ && _) in H; simplify_eq/=; try done;
    destruct (encode_new_order _ _ _ _ _) as [[b l]|] in H; by simplify_eq/=.
Qed.

(** One call of [new_order] with a buffer that fits. *)
Lemma new_order_exact o buf now oc om :
  manager_ok om -> encoder_ok (om_encoder om) -> (80 <= length buf)%nat ->
  let o' := numbered (om_next_clordid om) o in
  let busy := bool_decide (place o' ∈ taken om) in
  exists om' buf', new_order o buf now oc om = Some (om', o', buf', if busy then 0%nat else 80%nat) /\
    manager_ok om' /\ encoder_ok (om_encoder om') /\ (80 <= length buf')%nat /\
    om_next_clordid om' = next_after (om_next_clordid om) o /\
    taken om' = {[place o']} ∪ taken om /\ stores om (if busy then [] else [o']) om'.
Proof.
  intros Hom He Hl o' busy. destruct (step_ok om (OpNew o buf now oc) Hom He Hl) as (om' & Hs & Hok & E).
  destruct (new_order_cases o buf now oc om He Hl) as (om0 & o0 & E1 & E2 & E3 & E4 & Ho & Heq).
  cbv zeta in Heq. fold (numbered (om_next_clordid om) o) in Ho. fold o' in Ho. subst o0.
  fold (place o') in Heq.
  assert (forall j, slot om0 j = slot om j) as Hs0 by (intros j; unfold slot; by rewrite E1, E2).
  assert (lo_occupied (slot om (place o')) && negb (terminal (lo_state (slot om (place o')))) = busy) as Hb.
  { unfold busy. case_bool_decide as Hin; rewrite taken_spec in Hin.
    - rewrite Hin. pose proof (mo_live om Hom _ Hin). by destruct (lo_state _).
    - by apply not_true_is_false in Hin as ->. }
  rewrite Hb in Heq. cbn [om_step] in Hs. rewrite Heq in Hs. pose proof Heq as Hnext.
  unfold busy in *. case_bool_decide as Hin; cbn in Hs; simplify_eq; eexists _, _;
    (split; [exact Heq|]); (split; [done|]); (split; [by rewrite E|]).
  - split_and!; [done|by eapply new_order_next| |by apply stores_nil].
    unfold taken in *. rewrite E1. set_solver.
  - split_and!; [|by eapply new_order_next| |].
    + rewrite !length_app, header_layout_length. unfold new_order_body.
      rewrite !length_app, !length_le_bytes, length_drop, He. unfold kNnfHeaderSize. simpl. lia.
    + unfold taken. cbn [om_table set_live_count set_slot]. rewrite occupied_slots_insert. cbn [lo_occupied].
      by rewrite dom_insert_L, E1.
    + split.
      * intros x ->%list_elem_of_singleton. unfold slot. simpl. by rewrite lookup_insert_eq.
      * intros i Hi. rewrite <- Hs0. unfold slot. simpl. rewrite lookup_insert_ne; [done|].
        apply Hi. by left.
Qed.

Section Loop.
Context {S : Type} {SB : StrategyBase S} (clk : Clock).

(** What the loop over a span from order [k] on does, with verdicts [vs]. *)
Record loop_result (k : nat) (orders : list Order) (p p' : Pipeline S)
    (vs : list (RiskManager * RejectReason)) (sent : list Order) : Prop := {
  lr_check : check_span clk k (pp_risk p) orders = Some (pp_risk p', vs);
  lr_exact : verdicts_exact clk k orders vs;
  lr_sent : sent = accepted (taken (pp_om p)) (number (om_next_clordid (pp_om p)) (passed orders vs)).2;
  lr_next : om_next_clordid (pp_om p') = (number (om_next_clordid (pp_om p)) (passed orders vs)).1;
  lr_ok : pipeline_ok p';
  lr_stats : forall e g a0 r0 s0 st, pp_stats p = add_stats e g a0 r0 s0 st ->
    pp_stats p' = add_stats e g (a0 + Z.of_nat (length (passed orders vs)))
      (r0 + (Z.of_nat (length orders) - Z.of_nat (length (passed orders vs))))
      (s0 + Z.of_nat (length sent)) st;
  lr_last : pp_sent_orders p' = take kMaxSent (pp_sent_orders p ++ sent);
  lr_table : stores (pp_om p) sent (pp_om p');
}.

(** One order, and what it hands to the rest of the span. *)
Lemma order_body_spec o k n p :
  pipeline_ok p -> risk_ranges (pp_risk p) o -> (length (pp_sent_orders p) <= kMaxSent)%nat ->
  exists p' vs sent, order_body clk k o n p = Some (p', n + Z.of_nat (length sent)) /\
    loop_result k [o] p p' vs sent /\ bucket_only (pp_risk p) (pp_risk p') /\
    (passed [o] vs <> [] -> taken (pp_om p') = {[place (numbered (om_next_clordid (pp_om p)) o)]} ∪ taken (pp_om p)) /\
    (passed [o] vs = [] -> pp_om p' = pp_om p).
Proof.
  intros Hp Ho Hcap. unfold order_body.
  destruct (check_exact (clk (2 * k + 1)%nat) (pp_risk p) o Ho) as (risk & v & Hc & Hv & _ & Hb).
  rewrite Hc. cbn [mbind option_bind].
  assert (forall rm, pp_risk rm = risk -> check_span clk k (pp_risk p) [o] =
    Some (pp_risk (S:=S) rm, [(pp_risk p, v)])) as Hspan by (intros rm <-; cbn [check_span]; by rewrite Hc).
  case_bool_decide as Hrej.
  { eexists _, [(pp_risk p, v)], []. split; [simpl; by rewrite Z.add_0_r|].
    assert (passed [o] [(pp_risk p, v)] = []) as Hpass by (simpl; by rewrite bool_decide_false).
    split; [|split_and!; [done|congruence|done]].
    split; rewrite ?Hpass; try done; [by apply Hspan|by destruct Hp| | |by apply stores_nil].
    - intros e g a0 r0 s0 st Hst. simpl. rewrite Hst, add_stats_add. f_equal; lia.
    - simpl. by rewrite app_nil_r, take_ge. }
  assert (v = kApproved) as -> by (destruct v; by try (exfalso; apply Hrej)).
  cbv zeta. set (stamp := if negb (pp_now_ns p =? 0) then _ else _).
  destruct (new_order_exact o (pp_msg_buf p) stamp 79 (pp_om p)) as
    (om & buf & -> & Hom & He & Hl & Hnext & Htk & Htab); [by destruct Hp..|].
  cbn [mbind option_bind].
  assert (passed [o] [(pp_risk p, kApproved)] = [o]) as Hpass by done.
  case_bool_decide as Hin.
  - eexists _, [(pp_risk p, kApproved)], []. split; [simpl; by rewrite Z.add_0_r|].
    split; [|split_and!; [done|done|by rewrite Hpass]].
    split; rewrite ?Hpass; try done; [by apply Hspan| | |].
    + simpl. by rewrite bool_decide_true.
    + intros e g a0 r0 s0 st Hst. simpl. rewrite Hst, add_stats_add. f_equal; lia.
    + simpl. by rewrite app_nil_r, take_ge.
  - eexists _, [(pp_risk p, kApproved)], [_]. split; [done|].
    split; [|split_and!; [done|done|by rewrite Hpass]].
    split; rewrite ?Hpass; try done; [by apply Hspan| | |].
    + simpl. by rewrite bool_decide_false.
    + intros e g a0 r0 s0 st Hst. simpl. rewrite Hst, !add_stats_add. f_equal; lia.
    + simpl. destruct (_ <? _)%nat eqn:E.
      * apply Nat.ltb_lt in E. rewrite take_ge; [done|]. rewrite length_app. simpl. lia.
      * apply Nat.ltb_ge in E. rewrite take_app_le, take_ge by lia. done.
Qed.

Lemma loop_result_nil k p :
  pipeline_ok p -> (length (pp_sent_orders p) <= kMaxSent)%nat -> loop_result k [] p p [] [].
Proof.
  intros Hp Hcap. split; try done; [| |by apply stores_nil].
  - intros. simpl. by rewrite !Z.add_0_r.
  - by rewrite app_nil_r, take_ge.
Qed.

(** The accepted orders of a span, split after its first order. *)
Lemma accepted_cons o (ok : bool) next busy rest :
  let o' := numbered next o in
  let first := if ok then [o] else [] in
  accepted busy (number next (first ++ rest)).2 =
    accepted busy (number next first).2 ++
    accepted (if ok then {[place o']} ∪ busy else busy) (number (number next first).1 rest).2 /\
  (number next (first ++ rest)).1 = (number (number next first).1 rest).1.
Proof.
  destruct ok; cbn; [|done]. destruct (number _ rest) as [l os]. cbn. split; [|done].
  case_bool_decide; [|done]. cbn. f_equal. set_solver.
Qed.

Lemma loop_result_cons k o orders p1 p2 p3 vs1 vs2 s1 s2 :
  loop_result k [o] p1 p2 vs1 s1 ->
  (passed [o] vs1 <> [] ->
    taken (pp_om p2) = {[place (numbered (om_next_clordid (pp_om p1)) o)]} ∪ taken (pp_om p1)) ->
  (passed [o] vs1 = [] -> pp_om p2 = pp_om p1) ->
  loop_result (k + 1) orders p2 p3 vs2 s2 ->
  loop_result k (o :: orders) p1 p3 (vs1 ++ vs2) (s1 ++ s2).
Proof.
  intros [A1 A2 A3 A4 A5 A6 A7 A8] Ht1 Ht2 [B1 B2 B3 B4 B5 B6 B7 B8].
  destruct vs1 as [|[rm v] [|? ?]]; [done| |by destruct A2].
  cbn [check_span] in A1. destruct (check _ o _) as [[rm1 v1]|] eqn:Hc in A1; [|done].
  cbn in A1. injection A1 as -> <- ->.
  destruct A2 as [Av _]. set (ok := bool_decide (v = kApproved)).
  assert (passed [o] [(pp_risk p1, v)] = if ok then [o] else []) as Hp1 by done.
  rewrite Hp1 in A3, A4, A6, Ht1, Ht2.
  assert (passed (o :: orders) ((pp_risk p1, v) :: vs2) = (if ok then [o] else []) ++ passed orders vs2) as Hpass.
  { unfold ok. cbn [passed]. by case_bool_decide. }
  clearbody ok. assert (taken (pp_om p2) = if ok then {[place (numbered (om_next_clordid (pp_om p1)) o)]} ∪ taken (pp_om p1)
    else taken (pp_om p1)) as Htk.
  { destruct ok; [by apply Ht1|]. by rewrite Ht2. }
  rewrite A4, Htk in B3. rewrite A4 in B4.
  destruct (accepted_cons o ok (om_next_clordid (pp_om p1)) (taken (pp_om p1)) (passed orders vs2)) as [C1 C2].
  change ([(pp_risk p1, v)] ++ vs2) with ((pp_risk p1, v) :: vs2). split.
  - cbn [check_span]. rewrite Hc. cbn [mbind option_bind]. by rewrite B1.
  - by split.
  - rewrite Hpass, C1. by f_equal.
  - by rewrite Hpass, C2.
  - done.
  - intros e g a0 r0 s0 st Hst. rewrite (B6 _ _ _ _ _ _ (A6 _ _ _ _ _ _ Hst)), Hpass, !length_app.
    cbn [length]. f_equal; lia.
  - rewrite B7, A7, (app_assoc _ s1 s2). set (u := pp_sent_orders p1 ++ s1).
    rewrite !take_app, take_take, length_take. f_equal; f_equal; lia.
  - eapply stores_app; [|done|done]. intros x y Hx Hy. subst s2. apply accepted_free in Hy.
    intros E. apply Hy. rewrite <- E, <- Htk. apply taken_spec. destruct A8 as [A8 _]. by rewrite (A8 x Hx).
Qed.

Lemma order_loop_spec orders : forall k n p,
  pipeline_ok p -> Forall (risk_ranges (pp_risk p)) orders ->
  (length (pp_sent_orders p) <= kMaxSent)%nat ->
  exists p' vs sent, order_loop clk k orders n p = Some (p', n + Z.of_nat (length sent)) /\
    loop_result k orders p p' vs sent.
Proof.
  induction orders as [|o orders IH]; intros k n p Hp Hr Hcap.
  { exists p, [], []. split; [simpl; by rewrite Z.add_0_r|by apply loop_result_nil]. }
  apply Forall_cons_1 in Hr as [Ho Hr]. cbn [order_loop].
  destruct (order_body_spec o k n p Hp Ho Hcap) as (p1 & vs1 & s1 & -> & H1 & Hb & Ht1 & Ht2).
  cbn [mbind option_bind].
  destruct (IH (k + 1)%nat (n + Z.of_nat (length s1)) p1) as (p2 & vs2 & s2 & -> & H2).
  - apply H1.
  - eapply Forall_impl; [|exact Hr]. intros x. by apply risk_ranges_bucket.
  - rewrite (lr_last _ _ _ _ _ _ H1), length_take. lia.
  - exists p2, (vs1 ++ vs2), (s1 ++ s2). split.
    + rewrite length_app. f_equal. f_equal. lia.
    + by apply (loop_result_cons k o orders p p1 p2).
Qed.
End Loop.

(** ** One event *)

(** The numbered orders keep their tokens. *)
Lemma sent_token busy next orders vs token :
  Forall (fun o => o_token o = token) orders ->
  Forall (fun o => o_token o = token) (accepted busy (number next (passed orders vs)).2).
Proof.
  intros Hall.
  assert (Forall (fun o => o_token o = token) (passed orders vs)) as Hp.
  { revert vs. induction Hall as [|o os Ho Hall IH]; intros [|[rm r] vs]; try constructor. cbn [passed].
    case_bool_decide; [by constructor|done]. }
  assert (Forall (fun o => o_token o = token) (number next (passed orders vs)).2) as Hn.
  { revert next. induction Hp as [|o os Ho Hp IH]; intros next; cbn [number]; [constructor|].
    specialize (IH (next_after next o)). destruct (number _ os). constructor; [|done].
    unfold numbered. by case_if. }
  revert busy. induction Hn as [|o os Ho Hn IH]; intros busy; cbn [accepted]; [constructor|].
  case_bool_decide; [done|by constructor].
Qed.

(** C25.  Only approved orders leave, and exactly the sent ones are stored.  For a watched
    token, once the book and the strategy have taken the event and the generated orders are
    of realistic size, [process] returns.  The generated orders meet the risk manager one
    after the other, each in the state the checks before it left (its rate bucket included);
    the pipeline keeps the state after the last.  An order is approved exactly when it is
    within every limit at its own check, and the counters are the numbers of approved,
    rejected and sent orders.  The approved orders get the next ids where they have none;
    those whose slot in the order table is free when their turn comes are sent, and no
    others; their number is returned.  Each sent order is for the token of the event and is in
    its slot afterwards, as PENDING_NEW, live and unfilled; every other slot is as it was.
    [last_sent] lists the (first 16) sent orders when there were orders to process. *)
Theorem process_sends_only_approved {S} {SB : StrategyBase S} ev clk elapsed (p : Pipeline S) book p1 :
  pipeline_ok p ->
  get_book (ev_token ev) (pp_books p) = Some book ->
  market_step ev (clk 0%nat) book (with_stats (add_stats 1 0 0 0 0 (pp_stats p)) p) = Some p1 ->
  Forall (risk_ranges (pp_risk p1)) (sb_get_pending_orders (pp_strat p1)) ->
  let orders := sb_get_pending_orders (pp_strat p1) in
  exists p' vs,
    check_span clk 0 (pp_risk p1) orders = Some (pp_risk p', vs) /\ verdicts_exact clk 0 orders vs /\
    let approved := passed orders vs in
    let ids := number (om_next_clordid (pp_om p)) approved in
    let sent := accepted (taken (pp_om p)) ids.2 in
    process ev clk elapsed p = Some (p', Z.of_nat (length sent)) /\ pipeline_ok p' /\
    pp_stats p' = add_stats 1 (Z.of_nat (length orders)) (Z.of_nat (length approved))
                    (Z.of_nat (length orders) - Z.of_nat (length approved))
                    (Z.of_nat (length sent)) (pp_stats p) /\
    om_next_clordid (pp_om p') = ids.1 /\
    Forall (fun o => o_token o = ev_token ev) sent /\ stores (pp_om p) sent (pp_om p') /\
    (orders <> [] -> pp_sent_orders p' = take kMaxSent sent).
Proof.
  intros Hp Hb Hm Hr. cbv zeta. unfold process. cbn [pp_books with_stats]. rewrite Hb, Hm.
  cbn [mbind option_bind].
  assert (pp_om p1 = pp_om p /\ pp_msg_buf p1 = pp_msg_buf p /\
    pp_stats p1 = add_stats 1 0 0 0 0 (pp_stats p) /\
    Forall (fun o => o_token o = ev_token ev) (sb_get_pending_orders (pp_strat p1))) as (E1 & E2 & E3 & Ht).
  { unfold market_step in Hm. destruct (apply_event book ev) as [[b r]|]; [|done]. simplify_eq/=.
    split_and!; [done..|]. apply sb_orders_for_token. }
  destruct (sb_get_pending_orders (pp_strat p1)) as [|o os] eqn:Ho.
  { exists p1, []. split; [done|]. split; [done|]. split; [done|]. split; [destruct Hp; split; congruence|].
    rewrite E1. split_and!; try done. by apply stores_nil. }
  rewrite <- Ho in *. assert (sb_get_pending_orders (pp_strat p1) <> []) as Hne by by rewrite Ho.
  destruct (Nat.eqb_spec (length (sb_get_pending_orders (pp_strat p1))) 0) as [E|_];
    [by apply nil_length_inv in E|].
  set (p2 := with_orders _ _ _ _ _ _ _). clear Ho o os.
  destruct (order_loop_spec clk (sb_get_pending_orders (pp_strat p1)) 0 0 p2)
    as (p3 & vs & sent & -> & [H1 H2 H3 H4 H5 H6 H7 H8]).
  { destruct Hp. unfold p2. split; simpl; congruence. }
  { exact Hr. } { simpl. lia. }
  cbn [mbind option_bind]. rewrite Z.add_0_l.
  specialize (H6 _ _ _ _ _ _ (eq_trans (f_equal _ E3) (add_stats_add _ _ _ _ _ _ _ _ _ _ _))).
  simpl in H1, H3, H4, H8. rewrite E1 in H3, H4, H8. subst sent.
  match goal with |- context [Some (if ?c then ?a else ?b, _)] => exists (if c then a else b), vs end.
  case_if; (split; [exact H1|]); (split; [exact H2|]); (split; [done|]);
    (split; [by destruct H5|]); (split; [exact H6|]); (split; [exact H4|]);
    (split; [by apply sent_token|]); by split.
Qed.

(** ** A closed gate *)

(** A kill switch is set, or the risk clock is outside the session and pre-open
    orders are not allowed. *)
Definition gate_closed (clk : Clock) (rm : RiskManager) : Prop :=
  kill_switch_active rm = true \/
  (rc_allow_preopen (rm_cfg rm) = false /\
   forall k, is_within_market_hours (rm_now (clk k) rm) = false).

Lemma closed_rejects clk rm k o :
  gate_closed clk rm -> exists r, check (clk k) o rm = Some (rm, r) /\ r <> kApproved.
Proof.
  intros Hc. unfold check. destruct (kill_switch_active rm) eqn:Hk; [by eexists|].
  destruct Hc as [Hc|[Hp Hc]]; [congruence|]. rewrite Hc, Hp. by eexists.
Qed.

Lemma closed_update_reference clk rm token bid ask :
  gate_closed clk rm -> gate_closed clk (update_reference token bid ask rm).
Proof. unfold update_reference. by case_if. Qed.

Lemma order_loop_closed {S} clk orders : forall k n (p : Pipeline S),
  gate_closed clk (pp_risk p) ->
  exists p', order_loop clk k orders n p = Some (p', n) /\ pp_om p' = pp_om p /\
    pp_msg_buf p' = pp_msg_buf p.
Proof.
  induction orders as [|o orders IH]; intros k n p Hc; [by exists p|].
  cbn [order_loop]. unfold order_body.
  destruct (closed_rejects clk (pp_risk p) (2 * k + 1)%nat o Hc) as (r & -> & Hr).
  cbn [mbind option_bind]. rewrite bool_decide_true by done. cbn [mbind option_bind].
  destruct (IH (k + 1)%nat n (with_orders (pp_risk p) (pp_om p) (add_stats 0 0 0 1 0 (pp_stats p))
    (pp_msg_buf p) (pp_last_msg_len p) (pp_sent_orders p) p) Hc) as (p' & -> & ? & ?). by exists p'.
Qed.

(** Nothing leaves through a closed gate: while a kill switch is set, or the
    session is closed for the risk manager or for the strategy, an event the book
    can take is processed with zero orders sent, and neither the order manager nor
    the message buffer changes. *)
Theorem closed_gate_sends_nothing {S} {SB : StrategyBase S} ev clk elapsed (p : Pipeline S) :
  gate_closed clk (pp_risk p) \/ is_within_market_hours (sb_now (clk 0%nat) (pp_strat p)) = false ->
  (forall book, get_book (ev_token ev) (pp_books p) = Some book -> is_Some (apply_event book ev)) ->
  exists p', process ev clk elapsed p = Some (p', 0) /\ pp_om p' = pp_om p /\
    pp_msg_buf p' = pp_msg_buf p.
Proof.
  intros Hc Hbook. unfold process. cbn [pp_books with_stats].
  destruct (get_book (ev_token ev) (pp_books p)) as [book|]; [|by eexists].
  destruct (Hbook book eq_refl) as [[book' r] Hb]. unfold market_step. rewrite Hb.
  cbn [mbind option_bind]. cbv zeta. cbn [pp_strat with_market with_stats].
  destruct Hc as [Hc|Hc].
  - destruct (_ =? 0)%nat; [by eexists|].
    match goal with |- context [order_loop clk 0 ?os 0 ?q] =>
      destruct (order_loop_closed clk os 0 0 q) as (p' & -> & H1 & H2) end.
    { by apply closed_update_reference. }
    cbn [mbind option_bind]. by exists p'.
  - rewrite (sb_quiet_when_closed (ev_token ev) book' (clk 0%nat) (pp_strat p) Hc). by eexists.
Qed.

(** ** Concrete session *)

Definition wall_10am : Clock := fun _ => ten_am.
Definition sample_books : BookManager :=
  {| bm_slots := {[7 := sample_book]}; bm_watched := 1 |}.
Definition sample_pipeline : Pipeline MarketMaking :=
  Pipeline_new sample_books (sample_mm ten_am) sample_rm (OrderManager_new OrderManager.sample_order)
    4 (replicate 256 0).
Definition tick_event : MarketEvent := sample_add 3 kBuy 10000 10 3.

Definition after_market : Pipeline MarketMaking :=
  default sample_pipeline
    (market_step tick_event ten_am sample_book
       (with_stats (add_stats 1 0 0 0 0 zero_pipeline_stats) sample_pipeline)).

Lemma after_market_ranges :
  Forall (risk_ranges (pp_risk after_market)) (mm_pending (pp_strat after_market)).
Proof.
  vm_compute (mm_pending _).
  constructor; [|constructor; [|constructor]];
    (split; [by vm_compute|by vm_compute|by vm_compute|by vm_compute|intros []; by vm_compute|by vm_compute..]).
Qed.

Lemma process_sends_only_approved_witness :
  exists p' sent, process tick_event wall_10am 900 sample_pipeline = Some (p', Z.of_nat (length sent)) /\
    length sent = 2%nat /\ pp_sent_orders p' = sent /\ Forall (fun o => o_token o = 7) sent /\
    stores (pp_om sample_pipeline) sent (pp_om p').
Proof.
  destruct (process_sends_only_approved tick_event wall_10am 900 sample_pipeline sample_book after_market)
    as (p' & vs & _ & _ & Hrun & _ & _ & _ & Hall & Hst & Hlast).
  - split; [apply om_ok_new|reflexivity|vm_compute; lia].
  - vm_compute. reflexivity.
  - vm_compute. reflexivity.
  - exact after_market_ranges.
  - eexists p', _. split; [exact Hrun|]. set (sent := accepted _ _) in *. clearbody sent.
    assert (length sent = 2%nat) as Hlen.
    { assert (snd <$> process tick_event wall_10am 900 sample_pipeline = Some 2) as H
        by (vm_compute; reflexivity). rewrite Hrun in H. injection H. lia. }
    split; [exact Hlen|]. split; [|split; [exact Hall|exact Hst]].
    rewrite Hlast by (vm_compute; discriminate). apply take_ge. rewrite Hlen. vm_compute. lia.
Defined.

Lemma closed_gate_sends_nothing_witness :
  exists p', process tick_event wall_10am 900
      (with_market sample_books (sample_mm ten_am) (set_kill_switch true sample_rm) sample_pipeline) =
    Some (p', 0).
Proof.
  destruct (closed_gate_sends_nothing tick_event wall_10am 900
    (with_market sample_books (sample_mm ten_am) (set_kill_switch true sample_rm) sample_pipeline))
    as (p' & H & _).
  - left. left. reflexivity.
  - intros book Hb. vm_compute in Hb. injection Hb as <-. eexists. vm_compute. reflexivity.
  - exists p'. exact H.
Defined.
