(* ===== verification/MemoryPool.v ===== *)
(** * MemoryPool: fixed-capacity object pool (src/common/memory_pool.hpp)

    [storage_] is an array of slots, a pointer into it is an index.  A slot is the
    union of a free-list link and an object: reading the link of a slot that holds
    an object, or touching a slot outside the array, is undefined behaviour and is
    [None].  [T]'s constructor is given by the object it builds; raw slots hold
    [SRaw]. *)

From Stdlib Require Import ZArith Lia.
From stdpp Require Import base gmap list numbers option fin_maps.
From S2P Require Import Prelude.

Section Pool.
Context {T : Type}.

(** [union Slot]. *)
Inductive Slot : Type := SRaw | SNext (next : option nat) | SObject (object : T).

Record MemoryPool := {
  mp_capacity : nat;
  mp_storage : list Slot;
  mp_free_head : option nat;
  mp_free_count : Z;
  mp_exhaustion_count : Z;
}.

(** The loop of the constructor, [i] from [i] on, [n] slots left. *)
Fixpoint thread_slots (n i : nat) (storage : list Slot) (head : option nat)
    : list Slot * option nat :=
  match n with
  | 0 => (storage, head)
  | S n => thread_slots n (S i) (<[i := SNext head]> storage) (Some i)
  end.

Definition MemoryPool_new (capacity : nat) : MemoryPool :=
  let '(storage, head) := thread_slots capacity 0 (replicate capacity SRaw) None in
  {| mp_capacity := capacity; mp_storage := storage; mp_free_head := head;
     mp_free_count := Z.of_nat capacity; mp_exhaustion_count := 0 |}.

(** The result pointer is [None] for [nullptr]. *)
Definition allocate (v : T) (p : MemoryPool) : option (MemoryPool * option nat) :=
  match mp_free_head p with
  | None =>
      Some ({| mp_capacity := mp_capacity p; mp_storage := mp_storage p; mp_free_head := None;
               mp_free_count := mp_free_count p;
               mp_exhaustion_count := u64 (mp_exhaustion_count p + 1) |}, None)
  | Some slot =>
      match mp_storage p !! slot with
      | Some (SNext next) =>
          Some ({| mp_capacity := mp_capacity p; mp_storage := <[slot := SObject v]> (mp_storage p);
                   mp_free_head := next; mp_free_count := u64 (mp_free_count p - 1);
                   mp_exhaustion_count := mp_exhaustion_count p |}, Some slot)
      | _ => None
      end
  end.

Definition deallocate (ptr : option nat) (p : MemoryPool) : option MemoryPool :=
  match ptr with
  | None => Some p
  | Some slot =>
      match mp_storage p !! slot with
      | None => None
      | Some _ =>
          Some {| mp_capacity := mp_capacity p;
                  mp_storage := <[slot := SNext (mp_free_head p)]> (mp_storage p);
                  mp_free_head := Some slot; mp_free_count := u64 (mp_free_count p + 1);
                  mp_exhaustion_count := mp_exhaustion_count p |}
      end
  end.

Definition available (p : MemoryPool) : Z := mp_free_count p.
Definition in_use (p : MemoryPool) : Z := u64 (Z.of_nat (mp_capacity p) - mp_free_count p).

(** ** Specification: the objects that are alive *)

(** The free list, followed from [head]. *)
Fixpoint chain (storage : list Slot) (head : option nat) (fl : list nat) : Prop :=
  match fl with
  | [] => head = None
  | i :: fl => head = Some i /\ exists next, storage !! i = Some (SNext next) /\ chain storage next fl
  end.

Record pool_repr (p : MemoryPool) (fl : list nat) (live : gmap nat T) : Prop := {
  pr_chain : chain (mp_storage p) (mp_free_head p) fl;
  pr_nodup : NoDup fl;
  pr_free : forall i, i ∈ fl <-> i < mp_capacity p /\ live !! i = None;
  pr_live : forall i v, live !! i = Some v -> mp_storage p !! i = Some (SObject v);
  pr_length : length (mp_storage p) = mp_capacity p;
  pr_count : mp_free_count p = Z.of_nat (length fl);
}.

Lemma chain_insert storage head fl i s :
  i ∉ fl -> chain storage head fl -> chain (<[i := s]> storage) head fl.
Proof.
  revert head. induction fl as [|j fl IH]; intros head Hi; [done|].
  intros (-> & next & Hj & Hc). split; [done|]. exists next.
  apply not_elem_of_cons in Hi as [Hne Hi]. split; [by rewrite list_lookup_insert_ne|]. by apply IH.
Qed.

(** The slots below [i] are threaded, the last one first. *)
Lemma thread_slots_spec n i storage head fl :
  chain storage head fl -> (forall j, j ∈ fl <-> j < i) -> NoDup fl -> i + n <= length storage ->
  let '(storage', head') := thread_slots n i storage head in
  exists fl', chain storage' head' fl' /\ (forall j, j ∈ fl' <-> j < i + n) /\ NoDup fl' /\
    length storage' = length storage /\ length fl' = length fl + n.
Proof.
  revert i storage head fl. induction n as [|n IH]; intros i storage head fl Hc Hin Hnd Hl; simpl.
  { exists fl. rewrite !Nat.add_0_r. done. }
  assert (i ∉ fl) as Hi by (rewrite Hin; lia).
  specialize (IH (S i) (<[i := SNext head]> storage) (Some i) (i :: fl)).
  destruct (thread_slots n (S i) (<[i := SNext head]> storage) (Some i)) as [storage' head'].
  destruct IH as (fl' & H1 & H2 & H3 & H4 & H5).
  - split; [done|]. exists head. split; [apply list_lookup_insert_eq; lia|]. by apply chain_insert.
  - intros j. rewrite elem_of_cons, Hin. lia.
  - by constructor.
  - rewrite length_insert. lia.
  - exists fl'. split_and!; [done| |done| |].
    + intros j. rewrite H2. lia.
    + by rewrite H4, length_insert.
    + simpl in H5. lia.
Qed.

Lemma new_repr capacity : exists fl, pool_repr (MemoryPool_new capacity) fl ∅.
Proof.
  pose proof (thread_slots_spec capacity 0 (replicate capacity SRaw) None []) as H.
  unfold MemoryPool_new. destruct (thread_slots _ _ _ _) as [storage head].
  destruct H as (fl & H1 & H2 & H3 & H4 & H5).
  { done. } { intros j. rewrite elem_of_nil. lia. } { constructor. } { rewrite length_replicate. lia. }
  exists fl. split; simpl; try done.
  - intros i. rewrite H2. naive_solver.
  - by rewrite H4, length_replicate.
  - by rewrite H5.
Qed.

(** Free slots and live objects share out the array. *)
Lemma repr_size p fl live : pool_repr p fl live -> length fl + size live = mp_capacity p.
Proof.
  intros [_ Hnd Hf Hl Hlen _].
  assert (forall i, is_Some (live !! i) -> i < mp_capacity p) as Hlt.
  { intros i [v Hv]. rewrite <- Hlen. apply lookup_lt_is_Some. exists (SObject v). by apply Hl. }
  transitivity (size (set_seq (C := gset nat) 0 (mp_capacity p))); [|apply size_set_seq].
  replace (set_seq 0 (mp_capacity p)) with (list_to_set fl ∪ dom live : gset nat).
  - rewrite size_union, size_list_to_set, size_dom; [done|done|].
    intros i Hi1 Hi2. apply elem_of_list_to_set, Hf in Hi1. apply elem_of_dom in Hi2 as [v Hv].
    destruct Hi1. congruence.
  - apply leibniz_equiv. intros i. rewrite elem_of_union, elem_of_list_to_set, Hf, elem_of_dom,
      elem_of_set_seq. specialize (Hlt i). destruct (live !! i) eqn:E; [|naive_solver lia].
    split; [|intros _; right; by eexists]. intros [[? ?]|]; [done|]. split; [lia|]. by apply Hlt.
Qed.

Lemma allocate_repr v p fl live :
  pool_repr p fl live -> (Z.of_nat (mp_capacity p) < 2 ^ 64)%Z ->
  match fl with
  | [] => exists p', allocate v p = Some (p', None) /\ pool_repr p' [] live /\
            mp_capacity p' = mp_capacity p
  | i :: fl => exists p', allocate v p = Some (p', Some i) /\ pool_repr p' fl (<[i := v]> live) /\
            mp_capacity p' = mp_capacity p
  end.
Proof.
  intros Hp Hcap. pose proof (repr_size p fl live Hp) as Hsz. destruct Hp as [Hc Hnd Hf Hl Hlen Hn].
  destruct fl as [|i fl]; unfold allocate.
  { simpl in Hc. rewrite Hc. eexists. split; [done|]. split; [|done]. by split. }
  destruct Hc as (-> & next & Hi & Hc). rewrite Hi. eexists. split; [done|]. split; [|done].
  apply NoDup_cons in Hnd as [Hni Hnd].
  split; cbn [mp_storage mp_free_head mp_capacity mp_free_count]; try done.
  - by apply chain_insert.
  - intros j. destruct (decide (j = i)) as [->|Hne].
    + rewrite lookup_insert_eq. split; [done|]. by intros [_ ?].
    + rewrite lookup_insert_ne by done. rewrite <- Hf, elem_of_cons. naive_solver.
  - intros j w. destruct (decide (j = i)) as [->|Hne].
    + rewrite lookup_insert_eq. intros [= ->]. apply list_lookup_insert_eq. by eapply lookup_lt_Some.
    + rewrite lookup_insert_ne by done. intros Hw. rewrite list_lookup_insert_ne by done. by apply Hl.
  - by rewrite length_insert.
  - rewrite Hn. simpl in *. rewrite wrap_u_id by ranges. lia.
Qed.

Lemma deallocate_repr i p fl live :
  pool_repr p fl live -> (Z.of_nat (mp_capacity p) < 2 ^ 64)%Z -> is_Some (live !! i) ->
  exists p', deallocate (Some i) p = Some p' /\ pool_repr p' (i :: fl) (delete i live) /\
    mp_capacity p' = mp_capacity p.
Proof.
  intros Hp Hcap [v Hv]. pose proof (repr_size p fl live Hp) as Hsz.
  destruct Hp as [Hc Hnd Hf Hl Hlen Hn]. pose proof (Hl i v Hv) as Hi.
  assert (i ∉ fl) as Hni by (rewrite Hf; intros [_ ?]; congruence).
  assert (i < mp_capacity p) as Hlt by (rewrite <- Hlen; by eapply lookup_lt_Some).
  assert (0 < size live) as Hpos.
  { apply Nat.neq_0_lt_0. apply map_size_ne_0_lookup. exists i. by eexists. }
  unfold deallocate. rewrite Hi. eexists. split; [done|]. split; [|done].
  split; cbn [mp_storage mp_free_head mp_capacity mp_free_count].
  - split; [done|]. exists (mp_free_head p). split; [apply list_lookup_insert_eq; lia|].
    by apply chain_insert.
  - by constructor.
  - intros j. destruct (decide (j = i)) as [->|Hne].
    + rewrite lookup_delete_eq, elem_of_cons. naive_solver.
    + rewrite lookup_delete_ne, elem_of_cons, Hf by done. naive_solver.
  - intros j w Hw. apply lookup_delete_Some in Hw as [Hne Hw]. rewrite list_lookup_insert_ne by done.
    by apply Hl.
  - by rewrite length_insert.
  - rewrite Hn. simpl. rewrite wrap_u_id by ranges. lia.
Qed.

(** A client that frees only what it got and has not freed yet; [live] is what it
    holds. *)
Inductive session (capacity : nat) : MemoryPool -> gmap nat T -> Prop :=
  | session_new : session capacity (MemoryPool_new capacity) ∅
  | session_allocated p live v p' i :
      session capacity p live -> allocate v p = Some (p', Some i) ->
      session capacity p' (<[i := v]> live)
  | session_exhausted p live v p' :
      session capacity p live -> allocate v p = Some (p', None) -> session capacity p' live
  | session_freed p live i p' :
      session capacity p live -> is_Some (live !! i) -> deallocate (Some i) p = Some p' ->
      session capacity p' (delete i live)
  | session_freed_null p live p' :
      session capacity p live -> deallocate None p = Some p' -> session capacity p' live.

Lemma session_repr capacity p live :
  (Z.of_nat capacity < 2 ^ 64)%Z -> session capacity p live ->
  mp_capacity p = capacity /\ exists fl, pool_repr p fl live.
Proof.
  intros Hcap. induction 1 as [|p live v p' i Hs [Hc [fl Hp]] E|p live v p' Hs [Hc [fl Hp]] E
    |p live i p' Hs [Hc [fl Hp]] Hi E|p live p' Hs IH E].
  - split; [|apply new_repr]. unfold MemoryPool_new. by destruct (thread_slots _ _ _ _).
  - pose proof (allocate_repr v p fl live Hp ltac:(by rewrite Hc)) as H.
    destruct fl as [|j fl]; destruct H as (q & Hq & Hr & Hcq); simplify_eq. by eauto.
  - pose proof (allocate_repr v p fl live Hp ltac:(by rewrite Hc)) as H.
    destruct fl as [|j fl]; destruct H as (q & Hq & Hr & Hcq); simplify_eq. by eauto.
  - destruct (deallocate_repr i p fl live Hp ltac:(by rewrite Hc) Hi) as (q & Hq & Hr & Hcq).
    simplify_eq. by eauto.
  - injection E as <-. exact IH.
Qed.

(** The pool hands out every slot once: for a client that frees only what it
    holds, every call is defined; [allocate] returns a slot inside the array that
    the client does not hold, and returns [nullptr] exactly when all [capacity]
    objects are alive; the objects it holds are intact; and [in_use] and
    [available] are exact. *)
Theorem pool_serves_clients capacity p live :
  (Z.of_nat capacity < 2 ^ 64)%Z -> session capacity p live ->
  (forall v, exists p' r, allocate v p = Some (p', r) /\
    match r with
    | Some i => i < capacity /\ live !! i = None /\ size live < capacity
    | None => size live = capacity
    end) /\
  (forall i, is_Some (live !! i) -> is_Some (deallocate (Some i) p)) /\
  (forall i v, live !! i = Some v -> mp_storage p !! i = Some (SObject v)) /\
  in_use p = Z.of_nat (size live) /\ available p = (Z.of_nat capacity - Z.of_nat (size live))%Z.
Proof.
  intros Hcap Hs. destruct (session_repr capacity p live Hcap Hs) as (Hc & fl & Hp).
  pose proof (repr_size p fl live Hp) as Hsz. rewrite Hc in Hsz. split_and!.
  - intros v. pose proof (allocate_repr v p fl live Hp ltac:(by rewrite Hc)) as H.
    destruct fl as [|i fl]; destruct H as (p' & -> & Hr & _); eexists _, _; (split; [done|]).
    + exact Hsz.
    + destruct (proj1 (pr_free _ _ _ Hp i) ltac:(by left)). cbn [length] in Hsz. split_and!; [lia|done|lia].
  - intros i Hi. destruct (deallocate_repr i p fl live Hp ltac:(by rewrite Hc) Hi) as (q & -> & _).
    by eexists.
  - apply Hp.
  - unfold in_use. rewrite (pr_count _ _ _ Hp), Hc. rewrite wrap_u_id by ranges. lia.
  - unfold available. rewrite (pr_count _ _ _ Hp). lia.
Qed.
End Pool.
Arguments Slot : clear implicits.
Arguments MemoryPool : clear implicits.

(** Two slots: take both, free the first, take it again. *)
Definition sample_pool_calls : option (MemoryPool Z * list (option nat)) :=
  '(p, a) ← allocate 10%Z (MemoryPool_new 2);
  '(p, b) ← allocate 20%Z p;
  '(p, c) ← allocate 30%Z p;
  p ← deallocate a p;
  '(p, d) ← allocate 40%Z p;
  Some (p, [a; b; c; d]).

Example sample_pool_result :
  snd <$> sample_pool_calls = Some [Some 1; Some 0; None; Some 1].
Proof. reflexivity. Qed.

Lemma pool_serves_clients_witness :
  exists p : MemoryPool Z, session 2 p {[1 := 10%Z]} /\ in_use p = 1%Z /\
    mp_storage p !! 1 = Some (SObject 10%Z).
Proof.
  assert (exists p, allocate 10%Z (MemoryPool_new 2) = Some (p, Some 1)) as [p Hp]
    by (eexists; reflexivity).
  assert (session 2 p {[1 := 10%Z]}) as Hs by (eapply (session_allocated 2 _ ∅); [constructor|exact Hp]).
  destruct (pool_serves_clients 2 p {[1 := 10%Z]}) as (_ & _ & H3 & H4 & _); [lia|exact Hs|].
  exists p. split; [exact Hs|]. split; [exact H4|]. apply H3. reflexivity.
Defined.
