(* ===== verification/CpuUtils.v ===== *)
(** * CpuUtils: thread pinning, scheduling and huge pages (src/common/cpu_utils.hpp)

    The operating system is anything that keeps the promises of [TuningOs], which are
    those of the manual pages of mmap, munmap, pthread_setaffinity_np and
    pthread_setschedparam.  In particular a mapping of huge pages is rounded up to whole
    huge pages, and [munmap] refuses a length that is not a multiple of their size.
    [prefetch] is a hint without effect on the program. *)

From Stdlib Require Import ZArith Lia.
From stdpp Require Import base gmap numbers option list.
From S2P Require Import Prelude.

Local Open Scope Z_scope.

Definition kPage : Z := 4096.
Definition kHugePage : Z := 2 * 1024 * 1024.

(** Whole pages that hold [bytes]. *)
Definition page_round (page bytes : Z) : Z := (bytes + page - 1) / page * page.

Inductive SchedPolicy : Set := SCHED_OTHER | SCHED_FIFO.

(** A mapping: its length and whether it is made of huge pages. *)
Record Mapping := { mp_len : Z; mp_huge : bool }.

Class TuningOs (K : Type) := {
  os_maps : K -> gmap Z Mapping;
  os_affinity : K -> gset Z;
  os_sched : K -> SchedPolicy * Z;
  sys_setaffinity : gset Z -> K -> K * Z;
  sys_setschedparam : SchedPolicy -> Z -> K -> K * Z;
  (** An anonymous private mapping; [None] is [MAP_FAILED]. *)
  sys_mmap : Z -> bool -> K -> K * option Z;
  sys_munmap : Z -> Z -> K -> K * Z;
  setaffinity_spec cpus k :
    let '(k', r) := sys_setaffinity cpus k in
    os_maps k' = os_maps k /\ os_sched k' = os_sched k /\
    os_affinity k' = (if r =? 0 then cpus else os_affinity k) /\ (cpus = ∅ -> r <> 0);
  setschedparam_spec policy prio k :
    let '(k', r) := sys_setschedparam policy prio k in
    os_maps k' = os_maps k /\ os_affinity k' = os_affinity k /\
    os_sched k' = (if r =? 0 then (policy, prio) else os_sched k);
  mmap_spec bytes huge k :
    let '(k', r) := sys_mmap bytes huge k in
    os_affinity k' = os_affinity k /\ os_sched k' = os_sched k /\
    match r with
    | None => os_maps k' = os_maps k
    | Some addr =>
        addr <> 0 /\ os_maps k !! addr = None /\
        os_maps k' = <[addr := {| mp_len := page_round (if huge then kHugePage else kPage) bytes;
                                  mp_huge := huge |}]> (os_maps k)
    end;
  munmap_spec addr bytes k m :
    os_maps k !! addr = Some m ->
    let '(k', r) := sys_munmap addr bytes k in
    os_affinity k' = os_affinity k /\ os_sched k' = os_sched k /\
    if mp_huge m && negb (bytes mod kHugePage =? 0) then r <> 0 /\ os_maps k' = os_maps k
    else page_round (if mp_huge m then kHugePage else kPage) bytes = mp_len m ->
         r = 0 /\ os_maps k' = delete addr (os_maps k);
}.

Section CpuUtils.
Context {K : Type} `{!TuningOs K}.

(** [CPU_SET] ignores numbers outside the 1024 of a [cpu_set_t]. *)
Definition CPU_SETSIZE : Z := 1024.
Definition CPU_SET (cpu : Z) (set : gset Z) : gset Z :=
  if (0 <=? cpu) && (cpu <? CPU_SETSIZE) then {[cpu]} ∪ set else set.

Definition pin_thread_to_core (core_id : Z) (k : K) : K * bool :=
  let cpuset := CPU_SET core_id ∅ in
  let '(k, r) := sys_setaffinity cpuset k in (k, r =? 0).

Definition set_thread_realtime (priority : Z) (k : K) : K * bool :=
  let '(k, r) := sys_setschedparam SCHED_FIFO priority k in (k, r =? 0).

(** The null pointer is 0. *)
Definition allocate_huge_pages (bytes : Z) (k : K) : K * Z :=
  let '(k, ptr) := sys_mmap bytes true k in
  match ptr with
  | Some ptr => (k, ptr)
  | None =>
      let '(k, ptr) := sys_mmap bytes false k in
      match ptr with None => (k, 0) | Some ptr => (k, ptr) end
  end.

Definition free_huge_pages (ptr bytes : Z) (k : K) : K :=
  if negb (ptr =? 0) then (sys_munmap ptr bytes k).1 else k.

(** ** What they promise *)

(** A thread is pinned to exactly the core asked for, or nothing changes and the caller is
    told; a core number no [cpu_set_t] has is always refused. *)
Theorem pinning_reported core_id k :
  let '(k', ok) := pin_thread_to_core core_id k in
  os_affinity k' = (if ok then {[core_id]} else os_affinity k) /\
  os_maps k' = os_maps k /\ os_sched k' = os_sched k /\
  (ok = true -> 0 <= core_id < CPU_SETSIZE).
Proof.
  unfold pin_thread_to_core. pose proof (setaffinity_spec (CPU_SET core_id ∅) k) as Hs.
  destruct (sys_setaffinity (CPU_SET core_id ∅) k) as [k' r].
  destruct Hs as (H1 & H2 & H3 & H4). destruct (Z.eqb_spec r 0) as [->|Hr]; [|done].
  unfold CPU_SET in *. destruct ((0 <=? core_id) && (core_id <? CPU_SETSIZE)) eqn:E; [|by destruct (H4 eq_refl)].
  apply andb_true_iff in E as [E1%Z.leb_le E2%Z.ltb_lt].
  split_and!; [by rewrite H3, (right_id_L ∅ (∪))|done|done|done].
Qed.

Theorem realtime_reported priority k :
  let '(k', ok) := set_thread_realtime priority k in
  os_sched k' = (if ok then (SCHED_FIFO, priority) else os_sched k) /\
  os_maps k' = os_maps k /\ os_affinity k' = os_affinity k.
Proof.
  unfold set_thread_realtime. pose proof (setschedparam_spec SCHED_FIFO priority k) as Hs.
  destruct (sys_setschedparam SCHED_FIFO priority k) as [k' r]. by destruct Hs as (H1 & H2 & H3).
Qed.

Lemma page_round_covers page bytes : 0 < page -> bytes <= page_round page bytes.
Proof.
  intros Hp. unfold page_round. pose proof (Z.div_mod (bytes + page - 1) page ltac:(lia)).
  pose proof (Z.mod_pos_bound (bytes + page - 1) page Hp). lia.
Qed.

Lemma free_mapped (ptr bytes : Z) (k : K) (maps : gmap Z Mapping) (huge : bool) :
  ptr <> 0 -> maps !! ptr = None ->
  os_maps k = <[ptr := {| mp_len := page_round (if huge then kHugePage else kPage) bytes; mp_huge := huge |}]> maps ->
  os_maps (free_huge_pages ptr bytes k) =
    (if huge && negb (bytes mod kHugePage =? 0) then os_maps k else maps).
Proof.
  intros Hp Hfresh Hm. unfold free_huge_pages. rewrite (proj2 (Z.eqb_neq ptr 0) Hp). cbn [negb].
  pose proof (munmap_spec ptr bytes k {| mp_len := page_round (if huge then kHugePage else kPage) bytes; mp_huge := huge |}) as Hs.
  rewrite Hm in Hs at 1. rewrite lookup_insert_eq in Hs. specialize (Hs eq_refl).
  destruct (sys_munmap ptr bytes k) as [k' r]. destruct Hs as (_ & _ & Hs). cbn [fst mp_huge mp_len] in *.
  destruct (huge && negb (bytes mod kHugePage =? 0)); [apply Hs|].
  destruct (Hs eq_refl) as [_ ->]. rewrite Hm. by apply delete_insert_id.
Qed.

(** Memory for the hot path is allocated and released, with one exception.  Whatever
    the system answers, [allocate_huge_pages] returns null and maps nothing, or returns a fresh
    mapping of at least [bytes] (huge pages if the system gives them, ordinary ones
    otherwise); [free_huge_pages] with the same size then restores the mappings, unless
    huge pages were given for a size that is not a multiple of 2 MB: the unmapping is then
    refused, its result ignored, and the memory stays mapped. *)
Theorem huge_pages_released bytes k :
  let '(k1, ptr) := allocate_huge_pages bytes k in
  (ptr = 0 /\ os_maps k1 = os_maps k /\ os_maps (free_huge_pages ptr bytes k1) = os_maps k) \/
  exists m, ptr <> 0 /\ os_maps k !! ptr = None /\ os_maps k1 = <[ptr := m]> (os_maps k) /\ bytes <= mp_len m /\
    os_maps (free_huge_pages ptr bytes k1) =
      (if mp_huge m && negb (bytes mod kHugePage =? 0) then os_maps k1 else os_maps k).
Proof.
  unfold allocate_huge_pages. pose proof (mmap_spec bytes true k) as H1.
  destruct (sys_mmap bytes true k) as [k1 [ptr|]]; destruct H1 as (_ & _ & H1).
  - destruct H1 as (Hp & Hf & Hm). right. eexists. split_and!; [done|done|exact Hm| |].
    + by apply page_round_covers.
    + by apply (free_mapped ptr bytes k1 (os_maps k) true).
  - pose proof (mmap_spec bytes false k1) as H2.
    destruct (sys_mmap bytes false k1) as [k2 [ptr|]]; destruct H2 as (_ & _ & H2).
    + destruct H2 as (Hp & Hf & Hm). right. rewrite H1 in *. eexists. split_and!; [done|done|exact Hm| |].
      * by apply page_round_covers.
      * by apply (free_mapped ptr bytes k2 (os_maps k) false).
    + left. split; [done|]. unfold free_huge_pages. cbn. split; congruence.
Qed.
End CpuUtils.

(** ** A small system

    It hands out addresses upwards, and has as many huge pages as [so_pool] says. *)

Record SimOs := {
  so_maps : gmap Z Mapping; so_next : positive; so_pool : Z; so_cores : Z; so_pinned : gset Z;
  so_policy : SchedPolicy * Z
}.

Definition with_maps (m : gmap Z Mapping) (next : positive) (k : SimOs) : SimOs :=
  {| so_maps := m; so_next := next; so_pool := so_pool k; so_cores := so_cores k; so_pinned := so_pinned k;
     so_policy := so_policy k |}.

Definition sim_mmap (bytes : Z) (huge : bool) (k : SimOs) : SimOs * option Z :=
  let len := page_round (if huge then kHugePage else kPage) bytes in
  if (bytes <=? 0) || huge && (so_pool k <? len / kHugePage) || bool_decide (is_Some (so_maps k !! Zpos (so_next k)))
  then (k, None)
  else (with_maps (<[Zpos (so_next k) := {| mp_len := len; mp_huge := huge |}]> (so_maps k))
          (Pos.succ (so_next k)) k, Some (Zpos (so_next k))).

Definition sim_munmap (addr bytes : Z) (k : SimOs) : SimOs * Z :=
  match so_maps k !! addr with
  | None => (k, 0)
  | Some m => if mp_huge m && negb (bytes mod kHugePage =? 0) then (k, -1)
              else (with_maps (delete addr (so_maps k)) (so_next k) k, 0)
  end.

(** Only the first [so_cores] cores exist. *)
Definition sim_setaffinity (cpus : gset Z) (k : SimOs) : SimOs * Z :=
  if decide (cpus = ∅ \/ Exists (fun c => so_cores k <= c) (elements cpus)) then (k, 22)
  else ({| so_maps := so_maps k; so_next := so_next k; so_pool := so_pool k; so_cores := so_cores k;
           so_pinned := cpus; so_policy := so_policy k |}, 0).

#[global] Program Instance sim_os : TuningOs SimOs := {
  os_maps := so_maps; os_affinity := so_pinned; os_sched := so_policy;
  sys_setaffinity := sim_setaffinity;
  sys_setschedparam policy prio k :=
    ({| so_maps := so_maps k; so_next := so_next k; so_pool := so_pool k; so_cores := so_cores k;
        so_pinned := so_pinned k; so_policy := (policy, prio) |}, 0);
  sys_mmap := sim_mmap;
  sys_munmap := sim_munmap;
}.
Next Obligation. intros cpus k. unfold sim_setaffinity. case_decide; [done|]. cbn. split_and!; try done. naive_solver. Qed.
Next Obligation. done. Qed.
Next Obligation.
  intros bytes huge k. unfold sim_mmap. cbv zeta.
  destruct ((bytes <=? 0) || _ || bool_decide _) eqn:E; [done|]. cbn.
  apply orb_false_iff in E as [_ E]. apply bool_decide_eq_false in E. split_and!; try done. by apply eq_None_not_Some.
Qed.
Next Obligation.
  intros addr bytes k m Hm. unfold sim_munmap. rewrite Hm. destruct (mp_huge m && _); done.
Qed.

Definition sim_box : SimOs :=
  {| so_maps := ∅; so_next := 1; so_pool := 4; so_cores := 8; so_pinned := list_to_set (seqZ 0 8);
     so_policy := (SCHED_OTHER, 0) |}.

(** Three megabytes on a machine with huge pages are never given back. *)
Lemma huge_pages_leak :
  let bytes := 3 * 1024 * 1024 in
  let '(k1, ptr) := allocate_huge_pages bytes sim_box in
  ptr <> 0 /\ os_maps (free_huge_pages ptr bytes k1) = os_maps k1 /\ os_maps k1 <> os_maps sim_box.
Proof. vm_compute. split_and!; [done|done|]. intros H. discriminate H. Qed.
