(* ===== verification/FillSimulator.v ===== *)
(** * FillSimulator: queue-aware fills of our resting quotes
      (src/sim/fill_simulator.hpp)

    The per-token vectors [bid_] and [ask_] are finite maps in which an absent
    entry is a default quote.  [emit] is any transformer of a client state, so the
    callback of the backtest is an instance. *)

From Stdlib Require Import ZArith Lia.
From stdpp Require Import base gmap list numbers option.
From S2P Require Import Prelude Types.

Local Open Scope Z_scope.

Definition kSimMaxTokens : Z := 65536.

Record SimQuote := {
  sq_active : bool;
  sq_price : Price;
  sq_remaining : Quantity;
  sq_queue_ahead : Quantity;
  sq_id : ClOrdId;
  sq_token : Token;
}.

Definition no_quote : SimQuote :=
  {| sq_active := false; sq_price := 0; sq_remaining := 0; sq_queue_ahead := 0; sq_id := 0;
     sq_token := 0 |}.

Record FillSimulator := {
  fs_bid : gmap Z SimQuote;
  fs_ask : gmap Z SimQuote;
  fs_fills : Z;
  fs_next_trade_no : Z;
}.

Definition FillSimulator_new : FillSimulator :=
  {| fs_bid := ∅; fs_ask := ∅; fs_fills := 0; fs_next_trade_no := 1 |}.

(** [(side == kBuy ? bid_ : ask_)[token]], read and written. *)
Definition sim_quote (fs : FillSimulator) (side : Side) (token : Token) : SimQuote :=
  default no_quote ((if side then fs_bid fs else fs_ask fs) !! token).

Definition set_sim_quote (side : Side) (token : Token) (q : SimQuote) (fs : FillSimulator)
    : FillSimulator :=
  {| fs_bid := if side then <[token := q]> (fs_bid fs) else fs_bid fs;
     fs_ask := if side then fs_ask fs else <[token := q]> (fs_ask fs);
     fs_fills := fs_fills fs; fs_next_trade_no := fs_next_trade_no fs |}.

Definition count_fill (fs : FillSimulator) : FillSimulator :=
  {| fs_bid := fs_bid fs; fs_ask := fs_ask fs; fs_fills := u64 (fs_fills fs + 1);
     fs_next_trade_no := i64 (fs_next_trade_no fs + 1) |}.

Definition register_order (o : Order) (queue_ahead : Quantity) (fs : FillSimulator)
    : FillSimulator :=
  if o_token o >=? kSimMaxTokens then fs
  else
    set_sim_quote (o_side o) (o_token o)
      {| sq_active := true; sq_price := o_price o; sq_remaining := o_qty o;
         sq_queue_ahead := if queue_ahead <? 0 then 0 else queue_ahead;
         sq_id := o_client_order_id o; sq_token := o_token o |} fs.

Definition sim_fill (q : SimQuote) (side : Side) (fill_qty remaining trade_no : Z) : FillReport :=
  {| fr_exchange_order_no := 0; fr_client_order_id := sq_id q; fr_token := sq_token q;
     fr_fill_price := sq_price q; fr_fill_qty := fill_qty; fr_remaining_qty := remaining;
     fr_fill_time := 0; fr_trade_no := trade_no; fr_side := side |}.

Definition with_amounts (active : bool) (remaining queue_ahead : Quantity) (q : SimQuote) : SimQuote :=
  {| sq_active := active; sq_price := sq_price q; sq_remaining := remaining;
     sq_queue_ahead := queue_ahead; sq_id := sq_id q; sq_token := sq_token q |}.

Section Simulator.
Context {S : Type} (emit : FillReport -> S -> S).

(** The quote is the entry of [token] on [side], passed by reference. *)
Definition MatchAgainst (token : Token) (side : Side) (trade_qty : Quantity)
    (fs : FillSimulator) (s : S) : FillSimulator * S :=
  let q := sim_quote fs side token in
  let eat_queue := Z.min (sq_queue_ahead q) trade_qty in
  let queue_ahead := i32 (sq_queue_ahead q - eat_queue) in
  let q := with_amounts (sq_active q) (sq_remaining q) queue_ahead q in
  let trade_qty := i32 (trade_qty - eat_queue) in
  let fs := set_sim_quote side token q fs in
  if trade_qty <=? 0 then (fs, s)
  else
    let fill_qty := Z.min (sq_remaining q) trade_qty in
    if fill_qty <=? 0 then (fs, s)
    else
      let remaining := i32 (sq_remaining q - fill_qty) in
      let f := sim_fill q side fill_qty remaining (fs_next_trade_no fs) in
      let active := if remaining <=? 0 then false else sq_active q in
      (set_sim_quote side token (with_amounts active remaining queue_ahead q) (count_fill fs),
       emit f s).

Definition fillsim_on_event (ev : MarketEvent) (fs : FillSimulator) (s : S) : FillSimulator * S :=
  if negb (bool_decide (msg_type (ev_type ev) = Some kTrade)) then (fs, s)
  else if ev_token ev >=? kSimMaxTokens then (fs, s)
  else
    let p := ev_price ev in
    let b := sim_quote fs kBuy (ev_token ev) in
    let '(fs, s) :=
      if sq_active b && (p <=? sq_price b) then MatchAgainst (ev_token ev) kBuy (ev_qty ev) fs s
      else (fs, s) in
    let a := sim_quote fs kSell (ev_token ev) in
    if sq_active a && (p >=? sq_price a) then MatchAgainst (ev_token ev) kSell (ev_qty ev) fs s
    else (fs, s).

Definition on_events (evs : list MarketEvent) (acc : FillSimulator * S) : FillSimulator * S :=
  foldl (fun acc ev => fillsim_on_event ev acc.1 acc.2) acc evs.
End Simulator.

(** The simulator does not look at the client's state: a map that turns one callback
    into another turns one run into the other. *)
Lemma fillsim_natural {S T : Type} (emit1 : FillReport -> S -> S) (emit2 : FillReport -> T -> T)
    (h : S -> T) ev fs s :
  (forall f s, h (emit1 f s) = emit2 f (h s)) ->
  fillsim_on_event emit2 ev fs (h s) =
    ((fillsim_on_event emit1 ev fs s).1, h (fillsim_on_event emit1 ev fs s).2).
Proof.
  intros Hh.
  assert (forall t sd q fs s, MatchAgainst emit2 t sd q fs (h s) =
    ((MatchAgainst emit1 t sd q fs s).1, h (MatchAgainst emit1 t sd q fs s).2)) as Hm.
  { intros t sd q fs' s'. unfold MatchAgainst. repeat case_if; cbn; by rewrite ?Hh. }
  unfold fillsim_on_event. repeat (case_if; [done|]).
  set (b := sq_active _ && _). destruct b; [rewrite Hm; destruct (MatchAgainst emit1 _ _ _ _ _) as [fs1 s1]; cbn [fst snd]|];
    case_if; by rewrite ?Hm.
Qed.

(** ** The fills of one resting order *)

(** The trades that reach a quote at [price]. *)
Definition reaches (side : Side) (token : Token) (price : Price) (ev : MarketEvent) : bool :=
  bool_decide (msg_type (ev_type ev) = Some kTrade) && (ev_token ev =? token) &&
  (if side then ev_price ev <=? price else ev_price ev >=? price).

Definition volume_through (side : Side) (token : Token) (price : Price) (evs : list MarketEvent) : Z :=
  zsum (fun ev => if reaches side token price ev then ev_qty ev else 0) evs.

Definition of_quote (side : Side) (token : Token) (f : FillReport) : bool :=
  bool_decide (fr_side f = side) && (fr_token f =? token).

Definition filled_on (side : Side) (token : Token) (fills : list FillReport) : Z :=
  zsum (fun f => if of_quote side token f then fr_fill_qty f else 0) fills.

(** How much of an order of [qty] behind a queue of [ahead] a volume fills. *)
Definition queue_fill (qty ahead volume : Z) : Z := Z.min qty (Z.max 0 (volume - ahead)).

Lemma sim_quote_set side token q fs sd tk :
  sim_quote (set_sim_quote side token q fs) sd tk =
    if bool_decide (sd = side /\ tk = token) then q else sim_quote fs sd tk.
Proof.
  unfold sim_quote, set_sim_quote. case_bool_decide as H.
  - destruct H as [-> ->]. destruct side; simpl; by rewrite lookup_insert_eq.
  - destruct sd, side; simpl; try done; rewrite lookup_insert_ne; naive_solver.
Qed.

Lemma sim_quote_set_eq side token q fs : sim_quote (set_sim_quote side token q fs) side token = q.
Proof. rewrite sim_quote_set. by rewrite bool_decide_true. Qed.

Lemma sim_quote_count fs sd tk : sim_quote (count_fill fs) sd tk = sim_quote fs sd tk.
Proof. done. Qed.

(** Live quotes sit in their own token's entry. *)
Definition sim_ok (fs : FillSimulator) : Prop :=
  forall side token, sq_active (sim_quote fs side token) = true ->
    sq_token (sim_quote fs side token) = token.

Lemma sim_ok_new : sim_ok FillSimulator_new.
Proof. intros [] token; done. Qed.

Lemma sim_ok_register o ahead fs : sim_ok fs -> sim_ok (register_order o ahead fs).
Proof.
  intros Hok side token. unfold register_order. case_if; [apply Hok|].
  rewrite sim_quote_set. case_bool_decide as H; [|apply Hok]. by destruct H as [-> ->].
Qed.

Section Match.
Context {S : Type} (emit : FillReport -> S -> S).

(** Whatever the amounts, a match touches one entry only and emits fills of that
    entry's quote only. *)
Lemma MatchAgainst_frame token side t fs s :
  let '(fs', s') := MatchAgainst emit token side t fs s in
  (forall sd tk, ~ (sd = side /\ tk = token) -> sim_quote fs' sd tk = sim_quote fs sd tk) /\
  sq_token (sim_quote fs' side token) = sq_token (sim_quote fs side token) /\
  (sq_active (sim_quote fs' side token) = true -> sq_active (sim_quote fs side token) = true) /\
  (s' = s \/ exists f, s' = emit f s /\ fr_side f = side /\
     fr_token f = sq_token (sim_quote fs side token)).
Proof.
  unfold MatchAgainst. cbv zeta.
  assert (forall q fs' sd tk, ~ (sd = side /\ tk = token) ->
    sim_quote (set_sim_quote side token q fs') sd tk = sim_quote fs' sd tk) as Hframe.
  { intros q fs' sd tk Hne. rewrite sim_quote_set. by rewrite bool_decide_false. }
  case_if; [|case_if]; rewrite ?sim_quote_set_eq; (split; [|split; [done|split]]);
    rewrite ?sim_quote_set_eq; try (by intros; rewrite ?Hframe, ?sim_quote_count, ?Hframe by done);
    try (by left); try done.
  - simpl. case_if; done.
  - right. eexists. split; [done|]. done.
Qed.

(** The exact effect on a quote with amounts in range. *)
Lemma MatchAgainst_exact token side t fs s :
  let q := sim_quote fs side token in
  0 <= sq_queue_ahead q < 2 ^ 31 -> 0 <= sq_remaining q < 2 ^ 31 -> 0 <= t < 2 ^ 31 ->
  let e := Z.min (sq_queue_ahead q) t in
  let fq := Z.min (sq_remaining q) (t - e) in
  let '(fs', s') := MatchAgainst emit token side t fs s in
  sim_quote fs' side token =
    with_amounts (if (0 <? fq) && (sq_remaining q =? fq) then false else sq_active q)
      (sq_remaining q - fq) (sq_queue_ahead q - e) q /\
  (fq = 0 /\ s' = s \/
   0 < fq /\ exists no, s' = emit (sim_fill q side fq (sq_remaining q - fq) no) s).
Proof.
  cbv zeta. intros Hq Hr Ht. unfold MatchAgainst. cbv zeta.
  set (q := sim_quote fs side token) in *. cbn [with_amounts sq_remaining sq_active sq_queue_ahead].
  rewrite !(wrap_s_id 32) by ranges. set (e := Z.min (sq_queue_ahead q) t).
  assert (0 <= e <= t) as He by lia.
  case_if; [|case_if].
  - rewrite sim_quote_set_eq. assert (Z.min (sq_remaining q) (t - e) = 0) as -> by lia.
    rewrite Z.sub_0_r. split; [done|by left].
  - rewrite sim_quote_set_eq. assert (Z.min (sq_remaining q) (t - e) = 0) as -> by lia.
    rewrite Z.sub_0_r. split; [done|by left].
  - set (fq := Z.min (sq_remaining q) (t - e)) in *. rewrite sim_quote_set_eq. split.
    + unfold with_amounts. simpl. f_equal. rewrite (proj2 (Z.ltb_lt 0 fq)) by lia. simpl.
      destruct (sq_remaining q =? fq) eqn:E; bool_arith.
      * by rewrite (proj2 (Z.leb_le _ _)) by lia.
      * by rewrite (proj2 (Z.leb_gt _ _)) by lia.
    + right. split; [lia|]. by eexists.
Qed.
End Match.

(** One side of [on_event]. *)
Definition side_step {S} (emit : FillReport -> S -> S) (side : Side) (ev : MarketEvent)
    (acc : FillSimulator * S) : FillSimulator * S :=
  let q := sim_quote acc.1 side (ev_token ev) in
  if sq_active q && (if side then ev_price ev <=? sq_price q else ev_price ev >=? sq_price q)
  then MatchAgainst emit (ev_token ev) side (ev_qty ev) acc.1 acc.2 else acc.

Lemma on_event_sides {S} (emit : FillReport -> S -> S) ev fs s :
  fillsim_on_event emit ev fs s =
    if bool_decide (msg_type (ev_type ev) = Some kTrade) && (ev_token ev <? kSimMaxTokens)
    then side_step emit kSell ev (side_step emit kBuy ev (fs, s)) else (fs, s).
Proof.
  unfold fillsim_on_event, side_step. case_bool_decide; simpl; [|done].
  rewrite Z.geb_leb, Z.leb_antisym. destruct (ev_token ev <? kSimMaxTokens); simpl; [|done].
  destruct (sq_active (sim_quote fs kBuy (ev_token ev)) && _); [|done].
  by destruct (MatchAgainst _ _ _ _ _ _).
Qed.

Definition collect_fill (f : FillReport) (fills : list FillReport) : list FillReport := fills ++ [f].

Lemma side_step_ok {S} (emit : FillReport -> S -> S) side ev acc :
  sim_ok acc.1 -> sim_ok (side_step emit side ev acc).1.
Proof.
  intros Hok. unfold side_step. case_if; [|done].
  pose proof (MatchAgainst_frame emit (ev_token ev) side (ev_qty ev) acc.1 acc.2) as Hm.
  destruct (MatchAgainst _ _ _ _ _ _) as [fs' s']. destruct Hm as (Hf & Ht & Ha & _). simpl.
  intros sd tk Hact. destruct (decide (sd = side /\ tk = ev_token ev)) as [[-> ->]|Hne].
  - rewrite Ht. apply Hok. by apply Ha.
  - rewrite Hf in * by done. by apply Hok.
Qed.

(** Whatever the client state, one event emits fills of its own token with a
    positive 32-bit quantity, each counted once. *)
Lemma side_step_emits {S} (emit : FillReport -> S -> S) side ev acc (P : Z -> S -> Prop) :
  sim_ok acc.1 -> P (fs_fills acc.1) acc.2 ->
  (forall f n s, P n s -> fr_token f = ev_token ev -> 0 < fr_fill_qty f < 2 ^ 31 ->
     P (u64 (n + 1)) (emit f s)) ->
  P (fs_fills (side_step emit side ev acc).1) (side_step emit side ev acc).2.
Proof.
  intros Hok HP Hemit. unfold side_step. case_if; [|done]. unfold MatchAgainst. cbv zeta.
  cbn [with_amounts sq_remaining sq_active sq_queue_ahead].
  set (q := sim_quote acc.1 side (ev_token ev)) in *.
  case_if; [done|]. case_if; [done|]. cbn [fst snd set_sim_quote count_fill fs_fills].
  apply Hemit; [done|by apply Hok|]. cbn [sim_fill fr_fill_qty].
  match goal with H : 0 < i32 ?x |- _ => pose proof (wrap_s_range 32 x ltac:(lia)) end. ranges.
Qed.

Lemma on_event_emits {S} (emit : FillReport -> S -> S) ev fs s (P : Z -> S -> Prop) :
  sim_ok fs -> P (fs_fills fs) s ->
  (forall f n s, P n s -> fr_token f = ev_token ev -> 0 < fr_fill_qty f < 2 ^ 31 ->
     P (u64 (n + 1)) (emit f s)) ->
  sim_ok (fillsim_on_event emit ev fs s).1 /\
  P (fs_fills (fillsim_on_event emit ev fs s).1) (fillsim_on_event emit ev fs s).2.
Proof.
  intros Hok HP Hemit. rewrite on_event_sides. case_if; [|done]. split.
  - by apply side_step_ok, side_step_ok.
  - apply side_step_emits; [by apply side_step_ok| |done]. by apply side_step_emits.
Qed.

Section Resting.
Context (o : Order) (ahead : Quantity).
Context (Htok : 0 <= o_token o < kSimMaxTokens) (Hqty : 0 < o_qty o < 2 ^ 31) (Hahead : 0 <= ahead < 2 ^ 31).
Abbreviation side := (o_side o).
Abbreviation token := (o_token o).
Abbreviation filled V := (queue_fill (o_qty o) ahead V).

(** The quote once a volume [V] has gone through its price. *)
Definition quote_after (V : Z) : SimQuote :=
  {| sq_active := filled V <? o_qty o; sq_price := o_price o; sq_remaining := o_qty o - filled V;
     sq_queue_ahead := Z.max 0 (ahead - V); sq_id := o_client_order_id o; sq_token := token |}.

Definition ours (f : FillReport) : Prop :=
  of_quote side token f = true ->
  fr_client_order_id f = o_client_order_id o /\ fr_fill_price f = o_price o /\ 0 < fr_fill_qty f.

(** [acc'] has seen the volume [d] more than [acc]. *)
Definition advances (V d : Z) (acc acc' : FillSimulator * list FillReport) : Prop :=
  sim_quote acc'.1 side token = quote_after (V + d) /\
  filled_on side token acc'.2 = filled_on side token acc.2 + filled (V + d) - filled V /\
  (Forall ours acc.2 -> Forall ours acc'.2).

Lemma filled_on_snoc fills f :
  filled_on side token (fills ++ [f]) =
    filled_on side token fills + (if of_quote side token f then fr_fill_qty f else 0).
Proof. unfold filled_on. rewrite zsum_app. simpl. lia. Qed.

(** A step on the other side, or on another token, leaves the order alone. *)
Lemma side_step_other sd ev acc V :
  sim_ok acc.1 -> sim_quote acc.1 side token = quote_after V ->
  ~ (sd = side /\ ev_token ev = token) ->
  advances V 0 acc (side_step collect_fill sd ev acc).
Proof.
  intros Hok Hq Hne. unfold side_step, advances. rewrite Z.add_0_r. case_if; [|split_and!; [done|lia|done]].
  pose proof (MatchAgainst_frame collect_fill (ev_token ev) sd (ev_qty ev) acc.1 acc.2) as Hm.
  destruct (MatchAgainst _ _ _ _ _ _) as [fs' s']. destruct Hm as (Hf & _ & _ & Hs). simpl.
  assert (sq_token (sim_quote acc.1 sd (ev_token ev)) = ev_token ev) as Htk by by apply Hok.
  split; [rewrite Hf; [done|naive_solver]|]. destruct Hs as [->|(f & -> & Hfs & Hft)]; [split; [lia|done]|].
  assert (of_quote side token f = false) as Hno.
  { unfold of_quote. rewrite Hft, Htk, Hfs. case_bool_decide; simpl; [|done].
    apply Z.eqb_neq. naive_solver. }
  unfold collect_fill. rewrite filled_on_snoc, Hno. split; [lia|]. intros Hall. apply Forall_app.
  split; [done|]. constructor; [|done]. unfold ours. by rewrite Hno.
Qed.

Lemma side_step_own ev acc V :
  sim_quote acc.1 side token = quote_after V -> 0 <= V -> ev_token ev = token ->
  0 <= ev_qty ev < 2 ^ 31 ->
  advances V (if (if side then ev_price ev <=? o_price o else ev_price ev >=? o_price o)
              then ev_qty ev else 0) acc (side_step collect_fill side ev acc).
Proof.
  intros Hq HV Ht Hev. unfold side_step. rewrite Ht, Hq. cbn [quote_after sq_active sq_price].
  assert (forall x y : bool, x && y = if y then x else false) as -> by by intros [] [].
  set (cross := if side then ev_price ev <=? o_price o else ev_price ev >=? o_price o).
  unfold queue_fill in *.
  destruct cross; [|unfold advances; rewrite Z.add_0_r; split_and!; [done|lia|done]].
  case_if.
  - pose proof (MatchAgainst_exact collect_fill token side (ev_qty ev) acc.1 acc.2) as Hm.
    rewrite Hq in Hm. cbn [quote_after sq_queue_ahead sq_remaining sq_active] in Hm.
    unfold queue_fill in Hm. specialize (Hm ltac:(lia) ltac:(lia) Hev).
    destruct (MatchAgainst _ _ _ _ _ _) as [fs' s']. destruct Hm as [H1 H2]. unfold advances. simpl.
    set (fq := Z.min _ _) in H1, H2.
    assert (queue_fill (o_qty o) ahead (V + ev_qty ev) - queue_fill (o_qty o) ahead V = fq) as Hd
      by (unfold fq, queue_fill; lia).
    split; [|split].
    + rewrite H1. unfold quote_after, with_amounts. cbn. f_equal.
      * unfold queue_fill in *. destruct ((0 <? fq) && _) eqn:E.
        -- bool_arith. symmetry. apply Z.ltb_ge. lia.
        -- transitivity true; [by apply Z.ltb_lt|]. symmetry. apply Z.ltb_lt.
           apply andb_false_iff in E as [E|E]; bool_arith; lia.
      * unfold queue_fill in *. lia.
      * lia.
    + destruct H2 as [[-> ->]|[Hpos [no ->]]]; [lia|]. unfold collect_fill. rewrite filled_on_snoc.
      unfold of_quote, sim_fill. cbn. rewrite bool_decide_true, Z.eqb_refl by done. simpl. lia.
    + intros Hall. destruct H2 as [[-> ->]|[Hpos [no ->]]]; [done|]. unfold collect_fill. apply Forall_app.
      split; [done|]. by constructor.
  - unfold advances. split_and!; [|unfold queue_fill; lia|done].
    rewrite Hq. unfold quote_after, queue_fill. f_equal.
    + by rewrite !(proj2 (Z.ltb_ge _ _)) by lia.
    + lia.
    + lia.
Qed.
Lemma advances_trans V d1 d2 acc1 acc2 acc3 :
  advances V d1 acc1 acc2 -> advances (V + d1) d2 acc2 acc3 -> advances V (d1 + d2) acc1 acc3.
Proof.
  intros (_ & H2 & H3) (K1 & K2 & K3). rewrite <- Z.add_assoc in K1, K2.
  split_and!; [done|lia|tauto].
Qed.

(** What [ev] adds to the volume through our price, seen from the side [sd]. *)
Definition contribution (sd : Side) (ev : MarketEvent) : Z :=
  if bool_decide (sd = side) && (ev_token ev =? token) &&
     (if side then ev_price ev <=? o_price o else ev_price ev >=? o_price o)
  then ev_qty ev else 0.

Lemma side_step_advances sd ev acc V :
  sim_ok acc.1 -> sim_quote acc.1 side token = quote_after V -> 0 <= V -> 0 <= ev_qty ev < 2 ^ 31 ->
  sim_ok (side_step collect_fill sd ev acc).1 /\
  advances V (contribution sd ev) acc (side_step collect_fill sd ev acc).
Proof.
  intros Hok Hq HV Hev. split; [by apply side_step_ok|]. unfold contribution.
  destruct (bool_decide (sd = side) && (ev_token ev =? token)) eqn:E; simpl.
  - apply andb_prop in E as [E1 E2]. apply bool_decide_eq_true in E1. apply Z.eqb_eq in E2. subst sd.
    by apply side_step_own.
  - apply side_step_other; [done..|]. intros [-> Ht]. by rewrite bool_decide_true, Ht, Z.eqb_refl in E.
Qed.

Definition trade_size_ok (ev : MarketEvent) : Prop :=
  msg_type (ev_type ev) = Some kTrade -> 0 <= ev_qty ev < 2 ^ 31.

Lemma on_event_advances ev acc V :
  sim_ok acc.1 -> sim_quote acc.1 side token = quote_after V -> 0 <= V -> trade_size_ok ev ->
  let acc' := fillsim_on_event collect_fill ev acc.1 acc.2 in
  sim_ok acc'.1 /\
  advances V (if reaches side token (o_price o) ev then ev_qty ev else 0) acc acc'.
Proof.
  intros Hok Hq HV Hev. cbv zeta. rewrite on_event_sides. unfold reaches.
  assert (sim_ok acc.1 /\ advances V 0 acc (acc.1, acc.2)) as Hskip.
  { split; [done|]. unfold advances. rewrite Z.add_0_r. split_and!; [done|simpl; lia|done]. }
  case_bool_decide as Htr; simpl; [|exact Hskip]. specialize (Hev Htr).
  destruct (ev_token ev <? kSimMaxTokens) eqn:Hin.
  2: { bool_arith. rewrite (proj2 (Z.eqb_neq _ _)) by lia. exact Hskip. }
  rewrite <- surjective_pairing.
  destruct (side_step_advances kBuy ev acc V Hok Hq HV Hev) as [Hok1 H1].
  set (mid := side_step collect_fill kBuy ev acc) in *.
  assert (0 <= contribution kBuy ev) as Hc by (unfold contribution; case_if; lia).
  destruct (side_step_advances kSell ev mid (V + contribution kBuy ev) Hok1 (proj1 H1)
    ltac:(lia) Hev) as [Hok2 H2].
  split; [done|]. pose proof (advances_trans _ _ _ _ _ _ H1 H2) as H.
  assert (contribution kBuy ev + contribution kSell ev =
    (if (ev_token ev =? token) && (if side then ev_price ev <=? o_price o else ev_price ev >=? o_price o)
     then ev_qty ev else 0)) as <-; [|done].
  unfold contribution. destruct side; simpl; case_if; lia.
Qed.

Lemma on_events_advances evs : forall acc V,
  sim_ok acc.1 -> sim_quote acc.1 side token = quote_after V -> 0 <= V -> Forall trade_size_ok evs ->
  advances V (volume_through side token (o_price o) evs) acc (on_events collect_fill evs acc).
Proof.
  induction evs as [|ev evs IH]; intros acc V Hok Hq HV Hall.
  { unfold advances. cbn. rewrite Z.add_0_r. split_and!; [done|lia|done]. }
  apply Forall_cons_1 in Hall as [Hev Hall].
  destruct (on_event_advances ev acc V Hok Hq HV Hev) as [Hok1 H1]. cbn [on_events foldl].
  eapply advances_trans; [exact H1|]. apply IH; [done|apply H1| |done].
  case_if; [|lia]. unfold reaches in *. bool_arith. apply Z.add_nonneg_nonneg; [done|].
  apply Hev. by eapply bool_decide_eq_true_1.
Qed.
End Resting.

(** C28.  The queue model is exact.  An order that joins a level behind [ahead] is
    filled, by any stream of events, for exactly the part of the volume traded at
    or through its price that exceeds the queue, up to its own quantity; every
    fill carries its id and its price, and the quote stays active until it is
    filled. *)
Theorem queue_fills_exact o ahead fs evs :
  0 <= o_token o < kSimMaxTokens -> 0 < o_qty o < 2 ^ 31 -> 0 <= ahead < 2 ^ 31 ->
  sim_ok fs -> Forall trade_size_ok evs ->
  let '(fs', fills) := on_events collect_fill evs (register_order o ahead fs, []) in
  let total := queue_fill (o_qty o) ahead (volume_through (o_side o) (o_token o) (o_price o) evs) in
  filled_on (o_side o) (o_token o) fills = total /\
  Forall (ours o) fills /\
  sq_remaining (sim_quote fs' (o_side o) (o_token o)) = o_qty o - total /\
  sq_active (sim_quote fs' (o_side o) (o_token o)) = (total <? o_qty o).
Proof.
  intros Htok Hqty Hahead Hok Hall.
  assert (sim_quote (register_order o ahead fs) (o_side o) (o_token o) = quote_after o ahead 0) as Hq.
  { unfold register_order. rewrite Z.geb_leb, (proj2 (Z.leb_gt _ _)) by lia. rewrite sim_quote_set_eq.
    unfold quote_after, queue_fill. f_equal; [symmetry; apply Z.ltb_lt; lia|lia|].
    rewrite (proj2 (Z.ltb_ge _ _)) by lia. lia. }
  pose proof (on_events_advances o ahead Htok Hqty Hahead evs (register_order o ahead fs, []) 0
    (sim_ok_register o ahead fs Hok) Hq ltac:(lia) Hall) as (H1 & H2 & H3).
  destruct (on_events _ _ _) as [fs' fills]. simpl in *. rewrite H1. simpl.
  split_and!; [|by apply H3|done|done].
  unfold filled_on in *. rewrite H2. unfold queue_fill. simpl. lia.
Qed.

Definition sim_trade (price qty : Z) : MarketEvent :=
  {| ev_ts := 0; ev_token := 7; ev_price := price; ev_qty := qty; ev_side := false; ev_type := 84;
     ev_order_no := 1; ev_stream_id := 1; ev_seq_no := 0; ev_order_no2 := 0; ev_trade_no := 1;
     ev_bid_price := 0; ev_bid_qty := 0; ev_ask_price := 0; ev_ask_qty := 0 |}.

Definition sim_order : Order :=
  {| o_client_order_id := 5; o_exchange_order_no := 0; o_token := 7; o_segment := kSegmentCm;
     o_price := 1000; o_qty := 10; o_disclosed_qty := 0; o_side := kBuy; o_order_type := kLimit;
     o_validity := kDay; o_created_at := 0 |}.

(** 20 ahead of us: 15 and 8 at our price leave 3, a trade above it nothing. *)
Lemma queue_fills_exact_witness :
  filled_on kBuy 7 (on_events collect_fill [sim_trade 1000 15; sim_trade 1005 50; sim_trade 995 8]
    (register_order sim_order 20 FillSimulator_new, [])).2 = 3.
Proof.
  pose proof (queue_fills_exact sim_order 20 FillSimulator_new
    [sim_trade 1000 15; sim_trade 1005 50; sim_trade 995 8]) as H.
  destruct (on_events _ _ _) as [fs' fills].
  apply H; [vm_compute; split; congruence|vm_compute; split; congruence|vm_compute; split; congruence
           |exact sim_ok_new|].
  repeat constructor; vm_compute; congruence.
Defined.
