(* ===== verification/FeeModel.v ===== *)
(** * FeeModel: transaction costs of a fill (src/sim/fee_model.hpp)

    Integer paise throughout; rates are hundredths of a basis point.  C++ division
    truncates towards zero. *)

From Stdlib Require Import ZArith Lia.
From stdpp Require Import base numbers.
From S2P Require Import Prelude Types.

Local Open Scope Z_scope.

Record FeeModel := {
  fm_txn_bp100 : Z;
  fm_sebi_bp100 : Z;
  fm_stt_sell_bp100 : Z;
  fm_stamp_buy_bp100 : Z;
  fm_gst_pct : Z;
  fm_maker_rebate_bp100 : Z;
}.

Definition FeeModel_default : FeeModel :=
  {| fm_txn_bp100 := 19; fm_sebi_bp100 := 1; fm_stt_sell_bp100 := 200; fm_stamp_buy_bp100 := 20;
     fm_gst_pct := 18; fm_maker_rebate_bp100 := 0 |}.

Definition nse_fo_options : FeeModel :=
  {| fm_txn_bp100 := 500; fm_sebi_bp100 := fm_sebi_bp100 FeeModel_default;
     fm_stt_sell_bp100 := 1000; fm_stamp_buy_bp100 := 30; fm_gst_pct := fm_gst_pct FeeModel_default;
     fm_maker_rebate_bp100 := fm_maker_rebate_bp100 FeeModel_default |}.

(** [notional * rate / 1'000'000]. *)
Definition charge (notional rate : Z) : Z := Z.quot (i64 (notional * rate)) 1000000.

Definition cost_paise (f : FeeModel) (side : Side) (price_paise : Price) (qty : Quantity) : Z :=
  let notional := i64 (price_paise * qty) in
  let txn := charge notional (fm_txn_bp100 f) in
  let sebi := charge notional (fm_sebi_bp100 f) in
  let gst := Z.quot (i64 (i64 (txn + sebi) * fm_gst_pct f)) 100 in
  let stt := if side then 0 else charge notional (fm_stt_sell_bp100 f) in
  let stamp := if side then charge notional (fm_stamp_buy_bp100 f) else 0 in
  let rebate := charge notional (fm_maker_rebate_bp100 f) in
  i64 (i64 (i64 (i64 (i64 (txn + sebi) + gst) + stt) + stamp) - rebate).

(** ** Costs on unbounded integers *)

Record fee_rates_ok (f : FeeModel) : Prop := {
  fr_txn : 0 <= fm_txn_bp100 f <= 10000;
  fr_sebi : 0 <= fm_sebi_bp100 f <= 10000;
  fr_stt : 0 <= fm_stt_sell_bp100 f <= 10000;
  fr_stamp : 0 <= fm_stamp_buy_bp100 f <= 10000;
  fr_gst : 0 <= fm_gst_pct f <= 100;
  fr_rebate : 0 <= fm_maker_rebate_bp100 f <= 10000;
}.

(** Ten billion rupees. *)
Definition max_notional : Z := 10 ^ 12.

Definition levy (f : FeeModel) (side : Side) (n : Z) : Z :=
  n * fm_txn_bp100 f / 1000000 + n * fm_sebi_bp100 f / 1000000 +
  (n * fm_txn_bp100 f / 1000000 + n * fm_sebi_bp100 f / 1000000) * fm_gst_pct f / 100 +
  n * (if side then fm_stamp_buy_bp100 f else fm_stt_sell_bp100 f) / 1000000.

Lemma charge_exact n rate :
  0 <= n <= max_notional -> 0 <= rate <= 10000 ->
  charge n rate = n * rate / 1000000 /\ 0 <= n * rate / 1000000 <= n.
Proof.
  unfold max_notional, charge. intros Hn Hr. assert (0 <= n * rate <= n * 10000) by nia.
  rewrite wrap_s_id by ranges. rewrite Z.quot_div_nonneg by lia. split; [done|].
  split; [apply Z.div_pos; lia|]. apply Z.div_le_upper_bound; lia.
Qed.

Lemma cost_exact f side price qty :
  fee_rates_ok f -> 0 <= price -> 0 <= qty -> price * qty <= max_notional ->
  cost_paise f side price qty =
    levy f side (price * qty) - price * qty * fm_maker_rebate_bp100 f / 1000000.
Proof.
  intros [H1 H2 H3 H4 H5 H6] Hp Hq Hn. set (n := price * qty) in *.
  assert (0 <= n <= max_notional) as Hn' by (unfold n; nia).
  unfold cost_paise, levy. fold n. rewrite (wrap_s_id 64 n) by (unfold max_notional in *; ranges).
  destruct (charge_exact n (fm_txn_bp100 f) Hn' H1) as [-> B1].
  destruct (charge_exact n (fm_sebi_bp100 f) Hn' H2) as [-> B2].
  destruct (charge_exact n (fm_stt_sell_bp100 f) Hn' H3) as [-> B3].
  destruct (charge_exact n (fm_stamp_buy_bp100 f) Hn' H4) as [-> B4].
  destruct (charge_exact n (fm_maker_rebate_bp100 f) Hn' H6) as [-> B6].
  set (a := n * fm_txn_bp100 f / 1000000) in *. set (b := n * fm_sebi_bp100 f / 1000000) in *.
  set (c := n * fm_stt_sell_bp100 f / 1000000) in *. set (d := n * fm_stamp_buy_bp100 f / 1000000) in *.
  set (r := n * fm_maker_rebate_bp100 f / 1000000) in *. unfold max_notional in *.
  rewrite (wrap_s_id 64 (a + b)) by ranges.
  assert (0 <= (a + b) * fm_gst_pct f <= (a + b) * 100) by nia.
  rewrite (wrap_s_id 64 (_ * fm_gst_pct f)) by ranges. rewrite Z.quot_div_nonneg by lia.
  assert (0 <= (a + b) * fm_gst_pct f / 100 <= a + b).
  { split; [apply Z.div_pos; lia|]. apply Z.div_le_upper_bound; lia. }
  destruct side; unwrap_inner; lia.
Qed.

(** Rounding down loses at most one unit when a sum is split. *)
Lemma div_split a b m : 0 < m -> a / m + b / m <= (a + b) / m <= a / m + b / m + 1.
Proof.
  intros Hm. pose proof (Z.div_mod a m ltac:(lia)). pose proof (Z.div_mod b m ltac:(lia)).
  pose proof (Z.mod_pos_bound a m Hm). pose proof (Z.mod_pos_bound b m Hm).
  split; [apply Z.div_le_lower_bound; lia|]. apply Z.lt_succ_r. apply Z.div_lt_upper_bound; lia.
Qed.

Lemma levy_split f side n1 n2 :
  fee_rates_ok f -> 0 <= n1 -> 0 <= n2 ->
  levy f side n1 + levy f side n2 <= levy f side (n1 + n2) <= levy f side n1 + levy f side n2 + 6.
Proof.
  intros [H1 H2 H3 H4 H5 _] Hn1 Hn2. unfold levy. rewrite !(Z.mul_add_distr_r n1 n2).
  pose proof (div_split (n1 * fm_txn_bp100 f) (n2 * fm_txn_bp100 f) 1000000 ltac:(lia)) as Ha.
  pose proof (div_split (n1 * fm_sebi_bp100 f) (n2 * fm_sebi_bp100 f) 1000000 ltac:(lia)) as Hb.
  set (rate := if side then fm_stamp_buy_bp100 f else fm_stt_sell_bp100 f).
  pose proof (div_split (n1 * rate) (n2 * rate) 1000000 ltac:(lia)) as Hs.
  set (a1 := n1 * fm_txn_bp100 f / 1000000) in *. set (a2 := n2 * fm_txn_bp100 f / 1000000) in *.
  set (b1 := n1 * fm_sebi_bp100 f / 1000000) in *. set (b2 := n2 * fm_sebi_bp100 f / 1000000) in *.
  set (a := (_ + n2 * fm_txn_bp100 f) / 1000000) in *.
  set (b := (_ + n2 * fm_sebi_bp100 f) / 1000000) in *.
  pose proof (div_split ((a1 + b1) * fm_gst_pct f) ((a2 + b2) * fm_gst_pct f) 100 ltac:(lia)) as Hg.
  assert (((a1 + b1) * fm_gst_pct f + (a2 + b2) * fm_gst_pct f) / 100 <= (a + b) * fm_gst_pct f / 100 <=
          ((a1 + b1) * fm_gst_pct f + (a2 + b2) * fm_gst_pct f) / 100 + 2) as Hgg.
  { split; [apply Z.div_le_mono; nia|]. rewrite <- (Z.div_add _ 2 100) by lia.
    apply Z.div_le_mono; nia. }
  lia.
Qed.

(** Costs are exact and almost additive.  For rates up to 1% and a notional up
    to ten billion rupees nothing overflows: the cost is the sum of the rounded
    charges minus the rebate; without a rebate it is not negative, and filling an
    order in two parts costs at most 6 paise less, and never more, than filling it
    at once. *)
Theorem fees_exact_and_split f side price q1 q2 :
  fee_rates_ok f -> 0 <= price -> 0 <= q1 -> 0 <= q2 -> price * (q1 + q2) <= max_notional ->
  cost_paise f side price q1 =
    levy f side (price * q1) - price * q1 * fm_maker_rebate_bp100 f / 1000000 /\
  (fm_maker_rebate_bp100 f = 0 ->
   0 <= cost_paise f side price q1 /\
   cost_paise f side price q1 + cost_paise f side price q2 <= cost_paise f side price (q1 + q2) <=
     cost_paise f side price q1 + cost_paise f side price q2 + 6).
Proof.
  intros Hf Hp Hq1 Hq2 Hn. rewrite !cost_exact by (done || nia).
  split; [done|]. intros ->. rewrite !Z.mul_0_r, Z.mul_add_distr_l.
  pose proof (levy_split f side (price * q1) (price * q2) Hf ltac:(nia) ltac:(nia)).
  change (0 / 1000000) with 0. split; [|lia].
  destruct Hf. assert (0 <= price * q1) by nia. unfold levy.
  assert (forall x m, 0 <= x -> 0 < m -> 0 <= x / m) as Hd by (intros; by apply Z.div_pos).
  assert (0 <= price * q1 * fm_txn_bp100 f / 1000000) by (apply Hd; nia).
  assert (0 <= price * q1 * fm_sebi_bp100 f / 1000000) by (apply Hd; nia).
  rewrite Z.sub_0_r. repeat apply Z.add_nonneg_nonneg; try done; apply Hd; try done; try nia.
  destruct side; nia.
Qed.

(** Selling 50 at 10,000.00, at once and in two parts. *)
Lemma fees_exact_and_split_witness :
  cost_paise FeeModel_default kSell 1000000 20 + cost_paise FeeModel_default kSell 1000000 30 <=
  cost_paise FeeModel_default kSell 1000000 50 /\ cost_paise FeeModel_default kSell 1000000 50 = 11180.
Proof.
  split; [|vm_compute; reflexivity].
  destruct (fees_exact_and_split FeeModel_default kSell 1000000 20 30) as [_ H];
    [split; vm_compute; split; congruence|lia|lia|lia|vm_compute; congruence|].
  apply H. reflexivity.
Defined.
