(* ===== verification/LatencyStats.v ===== *)
(** * LatencyStats: percentiles of the latency tracker
      (src/common/time_utils.hpp, LatencyTracker::percentile)

    The rank is computed in double precision as in the source; [std::sort] is a
    merge sort, of which only "a sorted permutation" is used. *)

From Stdlib Require Import ZArith Lia SpecFloat.
From stdpp Require Import base list numbers option sorting.
From S2P Require Import Prelude Types Double Rounding TimeUtils.

Local Open Scope Z_scope.

Definition percentile (p : spec_float) (t : LatencyTracker) : option Z :=
  let n := lt_retained t in
  if n =? 0 then Some 0
  else
    let sorted := merge_sort Z.le (take (Z.to_nat n) (lt_samples t)) in
    let rank := dbl_mul (dbl_div p (dbl 100)) (dbl (n - 1)) in
    idx ← dbl_to_size (dbl_add rank (dbl_div (dbl 1) (dbl 2)));
    let idx := if idx >=? n then n - 1 else idx in
    sorted !! Z.to_nat idx.

Definition p50 := percentile (dbl 50).
Definition p99 := percentile (dbl 99).
Definition p999 := percentile (dbl_div (dbl 999) (dbl 10)).

(** A run of measurements. *)
Definition measured (max_samples : nat) (ns : list Z) : LatencyTracker :=
  foldl (fun t x => lt_record x t) (LatencyTracker_new max_samples) ns.

Lemma measured_fields max ns :
  Forall (in_u 64) ns -> Z.of_nat (length ns) < 2 ^ 64 ->
  let t := measured max ns in
  lt_count t = Z.of_nat (length ns) /\ length (lt_samples t) = max /\
  take (length ns) (lt_samples t) = take max ns /\
  Forall (fun x => lt_min t <= x <= lt_max t) ns /\ lt_sum t = u64 (zsum id ns).
Proof.
  induction ns as [|x ns IH] using rev_ind; intros Hall Hlen.
  { simpl. rewrite length_replicate, take_nil. split_and!; try done. }
  rewrite length_app in Hlen. simpl in Hlen. apply Forall_app in Hall as [Hall Hx].
  destruct (IH Hall ltac:(lia)) as (H1 & H2 & H3 & H4 & H5). clear IH.
  unfold measured in *. rewrite foldl_snoc. set (t := foldl _ _ ns) in *. cbn [lt_record lt_count
    lt_samples lt_min lt_max lt_sum]. rewrite H1, H2, H5, zsum_app, length_app, Nat2Z.id.
  split_and!.
  - simpl. rewrite wrap_u_id by ranges. lia.
  - case_if; [by rewrite length_insert|done].
  - simpl. case_if.
    + rewrite (take_ge ns) in H3 by lia. rewrite (take_ge (ns ++ [x])) by (rewrite length_app; simpl; lia).
      rewrite Nat.add_1_r, (take_S_r _ _ x); [|apply list_lookup_insert_eq; lia].
      by rewrite take_insert_ge, H3.
    + rewrite take_app_le by lia. rewrite <- H3. rewrite !take_ge by lia. done.
  - apply Forall_app. split; [|constructor; [lia|constructor]].
    eapply Forall_impl; [exact H4|]. simpl. lia.
  - rewrite wrap_u_add_l by lia. simpl. f_equal. unfold id. lia.
Qed.

(** How many samples are at most, and at least, [v]. *)
Definition count_le (v : Z) (l : list Z) : nat := length (filter (fun x => x <= v) l).
Definition count_ge (v : Z) (l : list Z) : nat := length (filter (fun x => v <= x) l).

Lemma filter_whole (P : Z -> Prop) `{!forall x, Decision (P x)} (l : list Z) :
  (forall x, x ∈ l -> P x) -> filter P l = l.
Proof.
  induction l as [|x l IH]; intros HP; [done|].
  rewrite filter_cons_True by (apply HP; by left). f_equal. apply IH. intros y ?. apply HP. by right.
Qed.

Lemma sorted_split (l : list Z) i v :
  StronglySorted Z.le l -> l !! i = Some v ->
  (i < count_le v l)%nat /\ (length l - i <= count_ge v l)%nat.
Proof.
  intros Hs Hi. pose proof (lookup_lt_Some _ _ _ Hi) as Hlt.
  pose proof (take_drop_middle l i v Hi) as E. rewrite <- E in Hs.
  apply StronglySorted_app in Hs as (Hcross & _ & Htail).
  apply StronglySorted_inv in Htail as [_ Htail]. rewrite Forall_forall in Htail.
  unfold count_le, count_ge. rewrite <- E, !list.filter_app, !length_app, !filter_cons_True by lia.
  cbn [length]. split.
  - rewrite (filter_whole (fun x => x <= v) (take i l)).
    + rewrite length_take. lia.
    + intros x Hx. apply Hcross; [done|by left].
  - rewrite (filter_whole (fun x => v <= x) (drop (S i) l)).
    + rewrite length_take, length_drop. lia.
    + intros x Hx. by apply Htail.
Qed.

Lemma count_perm v l l' :
  l ≡ₚ l' -> count_le v l = count_le v l' /\ count_ge v l = count_ge v l'.
Proof.
  intros Hp. unfold count_le, count_ge. split; apply Permutation_length; by rewrite Hp.
Qed.

(** Percentiles are order statistics: whatever the percentage, the value
    reported after a run of measurements is one of the retained ones (the first
    [max_samples]), it lies between the recorded minimum and maximum, and for some
    rank [i] more than [i] retained samples are at most it and all but [i] are at
    least it. *)
Theorem percentile_order_statistic max_samples ns p v :
  Forall (in_u 64) ns -> Z.of_nat (length ns) < 2 ^ 64 -> ns <> [] -> max_samples <> 0%nat ->
  percentile p (measured max_samples ns) = Some v ->
  let t := measured max_samples ns in
  let kept := take max_samples ns in
  v ∈ kept /\ lt_minimum t <= v <= lt_max t /\
  exists i, (i < length kept)%nat /\ (i < count_le v kept)%nat /\
    (length kept - i <= count_ge v kept)%nat.
Proof.
  intros Hall Hlen Hne Hmax Hp. cbv zeta.
  destruct (measured_fields max_samples ns Hall Hlen) as (H1 & H2 & H3 & H4 & _).
  set (t := measured max_samples ns) in *.
  assert (length ns <> 0%nat) as Hns by by destruct ns.
  assert (take (Z.to_nat (lt_retained t)) (lt_samples t) = take max_samples ns) as Hkept.
  { unfold lt_retained. rewrite H1, H2, <- H3. destruct (decide (length ns <= max_samples)%nat).
    - f_equal. lia.
    - rewrite !take_ge by lia. done. }
  unfold percentile in Hp. destruct (lt_retained t =? 0) eqn:Hr.
  { unfold lt_retained in Hr. bool_arith. lia. }
  destruct (dbl_to_size _) as [idx|]; [|done]. cbn [mbind option_bind] in Hp. rewrite Hkept in Hp.
  set (i := Z.to_nat _) in Hp.
  pose proof (merge_sort_Permutation Z.le (take max_samples ns)) as Hperm.
  assert (StronglySorted Z.le (merge_sort Z.le (take max_samples ns))) as Hss.
  { apply Sorted_StronglySorted; [exact _|]. apply Sorted_merge_sort. exact _. }
  assert (v ∈ take max_samples ns) as Hin by (rewrite <- Hperm; by eapply list_elem_of_lookup_2).
  split; [done|]. split.
  - unfold lt_minimum. rewrite H1, (proj2 (Z.eqb_neq _ _)) by lia.
    rewrite Forall_forall in H4. apply H4. by eapply subseteq_take.
  - exists i. destruct (sorted_split _ i v Hss Hp) as [K1 K2].
    destruct (count_perm v _ _ Hperm) as [E1 E2]. rewrite E1 in K1. rewrite E2 in K2.
    apply lookup_lt_Some in Hp. rewrite (Permutation_length Hperm) in Hp, K2. done.
Qed.

Lemma percentile_order_statistic_witness :
  p99 (measured 8 [900; 300; 700; 500]) = Some 900 /\ 900 ∈ [900; 300; 700; 500].
Proof.
  assert (p99 (measured 8 [900; 300; 700; 500]) = Some 900) as Hv by (vm_compute; reflexivity).
  split; [exact Hv|].
  apply (percentile_order_statistic 8 [900; 300; 700; 500] (dbl 99) 900); [|vm_compute; reflexivity
    |discriminate|discriminate|exact Hv].
  repeat constructor; vm_compute; congruence.
Defined.

(** ** The reported percentiles are defined *)

(** For a percentage whose fraction is at most 1 the rank is a finite number, however
    many samples there are. *)
Lemma percentile_defined p t :
  below 0 (dbl_div p (dbl 100)) -> 0 <= lt_count t < 2 ^ 64 -> is_Some (percentile p t).
Proof.
  intros Hp Hn. unfold percentile. case_if; [by eexists|].
  assert (0 <= lt_retained t - 1 < 2 ^ 64) as Hr by (unfold lt_retained in *; lia).
  assert (below 0 (dbl_div (dbl 1) (dbl 2))) as Hhalf by (vm_compute; intuition congruence).
  destruct (below_to_size 68 (dbl_add (dbl_mul (dbl_div p (dbl 100)) (dbl (lt_retained t - 1)))
    (dbl_div (dbl 1) (dbl 2)))) as [idx ->].
  { apply (dbl_add_below 66); [lia| |by apply (below_weaken 0)].
    apply (dbl_mul_below 0 65); [lia|done|]. by apply (dbl_below 64). }
  cbn [mbind option_bind].
  apply lookup_lt_is_Some. rewrite (Permutation_length (merge_sort_Permutation _ _)), length_take.
  unfold lt_retained in *. case_if; lia.
Qed.

Lemma reported_defined t :
  0 <= lt_count t < 2 ^ 64 -> is_Some (p50 t) /\ is_Some (p99 t) /\ is_Some (p999 t).
Proof.
  intros Hn. split_and!; (apply percentile_defined; [|done]); vm_compute; intuition congruence.
Qed.

(** ** The reported percentiles are ordered, and the median is exact *)

(** The index computed for a fraction [fp] of [n] samples. *)
Definition rank_of (fp : spec_float) (n : Z) : spec_float :=
  dbl_add (dbl_mul fp (dbl (n - 1))) (dbl_div (dbl 1) (dbl 2)).

Definition half : spec_float := dbl_div (dbl 1) (dbl 2).

Lemma scale_pos : 0 < 2 ^ kScale.
Proof. apply Z.pow_pos_nonneg; scale; lia. Qed.

Lemma half_units : canon half /\ units half * 2 = 2 ^ kScale.
Proof.
  split; [vm_compute; intuition congruence|].
  change half with (S754_finite false 4503599627370496 (-53)). cbn [units].
  change 4503599627370496 with (2 ^ 52). replace (-53 + kScale) with (kScale - 53) by lia. scale.
  replace (2 ^ kScale) with (2 ^ (53 + (kScale - 53))) by (f_equal; lia). rewrite Z.pow_add_r by lia. lia.
Qed.

(** A fraction between 0 and 1. *)
Definition fraction (fp : spec_float) : Prop := canon fp /\ units fp <= 2 ^ kScale.

Lemma rank_parts fp n :
  fraction fp -> in_u 64 (n - 1) ->
  rn (units fp * units (dbl (n - 1))) (2 ^ kScale) (dbl_mul fp (dbl (n - 1))) /\
  rn (units (dbl_mul fp (dbl (n - 1))) + units half) 1 (rank_of fp n).
Proof.
  intros [Hc Hf] Hn. destruct (dbl_u64 (n - 1) Hn) as (Hd & Hu & _). pose proof scale_pos as HP.
  pose proof (units_nonneg fp). pose proof (units_nonneg (dbl (n - 1))).
  assert (2 ^ 66 < 2 ^ 900) as Hbig by (apply Z.pow_lt_mono_r; lia).
  assert (2 ^ kScale * 2 ^ 66 < 2 ^ (kScale + 900)) as Hroom.
  { rewrite (Z.pow_add_r 2 kScale) by (scale; lia). nia. }
  assert (rn (units fp * units (dbl (n - 1))) (2 ^ kScale) (dbl_mul fp (dbl (n - 1)))) as H1.
  { apply dbl_mul_rn; [done|done|]. assert (units fp * units (dbl (n - 1)) <= 2 ^ kScale * (2 ^ 64 * 2 ^ kScale)) by nia. nia. }
  split; [exact H1|]. destruct half_units as [Hh Eh]. apply dbl_add_rn; [apply H1|exact Hh|].
  destruct (scaled_float 1 64) as (g & Hg & Eg); [lia|lia|].
  assert (units (dbl_mul fp (dbl (n - 1))) <= units g) as Hle.
  { apply (rn_mono _ (2 ^ kScale) _ 1 _ _ HP ltac:(lia) H1 (rn_canon g Hg)). rewrite Eg.
    rewrite Z.pow_add_r by (scale; lia). nia. }
  rewrite Eg, Z.pow_add_r in Hle by (scale; lia). nia.
Qed.

Lemma rank_mono fp fq n :
  fraction fp -> fraction fq -> units fp <= units fq -> in_u 64 (n - 1) ->
  exists i j, dbl_to_size (rank_of fp n) = Some i /\ dbl_to_size (rank_of fq n) = Some j /\ 0 <= i <= j.
Proof.
  intros Hp Hq Hle Hn. destruct (rank_parts fp n Hp Hn) as [P1 P2]. destruct (rank_parts fq n Hq Hn) as [Q1 Q2].
  pose proof scale_pos as HP. pose proof (units_nonneg (dbl (n - 1))).
  assert (units (dbl_mul fp (dbl (n - 1))) <= units (dbl_mul fq (dbl (n - 1)))) as H1.
  { apply (rn_mono _ _ _ _ _ _ HP HP P1 Q1). apply Z.mul_le_mono_nonneg_r; [lia|]. by apply Z.mul_le_mono_nonneg_r. }
  assert (units (rank_of fp n) <= units (rank_of fq n)) as H2.
  { apply (rn_mono _ 1 _ 1 _ _ ltac:(lia) ltac:(lia) P2 Q2). lia. }
  eexists _, _. rewrite !to_size_units by apply P2 || apply Q2. split_and!; [done|done| |].
  - apply Z.div_pos; [apply units_nonneg|done].
  - apply Z.div_le_mono; [done|done].
Qed.

Lemma sorted_lookup_le (l : list Z) i j v w :
  StronglySorted Z.le l -> (i <= j)%nat -> l !! i = Some v -> l !! j = Some w -> v <= w.
Proof.
  intros Hs. revert i j. induction Hs as [|x l Hs IH Hx]; intros [|i] [|j] Hij Hv Hw; try done; try lia.
  - cbn in *. simplify_eq. lia.
  - cbn in *. simplify_eq. rewrite Forall_forall in Hx. apply Hx. by eapply list_elem_of_lookup_2.
  - apply (IH i j); [lia|done|done].
Qed.

(** A larger percentage never reports a smaller latency. *)
Lemma percentile_mono p q t :
  fraction (dbl_div p (dbl 100)) -> fraction (dbl_div q (dbl 100)) ->
  units (dbl_div p (dbl 100)) <= units (dbl_div q (dbl 100)) -> 0 <= lt_count t < 2 ^ 64 ->
  exists v w, percentile p t = Some v /\ percentile q t = Some w /\ v <= w.
Proof.
  intros Hp Hq Hle Hn. unfold percentile. destruct (Z.eqb_spec (lt_retained t) 0) as [|Hne]; [by exists 0, 0|].
  set (n := lt_retained t) in *.
  assert (0 < n <= lt_count t /\ n <= Z.of_nat (length (lt_samples t))) as Hr by (unfold n, lt_retained in *; lia).
  destruct (rank_mono _ _ n Hp Hq Hle) as (i & j & Hi & Hj & Hij); [unfold in_u; cbn; lia|].
  unfold rank_of in Hi, Hj. rewrite Hi, Hj. cbn [mbind option_bind].
  set (l := merge_sort Z.le (take (Z.to_nat n) (lt_samples t))).
  assert (length l = Z.to_nat n) as Hl.
  { unfold l. rewrite (Permutation_length (merge_sort_Permutation _ _)), length_take. lia. }
  set (i1 := if i >=? n then _ else i). set (j1 := if j >=? n then _ else j).
  assert (0 <= i1 <= j1 /\ j1 < n) as H1.
  { unfold i1, j1. rewrite !Z.geb_leb. destruct (Z.leb_spec n i), (Z.leb_spec n j); lia. }
  destruct (lookup_lt_is_Some_2 l (Z.to_nat i1)) as [v Hv]; [lia|].
  destruct (lookup_lt_is_Some_2 l (Z.to_nat j1)) as [w Hw]; [lia|].
  exists v, w. split_and!; [done|done|]. apply (sorted_lookup_le l (Z.to_nat i1) (Z.to_nat j1)); [|lia|done|done].
  apply Sorted_StronglySorted; [exact _|]. apply Sorted_merge_sort. exact _.
Qed.

(** The median: half of at most [2^53] samples is computed exactly. *)
Lemma rank_half n : 1 <= n <= 2 ^ 53 -> dbl_to_size (rank_of half n) = Some (n / 2).
Proof.
  intros Hn. destruct half_units as [Hh Eh]. pose proof scale_pos as HP. pose proof (units_nonneg half).
  assert (fraction half) as Hf by (split; [done|lia]).
  destruct (rank_parts half n Hf) as [P1 P2]; [unfold in_u; cbn; lia|].
  destruct (dbl_int (n - 1)) as [_ En]; [lia|].
  assert (2 ^ kScale = 2 * 2 ^ (-1 + kScale)) as E2.
  { rewrite <- Z.pow_succ_r by (scale; lia). f_equal; lia. }
  assert (units (dbl_mul half (dbl (n - 1))) = (n - 1) * 2 ^ (-1 + kScale)) as Em.
  { destruct (scaled_float (n - 1) (-1)) as (g & Hg & Eg); [lia|lia|]. rewrite <- Eg.
    apply (rn_exact _ _ _ g HP P1 Hg). rewrite Eg, En. nia. }
  assert (units (rank_of half n) = n * 2 ^ (-1 + kScale)) as Er.
  { destruct (scaled_float n (-1)) as (g & Hg & Eg); [lia|lia|]. rewrite <- Eg.
    apply (rn_exact _ 1 _ g ltac:(lia) P2 Hg). rewrite Eg, Em. lia. }
  rewrite to_size_units by apply P2. f_equal. rewrite Er, E2, Z.mul_comm, (Z.mul_comm 2).
  apply Z.div_mul_cancel_l; [lia|]. apply Z.pow_nonzero; scale; lia.
Qed.

(** The three fractions, all stored with the exponent -53. *)
Lemma report_fractions :
  let f50 := dbl_div (dbl 50) (dbl 100) in
  let f99 := dbl_div (dbl 99) (dbl 100) in
  let f999 := dbl_div (dbl_div (dbl 999) (dbl 10)) (dbl 100) in
  f50 = half /\ fraction f50 /\ fraction f99 /\ fraction f999 /\ units f50 <= units f99 <= units f999.
Proof.
  assert (forall m, Zpos m < 2 ^ 53 -> 2 ^ 52 <= Zpos m -> fraction (S754_finite false m (-53))) as Hf.
  { intros m H1 H2. split; [cbn; lia|]. cbn [units]. scale.
    replace (2 ^ kScale) with (2 ^ (53 + (-53 + kScale))) by (f_equal; lia). rewrite (Z.pow_add_r 2 53) by lia. nia. }
  assert (forall m m', Zpos m <= Zpos m' -> units (S754_finite false m (-53)) <= units (S754_finite false m' (-53))) as Hu.
  { intros m m' H. cbn [units]. apply Z.mul_le_mono_nonneg_r; [apply Z.pow_nonneg; lia|done]. }
  cbv zeta. split; [vm_compute; reflexivity|].
  assert (dbl_div (dbl 50) (dbl 100) = S754_finite false 4503599627370496 (-53)) as -> by (vm_compute; reflexivity).
  assert (dbl_div (dbl 99) (dbl 100) = S754_finite false 8917127262193582 (-53)) as -> by (vm_compute; reflexivity).
  assert (dbl_div (dbl_div (dbl 999) (dbl 10)) (dbl 100) = S754_finite false 8998192055486252 (-53)) as ->
    by (vm_compute; reflexivity).
  split; [apply Hf; lia|]. split; [apply Hf; lia|]. split; [apply Hf; lia|]. split; apply Hu; lia.
Qed.

(** What a percentile of a run is: a retained sample within the recorded bounds, the one of the
    computed rank when that is in range. *)
Lemma percentile_kept max_samples ns p v :
  Forall (in_u 64) ns -> Z.of_nat (length ns) < 2 ^ 64 -> ns <> [] -> max_samples <> 0%nat ->
  let t := measured max_samples ns in
  let kept := take max_samples ns in
  percentile p t = Some v ->
  v ∈ kept /\ lt_minimum t <= v <= lt_max t /\
  forall i, dbl_to_size (rank_of (dbl_div p (dbl 100)) (Z.of_nat (length kept))) = Some i ->
    0 <= i < Z.of_nat (length kept) -> merge_sort Z.le kept !! Z.to_nat i = Some v.
Proof.
  intros Hall Hlen Hne Hmax. cbv zeta. intros Hv.
  destruct (measured_fields max_samples ns Hall Hlen) as (H1 & H2 & H3 & H4 & _).
  set (t := measured max_samples ns) in *. unfold percentile in Hv.
  assert (length ns <> 0%nat) as Hns by (destruct ns; [done|discriminate]).
  assert (take (Z.to_nat (lt_retained t)) (lt_samples t) = take max_samples ns /\
          lt_retained t = Z.of_nat (length (take max_samples ns))) as [Hk Hr].
  { unfold lt_retained. rewrite H1, H2, <- H3, length_take, H2. destruct (decide (length ns <= max_samples)%nat).
    - split; [f_equal; lia|lia].
    - rewrite !take_ge by lia. split; [done|lia]. }
  rewrite Hk, Hr in Hv. rewrite (proj2 (Z.eqb_neq _ _)) in Hv by (rewrite length_take; lia).
  fold (rank_of (dbl_div p (dbl 100)) (Z.of_nat (length (take max_samples ns)))) in Hv.
  destruct (dbl_to_size (rank_of _ _)) as [i|]; [|done]. cbn [mbind option_bind] in Hv.
  assert (v ∈ take max_samples ns) as Hin.
  { rewrite <- (merge_sort_Permutation Z.le (take max_samples ns)). by eapply list_elem_of_lookup_2. }
  split_and!; [done| | |].
  - unfold lt_minimum. rewrite H1, (proj2 (Z.eqb_neq _ _)) by lia. rewrite Forall_forall in H4.
    apply H4. by eapply subseteq_take.
  - rewrite Forall_forall in H4. apply H4. by eapply subseteq_take.
  - intros j [= <-] Hj. rewrite Z.geb_leb, (proj2 (Z.leb_gt _ _)) in Hv by lia. exact Hv.
Qed.

(** C32.  The latency report is exact where it can be and ordered everywhere.  After any run
    of measurements into a tracker of at most [2^53] samples, the three percentiles are
    defined, p50 is the sample of rank [n / 2] of the [n] retained ones in sorted order, and
    the minimum, p50, p99, p999 and the maximum come in this order, although the ranks are
    computed in binary64 with rounding. *)
Theorem latency_report_ordered max_samples ns :
  Forall (in_u 64) ns -> Z.of_nat (length ns) < 2 ^ 64 -> ns <> [] ->
  max_samples <> 0%nat -> Z.of_nat max_samples <= 2 ^ 53 ->
  let t := measured max_samples ns in
  let kept := take max_samples ns in
  exists a b c, p50 t = Some a /\ p99 t = Some b /\ p999 t = Some c /\
    merge_sort Z.le kept !! (length kept / 2)%nat = Some a /\
    lt_minimum t <= a /\ a <= b /\ b <= c /\ c <= lt_max t.
Proof.
  intros Hall Hlen Hne Hmax Hcap. cbv zeta.
  destruct (measured_fields max_samples ns Hall Hlen) as (H1 & H2 & H3 & H4 & _).
  set (t := measured max_samples ns) in *.
  destruct report_fractions as (E50 & F50 & F99 & F999 & U1 & U2).
  assert (0 <= lt_count t < 2 ^ 64) as Hc by lia.
  destruct (percentile_mono _ _ t F50 F99 U1 Hc) as (a & b & Ha & Hb & Hab).
  destruct (percentile_mono _ _ t F99 F999 U2 Hc) as (b' & c & Hb' & Hc' & Hbc).
  rewrite Hb in Hb'. injection Hb' as <-.
  assert (forall p v, percentile p t = Some v -> lt_minimum t <= v <= lt_max t) as Hrange.
  { intros p v Hv. by apply (percentile_kept max_samples ns p v Hall Hlen Hne Hmax Hv). }
  exists a, b, c. split_and!; [done|done|done| |by apply (Hrange _ _ Ha)|done|done|by apply (Hrange _ _ Hc')].
  assert (1 <= Z.of_nat (length (take max_samples ns)) <= 2 ^ 53) as Hn.
  { rewrite length_take. destruct ns; [done|]. cbn [length]. lia. }
  destruct (percentile_kept _ _ _ _ Hall Hlen Hne Hmax Ha) as (_ & _ & Hrank). rewrite E50 in Hrank.
  specialize (Hrank _ (rank_half _ Hn)). rewrite Z2Nat.inj_div, Nat2Z.id in Hrank by lia. apply Hrank.
  split; [apply Z.div_pos; lia|]. apply Z.div_lt; lia.
Qed.

Lemma latency_report_ordered_witness :
  exists a b c, p50 (measured 8 [900; 300; 700; 500]) = Some a /\ p99 (measured 8 [900; 300; 700; 500]) = Some b /\
    p999 (measured 8 [900; 300; 700; 500]) = Some c /\ merge_sort Z.le [900; 300; 700; 500] !! 2%nat = Some a /\
    a <= b /\ b <= c.
Proof.
  destruct (latency_report_ordered 8 [900; 300; 700; 500]) as (a & b & c & H1 & H2 & H3 & H4 & _ & H5 & H6 & _).
  - repeat constructor; vm_compute; congruence.
  - vm_compute. reflexivity.
  - discriminate.
  - discriminate.
  - vm_compute. discriminate.
  - exists a, b, c. split; [exact H1|]. split; [exact H2|]. split; [exact H3|]. split; [exact H4|].
    split; [exact H5|exact H6].
Defined.
