(* ===== verification/LatencyHistogram.v ===== *)
(** * LatencyHistogram: the latency tool (tools/latency_histogram.cpp)

    The tool reads samples with [fscanf], records them and renders fifty percentiles as bars.
    A rendered line is its percentage, value and bar length; the text around the numbers is
    left out.  [demo] is the list of draws of the built-in distribution. *)

From Stdlib Require Import ZArith Lia SpecFloat Ascii.
From stdpp Require Import base list numbers option sorting.
From S2P Require Import Prelude Types Double Rounding Text TimeUtils LatencyStats.

Local Open Scope Z_scope.

(** ** Reading *)

Fixpoint skip_digits (s : text) : text :=
  match s with c :: s' => if is_digit c then skip_digits s' else s | [] => [] end.

(** [fscanf(f, "%llu", &v) == 1], with what is left of the stream. *)
Definition scan_llu (s : text) : option (Z * text) :=
  let '(_, _, any) := read_number s in
  if any then Some (strtoul s, skip_digits (read_sign (skip_space s)).2) else None.

(** The [while] loop; a number takes at least one character. *)
Fixpoint read_samples (fuel : nat) (s : text) (lt : LatencyTracker) (max_ns : Z) : option (LatencyTracker * Z) :=
  match fuel with
  | O => None
  | S fuel =>
      match scan_llu s with
      | None => Some (lt, max_ns)
      | Some (v, s) => read_samples fuel s (lt_record v lt) (if v >? max_ns then v else max_ns)
      end
  end.

(** The loop over the draws. *)
Definition record_draws (draws : list Z) (lt : LatencyTracker) (max_ns : Z) : LatencyTracker * Z :=
  foldl (fun acc v => (lt_record v acc.1, if v >? acc.2 then v else acc.2)) (lt, max_ns) draws.

(** ** Rendering *)

Definition kBuckets : Z := 50.

Record HistRow := { hr_p : spec_float; hr_v : Z; hr_bar : Z }.

(** [static_cast<int>]; [None] where the cast is undefined. *)
Definition dbl_to_int (d : spec_float) : option Z :=
  v ← dbl_to_size d; if v <? 2 ^ 31 then Some v else None.

Definition render_row (lt : LatencyTracker) (max_ns i : Z) : option HistRow :=
  let p := dbl_div (dbl_mul (dbl 100) (dbl i)) (dbl kBuckets) in
  v ← percentile p lt;
  bar ← (if max_ns >? 0 then dbl_to_int (dbl_div (dbl_mul (dbl 60) (dbl v)) (dbl max_ns)) else Some 0);
  Some {| hr_p := p; hr_v := v; hr_bar := bar |}.

(** The rows and the summary line: minimum, p50, p99, p999, maximum, mean. *)
Definition Render (lt : LatencyTracker) (max_ns : Z) : option (list HistRow * list Z) :=
  rows ← mapM (render_row lt max_ns) (seqZ 1 kBuckets);
  a ← p50 lt; b ← p99 lt; c ← p999 lt;
  Some (rows, [lt_minimum lt; a; b; c; lt_max lt; lt_mean lt]).

Definition kHistogramSamples : nat := Z.to_nat 2000000.

(** [input]: no argument, or the named stream if it opens.  The result is the exit code and
    what was rendered. *)
Definition histogram_main (input : option (option text)) (demo : list Z)
    : option (Z * option (list HistRow * list Z)) :=
  let lt := LatencyTracker_new kHistogramSamples in
  match input with
  | Some None => Some (1, None)
  | Some (Some s) =>
      '(lt, max_ns) ← read_samples (S (length s)) s lt 0;
      r ← Render lt max_ns; Some (0, Some r)
  | None =>
      let '(lt, max_ns) := record_draws demo lt 0 in
      r ← Render lt max_ns; Some (0, Some r)
  end.

(** ** The file is read back *)

Definition sample_lines (ns : list Z) : text := concat ((fun n => dec n ++ [Ascii.ascii_of_nat 10]) <$> ns).

Lemma skip_digits_app ds s : all_digits ds -> ends_number s -> skip_digits (ds ++ s) = s.
Proof.
  intros Hd Hs. induction Hd as [|c ds Hc Hd IH]; cbn [app].
  - destruct s as [|c s]; [done|]. cbn in *. by rewrite Hs.
  - cbn [skip_digits]. by rewrite Hc.
Qed.

(** A newline left by the previous number is skipped. *)
Lemma scan_llu_dec n pre s :
  in_u 64 n -> Forall (fun c => is_space c = true) pre -> ends_number s -> scan_llu (pre ++ dec n ++ s) = Some (n, s).
Proof.
  intros Hn Hpre Hs. unfold in_u in Hn. cbn in Hn.
  assert (forall r, (forall c r', r = c :: r' -> is_space c = false) -> skip_space (pre ++ r) = r) as Hskip.
  { intros r Hr. induction Hpre as [|c pre Hc _ IH]; cbn [app skip_space]; [|by rewrite Hc].
    destruct r as [|c r]; [done|]. cbn. by rewrite (Hr c r). }
  destruct (dec_nonneg_spec n ltac:(lia)) as (Hall & Hne & Hread).
  assert (dec n = dec_nonneg n) as Ed by (unfold dec; by rewrite (proj2 (Z.ltb_ge _ _)) by lia).
  rewrite Ed. destruct (dec_nonneg n) as [|c ds] eqn:E; [done|].
  pose proof Hall as Hall'. apply Forall_cons_1 in Hall' as [Hc _]. apply digit_no_space in Hc as (Hsp & Hm & Hp).
  assert (skip_space (pre ++ (c :: ds) ++ s) = (c :: ds) ++ s) as Es.
  { apply Hskip. intros c' r'. cbn. by intros [= <- _]. }
  assert (read_sign ((c :: ds) ++ s) = (false, (c :: ds) ++ s)) as Esign.
  { cbn [app]. unfold read_sign. destruct c as [[] [] [] [] [] [] [] []]; done. }
  unfold scan_llu, strtoul, read_number. rewrite Es, Esign, (Hread s Hs). cbn [snd].
  rewrite Z.gtb_ltb, (proj2 (Z.ltb_ge _ _)) by lia. by rewrite skip_digits_app.
Qed.

Lemma scan_llu_end pre : Forall (fun c => is_space c = true) pre -> scan_llu pre = None.
Proof.
  intros Hpre. unfold scan_llu, read_number. assert (skip_space pre = []) as ->; [|done].
  induction Hpre as [|c pre Hc _ IH]; [done|]. cbn. by rewrite Hc.
Qed.

Lemma read_samples_lines fuel ns : forall pre lt max_ns,
  Forall (in_u 64) ns -> Forall (fun c => is_space c = true) pre ->
  (length (pre ++ sample_lines ns) < fuel)%nat ->
  read_samples fuel (pre ++ sample_lines ns) lt max_ns = Some (record_draws ns lt max_ns).
Proof.
  revert fuel. induction ns as [|n ns IH]; intros fuel pre lt max_ns Hall Hpre Hf.
  { destruct fuel; [lia|]. unfold sample_lines. cbn [fmap list_fmap concat read_samples]. rewrite app_nil_r.
    by rewrite scan_llu_end. }
  apply Forall_cons_1 in Hall as [Hn Hall]. destruct fuel as [|fuel]; [lia|].
  change (sample_lines (n :: ns)) with ((dec n ++ [Ascii.ascii_of_nat 10]) ++ sample_lines ns) in *.
  rewrite <- app_assoc in Hf |- *. cbn [read_samples]. rewrite scan_llu_dec by done.
  change ([Ascii.ascii_of_nat 10] ++ sample_lines ns) with ([Ascii.ascii_of_nat 10] ++ sample_lines ns).
  rewrite IH; [done|done|by constructor|]. pose proof (dec_nonempty n). rewrite !length_app in *.
  destruct (dec n); [done|]. cbn [length] in *. lia.
Qed.

(** The maximum kept beside the tracker is the tracker's. *)
Lemma record_draws_measured ns :
  record_draws ns (LatencyTracker_new kHistogramSamples) 0 =
    (measured kHistogramSamples ns, lt_max (measured kHistogramSamples ns)).
Proof.
  unfold record_draws, measured.
  assert (forall t, foldl (fun acc v => (lt_record v acc.1, if v >? acc.2 then v else acc.2)) (t, lt_max t) ns =
    (foldl (fun t x => lt_record x t) t ns, lt_max (foldl (fun t x => lt_record x t) t ns))) as H; [|apply H].
  induction ns as [|n ns IH]; intros t; [done|]. cbn [foldl fst snd]. rewrite <- IH. f_equal. f_equal.
  cbn [lt_record lt_max]. rewrite Z.gtb_ltb. destruct (Z.ltb_spec (lt_max t) n); lia.
Qed.

(** ** The percentages *)

Definition row_fraction (i : Z) : spec_float :=
  dbl_div (dbl_div (dbl_mul (dbl 100) (dbl i)) (dbl kBuckets)) (dbl 100).

(** [100.0 * i / kBuckets] is exactly [2 * i]. *)
Lemma row_percentage i :
  1 <= i <= 50 -> let p := dbl_div (dbl_mul (dbl 100) (dbl i)) (dbl kBuckets) in
  canon p /\ units p = 2 * i * 2 ^ kScale.
Proof.
  intros Hi. cbv zeta. pose proof scale_pos as HP. unfold kBuckets.
  assert (2 ^ 64 < 2 ^ 900) as Hbig by (apply Z.pow_lt_mono_r; lia).
  assert (2 ^ (kScale + 900) = 2 ^ kScale * 2 ^ 900) as Eb by (rewrite Z.pow_add_r by (scale; lia); lia).
  destruct (dbl_int 100) as [Ca Ea]; [lia|]. destruct (dbl_int i) as [Ci Ei]; [lia|].
  destruct (dbl_int 50) as [Cb Ec]; [lia|]. destruct (dbl_int (100 * i)) as [Cm Em]; [lia|].
  destruct (dbl_int (2 * i)) as [Cp Ep]; [lia|].
  assert (rn (units (dbl 100) * units (dbl i)) (2 ^ kScale) (dbl_mul (dbl 100) (dbl i))) as R1.
  { apply dbl_mul_rn; [done|done|]. rewrite Ea, Ei, Eb.
    apply Z.lt_le_trans with (2 ^ kScale * (2 ^ kScale * 2 ^ 64)); nia. }
  assert (units (dbl_mul (dbl 100) (dbl i)) = 100 * i * 2 ^ kScale) as E1.
  { rewrite <- Em. apply (rn_exact _ _ _ _ HP R1 Cm). rewrite Ea, Ei, Em. lia. }
  assert (rn (units (dbl_mul (dbl 100) (dbl i)) * 2 ^ kScale) (units (dbl 50))
            (dbl_div (dbl_mul (dbl 100) (dbl i)) (dbl 50))) as R2.
  { apply dbl_div_rn; [apply R1|done|lia|]. rewrite E1, Ec, Eb.
    apply Z.lt_le_trans with (50 * 2 ^ kScale * (2 ^ kScale * 2 ^ 64)); nia. }
  split; [apply R2|]. rewrite <- Ep. apply (rn_exact _ (units (dbl 50)) _ _ ltac:(lia) R2 Cp). rewrite E1, Ec, Ep. lia.
Qed.

Lemma row_fraction_rn i :
  1 <= i <= 50 -> rn (2 * i * 2 ^ kScale * 2 ^ kScale) (100 * 2 ^ kScale) (row_fraction i).
Proof.
  intros Hi. destruct (row_percentage i Hi) as [Cp Ep]. pose proof scale_pos as HP.
  assert (2 ^ 64 < 2 ^ 900) as Hbig by (apply Z.pow_lt_mono_r; lia).
  destruct (dbl_int 100) as [Ca Ea]; [lia|]. rewrite <- Ep, <- Ea. apply dbl_div_rn; [done|done|lia|].
  rewrite Ep, Ea, (Z.pow_add_r 2 kScale) by (scale; lia). nia.
Qed.

Lemma row_fractions i j :
  1 <= i <= j -> j <= 50 ->
  fraction (row_fraction i) /\ fraction (row_fraction j) /\ units (row_fraction i) <= units (row_fraction j).
Proof.
  intros Hij Hj. pose proof scale_pos as HP.
  assert (forall k, 1 <= k <= 50 -> fraction (row_fraction k)) as Hf.
  { intros k Hk. split; [apply row_fraction_rn; lia|]. destruct (dbl_int 1) as [C1 E1]; [lia|].
    rewrite <- (Z.mul_1_l (2 ^ kScale)), <- E1.
    apply (rn_mono _ (100 * 2 ^ kScale) _ 1 _ _ ltac:(lia) ltac:(lia) (row_fraction_rn k Hk) (rn_canon _ C1)).
    rewrite E1. nia. }
  split_and!; [apply Hf; lia|apply Hf; lia|].
  apply (rn_mono _ (100 * 2 ^ kScale) _ (100 * 2 ^ kScale) _ _ ltac:(lia) ltac:(lia)
    (row_fraction_rn i ltac:(lia)) (row_fraction_rn j ltac:(lia))). nia.
Qed.

(** ** The bars *)

Definition bar_value (max_ns v : Z) : spec_float := dbl_div (dbl_mul (dbl 60) (dbl v)) (dbl max_ns).

Lemma bar_rn max_ns v :
  in_u 64 v -> in_u 64 max_ns -> 0 < max_ns ->
  rn (60 * 2 ^ kScale * units (dbl v)) (2 ^ kScale) (dbl_mul (dbl 60) (dbl v)) /\
  rn (units (dbl_mul (dbl 60) (dbl v)) * 2 ^ kScale) (units (dbl max_ns)) (bar_value max_ns v).
Proof.
  intros Hv Hm Hpos. pose proof scale_pos as HP. destruct (dbl_int 60) as [C60 E60]; [lia|].
  destruct (dbl_u64 v Hv) as (Cv & Uv & _). destruct (dbl_u64 max_ns Hm) as (Cm & _ & Pm). specialize (Pm Hpos).
  assert (2 ^ 80 < 2 ^ 900) as Hbig by (apply Z.pow_lt_mono_r; lia).
  assert (2 ^ (kScale + 900) = 2 ^ kScale * 2 ^ 900) as Eb by (rewrite Z.pow_add_r by (scale; lia); lia).
  assert (rn (60 * 2 ^ kScale * units (dbl v)) (2 ^ kScale) (dbl_mul (dbl 60) (dbl v))) as R1.
  { rewrite <- E60. apply dbl_mul_rn; [done|done|]. rewrite E60, Eb.
    apply Z.lt_le_trans with (2 ^ kScale * (2 ^ kScale * 2 ^ 80)); [nia|]. nia. }
  split; [exact R1|]. apply dbl_div_rn; [apply R1|done|lia|]. rewrite Eb.
  destruct (scaled_float 1 70) as (g & Hg & Eg); [lia|lia|].
  assert (units (dbl_mul (dbl 60) (dbl v)) <= units g) as Hle.
  { apply (rn_mono _ _ _ 1 _ _ HP ltac:(lia) R1 (rn_canon g Hg)). rewrite Eg, Z.pow_add_r by (scale; lia). nia. }
  rewrite Eg, Z.pow_add_r in Hle by (scale; lia).
  apply Z.le_lt_trans with (2 ^ 70 * 2 ^ kScale * 2 ^ kScale); [nia|].
  apply Z.lt_le_trans with (2 ^ kScale * (2 ^ kScale * 2 ^ 80)); nia.
Qed.

(** A larger value has a bar at least as long. *)
Lemma bar_value_mono max_ns v w :
  in_u 64 v -> in_u 64 w -> in_u 64 max_ns -> 0 < max_ns -> v <= w ->
  units (bar_value max_ns v) <= units (bar_value max_ns w).
Proof.
  intros Hv Hw Hm Hpos Hle. destruct (bar_rn max_ns v Hv Hm Hpos) as [A1 A2]. pose proof scale_pos as HP.
  destruct (bar_rn max_ns w Hw Hm Hpos) as [B1 B2]. destruct (dbl_u64 max_ns Hm) as (_ & _ & Pm).
  specialize (Pm Hpos). pose proof (dbl_mono v w Hv Hw Hle) as Hu.
  assert (units (dbl_mul (dbl 60) (dbl v)) <= units (dbl_mul (dbl 60) (dbl w))) as H1.
  { apply (rn_mono _ _ _ _ _ _ HP HP A1 B1). apply Z.mul_le_mono_nonneg_r; [lia|].
    apply Z.mul_le_mono_nonneg_l; lia. }
  apply (rn_mono _ (units (dbl max_ns)) _ (units (dbl max_ns)) _ _ ltac:(lia) ltac:(lia) A2 B2).
  apply Z.mul_le_mono_nonneg_r; [lia|]. apply Z.mul_le_mono_nonneg_r; lia.
Qed.

(** The bar of the maximum is less than 61 characters, whatever the rounding of [60.0 * v]. *)
Lemma bar_value_max max_ns :
  in_u 64 max_ns -> 0 < max_ns -> 2 * units (bar_value max_ns max_ns) <= 121 * 2 ^ kScale.
Proof.
  intros Hm Hpos. destruct (bar_rn max_ns max_ns Hm Hm Hpos) as [A1 A2]. pose proof scale_pos as HP.
  destruct (dbl_u64 max_ns Hm) as (_ & _ & Pm). specialize (Pm Hpos). set (u := units (dbl max_ns)) in *.
  set (y := units (dbl_mul (dbl 60) (dbl max_ns))) in *.
  assert (y * 2 ^ 52 * 2 ^ kScale <= 60 * 2 ^ kScale * u * (2 ^ 52 + 1)) as H1.
  { apply (rn_upper _ _ _ HP A1). unfold kMinShift.
    assert (2 ^ (kScale - 1074 + 52) <= 2 ^ kScale) by (apply Z.pow_le_mono_r; scale; lia). nia. }
  assert (2 * y <= 121 * u) as H2.
  { apply (Z.mul_le_mono_pos_r _ _ (2 ^ 52 * 2 ^ kScale)); [lia|].
    apply Z.le_trans with (2 * (60 * 2 ^ kScale * u * (2 ^ 52 + 1))); [lia|]. nia. }
  destruct (scaled_float 121 (-1)) as (g & Hg & Eg); [lia|lia|].
  assert (2 ^ kScale = 2 * 2 ^ (-1 + kScale)) as E2.
  { rewrite <- Z.pow_succ_r by (scale; lia). f_equal; lia. }
  assert (units (bar_value max_ns max_ns) <= units g) as H3.
  { apply (rn_mono _ u _ 1 _ _ ltac:(lia) ltac:(lia) A2 (rn_canon g Hg)). rewrite Eg. fold y. nia. }
  rewrite Eg in H3. lia.
Qed.

Lemma bar_defined max_ns v :
  in_u 64 v -> in_u 64 max_ns -> 0 < max_ns -> v <= max_ns ->
  dbl_to_int (bar_value max_ns v) = Some (units (bar_value max_ns v) / 2 ^ kScale) /\
  0 <= units (bar_value max_ns v) / 2 ^ kScale <= 60.
Proof.
  intros Hv Hm Hpos Hle. pose proof scale_pos as HP.
  pose proof (bar_value_mono max_ns v max_ns Hv Hm Hm Hpos Hle). pose proof (bar_value_max max_ns Hm Hpos).
  assert (0 <= units (bar_value max_ns v) / 2 ^ kScale <= 60) as Hb.
  { split; [apply Z.div_pos; [apply units_nonneg|done]|].
    assert (units (bar_value max_ns v) / 2 ^ kScale < 61); [|lia]. apply Z.div_lt_upper_bound; lia. }
  split; [|done]. unfold dbl_to_int. rewrite to_size_units by apply (bar_rn max_ns v Hv Hm Hpos).
  cbn [mbind option_bind]. by rewrite (proj2 (Z.ltb_lt _ _)) by lia.
Qed.

(** ** The histogram *)

(** The rank of the last row. *)
Lemma rank_full n : 1 <= n <= 2 ^ 52 -> dbl_to_size (rank_of (row_fraction 50) n) = Some (n - 1).
Proof.
  intros Hn. pose proof scale_pos as HP. destruct half_units as [Hh Eh].
  destruct (row_fractions 50 50) as (Hf & _ & _); [lia|lia|].
  destruct (dbl_int 1) as [C1 E1]; [lia|].
  assert (units (row_fraction 50) = 2 ^ kScale) as Ef.
  { rewrite <- (Z.mul_1_l (2 ^ kScale)), <- E1.
    apply (rn_exact _ (100 * 2 ^ kScale) _ _ ltac:(lia) (row_fraction_rn 50 ltac:(lia)) C1). rewrite E1. lia. }
  destruct (rank_parts (row_fraction 50) n Hf) as [P1 P2]; [unfold in_u; cbn; lia|].
  destruct (dbl_int (n - 1)) as [Cn En]; [lia|].
  assert (units (dbl_mul (row_fraction 50) (dbl (n - 1))) = (n - 1) * 2 ^ kScale) as Em.
  { rewrite <- En. apply (rn_exact _ _ _ _ HP P1 Cn). rewrite Ef. lia. }
  destruct (scaled_float (2 * n - 1) (-1)) as (g & Hg & Eg); [lia|lia|].
  assert (2 ^ kScale = 2 * 2 ^ (-1 + kScale)) as E2.
  { rewrite <- Z.pow_succ_r by (scale; lia). f_equal; lia. }
  assert (units (rank_of (row_fraction 50) n) = units g) as Er.
  { apply (rn_exact _ 1 _ g ltac:(lia) P2 Hg). rewrite Em, Eg. lia. }
  rewrite to_size_units by apply P2. f_equal. rewrite Er, Eg.
  symmetry. apply Z.div_unique with (2 ^ (-1 + kScale)); [left|]; lia.
Qed.

Section Shape.
Context (cap : nat) (ns : list Z).
Context (Hcap : 1 <= Z.of_nat cap <= 2 ^ 52) (Hall : Forall (in_u 64) ns) (Hlen : Z.of_nat (length ns) < 2 ^ 64)
  (Hne : ns <> []).
Let t := measured cap ns.
Let M := lt_max t.
Let kept := take cap ns.

Lemma shape_count : 0 <= lt_count t < 2 ^ 64.
Proof using Hall Hlen. destruct (measured_fields cap ns Hall Hlen) as [H1 _]. unfold t. lia. Qed.

Lemma shape_max : in_u 64 M.
Proof using Hall.
  unfold M, t. clear -Hall. induction ns as [|x l IH] using rev_ind; [done|]. unfold measured in *. rewrite foldl_snoc.
  cbn [lt_record lt_max]. apply Forall_app in Hall as [Ha Hx]. apply Forall_cons_1 in Hx as [Hx _].
  specialize (IH Ha). unfold in_u in *. lia.
Qed.

Lemma shape_value p v : percentile p t = Some v -> v ∈ kept /\ in_u 64 v /\ v <= M.
Proof using Hcap Hall Hlen Hne.
  intros Hv. destruct (percentile_kept cap ns p v Hall Hlen Hne ltac:(lia) Hv) as (A & B & _).
  split; [exact A|]. split; [|apply B]. rewrite Forall_forall in Hall. apply Hall. by eapply subseteq_take.
Qed.

(** Two rows, the second not before the first. *)
Lemma shape_rows i j :
  1 <= i <= j -> j <= 50 ->
  exists r1 r2, render_row t M i = Some r1 /\ render_row t M j = Some r2 /\
    hr_v r1 <= hr_v r2 /\ hr_bar r1 <= hr_bar r2 /\ hr_v r1 ∈ kept /\ 0 <= hr_bar r1 <= 60 /\
    percentile (dbl_div (dbl_mul (dbl 100) (dbl i)) (dbl kBuckets)) t = Some (hr_v r1).
Proof using Hcap Hall Hlen Hne.
  intros Hij Hj. destruct (row_fractions i j Hij Hj) as (F1 & F2 & Hu).
  destruct (percentile_mono _ _ t F1 F2 Hu shape_count) as (v & w & Hv & Hw & Hle).
  destruct (shape_value _ _ Hv) as (K1 & V1 & L1). destruct (shape_value _ _ Hw) as (_ & V2 & L2).
  unfold render_row. rewrite Hv, Hw. cbn [mbind option_bind]. rewrite Z.gtb_ltb. destruct (Z.ltb_spec 0 M) as [HM|HM].
  - fold (bar_value M v). fold (bar_value M w).
    destruct (bar_defined M v V1 shape_max HM L1) as [-> B1]. destruct (bar_defined M w V2 shape_max HM L2) as [-> _].
    cbn [mbind option_bind]. eexists _, _. split; [reflexivity|]. split; [reflexivity|]. cbn [hr_v hr_bar].
    split; [exact Hle|]. split; [|split; [exact K1|split; [exact B1|exact eq_refl]]].
    apply Z.div_le_mono; [apply scale_pos|]. apply bar_value_mono; [exact V1|exact V2|exact shape_max|exact HM|exact Hle].
  - cbn [mbind option_bind]. eexists _, _. split; [reflexivity|]. split; [reflexivity|]. cbn [hr_v hr_bar].
    split; [exact Hle|]. split; [lia|]. split; [exact K1|]. split; [lia|exact eq_refl].
Qed.

Lemma shape_render :
  exists rows sum, Render t M = Some (rows, sum) /\
    Forall2 (fun i r => render_row t M i = Some r) (seqZ 1 kBuckets) rows.
Proof using Hcap Hall Hlen Hne.
  destruct (reported_defined t shape_count) as ([a Ha] & [b Hb] & [c Hcc]).
  assert (exists rows, mapM (render_row t M) (seqZ 1 kBuckets) = Some rows) as [rows Hrows].
  { apply mapM_is_Some_2. apply Forall_forall. intros i Hi. apply elem_of_seqZ in Hi. unfold kBuckets in Hi.
    destruct (shape_rows i i) as (r & _ & Hr & _); [lia|lia|]. by exists r. }
  unfold Render. rewrite Hrows. cbn [mbind option_bind]. rewrite Ha. cbn [mbind option_bind]. rewrite Hb.
  cbn [mbind option_bind]. rewrite Hcc. cbn [mbind option_bind]. eexists _, _. split; [reflexivity|].
  by apply mapM_Some in Hrows.
Qed.

Lemma shape_last r : render_row t M 50 = Some r -> Forall (fun x => x <= hr_v r) kept.
Proof using Hcap Hall Hlen Hne.
  intros Hr. destruct (shape_rows 50 50) as (x & _ & X1 & _ & _ & _ & _ & _ & Xp); [lia|lia|].
  rewrite Hr in X1. injection X1 as <-.
  destruct (percentile_kept cap ns _ _ Hall Hlen Hne ltac:(lia) Xp) as (_ & _ & Hrank). fold kept in Hrank.
  assert (1 <= Z.of_nat (length kept) <= 2 ^ 52) as Hkn.
  { unfold kept. rewrite length_take. destruct ns; [done|]. cbn [length]. lia. }
  specialize (Hrank _ (rank_full _ Hkn) ltac:(lia)). apply Forall_forall. intros y Hy.
  rewrite <- (merge_sort_Permutation Z.le kept) in Hy. apply list_elem_of_lookup in Hy as [k Hy].
  eapply sorted_lookup_le; [| |exact Hy|exact Hrank].
  - apply Sorted_StronglySorted; [exact _|]. apply Sorted_merge_sort. exact _.
  - apply lookup_lt_Some in Hy. rewrite (Permutation_length (merge_sort_Permutation _ _)) in Hy. lia.
Qed.
End Shape.

(** The histogram is well shaped.  For every file of 64-bit samples, one a line, the tool
    reads back exactly the samples and exits with code 0; it renders fifty rows whose values
    and bars do not decrease and whose bars have 0 to 60 characters, and the last row is the
    largest of the samples it keeps (the first two million). *)
Theorem histogram_shape ns demo :
  Forall (in_u 64) ns -> Z.of_nat (length ns) < 2 ^ 64 -> ns <> [] ->
  exists rows sum, histogram_main (Some (Some (sample_lines ns))) demo = Some (0, Some (rows, sum)) /\
    length rows = 50%nat /\
    (forall i j r1 r2, (i <= j)%nat -> rows !! i = Some r1 -> rows !! j = Some r2 ->
       hr_v r1 <= hr_v r2 /\ hr_bar r1 <= hr_bar r2) /\
    Forall (fun r => hr_v r ∈ take kHistogramSamples ns /\ 0 <= hr_bar r <= 60) rows /\
    exists r, rows !! 49%nat = Some r /\ Forall (fun x => x <= hr_v r) (take kHistogramSamples ns).
Proof.
  intros Hall Hlen Hne. unfold histogram_main.
  pose proof (read_samples_lines (S (length (sample_lines ns))) ns [] (LatencyTracker_new kHistogramSamples) 0 Hall) as Hread.
  cbn [app] in Hread. rewrite Hread by (constructor || lia). rewrite record_draws_measured. cbn [mbind option_bind].
  assert (1 <= Z.of_nat kHistogramSamples <= 2 ^ 52) as Hcap by (unfold kHistogramSamples; rewrite Z2Nat.id; lia).
  clear Hread. generalize dependent kHistogramSamples. intros cap Hcap.
  pose proof (shape_rows cap ns Hcap Hall Hlen Hne) as Hrow. pose proof (shape_last cap ns Hcap Hall Hlen Hne) as Hlast.
  destruct (shape_render cap ns Hcap Hall Hlen Hne) as (rows & sum & -> & Hrows). cbv zeta in *.
  cbn [mbind option_bind]. exists rows, sum. split; [reflexivity|].
  pose proof (Forall2_length _ _ _ Hrows) as Hl. rewrite length_seqZ in Hl.
  set (t := measured cap ns) in *. set (M := lt_max t) in *. clearbody t M.
  assert (forall i r, rows !! i = Some r -> render_row t M (1 + Z.of_nat i) = Some r /\ (i < 50)%nat) as Hat.
  { intros i r Hr. destruct (Forall2_lookup_r _ _ _ _ _ Hrows Hr) as (x & Hx & Hrr).
    apply lookup_seqZ in Hx as [-> Hx]. split; [exact Hrr|]. unfold kBuckets in Hx. lia. }
  split; [by rewrite <- Hl|]. split; [|split].
  - intros i j r1 r2 Hij Hr1 Hr2. destruct (Hat i r1 Hr1) as [E1 B1]. destruct (Hat j r2 Hr2) as [E2 B2].
    destruct (Hrow (1 + Z.of_nat i) (1 + Z.of_nat j)) as (x1 & x2 & X1 & X2 & X3 & X4 & _); [lia|lia|].
    rewrite E1 in X1. rewrite E2 in X2. injection X1 as <-. injection X2 as <-. by split.
  - apply Forall_lookup. intros i r Hr. destruct (Hat i r Hr) as [E1 B1].
    destruct (Hrow (1 + Z.of_nat i) (1 + Z.of_nat i)) as (x1 & _ & X1 & _ & _ & _ & X5 & X6 & _); [lia|lia|].
    rewrite E1 in X1. injection X1 as <-. by split.
  - destruct (lookup_lt_is_Some_2 rows 49) as [r Hr]; [unfold kBuckets in Hl; lia|]. exists r. split; [exact Hr|].
    apply Hlast. by destruct (Hat 49%nat r Hr).
Qed.

Lemma histogram_shape_witness :
  exists rows sum, histogram_main (Some (Some (sample_lines [900; 300; 700; 500]))) [] = Some (0, Some (rows, sum)) /\
    length rows = 50%nat /\ Forall (fun r => hr_v r ∈ take kHistogramSamples [900; 300; 700; 500] /\ 0 <= hr_bar r <= 60) rows.
Proof.
  destruct (histogram_shape [900; 300; 700; 500] []) as (rows & sum & H1 & H2 & _ & H3 & _).
  - repeat constructor; vm_compute; congruence.
  - vm_compute. reflexivity.
  - discriminate.
  - exists rows, sum. split; [exact H1|]. split; [exact H2|exact H3].
Defined.
