(* ===== verification/Metrics.v ===== *)
(** * Metrics: the JSON-lines stream of the dashboard (src/monitor/metrics.hpp)

    [disk] maps a path to the text written through it, the buffered part
    included; whether [fopen] succeeds is an input of [open].  A write error of
    [fprintf], which the code ignores, is not modelled. *)

From Stdlib Require Import ZArith Lia Ascii String List.
From stdpp Require Import base gmap list numbers option strings.
From S2P Require Import Prelude Text.

Local Open Scope Z_scope.

Record MetricSnapshot := {
  ms_t : Z;
  ms_events : Z;
  ms_orders_sent : Z;
  ms_orders_rejected : Z;
  ms_fills : Z;
  ms_position : Z;
  ms_pnl_inr : Z;
  ms_lat_p50 : Z;
  ms_lat_p99 : Z;
  ms_lat_p999 : Z;
}.

Record MetricsWriter := {
  mw_file : option string;
  mw_rows : Z;
  mw_disk : gmap string (list ascii);
}.

Definition MetricsWriter_new (disk : gmap string (list ascii)) : MetricsWriter :=
  {| mw_file := None; mw_rows := 0; mw_disk := disk |}.

Definition mw_close (w : MetricsWriter) : MetricsWriter :=
  {| mw_file := None; mw_rows := mw_rows w; mw_disk := mw_disk w |}.

Definition mw_open (path : string) (fopen_ok : bool) (w : MetricsWriter) : MetricsWriter * bool :=
  let w := mw_close w in
  if fopen_ok then
    ({| mw_file := Some path; mw_rows := mw_rows w; mw_disk := <[path := []]> (mw_disk w) |}, true)
  else (w, false).

(** The fields of the format string, in order. *)
Definition metric_fields (s : MetricSnapshot) : list (string * Z) :=
  [("t", ms_t s); ("events", ms_events s); ("orders_sent", ms_orders_sent s);
   ("orders_rejected", ms_orders_rejected s); ("fills", ms_fills s); ("position", ms_position s);
   ("pnl_inr", ms_pnl_inr s); ("lat_p50", ms_lat_p50 s); ("lat_p99", ms_lat_p99 s);
   ("lat_p999", ms_lat_p999 s)]%string.

Definition metric_field (f : string * Z) : list ascii :=
  ["034"%char] ++ lit f.1 ++ ["034"; ":"]%char ++ dec f.2.

Fixpoint metric_list (fs : list (string * Z)) : list ascii :=
  match fs with
  | [] => []
  | [f] => metric_field f
  | f :: fs => metric_field f ++ [","%char] ++ metric_list fs
  end.

Definition metric_line (s : MetricSnapshot) : list ascii :=
  ["{"%char] ++ metric_list (metric_fields s) ++ ["}"%char].

Definition newline : ascii := "010"%char.

Definition mw_write (s : MetricSnapshot) (w : MetricsWriter) : MetricsWriter :=
  match mw_file w with
  | None => w
  | Some path =>
      {| mw_file := Some path; mw_rows := u64 (mw_rows w + 1);
         mw_disk := <[path := default [] (mw_disk w !! path) ++ metric_line s ++ [newline]]> (mw_disk w) |}
  end.

(** [fflush] moves buffered text; the stream's content is already the sum. *)
Definition mw_flush (w : MetricsWriter) : MetricsWriter := w.

(** ** The stream can be read back *)

(** The numbers of a row: what follows each colon. *)
Definition row_numbers (line : list ascii) : list Z :=
  strtoll <$> tail (split_on ":"%char line).

Definition quoted (s : string) : list ascii := ["034"%char] ++ lit s ++ ["034"%char].

(** The row as pieces that follow a colon: a number, then the next label. *)
Definition row_pieces (s : MetricSnapshot) : list (Z * list ascii) :=
  let next l := ","%char :: quoted l in
  [(ms_t s, next "events"); (ms_events s, next "orders_sent");
   (ms_orders_sent s, next "orders_rejected"); (ms_orders_rejected s, next "fills");
   (ms_fills s, next "position"); (ms_position s, next "pnl_inr"); (ms_pnl_inr s, next "lat_p50");
   (ms_lat_p50 s, next "lat_p99"); (ms_lat_p99 s, next "lat_p999"); (ms_lat_p999 s, ["}"%char])]%string.

Lemma metric_line_pieces s :
  metric_line s = ("{"%char :: quoted "t") ++
    concat ((fun p => ":"%char :: p) <$> ((fun p => dec p.1 ++ p.2) <$> row_pieces s)).
Proof.
  unfold metric_line, metric_fields, row_pieces, metric_list, metric_field, quoted. cbn.
  repeat (rewrite <- app_assoc; cbn). repeat f_equal.
Qed.

Definition row_ok (s : MetricSnapshot) : Prop :=
  Forall (fun f => in_s 64 f.2) (metric_fields s).

Lemma row_pieces_ok s :
  row_ok s -> Forall (fun p => in_s 64 p.1 /\ ends_number p.2 /\ ":"%char ∉ p.2 /\ newline ∉ p.2)
                (row_pieces s).
Proof.
  unfold row_ok, metric_fields, row_pieces. rewrite !(Forall_cons (fun f => in_s 64 f.2)). cbn [fst snd].
  intros (? & ? & ? & ? & ? & ? & ? & ? & ? & ? & _).
  repeat (apply Forall_cons_2; [split; [assumption|split; [exact eq_refl|]];
    split; (apply (bool_decide_unpack _); vm_compute; exact I)|]). apply Forall_nil_2.
Qed.

Lemma metric_line_numbers s : row_ok s -> row_numbers (metric_line s) = snd <$> metric_fields s.
Proof.
  intros Hs. pose proof (row_pieces_ok s Hs) as Hp. unfold row_numbers. rewrite metric_line_pieces.
  rewrite split_on_prefixed.
  - cbn [tail]. rewrite <- list_fmap_compose. change (snd <$> metric_fields s) with (fst <$> row_pieces s).
    apply list_fmap_ext. intros i p Hi. eapply Forall_lookup_1 in Hp; [|exact Hi].
    unfold compose. apply strtoll_dec; apply Hp.
  - apply (bool_decide_unpack _); vm_compute; exact I.
  - apply Forall_fmap. eapply Forall_impl; [exact Hp|]. intros p (_ & _ & H & _). unfold compose.
    rewrite not_elem_of_app. split; [by apply dec_no_sep|done].
Qed.

Lemma metric_line_one_line s : row_ok s -> newline ∉ metric_line s.
Proof.
  intros Hs. pose proof (row_pieces_ok s Hs) as Hp. rewrite metric_line_pieces, not_elem_of_app. split.
  - apply (bool_decide_unpack _); vm_compute; exact I.
  - intros Hin. apply list_elem_of_In, in_concat in Hin as (t & Ht & Hin). apply list_elem_of_In in Ht, Hin.
    apply list_elem_of_fmap in Ht as (p & -> & Ht). apply list_elem_of_fmap in Ht as (q & -> & Hq).
    rewrite Forall_forall in Hp. destruct (Hp _ Hq) as (_ & _ & _ & Hn).
    apply elem_of_cons in Hin as [?|Hin]; [done|]. apply elem_of_app in Hin as [Hin|?]; [|done].
    by apply dec_no_sep in Hin.
Qed.

(** The dashboard reads back what was recorded: after [open] succeeds and any
    sequence of [write]s and [flush]es, the file splits at newlines into exactly one
    row per snapshot, in order and with nothing after the last newline, [rows] grew
    by their number, and the numbers of a row are the ten fields of its snapshot. *)
Theorem metrics_stream_reads_back path w0 snaps :
  Forall row_ok snaps ->
  let w := foldl (fun w s => mw_flush (mw_write s w)) (mw_open path true w0).1 snaps in
  mw_rows w = foldl (fun n _ => u64 (n + 1)) (mw_rows w0) snaps /\
  exists content, mw_disk w !! path = Some content /\
    split_on newline content = (metric_line <$> snaps) ++ [[]] /\
    row_numbers <$> (metric_line <$> snaps) = (fun s => snd <$> metric_fields s) <$> snaps.
Proof.
  intros Hok. cbv zeta.
  assert (let w := foldl (fun w s => mw_flush (mw_write s w)) (mw_open path true w0).1 snaps in
    mw_file w = Some path /\ mw_rows w = foldl (fun n _ => u64 (n + 1)) (mw_rows w0) snaps /\
    mw_disk w !! path = Some (concat ((fun s => metric_line s ++ [newline]) <$> snaps)))
    as (_ & H2 & H3).
  { clear Hok. induction snaps as [|s snaps IH] using rev_ind; cbv zeta.
    { cbn. split_and!; [done..|]. by rewrite lookup_insert_eq. }
    rewrite !foldl_snoc. cbv zeta in IH. destruct IH as (H1 & H2 & H3). set (w := foldl _ (mw_open _ _ _).1 snaps) in *.
    unfold mw_flush, mw_write. rewrite H1. cbn. rewrite H2, H3, lookup_insert_eq. split_and!; [done..|].
    rewrite fmap_app, concat_app. cbn. by rewrite app_nil_r. }
  split; [done|]. eexists. split; [exact H3|]. rewrite Forall_forall in Hok. split.
  - apply split_on_lines. intros s Hs. by apply metric_line_one_line, Hok.
  - rewrite <- list_fmap_compose. apply list_fmap_ext. intros i s Hs.
    apply metric_line_numbers, Hok. by eapply list_elem_of_lookup_2.
Qed.

Definition sample_snapshot (k : Z) : MetricSnapshot :=
  {| ms_t := k; ms_events := k; ms_orders_sent := 2; ms_orders_rejected := 1; ms_fills := 3;
     ms_position := -50; ms_pnl_inr := -1200; ms_lat_p50 := 800; ms_lat_p99 := 1500;
     ms_lat_p999 := 9000 |}.

Lemma metrics_stream_reads_back_witness :
  let w := foldl (fun w s => mw_flush (mw_write s w)) (mw_open "m" true (MetricsWriter_new ∅)).1
             [sample_snapshot 10; sample_snapshot 20] in
  mw_rows w = 2 /\
  (fun c => row_numbers <$> split_on newline c) <$> mw_disk w !! "m"%string =
    Some [[10; 10; 2; 1; 3; -50; -1200; 800; 1500; 9000];
          [20; 20; 2; 1; 3; -50; -1200; 800; 1500; 9000]; []].
Proof.
  destruct (metrics_stream_reads_back "m" (MetricsWriter_new ∅) [sample_snapshot 10; sample_snapshot 20])
    as (Hr & c & Hc & Hs & Hn).
  { constructor; [|constructor; [|constructor]];
      (apply (bool_decide_unpack _); vm_compute; exact I). }
  split; [rewrite Hr; vm_compute; reflexivity|]. rewrite Hc. cbn [fmap option_fmap option_map].
  rewrite Hs, fmap_app, Hn. vm_compute. reflexivity.
Defined.
