(* ===== verification/BacktestEngine.v ===== *)
(** * BacktestEngine: the pipeline under the fill simulator
      (src/sim/backtest_engine.hpp)

    [run_backtest] wires a symbol master with one cash-market instrument, one
    book, the strategy, the risk manager, the order manager and the fill
    simulator, and drives them over a list of events.  An input carries, besides the event, the
    readings of the wall clock and the measured elapsed time of its [process]
    call.  The callback of [FillSimulator::on_event] captures the pipeline and
    four counters; [BtLedger] is what it captures. *)

From Stdlib Require Import ZArith Lia String.
From stdpp Require Import base gmap list numbers option strings.
From S2P Require Import Prelude Types Codec TimeUtils OrderTable LevelArray OrderBook BookLiveness.
From S2P Require Import BookManager SymbolMaster MarketMaking RiskManager NnfEncoder OrderManager.
From S2P Require Import Pipeline FillSimulator FeeModel LatencyStats Metrics.

Local Open Scope Z_scope.

Record BtResult := {
  br_orders_sent : Z;
  br_orders_rejected : Z;
  br_fills : Z;
  br_position : Z;
  br_gross_pnl_inr : Z;
  br_fees_inr : Z;
  br_pnl_inr : Z;
  br_lat_p50 : Z;
  br_lat_p99 : Z;
  br_lat_p999 : Z;
}.

Record BtLedger := {
  bl_pipe : Pipeline MarketMaking;
  bl_cash_paisa : Z;
  bl_fees_paisa : Z;
  bl_position : Z;
  bl_maker_fills : Z;
}.

Record BtState := {
  bs_fillsim : FillSimulator;
  bs_ledger : BtLedger;
  bs_mark : Price;
  bs_metrics : MetricsWriter;
  bs_event_index : Z;
}.

Record BtInput := { bi_ev : MarketEvent; bi_clk : Clock; bi_elapsed : Z }.

(** The lambda passed to [on_event]. *)
Definition bt_on_fill (fees : FeeModel) (f : FillReport) (l : BtLedger) : BtLedger :=
  let amount := i64 (fr_fill_qty f * fr_fill_price f) in
  {| bl_pipe := on_fill f (bl_pipe l);
     bl_cash_paisa := if fr_side f then i64 (bl_cash_paisa l - amount)
                      else i64 (bl_cash_paisa l + amount);
     bl_fees_paisa := i64 (bl_fees_paisa l + cost_paise fees (fr_side f) (fr_fill_price f) (fr_fill_qty f));
     bl_position := if fr_side f then i64 (bl_position l + fr_fill_qty f)
                    else i64 (bl_position l - fr_fill_qty f);
     bl_maker_fills := u64 (bl_maker_fills l + 1) |}.

Definition with_pipe (p : Pipeline MarketMaking) (l : BtLedger) : BtLedger :=
  {| bl_pipe := p; bl_cash_paisa := bl_cash_paisa l; bl_fees_paisa := bl_fees_paisa l;
     bl_position := bl_position l; bl_maker_fills := bl_maker_fills l |}.

(** [mark] after an event: the mid of a quote, the price of a trade. *)
Definition bt_mark (ev : MarketEvent) (mark : Price) : Price :=
  match msg_type (ev_type ev) with
  | Some kSnapQuote => Z.quot (i64 (ev_bid_price ev + ev_ask_price ev)) 2
  | Some kTrade => ev_price ev
  | _ => mark
  end.

(** [(cash_paisa + position * mark) / 100] and the same net of fees. *)
Definition gross_inr (mark : Price) (l : BtLedger) : Z :=
  Z.quot (i64 (bl_cash_paisa l + i64 (bl_position l * mark))) 100.
Definition net_inr (mark : Price) (l : BtLedger) : Z :=
  Z.quot (i64 (i64 (bl_cash_paisa l + i64 (bl_position l * mark)) - bl_fees_paisa l)) 100.

(** [register_order] for every order of [last_sent], behind the quantity displayed
    at its price. *)
Definition register_sent (book : option OrderBook) (sent : list Order) (fs : FillSimulator)
    : FillSimulator :=
  foldl (fun fs o =>
    let queue_ahead := match book with Some b => displayed_qty_at b (o_side o) (o_price o) | None => 0 end in
    register_order o queue_ahead fs) fs sent.

Section Engine.
Context (token : Token) (fees : FeeModel) (want_metrics : bool) (snapshot_every : Z).

Definition bt_snapshot (index : Z) (mark : Price) (l : BtLedger) : option MetricSnapshot :=
  let p := bl_pipe l in
  l50 ← p50 (pp_tick_to_trade p);
  l99 ← p99 (pp_tick_to_trade p);
  l999 ← p999 (pp_tick_to_trade p);
  Some {| ms_t := index; ms_events := ps_events (pp_stats p);
          ms_orders_sent := ps_orders_sent (pp_stats p);
          ms_orders_rejected := ps_orders_rejected (pp_stats p); ms_fills := bl_maker_fills l;
          ms_position := bl_position l; ms_pnl_inr := net_inr mark l; ms_lat_p50 := l50;
          ms_lat_p99 := l99; ms_lat_p999 := l999 |}.

(** The loop body up to the metrics: fills, [process], registration. *)
Definition bt_trade (i : BtInput) (fs : FillSimulator) (l : BtLedger)
    : option (FillSimulator * BtLedger) :=
  let '(fs, l) := fillsim_on_event (bt_on_fill fees) (bi_ev i) fs l in
  '(p, _) ← process (bi_ev i) (bi_clk i) (bi_elapsed i) (bl_pipe l);
  let book := get_book token (pp_books p) in
  Some (register_sent book (pp_sent_orders p) fs, with_pipe p l).

Definition bt_step (i : BtInput) (st : BtState) : option BtState :=
  let mark := bt_mark (bi_ev i) (bs_mark st) in
  '(fs, l) ← bt_trade i (bs_fillsim st) (bs_ledger st);
  let index := u64 (bs_event_index st + 1) in
  metrics ← (if want_metrics && (Z.rem index snapshot_every =? 0) then
               snap ← bt_snapshot index mark l; Some (mw_write snap (bs_metrics st))
             else Some (bs_metrics st));
  Some {| bs_fillsim := fs; bs_ledger := l; bs_mark := mark; bs_metrics := metrics;
          bs_event_index := index |}.

Fixpoint bt_loop (inputs : list BtInput) (st : BtState) : option BtState :=
  match inputs with [] => Some st | i :: inputs => st ← bt_step i st; bt_loop inputs st end.
End Engine.

Definition bt_instrument (token : Token) (mid tick : Price) : Instrument :=
  {| in_token := token; in_segment := kSegmentCm; in_instrument_type := kEquity;
     in_option_type := in_option_type default_instrument; in_lot_size := 1; in_tick_size := tick;
     in_strike_price := in_strike_price default_instrument; in_prev_close := mid;
     in_circuit_pct_x100 := 2000; in_expiry_yyyymmdd := in_expiry_yyyymmdd default_instrument;
     in_active := in_active default_instrument; in_symbol := in_symbol default_instrument;
     in_series := in_series default_instrument |}.

Definition RiskConfig_default : RiskConfig :=
  {| rc_max_orders_per_sec := 1000; rc_max_order_qty := 10000; rc_max_token_position_lots := 100;
     rc_max_cm_notional_inr := 1000000000; rc_max_daily_loss_inr := 100000;
     rc_allow_preopen := false; rc_price_sanity_pct := 2 |}.

Definition bt_risk_config : RiskConfig :=
  let d := RiskConfig_default in
  {| rc_max_orders_per_sec := 1000000000; rc_max_order_qty := rc_max_order_qty d;
     rc_max_token_position_lots := 1000000; rc_max_cm_notional_inr := rc_max_cm_notional_inr d;
     rc_max_daily_loss_inr := rc_max_daily_loss_inr d; rc_allow_preopen := rc_allow_preopen d;
     rc_price_sanity_pct := 50 |}.

(** [BookManager::add_token] defaults to [1U << 14] orders, and the pipeline's
    tracker keeps a million samples. *)
Definition kDefaultOrderCapacity : nat := 2 ^ 14.
Definition kPipelineSamples : nat := Z.to_nat 1000000.

(** The wiring; [wall] is the reading of [ist_now_ns], [junk] the uninitialised
    order slots and message buffer. *)
Definition bt_pipeline (mm_cfg : MarketMakingConfig) (token : Token) (mid tick : Price)
    (wall : Timestamp) (junk : Z -> Order) (buf : bytes) (samples : nat) : Pipeline MarketMaking :=
  let symbols := put (bt_instrument token mid tick) SymbolMaster_new in
  let books := (add_token token tick kDefaultOrderCapacity BookManager_new).1 in
  set_now (ist_time_of_day_ns wall 10 0 0)
    (Pipeline_new books (MarketMaking_new (Some symbols) mm_cfg)
       (RiskManager_new (Some symbols) bt_risk_config) (OrderManager_new junk) samples buf).

Definition bt_start (pipe : Pipeline MarketMaking) (mid : Price) (metrics : MetricsWriter) : BtState :=
  {| bs_fillsim := FillSimulator_new;
     bs_ledger := {| bl_pipe := pipe; bl_cash_paisa := 0; bl_fees_paisa := 0; bl_position := 0;
                     bl_maker_fills := 0 |};
     bs_mark := mid; bs_metrics := metrics; bs_event_index := 0 |}.

Definition bt_result (st : BtState) : option BtResult :=
  let l := bs_ledger st in
  let p := bl_pipe l in
  l50 ← p50 (pp_tick_to_trade p);
  l99 ← p99 (pp_tick_to_trade p);
  l999 ← p999 (pp_tick_to_trade p);
  Some {| br_orders_sent := ps_orders_sent (pp_stats p);
          br_orders_rejected := ps_orders_rejected (pp_stats p); br_fills := bl_maker_fills l;
          br_position := bl_position l; br_gross_pnl_inr := gross_inr (bs_mark st) l;
          br_fees_inr := Z.quot (bl_fees_paisa l) 100; br_pnl_inr := net_inr (bs_mark st) l;
          br_lat_p50 := l50; br_lat_p99 := l99; br_lat_p999 := l999 |}.

(** [metrics_path] with whether it can be opened; [None] is a null path. *)
Definition run_backtest (inputs : list BtInput) (mm_cfg : MarketMakingConfig) (token : Token)
    (mid tick : Price) (metrics_path : option (string * bool)) (fees : FeeModel)
    (wall : Timestamp) (junk : Z -> Order) (buf : bytes) (disk : gmap string (list Ascii.ascii))
    : option (BtResult * MetricsWriter) :=
  let pipe := bt_pipeline mm_cfg token mid tick wall junk buf kPipelineSamples in
  let '(metrics, want_metrics) :=
    match metrics_path with
    | None => (MetricsWriter_new disk, false)
    | Some (path, ok) => mw_open path ok (MetricsWriter_new disk)
    end in
  let n := Z.of_nat (length inputs) in
  let snapshot_every := if n =? 0 then 1 else u64 (n / 200 + 1) in
  st ← bt_loop token fees want_metrics snapshot_every inputs (bt_start pipe mid metrics);
  r ← bt_result st;
  Some (r, mw_flush (bs_metrics st)).

(** ** The ledgers *)

(** What the three keepers of the position and the cash say: the strategy, the risk
    manager and the engine. *)
Record ledgers_agree (token : Token) (l : BtLedger) : Prop := {
  la_strategy : pos (pp_strat (bl_pipe l)) token = i32 (bl_position l);
  la_risk : vec (rm_position (pp_risk (bl_pipe l))) token = i32 (bl_position l);
  la_cash : rm_cashflow_paisa (pp_risk (bl_pipe l)) = bl_cash_paisa l;
}.

(** What a fill leaves alone in the pipeline. *)
Definition same_feed (p p' : Pipeline MarketMaking) : Prop :=
  pp_books p' = pp_books p /\ pp_sent_orders p' = pp_sent_orders p /\ pp_stats p' = pp_stats p /\
  pp_tick_to_trade p' = pp_tick_to_trade p /\ (pipeline_ok p -> pipeline_ok p').

#[global] Instance same_feed_preorder : PreOrder same_feed.
Proof.
  split; [done|]. intros x y z (?&?&?&?&?) (?&?&?&?&?). unfold same_feed. split_and!; try congruence. auto.
Qed.

Lemma on_fill_same_feed f p : same_feed p (on_fill f p).
Proof.
  split_and!; try done. intros [Hom He Hb].
  destruct (step_ok (pp_om p) (OpFill f) Hom He I) as (om' & Hs & Hok & E). cbn [om_step] in Hs.
  simplify_eq. split; [done|by rewrite <- E in He|done].
Qed.

Lemma bt_on_fill_agree token fees f l :
  0 <= token < kMaxTokens -> fr_token f = token -> 0 < fr_fill_qty f < 2 ^ 31 ->
  ledgers_agree token l -> ledgers_agree token (bt_on_fill fees f l).
Proof.
  intros Ht Hf Hq [H1 H2 H3]. unfold kMaxTokens in Ht. split.
  - cbn. unfold mm_on_fill, kMaxTokens. rewrite Hf, Z.geb_leb, (proj2 (Z.leb_gt _ _)) by lia. cbn.
    unfold pos at 1. cbn. rewrite lookup_insert_eq. cbn. rewrite H1.
    destruct (fr_side f); rewrite wrap_s_add_l, wrap_s_narrow by lia; f_equal; lia.
  - cbn. unfold rm_on_fill, kSymbolTableSize. rewrite Hf, Z.geb_leb, (proj2 (Z.leb_gt _ _)) by lia. cbn.
    unfold vec at 1. rewrite lookup_insert_eq. cbn. rewrite H2.
    destruct (fr_side f); rewrite wrap_s_add_r, wrap_s_add_l, (wrap_s_narrow 32 64) by lia; [done|].
    by rewrite wrap_s_add_r by lia.
  - cbn. unfold rm_on_fill, kSymbolTableSize. rewrite Hf, Z.geb_leb, (proj2 (Z.leb_gt _ _)) by lia. cbn.
    rewrite H3. destruct (fr_side f).
    + rewrite wrap_s_add_r, wrap_s_sub_r by lia. rewrite (wrap_s_id 64 (- fr_fill_qty f)) by ranges. f_equal. lia.
    + rewrite (wrap_s_id 32) by ranges. rewrite Z.opp_involutive, (wrap_s_id 64 (fr_fill_qty f)) by ranges.
      done.
Qed.

(** ** One event through the pipeline *)

(** What an event leaves alone: positions, cash, and everything but the book of its
    token; the latency tracker takes at most one more sample. *)
Record processed (ev : MarketEvent) (p p' : Pipeline MarketMaking) : Prop := {
  pr_ok : pipeline_ok p';
  pr_position : mm_position (pp_strat p') = mm_position (pp_strat p);
  pr_risk : rm_position (pp_risk p') = rm_position (pp_risk p) /\
            rm_cashflow_paisa (pp_risk p') = rm_cashflow_paisa (pp_risk p);
  pr_events : ps_events (pp_stats p') = u64 (ps_events (pp_stats p) + 1);
  pr_latency : pp_tick_to_trade p' = pp_tick_to_trade p \/
               exists ns, pp_tick_to_trade p' = lt_record ns (pp_tick_to_trade p);
  pr_registered : forall t, is_Some (get_book t (pp_books p)) -> is_Some (get_book t (pp_books p'));
}.

(** Slots outside those of [sent] are untouched; what was written is a pending order of [sent]. *)
Definition table_follows (om om' : OrderManager) (sent : list Order) : Prop :=
  forall i, slot om' i = slot om i \/
    (lo_order (slot om' i) ∈ sent /\ lo_state (slot om' i) = kPendingNew /\
     i = Index (o_client_order_id (lo_order (slot om' i)))).

Lemma new_order_step o buf now oc om :
  manager_ok om -> encoder_ok (om_encoder om) -> (80 <= length buf)%nat ->
  exists om' o' buf' len, new_order o buf now oc om = Some (om', o', buf', len) /\
    manager_ok om' /\ encoder_ok (om_encoder om') /\ (80 <= length buf')%nat /\
    (o' = o \/ exists id, o_client_order_id o = 0 /\ o' = with_clordid id o) /\
    table_follows om om' (if (0 <? len)%nat then [o'] else []).
Proof.
  intros Hom He Hl. destruct (new_order_exact o buf now oc om Hom He Hl)
    as (om' & buf' & Hn & H1 & H2 & H3 & _ & _ & [Hin Hout]).
  eexists _, _, _, _. split; [exact Hn|]. split_and!; try done.
  - unfold numbered. destruct (Z.eqb_spec (o_client_order_id o) 0); eauto.
  - set (o' := numbered _ o) in *. case_bool_decide; cbn [Nat.ltb Nat.leb].
    + intros i. left. apply Hout. intros x Hx. by apply elem_of_nil in Hx.
    + intros i. destruct (decide (place o' = i)) as [<-|Hne].
      * right. rewrite Hin by by left. split_and!; [by left|done|done].
      * left. apply Hout. by intros x ->%list_elem_of_singleton.
Qed.

(** The loop over the span always completes for tokens of the tables. *)
Lemma order_loop_total clk token orders : forall k n (p : Pipeline MarketMaking),
  pipeline_ok p -> 0 <= token < kSymbolTableSize ->
  Forall (fun o => o_token o = token) orders ->
  Forall (fun o => o_token o = token) (pp_sent_orders p) ->
  (length (pp_sent_orders p) + length orders <= kMaxSent)%nat ->
  in_u 64 (ps_events (pp_stats p)) ->
  exists p' n', order_loop clk k orders n p = Some (p', n') /\ pipeline_ok p' /\
    pp_books p' = pp_books p /\ pp_strat p' = pp_strat p /\ bucket_only (pp_risk p) (pp_risk p') /\
    pp_tick_to_trade p' = pp_tick_to_trade p /\
    ps_events (pp_stats p') = ps_events (pp_stats p) /\
    Forall (fun o => o_token o = token) (pp_sent_orders p') /\
    pp_sent_orders p ⊆ pp_sent_orders p' /\ table_follows (pp_om p) (pp_om p') (pp_sent_orders p').
Proof.
  induction orders as [|o orders IH]; intros k n p Hp Ht Hos Hsent Hcap Hev.
  { exists p, n. split_and!; try done; [apply bucket_only_refl|]. by left. }
  apply Forall_cons_1 in Hos as [Ho Hos]. cbn [order_loop]. unfold order_body.
  destruct (check_total (clk (2 * k + 1)%nat) o (pp_risk p)) as (rm & r & -> & Hb); [by rewrite Ho|].
  cbn [mbind option_bind].
  assert (forall q m, pipeline_ok q -> pp_books q = pp_books p -> pp_strat q = pp_strat p ->
    pp_risk q = rm -> pp_tick_to_trade q = pp_tick_to_trade p ->
    ps_events (pp_stats q) = ps_events (pp_stats p) ->
    Forall (fun o => o_token o = token) (pp_sent_orders q) ->
    (length (pp_sent_orders q) <= length (pp_sent_orders p) + 1)%nat ->
    pp_sent_orders p ⊆ pp_sent_orders q ->
    table_follows (pp_om p) (pp_om q) (pp_sent_orders q) ->
    exists p' n', order_loop clk (k + 1) orders m q = Some (p', n') /\ pipeline_ok p' /\
      pp_books p' = pp_books p /\ pp_strat p' = pp_strat p /\ bucket_only (pp_risk p) (pp_risk p') /\
      pp_tick_to_trade p' = pp_tick_to_trade p /\
      ps_events (pp_stats p') = ps_events (pp_stats p) /\
      Forall (fun o => o_token o = token) (pp_sent_orders p') /\
      pp_sent_orders p ⊆ pp_sent_orders p' /\ table_follows (pp_om p) (pp_om p') (pp_sent_orders p')) as Hnext.
  { intros q m Hq E1 E2 E3 E4 E5 Hs Hl1 Hsub Htab. cbn [length] in Hcap.
    destruct (IH (k + 1)%nat m q Hq Ht Hos Hs ltac:(lia) ltac:(by rewrite E5))
      as (p' & n' & -> & H1 & H2 & H3 & H4 & H5 & H6 & H7 & H8 & H9).
    exists p', n'. split_and!; try congruence; [|by etrans|].
    - eapply bucket_only_trans; [exact Hb|]. by rewrite <- E3.
    - intros i. destruct (H9 i) as [->|Hi]; [|by right]. destruct (Htab i) as [->|(A1 & A2 & A3)]; [by left|].
      right. split_and!; [by apply H8|done..]. }
  destruct Hp as [Hom He Hl]. case_bool_decide.
  { apply Hnext; try done; try (by split); simpl; [by rewrite Z.add_0_r, wrap_u_id|lia|by left]. }
  cbv zeta. set (stamp := if negb (pp_now_ns p =? 0) then _ else _).
  destruct (new_order_step o (pp_msg_buf p) stamp 79 (pp_om p)) as
    (om & o' & buf & len & -> & Hom' & He' & Hl' & Ho' & Htab); [done..|].
  cbn [mbind option_bind].
  assert (o_token o' = token) as Ho1 by (destruct Ho' as [->|(id & _ & ->)]; done).
  assert (length (pp_sent_orders p) <? kMaxSent = true)%nat as Hroom
    by (apply Nat.ltb_lt; cbn [length] in Hcap; lia).
  destruct (0 <? len)%nat; apply Hnext; try done; try (by split); cbn [pp_sent_orders pp_om with_orders];
    try (simpl; rewrite !Z.add_0_r, !wrap_u_id; by rewrite ?wrap_u_id); rewrite ?Hroom.
  - apply Forall_app. split; [done|]. by constructor.
  - rewrite length_app. cbn. lia.
  - set_solver.
  - intros i. destruct (Htab i) as [?|(A1 & A2 & A3)]; [by left|right]. split_and!; [set_solver|done..].
  - lia.
  - intros i. destruct (Htab i) as [?|(A1 & A2 & A3)]; [by left|]. by apply elem_of_nil in A1.
Qed.

(** At most one order a side. *)
Lemma on_book_update_pending token book wall mm :
  (length (mm_pending (on_book_update token book wall mm)) <= 2)%nat.
Proof.
  rewrite on_book_update_cases. case_if.
  - destruct (CancelSide_spec token true (cleared mm)) as (_ & E1 & _ & Ec & _); [cbv; lia|].
    destruct (CancelSide_spec token false (CancelSide token true (cleared mm)))
      as (_ & E2 & _); [rewrite Ec; case_if; cbv; lia|]. rewrite E2, E1. cbn. lia.
  - destruct (quoting_plan _ _ _ _) as [p|]; [|cbn; lia].
    destruct (planned_update token p (mm_now wall mm) mm) as (hb & ha & _ & E & _). rewrite E.
    rewrite length_app. repeat case_if; cbn; lia.
Qed.

Lemma on_book_update_position token book wall mm :
  mm_position (on_book_update token book wall mm) = mm_position mm.
Proof.
  rewrite on_book_update_cases. case_if.
  - destruct (CancelSide_spec token true (cleared mm)) as ((_ & _ & E1 & _) & _ & _ & Ec & _); [cbv; lia|].
    destruct (CancelSide_spec token false (CancelSide token true (cleared mm)))
      as ((_ & _ & E2 & _) & _); [rewrite Ec; case_if; cbv; lia|]. by rewrite E2, E1.
  - destruct (quoting_plan _ _ _ _) as [p|]; [|done].
    destruct (planned_update token p (mm_now wall mm) mm) as (_ & _ & (_ & _ & E & _) & _). exact E.
Qed.

(** One event: [P] holds of the token's book before it, [Q] after it. *)
Lemma process_total ev clk elapsed (p : Pipeline MarketMaking) token (P Q : OrderBook -> Prop) :
  pipeline_ok p -> 0 <= token < kMaxTokens ->
  (forall t ob, get_book t (pp_books p) = Some ob -> t = token /\ P ob) ->
  (ev_token ev = token -> forall ob, P ob -> exists ob' r, apply_event ob ev = Some (ob', r) /\ Q ob') ->
  (ev_token ev <> token -> forall ob, P ob -> Q ob) ->
  Forall (fun o => o_token o = token) (pp_sent_orders p) ->
  exists p' sent, process ev clk elapsed p = Some (p', sent) /\ processed ev p p' /\
    (forall t ob, get_book t (pp_books p') = Some ob -> t = token /\ Q ob) /\
    Forall (fun o => o_token o = token) (pp_sent_orders p') /\
    table_follows (pp_om p) (pp_om p') (pp_sent_orders p').
Proof.
  intros Hp Ht Hbooks Hstep Hkeep Hsent. unfold process. cbn [pp_books with_stats].
  destruct (get_book (ev_token ev) (pp_books p)) as [book|] eqn:Hb.
  2: { eexists _, _. split; [done|]. split_and!; [| |done|by left].
       - split; [by destruct Hp|done|done|done|by left|done].
       - intros t ob Hg. destruct (Hbooks t ob Hg) as [-> HP]. split; [done|]. apply Hkeep; [|done].
         intros E. rewrite E in Hb. cbn in Hg. congruence. }
  destruct (Hbooks _ _ Hb) as [Het HP].
  destruct (Hstep Het book HP) as (book' & r & Ha & HQ).
  unfold market_step. rewrite Ha. cbn [mbind option_bind].
  set (p1 := with_market _ _ _ _). cbv zeta.
  assert (pipeline_ok p1) as Hp1 by by destruct Hp.
  assert (forall t ob, get_book t (pp_books p1) = Some ob -> t = token /\ Q ob) as Hbooks2.
  { intros t ob. unfold get_book, p1. cbn. case_if; [done|].
    destruct (decide (ev_token ev = t)) as [<-|Hne].
    - rewrite lookup_insert_eq. by intros [= <-].
    - rewrite lookup_insert_ne by done. intros Hl. exfalso. apply Hne.
      destruct (Hbooks t ob) as [-> _]; [|done]. unfold get_book.
      rewrite Z.geb_leb, (proj2 (Z.leb_gt _ _)) by done. done. }
  assert (forall t, is_Some (get_book t (pp_books p)) -> is_Some (get_book t (pp_books p1))) as Hreg.
  { intros t. unfold get_book, p1. cbn. case_if; [done|]. intros Hs.
    destruct (decide (ev_token ev = t)) as [<-|Hne]; [by rewrite lookup_insert_eq|by rewrite lookup_insert_ne]. }
  assert (mm_position (pp_strat p1) = mm_position (pp_strat p)) as Hpos
    by apply on_book_update_position.
  assert (rm_position (pp_risk p1) = rm_position (pp_risk p) /\
          rm_cashflow_paisa (pp_risk p1) = rm_cashflow_paisa (pp_risk p)) as Hrisk
    by (unfold p1; cbn; unfold update_reference; by case_if).
  assert (Forall (fun o => o_token o = token) (mm_pending (pp_strat p1))) as Hord.
  { rewrite <- Het. apply mm_orders_for_token. }
  destruct (_ =? 0)%nat.
  { eexists _, _. split; [done|]. split_and!; [|done..|by left]. split; try done. by left. }
  match goal with |- context [order_loop clk 0 ?os 0 ?q] =>
    destruct (order_loop_total clk token os 0 0 q) as (p2 & n2 & -> & K1 & K2 & K3 & K4 & K5 & K6 & K7 & _ & K8) end;
    [by destruct Hp1|done|exact Hord|done| |by apply wrap_u_range|].
  { etrans; [apply Nat.add_le_mono_l, on_book_update_pending|]. unfold kMaxSent. cbn. lia. }
  cbn [mbind option_bind]. eexists _, _. split; [done|]. simpl in K2, K3, K4, K5, K6.
  assert (processed ev p p2) as Hpr.
  { split; [done|by rewrite K3| | |left; by rewrite K5|by rewrite K2].
    - destruct K4 as (tk & last & ->). exact Hrisk.
    - rewrite K6, Z.add_0_r. by rewrite wrap_u_wrap_u. }
  case_if; [|by rewrite K2]. split_and!; [|simpl; by rewrite K2|done|done].
  destruct Hpr as [[] H2 H3 H4 _ H5]. split; try done. right. eexists. simpl. by rewrite K5.
Qed.

(** ** The run *)

(** The events the book of [token] sees. *)
Definition token_events (token : Token) (evs : list MarketEvent) : list MarketEvent :=
  filter (fun ev => ev_token ev = token) evs.

Section Run.
Context (token : Token) (fees : FeeModel) (want_metrics : bool) (snapshot_every : Z).
Context (Htok : 0 <= token < kMaxTokens).

(** The book the whole run leads to. *)
Context (last : OrderBook).
Definition leads_to (rest : list MarketEvent) (ob : OrderBook) : Prop :=
  exists rs, apply_events ob (token_events token rest) = Some (last, rs).

Lemma leads_to_step ev rest ob :
  leads_to (ev :: rest) ob -> ev_token ev = token ->
  exists ob' r, apply_event ob ev = Some (ob', r) /\ leads_to rest ob'.
Proof.
  intros [rs Hs] Het. unfold token_events in Hs. rewrite filter_cons_True in Hs by done.
  cbn [apply_events] in Hs. apply bind_Some in Hs as ([ob1 r] & Ha & Hs).
  apply bind_Some in Hs as ([ob3 rs3] & Ha3 & [= -> _]). exists ob1, r. split; [done|by exists rs3].
Qed.

Lemma leads_to_skip ev rest ob : leads_to (ev :: rest) ob -> ev_token ev <> token -> leads_to rest ob.
Proof. intros [rs Hs] Hne. unfold token_events in Hs. rewrite filter_cons_False in Hs by done. by exists rs. Qed.

(** The state after [n] events, with [rest] to come. *)
Record bt_inv (rest : list MarketEvent) (n : nat) (fs : FillSimulator) (l : BtLedger) : Prop := {
  bi_pipe : pipeline_ok (bl_pipe l);
  bi_books : forall t ob, get_book t (pp_books (bl_pipe l)) = Some ob ->
    t = token /\ leads_to rest ob;
  bi_registered : is_Some (get_book token (pp_books (bl_pipe l)));
  bi_sent : Forall (fun o => o_token o = token) (pp_sent_orders (bl_pipe l));
  bi_events : ps_events (pp_stats (bl_pipe l)) = u64 (Z.of_nat n);
  bi_latency : 0 <= lt_count (pp_tick_to_trade (bl_pipe l)) <= Z.of_nat n;
  bi_sim : sim_ok fs;
  bi_fills : bl_maker_fills l = fs_fills fs;
  bi_quotes : forall sd t, t <> token -> sq_active (sim_quote fs sd t) = false;
  bi_agree : ledgers_agree token l;
}.

Lemma register_sent_ok book sent fs :
  Forall (fun o => o_token o = token) sent -> sim_ok fs ->
  (forall sd t, t <> token -> sq_active (sim_quote fs sd t) = false) ->
  let fs' := register_sent book sent fs in
  sim_ok fs' /\ fs_fills fs' = fs_fills fs /\
  forall sd t, t <> token -> sq_active (sim_quote fs' sd t) = false.
Proof.
  intros Hs. revert fs. induction Hs as [|o sent Ho Hs IH]; intros fs Hok Hq; [done|]. cbv zeta.
  cbn [register_sent foldl]. set (ahead := match book with Some _ => _ | None => _ end).
  destruct (IH (register_order o ahead fs)) as (H1 & H2 & H3).
  - by apply sim_ok_register.
  - intros sd t Ht. unfold register_order. case_if; [by apply Hq|]. rewrite sim_quote_set.
    rewrite bool_decide_false by naive_solver. by apply Hq.
  - split_and!; [done| |done]. etransitivity; [exact H2|]. unfold register_order. by case_if.
Qed.

(** An event of an unregistered token emits nothing. *)
Lemma bt_fills_inv rest n ev fs l :
  bt_inv rest n fs l ->
  let '(fs', l') := fillsim_on_event (bt_on_fill fees) ev fs l in bt_inv rest n fs' l'.
Proof.
  intros [H1 H2 Hreg H3 H4 H5 H6 H7 H8 H9].
  pose proof (on_event_emits (bt_on_fill fees) ev fs l
    (fun k l' => same_feed (bl_pipe l) (bl_pipe l') /\ bl_maker_fills l' = k /\
       (ev_token ev = token -> ledgers_agree token l'))) as He.
  destruct He as [Hok (Hs & Hf & Ha)]; [done|done| |].
  { intros f k s (Hs & Hk & Ha) Hft Hq. split_and!.
    - etransitivity; [exact Hs|]. apply on_fill_same_feed.
    - cbn. by rewrite Hk.
    - intros Het. apply bt_on_fill_agree; [done|by rewrite Hft|done|auto]. }
  assert (forall sd t, t <> token ->
    sq_active (sim_quote (fillsim_on_event (bt_on_fill fees) ev fs l).1 sd t) = false) as Hq.
  { intros sd t Ht. rewrite on_event_sides. case_if; [|by apply H8].
    assert (forall side acc, (forall sd t, t <> token -> sq_active (sim_quote acc.1 sd t) = false) ->
      forall sd t, t <> token -> sq_active (sim_quote (side_step (bt_on_fill fees) side ev acc).1 sd t) = false)
      as Hstep.
    { intros side acc Hacc sd' t' Ht'. unfold side_step. case_if; [|by apply Hacc].
      pose proof (MatchAgainst_frame (bt_on_fill fees) (ev_token ev) side (ev_qty ev) acc.1 acc.2) as Hm.
      destruct (MatchAgainst _ _ _ _ _ _) as [fs' s']. destruct Hm as (Hfr & _ & _ & _). simpl.
      rewrite Hfr; [by apply Hacc|]. intros [-> ->]. bool_arith. by rewrite Hacc in *. }
    by apply Hstep; [apply Hstep|]. }
  assert (ledgers_agree token (fillsim_on_event (bt_on_fill fees) ev fs l).2) as Hag.
  { destruct (decide (ev_token ev = token)) as [Het|Het]; [auto|].
    rewrite on_event_sides. case_if; [|done].
    assert (forall side acc, (forall sd t, t <> token -> sq_active (sim_quote acc.1 sd t) = false) ->
      side_step (bt_on_fill fees) side ev acc = acc) as Hid.
    { intros side acc Hacc. unfold side_step. by rewrite Hacc. }
    by rewrite !Hid by (try done; by rewrite Hid). }
  destruct (fillsim_on_event _ _ _ _) as [fs' l']. cbn [fst snd] in *.
  destruct Hs as (E1 & E2 & E3 & E4 & E5).
  split; rewrite ?E1, ?E2, ?E3, ?E4; try done; auto.
Qed.

Lemma bt_trade_inv rest n i fs l :
  bt_inv (bi_ev i :: rest) n fs l -> Z.of_nat (n + 1) < 2 ^ 64 ->
  exists fs' l', bt_trade token fees i fs l = Some (fs', l') /\ bt_inv rest (n + 1) fs' l'.
Proof.
  intros Hinv Hn. unfold bt_trade. pose proof (bt_fills_inv _ n (bi_ev i) fs l Hinv) as H.
  destruct (fillsim_on_event _ _ _ _) as [fs1 l1]. destruct H as [H1 H2 Hreg H3 H4 H5 H6 H7 H8 H9].
  destruct (process_total (bi_ev i) (bi_clk i) (bi_elapsed i) (bl_pipe l1) token _
    (leads_to rest) H1 Htok H2)
    as (p & sent & -> & [K1 K2 [K3 K4] K5 K6 K7] & Hb & Hs & _); [| |done|].
  { intros Het ob Hs. by apply leads_to_step. }
  { intros Hne ob Hs. by apply leads_to_skip in Hs. }
  cbn [mbind option_bind].
  destruct (register_sent_ok (get_book token (pp_books p)) (pp_sent_orders p) fs1 Hs H6 H8)
    as (R1 & R2 & R3).
  eexists _, _. split; [done|]. split; try done; cbn [with_pipe bl_pipe bl_maker_fills].
  - by apply K7.
  - rewrite K5, H4, wrap_u_add_l by lia. f_equal. lia.
  - destruct K6 as [->|[ns ->]]; [lia|]. cbn [lt_record lt_count].
    rewrite wrap_u_id by ranges. lia.
  - by rewrite R2.
  - destruct H9 as [A1 A2 A3]. split; cbn; [|by rewrite K3|by rewrite K4].
    unfold pos. by rewrite K2.
Qed.

Lemma bt_step_inv rest n i st :
  bt_inv (bi_ev i :: rest) n (bs_fillsim st) (bs_ledger st) -> bs_event_index st = u64 (Z.of_nat n) ->
  Z.of_nat (n + 1) < 2 ^ 64 ->
  exists st', bt_step token fees want_metrics snapshot_every i st = Some st' /\
    bt_inv rest (n + 1) (bs_fillsim st') (bs_ledger st') /\
    bs_event_index st' = u64 (Z.of_nat (n + 1)).
Proof.
  intros Hinv Hidx Hn. unfold bt_step.
  destruct (bt_trade_inv rest n i _ _ Hinv Hn) as (fs & l & -> & Hinv'). cbn [mbind option_bind].
  assert (u64 (bs_event_index st + 1) = u64 (Z.of_nat (n + 1))) as Hi.
  { rewrite Hidx, wrap_u_add_l by lia. f_equal. lia. }
  case_if; [|eexists; split; [done|]; done].
  destruct (reported_defined (pp_tick_to_trade (bl_pipe l))) as ([x Hx] & [y Hy] & [z Hz]).
  { pose proof (bi_latency _ _ _ _ Hinv'). lia. }
  unfold bt_snapshot. rewrite Hx. cbn [mbind option_bind]. rewrite Hy. cbn [mbind option_bind].
  rewrite Hz. cbn [mbind option_bind]. eexists. split; [done|]. done.
Qed.

Lemma bt_loop_inv inputs : forall n st,
  bt_inv (bi_ev <$> inputs) n (bs_fillsim st) (bs_ledger st) -> bs_event_index st = u64 (Z.of_nat n) ->
  Z.of_nat (n + length inputs) < 2 ^ 64 ->
  exists st', bt_loop token fees want_metrics snapshot_every inputs st = Some st' /\
    bt_inv [] (n + length inputs) (bs_fillsim st') (bs_ledger st').
Proof.
  induction inputs as [|i inputs IH]; intros n st Hinv Hidx Hn; cbn [length] in *.
  { exists st. by rewrite Nat.add_0_r. }
  cbn [bt_loop]. destruct (bt_step_inv (fmap (M := list) bi_ev inputs) n i st Hinv Hidx ltac:(lia)) as (st1 & -> & H1 & H2).
  cbn [mbind option_bind]. destruct (IH (n + 1)%nat st1 H1 H2) as (st2 & -> & H3); [lia|].
  exists st2. split; [done|].
  by replace (n + S (length inputs))%nat with (n + 1 + length inputs)%nat by lia.
Qed.

Lemma bt_inv_start mm_cfg mid tick wall junk buf samples metrics evs :
  (80 <= length buf)%nat -> leads_to evs (OrderBook_new token tick kDefaultOrderCapacity) ->
  let st := bt_start (bt_pipeline mm_cfg token mid tick wall junk buf samples) mid metrics in
  bt_inv evs 0 (bs_fillsim st) (bs_ledger st).
Proof.
  intros Hbuf Hs. cbv zeta. constructor; try done.
  - intros t ob. cbn. unfold get_book, add_token. rewrite !Z.geb_leb.
    rewrite (proj2 (Z.leb_gt kMaxTokens token)) by lia. cbn -[kDefaultOrderCapacity]. case_if; [done|].
    rewrite lookup_empty. cbn [fst bm_slots]. intros Hl.
    by apply lookup_insert_Some in Hl as [[<- <-]|[_ Hl]].
  - cbn. unfold get_book, add_token. rewrite !Z.geb_leb.
    rewrite (proj2 (Z.leb_gt kMaxTokens token)) by lia.
    cbn -[kDefaultOrderCapacity]. rewrite lookup_empty. cbn [fst bm_slots]. by rewrite lookup_insert_eq.
  - apply sim_ok_new.
  - by intros [] t _.
Qed.

(** At the end the manager's book of the token is that book. *)
Lemma bt_inv_end n fs l : bt_inv [] n fs l -> get_book token (pp_books (bl_pipe l)) = Some last.
Proof.
  intros Hinv. destruct (bi_registered _ _ _ _ Hinv) as [ob Hob].
  destruct (bi_books _ _ _ _ Hinv _ _ Hob) as [_ [rs [= -> _]]]. exact Hob.
Qed.
End Run.

(** The book of a backtest of [evs] answers all of the token's events. *)
Definition book_survives (token : Token) (tick : Price) (evs : list MarketEvent) : Prop :=
  is_Some (apply_events (OrderBook_new token tick kDefaultOrderCapacity) (token_events token evs)).

(** It does when the additions use few order numbers, whatever else the feed holds. *)
Lemma few_adds_survive token tick evs :
  (size (added (token_events token evs)) < kDefaultOrderCapacity)%nat -> book_survives token tick evs.
Proof.
  intros Ha. destruct (fresh_book_answers token tick kDefaultOrderCapacity _ (token_events token evs)
    (reflexivity _) Ha) as (ob & rs & H & _). by exists (ob, rs).
Qed.

(** A quotient by 100 of a difference is within one of the difference. *)
Lemma quot_sub_100 a b : Z.abs (Z.quot (a - b) 100 - (Z.quot a 100 - Z.quot b 100)) <= 1.
Proof. Z.to_euclidean_division_equations. lia. Qed.

(** The writer a run starts with, and whether it takes snapshots. *)
Definition bt_metrics (path : option (string * bool)) (disk : gmap string (list Ascii.ascii))
    : MetricsWriter * bool :=
  match path with
  | None => (MetricsWriter_new disk, false)
  | Some (f, ok) => mw_open f ok (MetricsWriter_new disk)
  end.

(** A run is its loop, of which every event completes, and the report of the last
    state. *)
Lemma run_backtest_runs inputs mm_cfg token mid tick path fees wall junk buf disk :
  0 <= token < kMaxTokens -> (80 <= length buf)%nat ->
  book_survives token tick (bi_ev <$> inputs) -> Z.of_nat (length inputs) < 2 ^ 64 ->
  exists r mw st every, run_backtest inputs mm_cfg token mid tick path fees wall junk buf disk = Some (r, mw) /\
    bt_loop token fees (bt_metrics path disk).2 every inputs
      (bt_start (bt_pipeline mm_cfg token mid tick wall junk buf kPipelineSamples) mid (bt_metrics path disk).1) =
      Some st /\
    (exists last rs, apply_events (OrderBook_new token tick kDefaultOrderCapacity)
        (token_events token (bi_ev <$> inputs)) = Some (last, rs) /\
      bt_inv token last [] (length inputs) (bs_fillsim st) (bs_ledger st)) /\ bt_result st = Some r.
Proof.
  intros Ht Hbuf [[last rs] Hsurv] Hlen. unfold run_backtest. fold (bt_metrics path disk).
  destruct (bt_metrics path disk) as [metrics want]. cbn [fst snd].
  set (pipe := bt_pipeline _ _ _ _ _ _ _ _). set (every := if _ =? 0 then _ else _).
  destruct (bt_loop_inv token fees want every Ht last inputs 0 (bt_start pipe mid metrics))
    as (st & Hst & Hinv); [apply bt_inv_start; [done..|by exists rs]|done..|].
  rewrite Hst. cbn [mbind option_bind].
  assert (exists r, bt_result st = Some r) as [r Hr].
  { unfold bt_result. destruct (reported_defined (pp_tick_to_trade (bl_pipe (bs_ledger st)))) as ([a Ha] & [b Hb] & [c Hc]).
    { pose proof (bi_latency _ _ _ _ _ _ Hinv). lia. }
    rewrite Ha. cbn [mbind option_bind]. rewrite Hb. cbn [mbind option_bind].
    rewrite Hc. cbn [mbind option_bind]. by eexists. }
  rewrite Hr. cbn [mbind option_bind]. exists r, (mw_flush (bs_metrics st)), st, every.
  split_and!; [done..| |done]. by exists last, rs.
Qed.

Lemma bt_result_fields st r :
  bt_result st = Some r ->
  br_orders_sent r = ps_orders_sent (pp_stats (bl_pipe (bs_ledger st))) /\
  br_orders_rejected r = ps_orders_rejected (pp_stats (bl_pipe (bs_ledger st))) /\
  br_fills r = bl_maker_fills (bs_ledger st) /\ br_position r = bl_position (bs_ledger st) /\
  br_gross_pnl_inr r = gross_inr (bs_mark st) (bs_ledger st) /\
  br_fees_inr r = Z.quot (bl_fees_paisa (bs_ledger st)) 100 /\
  br_pnl_inr r = net_inr (bs_mark st) (bs_ledger st) /\
  p50 (pp_tick_to_trade (bl_pipe (bs_ledger st))) = Some (br_lat_p50 r) /\
  p99 (pp_tick_to_trade (bl_pipe (bs_ledger st))) = Some (br_lat_p99 r) /\
  p999 (pp_tick_to_trade (bl_pipe (bs_ledger st))) = Some (br_lat_p999 r).
Proof.
  unfold bt_result. intros H. apply bind_Some in H as (a & Ha & H). apply bind_Some in H as (b & Hb & H).
  apply bind_Some in H as (c & Hc & H). injection H as <-. done.
Qed.

(** C27.  A backtest always finishes and its books balance.  For a token of the
    tables, any strategy configuration, fee model, prices, clocks, measured times
    and metrics file, and any stream whose events for the token a book of the default
    capacity answers (any that adds fewer than 16384 distinct order numbers, [few_adds_survive], and
    the synthetic feeds of any length), [run_backtest] returns; at the end the position kept by the strategy, the one
    kept by the risk manager (both 32-bit) and the engine's own are the same, the cash
    flow of the risk manager is the engine's, the number of fills reported is
    the simulator's, and, unless the 64-bit sums overflow, the net profit is gross
    profit minus fees up to one rupee of rounding. *)
Theorem backtest_total_and_balanced inputs mm_cfg token mid tick path fees wall junk buf disk :
  0 <= token < kMaxTokens -> (80 <= length buf)%nat ->
  book_survives token tick (bi_ev <$> inputs) -> Z.of_nat (length inputs) < 2 ^ 64 ->
  exists r mw st every, run_backtest inputs mm_cfg token mid tick path fees wall junk buf disk = Some (r, mw) /\
    bt_loop token fees (bt_metrics path disk).2 every inputs
      (bt_start (bt_pipeline mm_cfg token mid tick wall junk buf kPipelineSamples) mid (bt_metrics path disk).1) =
      Some st /\
    ledgers_agree token (bs_ledger st) /\
    br_position r = bl_position (bs_ledger st) /\
    br_fills r = fs_fills (bs_fillsim st) /\
    (let gross := bl_cash_paisa (bs_ledger st) + i64 (bl_position (bs_ledger st) * bs_mark st) in
     in_s 64 gross -> in_s 64 (gross - bl_fees_paisa (bs_ledger st)) ->
     Z.abs (br_pnl_inr r - (br_gross_pnl_inr r - br_fees_inr r)) <= 1).
Proof.
  intros Ht Hbuf Hsurv Hlen.
  destruct (run_backtest_runs inputs mm_cfg token mid tick path fees wall junk buf disk)
    as (r & mw & st & every & Hrun & Hst & (last & rs & _ & Hinv) & Hr); [done..|].
  apply bt_result_fields in Hr as (_ & _ & Hf & Hp & Hg & Hfee & Hn & _).
  exists r, mw, st, every. split; [done|]. split; [exact Hst|]. destruct Hinv. split_and!; [done|done|congruence|].
  cbv zeta. intros H1 H2. rewrite Hn, Hg, Hfee. unfold net_inr, gross_inr.
  rewrite !(wrap_s_id 64 (_ + _)) by (done || lia). rewrite wrap_s_id by (done || lia).
  apply quot_sub_100.
Qed.

(** ** Concrete runs *)

Definition bt_cfg : MarketMakingConfig :=
  {| mc_segment := kSegmentCm; mc_max_position_lots := 100; mc_max_spread_ticks := 3;
     mc_quote_ttl_ns := 500000; mc_quote_lots := 10; mc_max_inv_skew_ticks := 0;
     mc_max_flow_skew_ticks := 0 |}.

Definition bt_quote (seq : Z) : MarketEvent :=
  {| ev_ts := 0; ev_token := 7; ev_price := 0; ev_qty := 0; ev_side := false;
     ev_type := msg_code kSnapQuote; ev_order_no := 0; ev_stream_id := 0; ev_seq_no := seq;
     ev_order_no2 := 0; ev_trade_no := 0; ev_bid_price := 10000; ev_bid_qty := 100;
     ev_ask_price := 10010; ev_ask_qty := 100 |}.

Definition bt_print (price qty seq : Z) : MarketEvent :=
  {| ev_ts := 0; ev_token := 7; ev_price := price; ev_qty := qty; ev_side := false;
     ev_type := msg_code kTrade; ev_order_no := 0; ev_stream_id := 0; ev_seq_no := seq;
     ev_order_no2 := 0; ev_trade_no := 0; ev_bid_price := 0; ev_bid_qty := 0;
     ev_ask_price := 0; ev_ask_qty := 0 |}.

Definition bt_input (ev : MarketEvent) : BtInput :=
  {| bi_ev := ev; bi_clk := fun _ => 0; bi_elapsed := 900 |}.

Definition bt_inputs : list BtInput :=
  bt_input <$> [bt_quote 1; bt_print 9990 6 2; bt_print 9990 6 3].

Definition bt_sample (samples : nat) : BtState :=
  bt_start (bt_pipeline bt_cfg 7 10005 5 ten_am OrderManager.sample_order (replicate 256 0) samples)
    10005 (MetricsWriter_new ∅).

(** The re-registration of a stale [last_sent]: one buy order of 10 is sent, and two
    prints of 6 fill 12 of it, since the second event sends nothing and the engine
    registers the partly filled order again, at its full quantity. *)
Lemma stale_registration_overfills :
  exists st, bt_loop 7 FeeModel_default false 1 bt_inputs (bt_sample 8) = Some st /\
    map (fun o => (o_side o, o_qty o)) (pp_sent_orders (bl_pipe (bs_ledger st))) =
      [(kBuy, 10); (kSell, 10)] /\
    ps_orders_sent (pp_stats (bl_pipe (bs_ledger st))) = 2 /\
    bl_position (bs_ledger st) = 12.
Proof. eexists. vm_compute. done. Qed.


Lemma backtest_total_and_balanced_witness :
  exists r mw st, run_backtest bt_inputs bt_cfg 7 10005 5 None FeeModel_default ten_am
      OrderManager.sample_order (replicate 256 0) ∅ = Some (r, mw) /\
    ledgers_agree 7 (bs_ledger st) /\ br_position r = bl_position (bs_ledger st).
Proof.
  destruct (backtest_total_and_balanced bt_inputs bt_cfg 7 10005 5 None FeeModel_default ten_am
    OrderManager.sample_order (replicate 256 0) ∅) as (r & mw & st & _ & Hrun & _ & Ha & Hp & _).
  - split; [lia|reflexivity].
  - rewrite length_replicate. lia.
  - apply few_adds_survive. vm_compute. lia.
  - vm_compute. reflexivity.
  - exists r, mw, st. split; [exact Hrun|]. split; [exact Ha|exact Hp].
Defined.
