(* ===== verification/BacktestTools.v ===== *)
(** * BacktestTools: the event source and the tools that run backtests
      (src/sim/event_source.hpp, tools/backtest.cpp, tools/sweep.cpp)

    [load_source] is [load_events] of the event source with its three cases.  The
    sweep runs one backtest for each cell of a grid of skew settings, the backtest
    tool three variants on the same data.  [RunEnv] is what the surroundings of a run
    contribute: the clock readings and measured times of each event, the wall clock
    and the memory a run finds uninitialised. *)

From Stdlib Require Import ZArith Lia Ascii String.
From stdpp Require Import base gmap numbers option strings list.
From S2P Require Import Prelude Types Text Codec Capture Generator OrderBook BookLiveness.
From S2P Require Import TimeUtils BookManager MarketMaking OrderManager Pipeline FillSimulator FeeModel Metrics BacktestEngine.

Local Open Scope Z_scope.

(** ** The event source *)

Section Source.
Context {R : Type} `{!Rng R} (seeded : Z -> R).

(** [None] is a null path; [Some file] a path and, if it opens, the file's bytes. *)
Definition load_source (path : option (option bytes)) (token : Token) (mid tick : Price) (synth_count : Z)
    : option (list MarketEvent) :=
  match path with
  | None =>
      Some (gn_out (generate_mbo (Z.to_nat synth_count) (MtbtGenerator_new token mid tick (seeded 12345)) []))
  | Some None => Some []
  | Some (Some file) => load_events file
  end.
End Source.

(** ** A run in its surroundings *)

Record RunEnv := {
  re_clk : nat -> Clock;
  re_elapsed : nat -> Z;
  re_wall : Timestamp;
  re_junk : Z -> Order;
  re_buf : bytes;
}.

Definition inputs_of (env : RunEnv) (events : list MarketEvent) : list BtInput :=
  imap (fun i ev => {| bi_ev := ev; bi_clk := re_clk env i; bi_elapsed := re_elapsed env i |}) events.

Definition backtest_in (env : RunEnv) (events : list MarketEvent) (cfg : MarketMakingConfig) (token : Token)
    (mid tick : Price) (metrics_path : option (string * bool)) (fees : FeeModel)
    (disk : gmap string (list ascii)) : option (BtResult * MetricsWriter) :=
  run_backtest (inputs_of env events) cfg token mid tick metrics_path fees (re_wall env) (re_junk env)
    (re_buf env) disk.

Definition MarketMakingConfig_default : MarketMakingConfig :=
  {| mc_segment := kSegmentCm; mc_max_position_lots := 10; mc_max_spread_ticks := 3;
     mc_quote_ttl_ns := 500000; mc_quote_lots := 1; mc_max_inv_skew_ticks := 0;
     mc_max_flow_skew_ticks := 0 |}.

(** [cfg.max_position_lots = 50] and the two skew knobs. *)
Definition skewed (inv flow : Z) : MarketMakingConfig :=
  let d := MarketMakingConfig_default in
  {| mc_segment := mc_segment d; mc_max_position_lots := 50; mc_max_spread_ticks := mc_max_spread_ticks d;
     mc_quote_ttl_ns := mc_quote_ttl_ns d; mc_quote_lots := mc_quote_lots d;
     mc_max_inv_skew_ticks := inv; mc_max_flow_skew_ticks := flow |}.

Module Tool.
Definition kToken : Token := 2885.
Definition kMid : Price := 1000000.
Definition kTick : Price := 5.
Definition kSynthCount : Z := 200000.
End Tool.
Import Tool.

(** ** sweep *)

Definition kMaxInv : Z := 4.
Definition kMaxFlow : Z := 3.

(** [sw_pnl] is the array [pnl], [sw_csv] the text of the CSV file when it opened. *)
Record Sweep := {
  sw_pnl : gmap (Z * Z) Z;
  sw_best_inv : Z;
  sw_best_flow : Z;
  sw_best_pnl : Z;
  sw_csv : option text;
}.

Definition newline : text := [Ascii.ascii_of_nat 10].
Definition comma : text := [","%char].

Definition csv_row (inv flow : Z) (r : BtResult) : text :=
  dec inv ++ comma ++ dec flow ++ comma ++ dec (br_pnl_inr r) ++ comma ++ dec (br_fills r) ++ comma ++
  dec (br_orders_sent r) ++ comma ++ dec (br_position r) ++ newline.

Definition sweep_start (csv_opens : bool) : Sweep :=
  {| sw_pnl := ∅; sw_best_inv := 0; sw_best_flow := 0; sw_best_pnl := - 2 ^ 63;
     sw_csv := if csv_opens then Some (lit "inv_skew_ticks,flow_skew_ticks,pnl_inr,fills,orders,position" ++ newline)
               else None |}.

Section Sweep.
Context (env : Z * Z -> RunEnv) (events : list MarketEvent).

(** The inner loop body once the run has returned. *)
Definition sweep_note (cell : Z * Z) (r : BtResult) (st : Sweep) : Sweep :=
  let '(inv, flow) := cell in
  let better := br_pnl_inr r >? sw_best_pnl st in
  {| sw_pnl := <[cell := br_pnl_inr r]> (sw_pnl st);
     sw_best_inv := if better then inv else sw_best_inv st;
     sw_best_flow := if better then flow else sw_best_flow st;
     sw_best_pnl := if better then br_pnl_inr r else sw_best_pnl st;
     sw_csv := (fun csv => csv ++ csv_row inv flow r) <$> sw_csv st |}.

Definition sweep_run (cell : Z * Z) : option (BtResult * MetricsWriter) :=
  backtest_in (env cell) events (skewed cell.1 cell.2) kToken kMid kTick None FeeModel_default ∅.

Fixpoint sweep_loop (cells : list (Z * Z)) (st : Sweep) : option Sweep :=
  match cells with
  | [] => Some st
  | cell :: cells => '(r, _) ← sweep_run cell; sweep_loop cells (sweep_note cell r st)
  end.

(** [for inv in 0..kMaxInv, for flow in 0..kMaxFlow]. *)
Definition sweep_cells : list (Z * Z) :=
  concat ((fun inv => pair inv <$> seqZ 0 (kMaxFlow + 1)) <$> seqZ 0 (kMaxInv + 1)).

Definition sweep (csv_opens : bool) : option Sweep := sweep_loop sweep_cells (sweep_start csv_opens).
End Sweep.

(** [%7lld]: at least seven characters, padded on the left. *)
Definition pad7 (n : Z) : text := replicate (7 - length (dec n)) " "%char ++ dec n.

Definition heatmap_row (st : Sweep) (inv : Z) : text :=
  lit "inv=" ++ dec inv ++ lit " | " ++
  concat ((fun flow => pad7 (sw_pnl st !!! (inv, flow)) ++
    (if (inv =? sw_best_inv st) && (flow =? sw_best_flow st) then lit "*" else lit " ")) <$> seqZ 0 (kMaxFlow + 1)) ++
  newline.

Definition best_line (st : Sweep) : text :=
  lit "best: inv_skew=" ++ dec (sw_best_inv st) ++ lit " flow_skew=" ++ dec (sw_best_flow st) ++ lit " -> Rs " ++
  dec (sw_best_pnl st) ++ lit "   (naive inv=0,flow=0 -> Rs " ++ dec (sw_pnl st !!! (0, 0)) ++ lit ")" ++ newline.

(** [main]: the heatmap rows and the line of the best cell. *)
Definition sweep_main {R} `{!Rng R} (seeded : Z -> R) (capture : option (option bytes))
    (env : Z * Z -> RunEnv) (csv_opens : bool) : option (Sweep * list text) :=
  events ← load_source seeded capture kToken kMid kTick kSynthCount;
  st ← sweep env events csv_opens;
  Some (st, (heatmap_row st <$> seqZ 0 (kMaxInv + 1)) ++ [best_line st]).

(** ** backtest *)

Definition fees_les : FeeModel :=
  let d := FeeModel_default in
  {| fm_txn_bp100 := fm_txn_bp100 d; fm_sebi_bp100 := fm_sebi_bp100 d;
     fm_stt_sell_bp100 := fm_stt_sell_bp100 d; fm_stamp_buy_bp100 := fm_stamp_buy_bp100 d;
     fm_gst_pct := fm_gst_pct d; fm_maker_rebate_bp100 := 250 |}.

Record Comparison := { cmp_naive : BtResult; cmp_smart : BtResult; cmp_les : BtResult }.

(** The two differences printed under the table. *)
Definition cost_drag (c : Comparison) : Z := i64 (br_gross_pnl_inr (cmp_smart c) - br_pnl_inr (cmp_smart c)).
Definition rebate_lever (c : Comparison) : Z := i64 (br_pnl_inr (cmp_les c) - br_pnl_inr (cmp_smart c)).

(** [env] are the surroundings of the three runs; [opens] whether the metrics file
    of the second one can be opened. *)
Definition backtest_main {R} `{!Rng R} (seeded : Z -> R) (capture : option (option bytes))
    (env : nat -> RunEnv) (opens : bool) (disk : gmap string (list ascii))
    : option (Comparison * MetricsWriter) :=
  events ← load_source seeded capture kToken kMid kTick kSynthCount;
  let naive := skewed 0 0 in
  let smart := skewed 2 1 in
  '(rn, _) ← backtest_in (env 0%nat) events naive kToken kMid kTick None FeeModel_default disk;
  '(rs, mw) ← backtest_in (env 1%nat) events smart kToken kMid kTick
                (Some ("backtest_metrics.jsonl"%string, opens)) FeeModel_default disk;
  '(rl, _) ← backtest_in (env 2%nat) events smart kToken kMid kTick None fees_les disk;
  Some ({| cmp_naive := rn; cmp_smart := rs; cmp_les := rl |}, mw).

(** ** Data the tools can play *)

Lemma inputs_of_events env evs : bi_ev <$> inputs_of env evs = evs.
Proof.
  unfold inputs_of. rewrite fmap_imap. unfold compose. cbn.
  apply list_eq. intros i. rewrite list_lookup_imap. by destruct (evs !! i).
Qed.

Lemma token_events_all token evs : Forall (fun ev => ev_token ev = token) evs -> token_events token evs = evs.
Proof.
  unfold token_events. induction 1 as [|ev evs Hev _ IH]; [done|]. by rewrite filter_cons_True, IH.
Qed.

(** The synthetic session of any length is answered in full by a book of the default
    capacity, although it adds far more than 16384 orders; the book then shows the orders
    the generator still holds live. *)
Lemma synthetic_survives {R} `{!Rng R} token mid tick (rng : R) steps :
  0 < tick <= 2 ^ 20 -> 0 <= mid <= 2 ^ 40 -> Z.rem mid tick = 0 -> Z.of_nat steps < 2 ^ 31 -> in_u 32 token ->
  let evs := gn_out (generate_mbo steps (MtbtGenerator_new token mid tick rng) []) in
  Z.of_nat (length evs) < 2 ^ 40 /\
  exists ob rs, apply_events (OrderBook_new token tick kDefaultOrderCapacity) (token_events token evs) =
      Some (ob, rs) /\
    shows_live ob (gn_live (generate_mbo steps (MtbtGenerator_new token mid tick rng) [])).
Proof.
  intros Ht Hm Hr Hn Htok. cbv zeta.
  destruct (generate_mbo_accepted token mid tick rng steps kDefaultOrderCapacity) as (a & k & B & Hi & Hk);
    [done..|apply Nat.ltb_lt; vm_compute; reflexivity|].
  destruct (mbo_shows_live _ _ _ _ _ _ _ _ _ Hi) as (ob & Hrun & Hlive).
  pose proof (mi_out _ _ _ _ _ _ _ _ Hi). split; [lia|].
  rewrite token_events_all; [by eexists ob, _|].
  eapply Forall_impl; [by apply Hi|]. intros ev (_ & _ & _ & E). exact E.
Qed.

(** A source whose token events a book answers, as the synthetic one and every
    capture that adds fewer than 16384 orders. *)
Definition playable (capture : option (option bytes)) : Prop :=
  match capture with
  | Some (Some file) =>
      match load_events file with
      | Some evs => book_survives kToken kTick evs /\ Z.of_nat (length evs) < 2 ^ 64
      | None => False
      end
  | _ => True
  end.

Lemma playable_source {R} `{!Rng R} (seeded : Z -> R) capture :
  playable capture ->
  exists evs, load_source seeded capture kToken kMid kTick kSynthCount = Some evs /\
    book_survives kToken kTick evs /\ Z.of_nat (length evs) < 2 ^ 64.
Proof.
  destruct capture as [[file|]|]; cbn [load_source playable].
  - destruct (load_events file) as [evs|]; [|done]. intros [H1 H2]. by exists evs.
  - intros _. exists []. split_and!; [done| |done]. apply few_adds_survive, Nat.ltb_lt. vm_compute. reflexivity.
  - intros _. eexists. split; [done|].
    destruct (synthetic_survives kToken kMid kTick (seeded 12345) (Z.to_nat kSynthCount)) as [H2 (ob & rs & H1 & _)];
      [vm_compute; intuition congruence|vm_compute; intuition congruence|reflexivity|vm_compute; reflexivity
      |vm_compute; intuition congruence|]. split; [by exists (ob, rs)|]. lia.
Qed.

Lemma backtest_in_runs env evs cfg token mid tick path fees disk :
  0 <= token < kMaxTokens -> (80 <= length (re_buf env))%nat -> book_survives token tick evs ->
  Z.of_nat (length evs) < 2 ^ 64 ->
  exists r mw st every, backtest_in env evs cfg token mid tick path fees disk = Some (r, mw) /\
    bt_loop token fees (bt_metrics path disk).2 every (inputs_of env evs)
      (bt_start (bt_pipeline cfg token mid tick (re_wall env) (re_junk env) (re_buf env) kPipelineSamples) mid
         (bt_metrics path disk).1) = Some st /\ bt_result st = Some r /\
    exists ob rs, apply_events (OrderBook_new token tick kDefaultOrderCapacity) (token_events token evs) =
        Some (ob, rs) /\ get_book token (pp_books (bl_pipe (bs_ledger st))) = Some ob.
Proof.
  intros Ht Hbuf Hs Hlen. unfold backtest_in.
  destruct (run_backtest_runs (inputs_of env evs) cfg token mid tick path fees (re_wall env) (re_junk env) (re_buf env) disk)
    as (r & mw & st & every & H1 & H2 & (ob & rs & Ha & Hinv) & H3);
    [done|done|by rewrite inputs_of_events|by rewrite <- (length_fmap bi_ev), inputs_of_events|].
  exists r, mw, st, every. split_and!; [done..|]. exists ob, rs. rewrite inputs_of_events in Ha.
  split; [done|]. by eapply bt_inv_end.
Qed.

(** ** The sweep finds the first best cell *)

(** [i] is the position of the first cell of the largest profit. *)
Definition first_max (pnls : list Z) (i : nat) (best : Z) : Prop :=
  pnls !! i = Some best /\ Forall (fun p => p <= best) pnls /\ Forall (fun p => p < best) (take i pnls).

(** The best cell of what has been swept, or the start values. *)
Definition best_so_far (done : list ((Z * Z) * Z)) (st : Sweep) : Prop :=
  (done = [] /\ (sw_best_inv st, sw_best_flow st) = (0, 0) /\ sw_best_pnl st = - 2 ^ 63) \/
  exists i, done.*1 !! i = Some (sw_best_inv st, sw_best_flow st) /\ first_max done.*2 i (sw_best_pnl st).

Lemma best_note done st cell r :
  best_so_far done st -> - 2 ^ 63 < br_pnl_inr r ->
  best_so_far (done ++ [(cell, br_pnl_inr r)]) (sweep_note cell r st).
Proof.
  intros Hb Hr. destruct cell as [inv flow]. right. unfold first_max. rewrite !fmap_app. cbn [fmap list_fmap fst snd].
  cbn [sweep_note sw_best_inv sw_best_flow sw_best_pnl].
  assert (length done.*1 = length done.*2) as Hlen by by rewrite !length_fmap.
  destruct (br_pnl_inr r >? sw_best_pnl st) eqn:Hgt; bool_arith.
  - exists (length done.*2). rewrite take_app_length. rewrite <- Hlen at 1.
    rewrite !list_lookup_middle by done. split_and!; [done|done| |].
    + apply Forall_app. split; [|by constructor; [lia|]].
      destruct Hb as [(-> & _)|(i & _ & _ & Hle & _)]; [done|]. eapply Forall_impl; [exact Hle|]. cbn. lia.
    + destruct Hb as [(-> & _)|(i & _ & _ & Hle & _)]; [done|]. eapply Forall_impl; [exact Hle|]. cbn. lia.
  - destruct Hb as [(-> & _ & E)|(i & Hi & Hi2 & Hle & Hlt)]; [lia|].
    exists i. pose proof (lookup_lt_Some _ _ _ Hi2). rewrite !lookup_app_l, take_app_le by (rewrite ?Hlen; lia).
    split_and!; try done. apply Forall_app. split; [done|]. by constructor; [lia|].
Qed.

(** What the CSV file holds for [done] cells. *)
Definition csv_of (csv_opens : bool) (rs : list ((Z * Z) * BtResult)) : option text :=
  if csv_opens then
    Some (lit "inv_skew_ticks,flow_skew_ticks,pnl_inr,fills,orders,position" ++ newline ++
          concat ((fun cr => csv_row cr.1.1 cr.1.2 cr.2) <$> rs))
  else None.

Lemma net_above mark l : - 2 ^ 63 < net_inr mark l.
Proof.
  unfold net_inr. set (z := i64 (_ - bl_fees_paisa l)).
  assert (in_s 64 z) as Hz by (apply wrap_s_range; lia). clearbody z. unfold in_s in Hz. cbn in Hz.
  Z.to_euclidean_division_equations. lia.
Qed.

Section SweepRun.
Context (env : Z * Z -> RunEnv) (evs : list MarketEvent) (csv_opens : bool).
Context (Henv : forall c, (80 <= length (re_buf (env c)))%nat) (Hs : book_survives kToken kTick evs)
  (Hlen : Z.of_nat (length evs) < 2 ^ 64).

Lemma sweep_run_defined cell : exists r mw, sweep_run env evs cell = Some (r, mw) /\ - 2 ^ 63 < br_pnl_inr r.
Proof using Henv Hs Hlen.
  destruct (backtest_in_runs (env cell) evs (skewed cell.1 cell.2) kToken kMid kTick None FeeModel_default ∅)
    as (r & mw & st & every & H1 & _ & H2 & _); [vm_compute; intuition congruence|apply Henv|done|done|].
  exists r, mw. split; [done|]. apply bt_result_fields in H2 as (_ & _ & _ & _ & _ & _ & -> & _). apply net_above.
Qed.

(** The state after the runs [rs]. *)
Definition swept (rs : list ((Z * Z) * BtResult)) (st : Sweep) : Prop :=
  best_so_far ((fun cr => (cr.1, br_pnl_inr cr.2)) <$> rs) st /\
  (forall c, c ∈ rs.*1 -> exists r mw, sweep_run env evs c = Some (r, mw) /\ sw_pnl st !! c = Some (br_pnl_inr r)) /\
  sw_csv st = csv_of csv_opens rs.

Lemma sweep_loop_swept cells : forall rs st,
  swept rs st ->
  exists rs' st', sweep_loop env evs cells st = Some st' /\ rs'.*1 = cells /\
    Forall (fun cr => exists mw, sweep_run env evs cr.1 = Some (cr.2, mw)) rs' /\ swept (rs ++ rs') st'.
Proof using Henv Hs Hlen.
  induction cells as [|cell cells IH]; intros rs st (Hb & Hp & Hc); cbn [sweep_loop].
  { exists [], st. rewrite app_nil_r. by split_and!. }
  destruct (sweep_run_defined cell) as (r & mw & Hr & Hbig). rewrite Hr. cbn [mbind option_bind].
  destruct (IH (rs ++ [(cell, r)]) (sweep_note cell r st)) as (rs' & st' & Hrun & E & Hall & Hsw).
  { split_and!.
    - rewrite fmap_app. by apply best_note.
    - intros c. rewrite fmap_app, elem_of_app. cbn [fmap list_fmap fst]. rewrite list_elem_of_singleton.
      destruct cell as [inv flow]. cbn [sweep_note sw_pnl].
      destruct (decide (c = (inv, flow))) as [->|Hne].
      + intros _. exists r, mw. by rewrite lookup_insert_eq.
      + intros [Hin|?]; [|done]. destruct (Hp c Hin) as (r' & mw' & H1 & H2). exists r', mw'.
        by rewrite lookup_insert_ne by done.
    - destruct cell as [inv flow]. cbn [sweep_note sw_csv]. rewrite Hc. unfold csv_of. destruct csv_opens; [|done].
      cbn [fmap option_fmap option_map]. rewrite fmap_app, concat_app. cbn [fmap list_fmap concat fst snd].
      by rewrite app_nil_r, <- !app_assoc. }
  exists ((cell, r) :: rs'), st'. rewrite <- app_assoc in Hsw. split_and!; [done|cbn; by rewrite E| |done].
  constructor; [by exists mw|done].
Qed.
End SweepRun.

(** C31.  The sweep finishes and marks the best settings.  On the synthetic session,
    whatever the random engine draws, on a capture that cannot be opened and on every
    playable capture, all twenty backtests return; the cell reported as best is the
    first one of the grid, row by row, with the largest net profit; the profit array holds
    the profit of every cell, and the CSV file has one row per cell, in that order. *)
Theorem sweep_reports_best {R} `{!Rng R} (seeded : Z -> R) capture env csv_opens :
  playable capture -> (forall c, (80 <= length (re_buf (env c)))%nat) ->
  exists evs st out rs i,
    load_source seeded capture kToken kMid kTick kSynthCount = Some evs /\
    sweep_main seeded capture env csv_opens = Some (st, out) /\
    rs.*1 = sweep_cells /\ length rs = 20%nat /\
    Forall (fun cr => exists mw, sweep_run env evs cr.1 = Some (cr.2, mw) /\
                                 sw_pnl st !! cr.1 = Some (br_pnl_inr cr.2)) rs /\
    sweep_cells !! i = Some (sw_best_inv st, sw_best_flow st) /\
    first_max ((fun cr => br_pnl_inr cr.2) <$> rs) i (sw_best_pnl st) /\
    sw_csv st = csv_of csv_opens rs.
Proof.
  intros Hplay Henv. destruct (playable_source seeded capture Hplay) as (evs & Hsrc & Hs & Hlen).
  unfold sweep_main. rewrite Hsrc. cbn [mbind option_bind]. unfold sweep.
  destruct (sweep_loop_swept env evs csv_opens Henv Hs Hlen sweep_cells [] (sweep_start csv_opens))
    as (rs & st & -> & Ers & Hall & Hb & Hp & Hc).
  { split_and!; [by left|by intros c Hc%not_elem_of_nil|]. unfold csv_of. by destruct csv_opens. }
  cbn [mbind option_bind app] in *.
  destruct Hb as [(Hnil & _)|(i & Hi & Hmax)].
  { apply fmap_nil_inv in Hnil. subst rs. discriminate Ers. }
  rewrite <- list_fmap_compose in Hi, Hmax. change (compose fst _) with (fst (A := Z * Z) (B := BtResult)) in Hi.
  eexists evs, st, _, rs, i. split; [done|]. split; [done|].
  split_and!; [done| | | | |done].
  - by rewrite <- (length_fmap fst), Ers.
  - apply Forall_forall. intros cr Hin. rewrite Forall_forall in Hall. destruct (Hall cr Hin) as [mw Hmw].
    exists mw. split; [done|]. destruct (Hp cr.1) as (r & mw' & H1 & H2); [by apply list_elem_of_fmap_2|].
    rewrite Hmw in H1. injection H1 as <- <-. done.
  - by rewrite <- Ers.
  - exact Hmax.
Qed.

(** *** A capture of three events *)

Definition desk_env : RunEnv :=
  {| re_clk := fun _ _ => 0; re_elapsed := fun _ => 900; re_wall := ten_am;
     re_junk := OrderManager.sample_order; re_buf := replicate 256 0 |}.

Definition on_token (ev : MarketEvent) : MarketEvent :=
  {| ev_ts := ev_ts ev; ev_token := kToken; ev_price := ev_price ev; ev_qty := ev_qty ev; ev_side := ev_side ev;
     ev_type := ev_type ev; ev_order_no := ev_order_no ev; ev_stream_id := ev_stream_id ev;
     ev_seq_no := ev_seq_no ev; ev_order_no2 := ev_order_no2 ev; ev_trade_no := ev_trade_no ev;
     ev_bid_price := ev_bid_price ev; ev_bid_qty := ev_bid_qty ev; ev_ask_price := ev_ask_price ev;
     ev_ask_qty := ev_ask_qty ev |}.

Definition desk_events : list MarketEvent := on_token <$> [bt_quote 1; bt_print 9990 6 2; bt_print 9990 6 3].
Definition desk_capture : bytes := encode_captures desk_events [].

Lemma desk_playable : playable (Some (Some desk_capture)).
Proof.
  unfold playable. destruct (load_events desk_capture) as [evs|] eqn:E; [|vm_compute in E; discriminate E].
  vm_compute in E. injection E as <-. split; [|reflexivity].
  apply few_adds_survive, Nat.ltb_lt. vm_compute. reflexivity.
Defined.

Lemma sweep_reports_best_witness :
  exists st out rs i,
    sweep_main (fun s => s) (Some (Some desk_capture)) (fun _ => desk_env) true = Some (st, out) /\
    length rs = 20%nat /\ sweep_cells !! i = Some (sw_best_inv st, sw_best_flow st) /\
    first_max ((fun cr => br_pnl_inr cr.2) <$> rs) i (sw_best_pnl st) /\ sw_csv st = csv_of true rs.
Proof.
  destruct (sweep_reports_best (fun s => s) (Some (Some desk_capture)) (fun _ => desk_env) true)
    as (evs & st & out & rs & i & _ & H1 & _ & H2 & _ & H3 & H4 & H5).
  - exact desk_playable.
  - intros _. cbn. lia.
  - exists st, out, rs, i. split; [exact H1|]. split; [exact H2|]. split; [exact H3|]. split; [exact H4|exact H5].
Defined.

(** ** Costs do not trade *)

(** The ledger without its cost column. *)
Definition no_fees (l : BtLedger) : BtLedger :=
  {| bl_pipe := bl_pipe l; bl_cash_paisa := bl_cash_paisa l; bl_fees_paisa := 0;
     bl_position := bl_position l; bl_maker_fills := bl_maker_fills l |}.

Definition free : FeeModel :=
  {| fm_txn_bp100 := 0; fm_sebi_bp100 := 0; fm_stt_sell_bp100 := 0; fm_stamp_buy_bp100 := 0;
     fm_gst_pct := 0; fm_maker_rebate_bp100 := 0 |}.

Lemma free_costs_nothing side price qty : cost_paise free side price qty = 0.
Proof.
  assert (forall n, charge n 0 = 0) as Hc by (intros n; unfold charge; by rewrite Z.mul_0_r).
  unfold cost_paise, free. cbn [fm_txn_bp100 fm_sebi_bp100 fm_stt_sell_bp100 fm_stamp_buy_bp100 fm_gst_pct
    fm_maker_rebate_bp100]. rewrite !Hc. by destruct side.
Qed.

Lemma no_fees_on_fill fees f l : no_fees (bt_on_fill fees f l) = bt_on_fill free f (no_fees l).
Proof. unfold bt_on_fill, no_fees. cbn. by rewrite free_costs_nothing. Qed.

(** Two states that differ in costs, metrics and event counters only. *)
Definition same_trades (st1 st2 : BtState) : Prop :=
  bs_fillsim st1 = bs_fillsim st2 /\ no_fees (bs_ledger st1) = no_fees (bs_ledger st2) /\
  bs_mark st1 = bs_mark st2.

#[global] Instance same_trades_equiv : Equivalence same_trades.
Proof.
  unfold same_trades. split; [done|intros x y (?&?&?)|intros x y z (?&?&?) (?&?&?)]; split_and!; congruence.
Qed.

(** A step without the cost column: the same trades, at no cost. *)
Lemma bt_trade_free token fees i fs l fs' l' :
  bt_trade token fees i fs l = Some (fs', l') -> bt_trade token free i fs (no_fees l) = Some (fs', no_fees l').
Proof.
  unfold bt_trade. rewrite (fillsim_natural (bt_on_fill fees) (bt_on_fill free) no_fees)
    by (intros; apply no_fees_on_fill).
  destruct (fillsim_on_event (bt_on_fill fees) (bi_ev i) fs l) as [fs1 l1]. cbn [fst snd].
  change (bl_pipe (no_fees l1)) with (bl_pipe l1). destruct (process _ _ _ _) as [[p k]|]; [|done].
  cbn [mbind option_bind]. intros H. by simplify_eq.
Qed.

Lemma bt_loop_same_trades token fees1 fees2 w1 w2 e1 e2 inputs : forall st1 st2 st1' st2',
  same_trades st1 st2 ->
  bt_loop token fees1 w1 e1 inputs st1 = Some st1' -> bt_loop token fees2 w2 e2 inputs st2 = Some st2' ->
  same_trades st1' st2'.
Proof.
  induction inputs as [|i inputs IH]; intros st1 st2 st1' st2' Hs H1 H2; cbn [bt_loop] in *; [by simplify_eq|].
  apply bind_Some in H1 as (t1 & Hstep1 & H1). apply bind_Some in H2 as (t2 & Hstep2 & H2).
  apply (IH t1 t2); [|done|done]. unfold bt_step in Hstep1, Hstep2.
  apply bind_Some in Hstep1 as ([fs1 l1] & Ht1 & Hstep1). apply bind_Some in Hstep1 as (m1 & _ & Hstep1).
  apply bind_Some in Hstep2 as ([fs2 l2] & Ht2 & Hstep2). apply bind_Some in Hstep2 as (m2 & _ & Hstep2).
  apply bt_trade_free in Ht1, Ht2. destruct Hs as (E1 & E2 & E3). rewrite E1, E2 in Ht1.
  assert (fs1 = fs2 /\ no_fees l1 = no_fees l2) as [-> El] by (rewrite Ht1 in Ht2; split; congruence).
  injection Hstep1 as <-. injection Hstep2 as <-.
  split_and!; [done|exact El|cbn; by rewrite E3].
Qed.

(** The columns of a report that do not mention costs. *)
Definition trading_columns (r : BtResult) : list Z :=
  [br_orders_sent r; br_orders_rejected r; br_fills r; br_position r; br_gross_pnl_inr r; br_lat_p50 r;
   br_lat_p99 r; br_lat_p999 r].

Lemma same_trades_columns st1 st2 r1 r2 :
  same_trades st1 st2 -> bt_result st1 = Some r1 -> bt_result st2 = Some r2 -> trading_columns r1 = trading_columns r2.
Proof.
  intros (_ & El & Em) H1 H2.
  apply bt_result_fields in H1 as (A1 & A2 & A3 & A4 & A5 & _ & _ & A6 & A7 & A8).
  apply bt_result_fields in H2 as (B1 & B2 & B3 & B4 & B5 & _ & _ & B6 & B7 & B8).
  destruct (bs_ledger st1), (bs_ledger st2). unfold no_fees in El. cbn in *. injection El as -> -> -> ->.
  unfold gross_inr in *. cbn in *. unfold trading_columns. rewrite Em in A5. congruence.
Qed.

(** C30.  Costs never change what is traded.  In the same surroundings and on the same
    data, two backtests under different fee models, with or without a metrics file, both
    return and agree on the orders sent and rejected, the fills, the position, the gross
    profit and the latencies: only the fees and the net profit may differ. *)
Theorem fees_do_not_trade env evs cfg token mid tick path1 path2 fees1 fees2 disk1 disk2 :
  0 <= token < kMaxTokens -> (80 <= length (re_buf env))%nat -> book_survives token tick evs ->
  Z.of_nat (length evs) < 2 ^ 64 ->
  exists r1 mw1 r2 mw2,
    backtest_in env evs cfg token mid tick path1 fees1 disk1 = Some (r1, mw1) /\
    backtest_in env evs cfg token mid tick path2 fees2 disk2 = Some (r2, mw2) /\
    trading_columns r1 = trading_columns r2.
Proof.
  intros Ht Hbuf Hs Hlen.
  destruct (backtest_in_runs env evs cfg token mid tick path1 fees1 disk1) as (r1 & mw1 & st1 & e1 & R1 & L1 & H1 & _); [done..|].
  destruct (backtest_in_runs env evs cfg token mid tick path2 fees2 disk2) as (r2 & mw2 & st2 & e2 & R2 & L2 & H2 & _); [done..|].
  exists r1, mw1, r2, mw2. split_and!; [done|done|]. eapply same_trades_columns; [|done|done].
  eapply bt_loop_same_trades; [|exact L1|exact L2]. done.
Qed.

Lemma fees_do_not_trade_witness :
  exists r1 mw1 r2 mw2,
    backtest_in desk_env desk_events (skewed 2 1) kToken 10005 kTick None FeeModel_default ∅ = Some (r1, mw1) /\
    backtest_in desk_env desk_events (skewed 2 1) kToken 10005 kTick None fees_les ∅ = Some (r2, mw2) /\
    trading_columns r1 = trading_columns r2.
Proof.
  apply (fees_do_not_trade desk_env desk_events (skewed 2 1) kToken 10005 kTick None None FeeModel_default fees_les ∅ ∅).
  - split; [vm_compute; discriminate|reflexivity].
  - cbn. lia.
  - apply few_adds_survive, Nat.ltb_lt. vm_compute. reflexivity.
  - reflexivity.
Defined.

(** C29.  A backtest of the synthetic order-by-order feed trades on the true book.  For
    any random draws, session length below 2^31 steps, mid on the tick grid, strategy,
    fees and surroundings, the backtest over what [generate_mbo] emits returns, and the
    book the pipeline quoted from ends holding exactly the orders the generator still
    has live: each order number with its side, price and remaining quantity, the
    displayed quantity of every price level, no gap and no stale mark. *)
Theorem synthetic_backtest_book {R} `{!Rng R} (rng : R) steps env cfg token mid tick path fees disk :
  0 <= token < kMaxTokens -> (80 <= length (re_buf env))%nat ->
  0 < tick <= 2 ^ 20 -> 0 <= mid <= 2 ^ 40 -> Z.rem mid tick = 0 -> Z.of_nat steps < 2 ^ 31 ->
  let s := generate_mbo steps (MtbtGenerator_new token mid tick rng) [] in
  exists r mw st every ob,
    backtest_in env (gn_out s) cfg token mid tick path fees disk = Some (r, mw) /\
    bt_loop token fees (bt_metrics path disk).2 every (inputs_of env (gn_out s))
      (bt_start (bt_pipeline cfg token mid tick (re_wall env) (re_junk env) (re_buf env) kPipelineSamples) mid
         (bt_metrics path disk).1) = Some st /\ bt_result st = Some r /\
    get_book token (pp_books (bl_pipe (bs_ledger st))) = Some ob /\ shows_live ob (gn_live s).
Proof.
  intros Htok Hbuf Ht Hm Hr Hn. cbv zeta.
  destruct (synthetic_survives token mid tick rng steps) as [Hlen (ob & rs & Ha & Hlive)];
    [done..|unfold kMaxTokens in Htok; ranges|].
  destruct (backtest_in_runs env (gn_out (generate_mbo steps (MtbtGenerator_new token mid tick rng) []))
    cfg token mid tick path fees disk) as (r & mw & st & every & R1 & L1 & H1 & ob' & rs' & Ha' & Hg);
    [done|done|by exists (ob, rs)|lia|].
  rewrite Ha in Ha'. injection Ha' as <- <-. by exists r, mw, st, every, ob.
Qed.

Lemma synthetic_backtest_book_witness :
  let s := generate_mbo 20 (MtbtGenerator_new kToken 10000 kTick 1) [] in
  (60 <= length (gn_out s))%nat /\ (1 <= length (gn_live s))%nat /\
  exists r mw, backtest_in desk_env (gn_out s) (skewed 2 1) kToken 10000 kTick None FeeModel_default ∅ = Some (r, mw).
Proof.
  split; [vm_compute; lia|]. split; [vm_compute; lia|].
  destruct (synthetic_backtest_book 1 20 desk_env (skewed 2 1) kToken 10000 kTick None FeeModel_default ∅)
    as (r & mw & _ & _ & _ & Hrun & _).
  - split; [vm_compute; discriminate|reflexivity].
  - cbn. lia.
  - split; [reflexivity|vm_compute; discriminate].
  - split; vm_compute; discriminate.
  - reflexivity.
  - reflexivity.
  - exists r, mw. exact Hrun.
Defined.
