(* ===== verification/NnfSession.v ===== *)
(** * NnfSession: login, heartbeat, sign-off and reconnect
      (src/session/nnf_session.hpp)

    A state machine over the encoder; each operation that writes a message takes
    the caller's buffer and returns it with the message length, [None] being a
    store outside it.  Times are unsigned 64-bit nanoseconds and their differences
    wrap. *)

From Stdlib Require Import ZArith Lia.
From stdpp Require Import base numbers option list.
From S2P Require Import Prelude Types Codec TimeUtils NnfEncoder.

Local Open Scope Z_scope.

Definition kErrOrderNotFound : Z := 16444.
Definition kErrPriceOutOfRange : Z := 16445.

Inductive SessionState : Set := kDisconnected | kSignOnSent | kReady | kSignOffSent | kClosed.
Inductive ErrorAction : Set := kNoAction | kIgnore | kAlert.

#[global] Instance SessionState_eq_dec : EqDecision SessionState.
Proof. solve_decision. Defined.

Definition kHeartbeatIntervalNs : Z := 30 * kNsPerSecond.
Definition kReconnectWindowNs : Z := 5 * kNsPerSecond.

Record NnfSession := {
  ns_encoder : NnfEncoder;
  ns_state : SessionState;
  ns_trader_id : Z;
  ns_password : option bytes;
  ns_out_seq : Z;
  ns_last_send_ns : Timestamp;
  ns_disconnect_ns : Timestamp;
}.

Definition NnfSession_new : NnfSession :=
  {| ns_encoder := NnfEncoder_new; ns_state := kDisconnected; ns_trader_id := 0; ns_password := None;
     ns_out_seq := 0; ns_last_send_ns := 0; ns_disconnect_ns := 0 |}.

Definition configure (trader_id alpha0 alpha1 : Z) (password : option bytes) (s : NnfSession)
    : NnfSession :=
  {| ns_encoder := set_alpha_char alpha0 alpha1 (set_trader_id trader_id (ns_encoder s));
     ns_state := ns_state s; ns_trader_id := trader_id; ns_password := password;
     ns_out_seq := ns_out_seq s; ns_last_send_ns := ns_last_send_ns s;
     ns_disconnect_ns := ns_disconnect_ns s |}.

Definition set_session (st : SessionState) (out_seq last_send disconnect : Z) (s : NnfSession)
    : NnfSession :=
  {| ns_encoder := ns_encoder s; ns_state := st; ns_trader_id := ns_trader_id s;
     ns_password := ns_password s; ns_out_seq := out_seq; ns_last_send_ns := last_send;
     ns_disconnect_ns := disconnect |}.

Definition start_login (buf : bytes) (now : Timestamp) (s : NnfSession)
    : option (NnfSession * bytes * nat) :=
  let s := set_session kSignOnSent (ns_out_seq s) now (ns_disconnect_ns s) s in
  '(buf, len) ← encode_sign_on (ns_encoder s) (ns_password s) now buf;
  Some (s, buf, len).

Definition on_sign_on_response (error assigned_seq : Z) (s : NnfSession) : NnfSession :=
  if error =? 0 then set_session kReady assigned_seq (ns_last_send_ns s) (ns_disconnect_ns s) s
  else set_session kDisconnected (ns_out_seq s) (ns_last_send_ns s) (ns_disconnect_ns s) s.

Definition start_logout (buf : bytes) (now : Timestamp) (s : NnfSession)
    : option (NnfSession * bytes * nat) :=
  let s := set_session kSignOffSent (ns_out_seq s) now (ns_disconnect_ns s) s in
  '(buf, len) ← encode_sign_off (ns_encoder s) now buf;
  Some (s, buf, len).

Definition on_sign_off_response (s : NnfSession) : NnfSession :=
  set_session kClosed (ns_out_seq s) (ns_last_send_ns s) (ns_disconnect_ns s) s.

Definition on_disconnect (now : Timestamp) (s : NnfSession) : NnfSession :=
  set_session kDisconnected (ns_out_seq s) (ns_last_send_ns s) now s.

Definition is_ready (s : NnfSession) : bool := bool_decide (ns_state s = kReady).

Definition should_reconnect (now : Timestamp) (s : NnfSession) : bool :=
  bool_decide (ns_state s = kDisconnected) && negb (ns_disconnect_ns s =? 0) &&
  (u64 (now - ns_disconnect_ns s) <=? kReconnectWindowNs).

Definition should_heartbeat (now : Timestamp) (s : NnfSession) : bool :=
  bool_decide (ns_state s = kReady) && (u64 (now - ns_last_send_ns s) >=? kHeartbeatIntervalNs).

Definition make_heartbeat (buf : bytes) (now : Timestamp) (s : NnfSession)
    : option (NnfSession * bytes * nat) :=
  let s := set_session (ns_state s) (ns_out_seq s) now (ns_disconnect_ns s) s in
  '(buf, len) ← encode_heartbeat (ns_encoder s) now buf;
  Some (s, buf, len).

Definition note_send (now : Timestamp) (s : NnfSession) : NnfSession :=
  set_session (ns_state s) (u64 (ns_out_seq s + 1)) now (ns_disconnect_ns s) s.

Definition classify_error (code : Z) : ErrorAction :=
  if code =? kErrOrderNotFound then kIgnore
  else if code =? kErrPriceOutOfRange then kAlert
  else if negb (code =? 0) then kAlert else kNoAction.

(** ** Histories *)

Inductive SessionEvent :=
  | SeConfigure (trader_id alpha0 alpha1 : Z) (password : option bytes)
  | SeLogin (buf : bytes) (now : Timestamp)
  | SeSignOnResponse (error assigned_seq : Z)
  | SeLogout (buf : bytes) (now : Timestamp)
  | SeSignOffResponse
  | SeDisconnect (now : Timestamp)
  | SeHeartbeat (buf : bytes) (now : Timestamp)
  | SeSend (now : Timestamp).

(** One transition; the messages are the buffers the operations fill. *)
Inductive session_step : NnfSession -> SessionEvent -> NnfSession -> Prop :=
  | StConfigure s t a b p : session_step s (SeConfigure t a b p) (configure t a b p s)
  | StLogin s buf now s' buf' len :
      start_login buf now s = Some (s', buf', len) -> session_step s (SeLogin buf now) s'
  | StSignOnResponse s e q : session_step s (SeSignOnResponse e q) (on_sign_on_response e q s)
  | StLogout s buf now s' buf' len :
      start_logout buf now s = Some (s', buf', len) -> session_step s (SeLogout buf now) s'
  | StSignOffResponse s : session_step s SeSignOffResponse (on_sign_off_response s)
  | StDisconnect s now : session_step s (SeDisconnect now) (on_disconnect now s)
  | StHeartbeat s buf now s' buf' len :
      make_heartbeat buf now s = Some (s', buf', len) -> session_step s (SeHeartbeat buf now) s'
  | StSend s now : session_step s (SeSend now) (note_send now s).

Inductive session_run : list SessionEvent -> NnfSession -> Prop :=
  | RunNew : session_run [] NnfSession_new
  | RunStep tr s e s' : session_run tr s -> session_step s e s' -> session_run (tr ++ [e]) s'.

(** Events that keep the session open, and how many sequence numbers they use. *)
Definition keeps_open (e : SessionEvent) : bool :=
  match e with SeConfigure _ _ _ _ | SeHeartbeat _ _ | SeSend _ => true | _ => false end.

Definition uses_seq (e : SessionEvent) : Z := match e with SeSend _ => 1 | _ => 0 end.

(** C33.  The session is ready exactly while its last sign-on was accepted: in every
    reachable state, [is_ready] holds if and only if the history ends with a
    successful Sign On response followed only by sends, heartbeats and configuration, and
    then the outgoing sequence number is the assigned one plus the number of
    application messages sent since (heartbeats use none). *)
Theorem ready_iff_signed_on tr s :
  session_run tr s ->
  (is_ready s = true <->
   exists pre q post, tr = pre ++ SeSignOnResponse 0 q :: post /\
     Forall (fun e => keeps_open e = true) post) /\
  (forall pre q post, 0 <= q < 2 ^ 64 -> tr = pre ++ SeSignOnResponse 0 q :: post ->
     Forall (fun e => keeps_open e = true) post -> ns_out_seq s = u64 (q + zsum uses_seq post)).
Proof.
  assert (forall (tr : list SessionEvent) e (pre : list SessionEvent) x post, tr ++ [e] = pre ++ x :: post ->
    (post = [] /\ pre = tr /\ x = e) \/ exists post', post = post' ++ [e] /\ tr = pre ++ x :: post') as Hsnoc.
  { intros tr0 e pre x post H. destruct post as [|y post _] using rev_ind.
    - left. apply app_inj_2 in H as [-> H]; [by simplify_eq|done].
    - right. exists post. rewrite app_comm_cons, app_assoc in H.
      apply app_inj_2 in H as [-> H]; [by simplify_eq|done]. }
  unfold is_ready. rewrite bool_decide_eq_true. induction 1 as [|tr s e s' Hrun [IH1 IH2] Hstep].
  { split.
    - split; [done|]. intros (pre & q & post & H & _). by destruct pre.
    - intros pre q post _ H. by destruct pre. }
  assert (keeps_open e = true -> ns_state s' = ns_state s /\
    (ns_out_seq s' = u64 (ns_out_seq s + uses_seq e) \/ ns_out_seq s' = ns_out_seq s /\ uses_seq e = 0)) as Hkeep.
  { intros Hk. inversion Hstep; subst; try done; cbn.
    - split; [done|by right].
    - unfold make_heartbeat in H. apply bind_Some in H as ([? ?] & _ & H). simplify_eq.
      split; [done|by right].
    - split; [done|by left]. }
  assert (keeps_open e = false -> ns_state s' = kReady <-> exists q, e = SeSignOnResponse 0 q) as Hother.
  { intros Hk. inversion Hstep; subst; try done; cbn.
    - unfold start_login in H. apply bind_Some in H as ([? ?] & _ & H). simplify_eq. split; [done|naive_solver].
    - unfold on_sign_on_response. destruct (Z.eqb_spec e0 0) as [->|]; cbn; [split; [by eauto|done]|].
      split; [done|]. intros [q' Hq]. by simplify_eq.
    - unfold start_logout in H. apply bind_Some in H as ([? ?] & _ & H). simplify_eq. split; [done|naive_solver].
    - split; [done|naive_solver].
    - split; [done|naive_solver]. }
  split.
  - split.
    + intros Hr. destruct (keeps_open e) eqn:Hk.
      * destruct IH1 as [IH1 _]. destruct IH1 as (pre & q & post & -> & Hp).
        { by destruct (Hkeep eq_refl) as [<- _]. }
        exists pre, q, (post ++ [e]). split; [by rewrite <- app_assoc|]. apply Forall_app. by split; [|constructor].
      * apply Hother in Hr as [q ->]; [|done]. by exists tr, q, [].
    + intros (pre & q & post & Htr & Hp). apply Hsnoc in Htr as [(-> & -> & <-)|(post' & -> & ->)].
      * apply Hother; [done|by exists q].
      * apply Forall_app in Hp as [Hp He]. apply Forall_cons_1 in He as [He _].
        assert (ns_state s = kReady) as Hs by (apply IH1; eauto).
        destruct (Hkeep He) as [E _]. by rewrite E.
  - intros pre q post Hq Htr Hp. apply Hsnoc in Htr as [(-> & -> & <-)|(post' & -> & ->)].
    + inversion Hstep; subst. cbn. rewrite Z.add_0_r, wrap_u_id; [done|done].
    + apply Forall_app in Hp as [Hp He]. apply Forall_cons_1 in He as [He _].
      specialize (IH2 pre q post' Hq eq_refl Hp). rewrite zsum_app. cbn [zsum foldr].
      destruct (Hkeep He) as [_ [->|[-> ->]]]; rewrite IH2.
      * rewrite wrap_u_add_l by lia. f_equal. lia.
      * f_equal. lia.
Qed.

(** ** Heartbeats fill the idle gaps *)

(** The gateway loop's poll: a heartbeat when one is due. *)
Definition poll_heartbeat (buf : bytes) (now : Timestamp) (s : NnfSession)
    : option (NnfSession * bool) :=
  if should_heartbeat now s then
    '(s, _, _) ← make_heartbeat buf now s; Some (s, true)
  else Some (s, false).

(** The polls at the given times, with the times at which something was sent. *)
Fixpoint poll_all (buf : bytes) (times : list Timestamp) (s : NnfSession)
    : option (NnfSession * list Timestamp) :=
  match times with
  | [] => Some (s, [])
  | now :: times =>
      '(s, sent) ← poll_heartbeat buf now s;
      '(s, beats) ← poll_all buf times s;
      Some (s, if sent : bool then now :: beats else beats)
  end.

(** Consecutive times at least [lo] and at most [hi] apart. *)
Fixpoint spaced (lo hi t0 : Z) (times : list Z) : Prop :=
  match times with [] => True | t :: times => t0 + lo <= t <= t0 + hi /\ spaced lo hi t times end.

Lemma last_default_cons {A} (x d : A) l : default d (last (x :: l)) = default x (last l).
Proof. destruct l as [|y l]; [done|]. rewrite last_cons_cons. by destruct (last (y :: l)) eqn:E; [|apply last_None in E]. Qed.

Lemma poll_all_spec buf times : forall s d t0,
  ns_state s = kReady -> (32 <= length buf)%nat -> 0 <= d ->
  0 <= ns_last_send_ns s <= t0 -> t0 - ns_last_send_ns s < kHeartbeatIntervalNs ->
  spaced 0 d t0 times -> Forall (fun t => t < 2 ^ 64) times ->
  exists s' beats, poll_all buf times s = Some (s', beats) /\ ns_state s' = kReady /\
    spaced kHeartbeatIntervalNs (kHeartbeatIntervalNs + d) (ns_last_send_ns s) beats /\
    ns_last_send_ns s' = default (ns_last_send_ns s) (last beats) /\
    default t0 (last times) - ns_last_send_ns s' < kHeartbeatIntervalNs.
Proof.
  induction times as [|t times IH]; intros s d t0 Hr Hbuf Hd Hlast Hgap Hsp Hlt.
  { exists s, []. done. }
  destruct Hsp as [Ht Hsp]. apply Forall_cons_1 in Hlt as [Hlt Hlts]. cbn [poll_all].
  unfold poll_heartbeat, should_heartbeat. rewrite Hr, bool_decide_true by done. cbn [andb].
  rewrite wrap_u_id by ranges. rewrite last_default_cons. case_if.
  - unfold make_heartbeat. cbn [set_session ns_encoder]. rewrite encode_heartbeat_layout by done.
    cbn [mbind option_bind]. set (s1 := set_session _ _ _ _ _).
    destruct (IH s1 d t) as (s' & beats & -> & H1 & H2 & H3 & H4); try done; cbn.
    { lia. } { unfold kHeartbeatIntervalNs, kNsPerSecond. lia. }
    exists s', (t :: beats). cbn [mbind option_bind]. rewrite last_default_cons.
    split_and!; [done|done| |done|done]. split; [lia|exact H2].
  - cbn [mbind option_bind]. destruct (IH s d t) as (s' & beats & -> & H1 & H2 & H3 & H4); try done; try lia.
    exists s', beats. done.
Qed.

(** A ready session never falls silent: if the loop polls at most [d]
    nanoseconds apart, every poll returns, the times of the last send and of the
    successive heartbeats are between 30 s and 30 s plus [d] apart, the session is
    still ready, and the silence at the last poll is below 30 s. *)
Theorem heartbeats_fill_idle_gaps buf times s d :
  is_ready s = true -> (32 <= length buf)%nat -> 0 <= d -> 0 <= ns_last_send_ns s ->
  spaced 0 d (ns_last_send_ns s) times -> Forall (fun t => t < 2 ^ 64) times ->
  exists s' beats, poll_all buf times s = Some (s', beats) /\ is_ready s' = true /\
    spaced kHeartbeatIntervalNs (kHeartbeatIntervalNs + d) (ns_last_send_ns s) beats /\
    ns_last_send_ns s' = default (ns_last_send_ns s) (last beats) /\
    default (ns_last_send_ns s) (last times) - ns_last_send_ns s' < kHeartbeatIntervalNs.
Proof.
  unfold is_ready. rewrite bool_decide_eq_true. intros Hr Hb Hd Hl Hsp Hlt.
  destruct (poll_all_spec buf times s d (ns_last_send_ns s)) as (s' & beats & H1 & H2 & H3); try done; try lia.
  { unfold kHeartbeatIntervalNs, kNsPerSecond. lia. }
  exists s', beats. rewrite bool_decide_eq_true. done.
Qed.

(** ** Concrete sessions *)

Definition signed_on : NnfSession :=
  on_sign_on_response 0 100
    (default NnfSession_new (fst ∘ fst <$> start_login (replicate 256 0) (1 * kNsPerSecond) NnfSession_new)).

Definition session_history : list SessionEvent :=
  [SeLogin (replicate 256 0) (1 * kNsPerSecond); SeSignOnResponse 0 100; SeSend (2 * kNsPerSecond)].

Lemma ready_iff_signed_on_witness :
  is_ready (note_send (2 * kNsPerSecond) signed_on) = true /\
  ns_out_seq (note_send (2 * kNsPerSecond) signed_on) = 101.
Proof.
  destruct (ready_iff_signed_on session_history (note_send (2 * kNsPerSecond) signed_on)) as [H1 H2].
  { apply (RunStep [SeLogin (replicate 256 0) (1 * kNsPerSecond); SeSignOnResponse 0 100] signed_on);
      [|constructor].
    apply (RunStep [SeLogin (replicate 256 0) (1 * kNsPerSecond)]
      (default NnfSession_new (fst ∘ fst <$> start_login (replicate 256 0) (1 * kNsPerSecond) NnfSession_new)));
      [|constructor].
    apply (RunStep [] NnfSession_new); [constructor|]. eapply StLogin. vm_compute. reflexivity. }
  split.
  - apply H1. exists [SeLogin (replicate 256 0) (1 * kNsPerSecond)], 100, [SeSend (2 * kNsPerSecond)].
    split; [reflexivity|]. constructor; [reflexivity|constructor].
  - rewrite (H2 [SeLogin (replicate 256 0) (1 * kNsPerSecond)] 100 [SeSend (2 * kNsPerSecond)]);
      [vm_compute; reflexivity|lia|reflexivity|constructor; [reflexivity|constructor]].
Defined.

(** Polls every 10 s for 80 s after a send at 1 s: beats at 31 s and 61 s. *)
Definition sample_polls : list Timestamp := (fun k => (1 + 10 * k) * kNsPerSecond) <$> seqZ 1 8.

Lemma heartbeats_fill_idle_gaps_witness :
  snd <$> poll_all (replicate 256 0) sample_polls signed_on =
    Some [31 * kNsPerSecond; 61 * kNsPerSecond] /\
  exists s' beats, poll_all (replicate 256 0) sample_polls signed_on = Some (s', beats) /\
    spaced kHeartbeatIntervalNs (kHeartbeatIntervalNs + 10 * kNsPerSecond) (1 * kNsPerSecond) beats.
Proof.
  split; [vm_compute; reflexivity|].
  destruct (heartbeats_fill_idle_gaps (replicate 256 0) sample_polls signed_on (10 * kNsPerSecond))
    as (s' & beats & Hrun & _ & Hsp & _).
  - vm_compute. reflexivity.
  - rewrite length_replicate. lia.
  - vm_compute. discriminate.
  - vm_compute. discriminate.
  - vm_compute. intuition discriminate.
  - apply (bool_decide_unpack _). vm_compute. exact I.
  - exists s', beats. split; [exact Hrun|exact Hsp].
Defined.
