(* ===== verification/MarketDataGateway.v ===== *)
(** * MarketDataGateway: from the sockets to the event queue
      (src/gateway/market_data_gateway.hpp, UdpSocket::recv_batch)

    A socket is the list of datagrams the kernel holds for it, [None] when it has
    no descriptor; whether a bind or a join succeeds is an input of [subscribe].
    The output queue is anything that keeps the promises of [BoundedQueue]; the
    ring buffer is the instance the program runs. *)

From Stdlib Require Import ZArith Lia String List.
From stdpp Require Import base gmap numbers option sorting list.
From S2P Require Import Prelude Types Codec MtbtParser FeedHandler RingBuffer.

Local Open Scope Z_scope.

Record StreamConfig := {
  sc_source1_group : string;
  sc_source2_group : string;
  sc_port : Z;
  sc_stream_id : Z;
}.

Abbreviation UdpSocket := (option (list bytes)) (only parsing).

Record Subscription := { sub_cfg : StreamConfig; sub_s1 : UdpSocket; sub_s2 : UdpSocket }.

Definition kBatch : nat := 32.
Definition kPktCap : nat := 2048.

(** [recvmmsg] of at most [count] (never more than 32) datagrams into buffers of
    [cap] bytes: what is longer is cut, what does not fit the batch waits.  The pending
    datagrams are those the kernel has ready for this call; a call that returns fewer is one
    made before the rest has arrived ([GwArrive] below comes at any point between two passes). *)
Definition recv_batch (sock : UdpSocket) (cap count : nat) : UdpSocket * list bytes :=
  match sock with
  | None => (None, [])
  | Some pending =>
      let count := Nat.min count 32 in
      (Some (drop count pending), take cap <$> take count pending)
  end.

Section Gateway.
Context {Q : Type} {BQ : BoundedQueue Q MarketEvent}.

Record MarketDataGateway := {
  md_feed : FeedHandler;
  md_out : Q;
  md_subs : list Subscription;
  md_running : bool;
  md_dropped : Z;
}.

Definition MarketDataGateway_new (feed : FeedHandler) (out : Q) : MarketDataGateway :=
  {| md_feed := feed; md_out := out; md_subs := []; md_running := false; md_dropped := 0 |}.

Definition with_subs (subs : list Subscription) (gw : MarketDataGateway) : MarketDataGateway :=
  {| md_feed := md_feed gw; md_out := md_out gw; md_subs := subs; md_running := md_running gw;
     md_dropped := md_dropped gw |}.

Definition with_queue (feed : FeedHandler) (out : Q) (dropped : Z) (gw : MarketDataGateway)
    : MarketDataGateway :=
  {| md_feed := feed; md_out := out; md_subs := md_subs gw; md_running := md_running gw;
     md_dropped := dropped |}.

Definition set_running (b : bool) (gw : MarketDataGateway) : MarketDataGateway :=
  {| md_feed := md_feed gw; md_out := md_out gw; md_subs := md_subs gw; md_running := b;
     md_dropped := md_dropped gw |}.

(** [bind1], [join1], [bind2], [join2]: the outcomes of the socket calls. *)
Definition subscribe (cfg : StreamConfig) (bind1 join1 bind2 join2 : bool) (gw : MarketDataGateway)
    : MarketDataGateway * bool :=
  if negb bind1 || negb join1 then (gw, false)
  else if negb bind2 || negb join2 then (gw, false)
  else (with_subs (md_subs gw ++ [{| sub_cfg := cfg; sub_s1 := Some []; sub_s2 := Some [] |}]) gw, true).

(** The callback: [if (!out_->push(ev)) ++dropped_;] *)
Definition push_event (ev : MarketEvent) (s : Q * Z) : Q * Z :=
  let '(out, ok) := q_push ev s.1 in
  if negb ok then (out, u64 (s.2 + 1)) else (out, s.2).

(** The packets of one batch. *)
Fixpoint feed_batch (source : FeedSource) (pkts : list bytes) (feed : FeedHandler) (s : Q * Z) (pushed : Z)
    : option (FeedHandler * (Q * Z) * Z) :=
  match pkts with
  | [] => Some (feed, s, pushed)
  | data :: pkts =>
      '(feed, s, n) ← on_packet push_event source data (Z.of_nat (length data)) feed s;
      feed_batch source pkts feed s (u64 (pushed + n))
  end.

Definition DrainSource (sock : UdpSocket) (source : FeedSource) (gw : MarketDataGateway)
    : option (UdpSocket * MarketDataGateway * Z) :=
  match sock with
  | None => Some (sock, gw, 0)
  | Some _ =>
      let '(sock, pkts) := recv_batch sock kPktCap kBatch in
      if (length pkts =? 0)%nat then Some (sock, gw, 0)
      else
        '(feed, (out, dropped), pushed) ← feed_batch source pkts (md_feed gw) (md_out gw, md_dropped gw) 0;
        Some (sock, with_queue feed out dropped gw, pushed)
  end.

(** The loop over the subscriptions, which are updated in place. *)
Fixpoint poll_subs (subs : list Subscription) (gw : MarketDataGateway) (pushed : Z)
    : option (list Subscription * MarketDataGateway * Z) :=
  match subs with
  | [] => Some ([], gw, pushed)
  | sub :: subs =>
      '(s1, gw, n1) ← DrainSource (sub_s1 sub) kPrimary gw;
      '(s2, gw, n2) ← DrainSource (sub_s2 sub) kSecondary gw;
      '(rest, gw, pushed) ← poll_subs subs gw (u64 (u64 (pushed + n1) + n2));
      Some ({| sub_cfg := sub_cfg sub; sub_s1 := s1; sub_s2 := s2 |} :: rest, gw, pushed)
  end.

Definition poll_once (gw : MarketDataGateway) : option (MarketDataGateway * Z) :=
  '(subs, gw, pushed) ← poll_subs (md_subs gw) gw 0;
  Some (with_subs subs gw, pushed).

Definition stop (gw : MarketDataGateway) : MarketDataGateway := set_running false gw.

(** [run]: [running_] is raised and one pass is made per turn for which the flag is
    still up; [fuel] turns of the thread. *)
Fixpoint run_loop (fuel : nat) (stopped : nat -> bool) (gw : MarketDataGateway) : option MarketDataGateway :=
  match fuel with
  | O => Some gw
  | S fuel =>
      let gw := if stopped fuel then stop gw else gw in
      if md_running gw then '(gw, _) ← poll_once gw; run_loop fuel stopped gw else Some gw
  end.

Definition run (fuel : nat) (stopped : nat -> bool) (gw : MarketDataGateway) : option MarketDataGateway :=
  run_loop fuel stopped (set_running true gw).
End Gateway.
Arguments MarketDataGateway Q : clear implicits.

(** ** Conservation of events *)

Section Conservation.
Context {Q : Type} {BQ : BoundedQueue Q MarketEvent}.
Implicit Types (gw : MarketDataGateway Q).

(** Datagrams as [recv_batch] hands them over, in the order of a pass. *)
Definition batch_of (source : FeedSource) (sock : UdpSocket) : list (FeedSource * bytes) :=
  pair source <$> (recv_batch sock kPktCap kBatch).2.
Definition polled (subs : list Subscription) : list (FeedSource * bytes) :=
  concat ((fun sub => batch_of kPrimary (sub_s1 sub) ++ batch_of kSecondary (sub_s2 sub)) <$> subs).

(** [emitted] events met a queue from which [taken] had been popped: those that
    found room are [taken ++ queued], in order, and the rest are counted. *)
Definition conserved (emitted taken : list MarketEvent) (s : Q * Z) : Prop :=
  exists queued, q_repr s.1 queued /\ (taken ++ queued) `sublist_of` emitted /\
    s.2 = u64 (Z.of_nat (length emitted) - Z.of_nat (length (taken ++ queued))).

Lemma push_event_conserved emitted taken s ev :
  conserved emitted taken s -> conserved (emitted ++ [ev]) taken (push_event ev s).
Proof.
  intros (queued & Hr & Hsub & Hd). unfold push_event.
  pose proof (q_push_spec s.1 queued ev Hr) as Hp. case_decide.
  - destruct (q_push ev s.1) as [out ok]. cbn [fst snd] in Hp. destruct Hp as [-> Hr']. cbn [negb].
    exists (queued ++ [ev]). cbn [fst snd]. rewrite app_assoc. split_and!; [done| |].
    + by apply sublist_app.
    + rewrite Hd, !length_app. f_equal. cbn [length]. lia.
  - rewrite Hp. cbn [negb]. exists queued. cbn [fst snd]. split_and!; [done| |].
    + by apply sublist_inserts_r.
    + rewrite Hd, wrap_u_add_l, !length_app by lia. f_equal. cbn [length]. lia.
Qed.

Lemma push_all_conserved emitted taken s evs :
  conserved emitted taken s ->
  conserved (emitted ++ evs) taken (foldl (fun s ev => push_event ev s) s evs).
Proof.
  revert emitted s. induction evs as [|ev evs IH]; intros emitted s H; cbn [foldl]; [by rewrite app_nil_r|].
  rewrite (cons_middle ev), app_assoc. by apply IH, push_event_conserved.
Qed.

Lemma feed_run_app fh evs p1 p2 fh1 evs1 :
  feed_run fh evs p1 = Some (fh1, evs1) -> feed_run fh evs (p1 ++ p2) = feed_run fh1 evs1 p2.
Proof.
  revert fh evs. induction p1 as [|[src data] p1 IH]; intros fh evs H; cbn [app feed_run] in *; [by simplify_eq|].
  destruct (on_packet _ _ _ _ _ _) as [[[fh2 evs2] n]|]; [|done]. by apply IH.
Qed.

Lemma sublist_whole {A} (l1 l2 : list A) : l1 `sublist_of` l2 -> length l1 = length l2 -> l1 = l2.
Proof.
  induction 1 as [|x l1 l2 H IH|x l1 l2 H IH]; intros Hl; [done|f_equal; apply IH; by injection Hl|].
  apply sublist_length in H. cbn [length] in Hl. lia.
Qed.

(** The gateway after [pkts] have been handed to the feed handler. *)
Definition gw_inv (pkts : list (FeedSource * bytes)) (taken : list MarketEvent) gw : Prop :=
  exists emitted, feed_run FeedHandler_new [] pkts = Some (md_feed gw, emitted) /\
    conserved emitted taken (md_out gw, md_dropped gw).

Definition small (pkts : list bytes) : Prop := Forall (fun d => Z.of_nat (length d) < 2 ^ 64) pkts.

Lemma feed_batch_conserved source data fh emitted taken s pkts0 pushed :
  small data -> feed_run FeedHandler_new [] pkts0 = Some (fh, emitted) -> conserved emitted taken s ->
  exists fh' s' n emitted', feed_batch source data fh s pushed = Some (fh', s', n) /\
    feed_run FeedHandler_new [] (pkts0 ++ (pair source <$> data)) = Some (fh', emitted') /\
    conserved emitted' taken s' /\
    (u64 pushed = pushed -> n = u64 (pushed + Z.of_nat (length emitted' - length emitted)%nat)) /\
    (length emitted <= length emitted')%nat.
Proof.
  intros Hs. revert fh emitted s pkts0 pushed. induction Hs as [|d data Hd Hs IH];
    intros fh emitted s pkts0 pushed Hrun Hc; cbn [feed_batch fmap list_fmap].
  { exists fh, s, pushed, emitted. rewrite app_nil_r. split_and!; try done.
    intros Hp. by rewrite Nat.sub_diag, Z.add_0_r. }
  destruct (on_packet_natural source d fh Hd) as (fh1 & evs & Hnat). rewrite Hnat. cbn [mbind option_bind].
  assert (feed_run FeedHandler_new [] (pkts0 ++ [(source, d)]) = Some (fh1, emitted ++ evs)) as Hrun1.
  { rewrite (feed_run_app _ _ _ _ _ _ Hrun). cbn [feed_run]. rewrite Hnat. cbn [mbind option_bind].
    by rewrite collect_all. }
  destruct (IH fh1 (emitted ++ evs) (foldl (fun s ev => push_event ev s) s evs)
    (pkts0 ++ [(source, d)]) (u64 (pushed + Z.of_nat (length evs))) Hrun1) as (fh2 & s2 & n & em2 & H1 & H2 & H3 & H4 & H5).
  { by apply push_all_conserved. }
  rewrite length_app in H4, H5.
  exists fh2, s2, n, em2. rewrite <- app_assoc in H2. split_and!; [done|done|done| |lia].
  intros Hp. rewrite H4 by (by rewrite wrap_u_wrap_u). rewrite wrap_u_add_l by lia. f_equal. lia.
Qed.

Lemma DrainSource_inv source sock gw pkts taken :
  gw_inv pkts taken gw -> small (recv_batch sock kPktCap kBatch).2 ->
  exists sock' gw' n, DrainSource sock source gw = Some (sock', gw', n) /\
    gw_inv (pkts ++ batch_of source sock) taken gw' /\ md_subs gw' = md_subs gw /\
    sock' = (recv_batch sock kPktCap kBatch).1.
Proof.
  intros (emitted & Hrun & Hc) Hs. unfold DrainSource, batch_of. destruct sock as [pending|].
  2: { exists None, gw, 0. cbn. rewrite app_nil_r. split_and!; try done. by exists emitted. }
  destruct (recv_batch (Some pending) kPktCap kBatch) as [sock' data]. cbn [fst snd] in *.
  destruct (Nat.eqb_spec (length data) 0) as [E|_].
  { apply nil_length_inv in E as ->. exists sock', gw, 0. cbn. rewrite app_nil_r.
    split_and!; try done. by exists emitted. }
  destruct (feed_batch_conserved source data (md_feed gw) emitted taken (md_out gw, md_dropped gw) pkts 0 Hs Hrun Hc)
    as (fh & [out dr] & n & em & -> & H2 & H3 & _). cbn [mbind option_bind].
  eexists _, _, _. split; [done|]. split_and!; try done. by exists em.
Qed.

Lemma poll_subs_inv subs : forall gw pkts taken pushed,
  gw_inv pkts taken gw -> small (polled subs).*2 ->
  exists subs' gw' n, poll_subs subs gw pushed = Some (subs', gw', n) /\
    gw_inv (pkts ++ polled subs) taken gw' /\ md_subs gw' = md_subs gw /\
    subs' = (fun sub => {| sub_cfg := sub_cfg sub; sub_s1 := (recv_batch (sub_s1 sub) kPktCap kBatch).1;
                           sub_s2 := (recv_batch (sub_s2 sub) kPktCap kBatch).1 |}) <$> subs.
Proof.
  induction subs as [|sub subs IH]; intros gw pkts taken pushed Hi Hs; cbn [poll_subs].
  { eexists _, _, _. split; [done|]. unfold polled. cbn. by rewrite app_nil_r. }
  assert (forall src sock, (batch_of src sock).*2 = (recv_batch sock kPktCap kBatch).2) as Hb.
  { intros src sock. unfold batch_of. rewrite <- list_fmap_compose. apply list_fmap_id. }
  unfold polled, small in Hs. cbn in Hs. rewrite !fmap_app, !Forall_app, !Hb in Hs. destruct Hs as [[Hs1 Hs2] Hs].
  destruct (DrainSource_inv kPrimary (sub_s1 sub) gw pkts taken Hi Hs1) as (s1 & g1 & n1 & -> & I1 & E1 & ->).
  cbn [mbind option_bind].
  destruct (DrainSource_inv kSecondary (sub_s2 sub) g1 _ taken I1 Hs2) as (s2 & g2 & n2 & -> & I2 & E2 & ->).
  cbn [mbind option_bind].
  destruct (IH g2 _ taken (u64 (u64 (pushed + n1) + n2)) I2 Hs) as (rest & g3 & n & -> & I3 & E3 & ->).
  cbn [mbind option_bind]. eexists _, _, _. split; [done|]. split_and!; [|congruence|done].
  unfold polled. cbn. by rewrite !app_assoc in *.
Qed.

Lemma polled_small subs : small (polled subs).*2.
Proof.
  unfold small. apply Forall_fmap, Forall_forall. intros [src d] Hin. cbn.
  apply list_elem_of_In, in_concat in Hin as (l & Hl & Hin). apply list_elem_of_In in Hl, Hin.
  apply list_elem_of_fmap in Hl as (sub & -> & _).
  assert (forall k sock, (src, d) ∈ batch_of k sock -> (length d <= kPktCap)%nat) as Hb.
  { intros k sock Hd. unfold batch_of in Hd. apply list_elem_of_fmap in Hd as (x & Hx & Hd). simplify_eq.
    destruct sock as [pending|]; cbn in Hd; [|by apply not_elem_of_nil in Hd].
    apply list_elem_of_fmap in Hd as (y & -> & _). rewrite length_take. lia. }
  assert (length d <= kPktCap)%nat as Hle by (apply elem_of_app in Hin as [Hin|Hin]; by eapply Hb).
  apply Nat2Z.inj_le in Hle. eapply Z.le_lt_trans; [exact Hle|]. by vm_compute.
Qed.

(** *** Histories: subscriptions, arriving datagrams, polls and the consumer *)

Inductive GwOp :=
  | GwSubscribe (cfg : StreamConfig) (bind1 join1 bind2 join2 : bool)
  | GwArrive (i : nat) (source : FeedSource) (data : bytes)
  | GwPoll
  | GwPop.

Definition arrive (source : FeedSource) (data : bytes) (sub : Subscription) : Subscription :=
  let add (s : UdpSocket) := (fun l => l ++ [data]) <$> s in
  match source with
  | kPrimary => {| sub_cfg := sub_cfg sub; sub_s1 := add (sub_s1 sub); sub_s2 := sub_s2 sub |}
  | kSecondary => {| sub_cfg := sub_cfg sub; sub_s1 := sub_s1 sub; sub_s2 := add (sub_s2 sub) |}
  end.

Record GwRun := { gr_gw : MarketDataGateway Q; gr_taken : list MarketEvent; gr_pkts : list (FeedSource * bytes) }.

Definition gw_step (op : GwOp) (r : GwRun) : option GwRun :=
  let gw := gr_gw r in
  match op with
  | GwSubscribe cfg b1 j1 b2 j2 =>
      Some {| gr_gw := (subscribe cfg b1 j1 b2 j2 gw).1; gr_taken := gr_taken r; gr_pkts := gr_pkts r |}
  | GwArrive i source data =>
      Some {| gr_gw := with_subs (alter (arrive source data) i (md_subs gw)) gw;
              gr_taken := gr_taken r; gr_pkts := gr_pkts r |}
  | GwPoll =>
      '(gw', _) ← poll_once gw;
      Some {| gr_gw := gw'; gr_taken := gr_taken r; gr_pkts := gr_pkts r ++ polled (md_subs gw) |}
  | GwPop =>
      let '(out, ev) := q_pop (md_out gw) in
      Some {| gr_gw := with_queue (md_feed gw) out (md_dropped gw) gw;
              gr_taken := gr_taken r ++ match ev with Some ev => [ev] | None => [] end;
              gr_pkts := gr_pkts r |}
  end.

Fixpoint gw_run (ops : list GwOp) (r : GwRun) : option GwRun :=
  match ops with [] => Some r | op :: ops => r ← gw_step op r; gw_run ops r end.

Lemma gw_step_inv op r :
  gw_inv (gr_pkts r) (gr_taken r) (gr_gw r) ->
  exists r', gw_step op r = Some r' /\ gw_inv (gr_pkts r') (gr_taken r') (gr_gw r').
Proof.
  intros Hi. destruct op as [cfg b1 j1 b2 j2|i source data| |]; cbn [gw_step].
  - eexists. split; [done|]. cbn. unfold subscribe. repeat case_if; exact Hi.
  - eexists. split; [done|]. exact Hi.
  - unfold poll_once. destruct (poll_subs_inv (md_subs (gr_gw r)) (gr_gw r) _ _ 0 Hi (polled_small _))
      as (subs & gw & n & -> & Hi' & _). cbn [mbind option_bind]. eexists. split; [done|]. exact Hi'.
  - destruct Hi as (emitted & Hrun & queued & Hr & Hsub & Hd). cbn [fst snd] in *.
    pose proof (q_pop_spec _ _ Hr) as Hp. destruct queued as [|ev queued].
    + rewrite Hp. eexists. split; [done|]. cbn. exists emitted. split; [done|].
      exists []. by rewrite app_nil_r.
    + destruct (q_pop (md_out (gr_gw r))) as [out o]. cbn [fst snd] in Hp. destruct Hp as [-> Hr'].
      eexists. split; [done|]. cbn. exists emitted. split; [done|]. exists queued.
      cbn [fst snd]. rewrite <- app_assoc. done.
Qed.

(** C17.  The gateway conserves events.  Whatever subscriptions, datagrams (of any
    length and content, on either source), polls and pops happen in whatever order,
    every poll returns; what the consumer has taken followed by what is queued is
    an in-order selection of what the feed handler emits for the polled datagrams, and
    the number of missing events is exactly the [dropped] counter (modulo 2^64), so
    as long as it is zero nothing is lost, duplicated or reordered. *)
Theorem gateway_conserves_events q0 ops :
  q_repr q0 [] ->
  exists r fh emitted queued,
    gw_run ops {| gr_gw := MarketDataGateway_new FeedHandler_new q0; gr_taken := []; gr_pkts := [] |} = Some r /\
    feed_run FeedHandler_new [] (gr_pkts r) = Some (fh, emitted) /\ md_feed (gr_gw r) = fh /\
    q_repr (md_out (gr_gw r)) queued /\ (gr_taken r ++ queued) `sublist_of` emitted /\
    md_dropped (gr_gw r) = u64 (Z.of_nat (length emitted) - Z.of_nat (length (gr_taken r ++ queued))) /\
    (md_dropped (gr_gw r) = 0 -> Z.of_nat (length emitted) < 2 ^ 64 -> gr_taken r ++ queued = emitted).
Proof.
  intros Hq. set (r0 := {| gr_gw := _; gr_taken := _; gr_pkts := _ |}).
  assert (gw_inv (gr_pkts r0) (gr_taken r0) (gr_gw r0)) as Hi.
  { exists []. split; [done|]. by exists []. }
  clearbody r0. assert (exists r, gw_run ops r0 = Some r /\ gw_inv (gr_pkts r) (gr_taken r) (gr_gw r))
    as (r & Hr & emitted & Hrun & queued & Hrep & Hsub & Hd).
  { revert r0 Hi. induction ops as [|op ops IH]; intros r0 Hi; [by exists r0|]. cbn [gw_run].
    destruct (gw_step_inv op r0 Hi) as (r1 & -> & Hi1). by apply IH. }
  exists r, (md_feed (gr_gw r)), emitted, queued. cbn [fst snd] in *. split_and!; try done.
  intros H0 Hlen. rewrite H0 in Hd. pose proof (sublist_length _ _ Hsub) as Hle.
  rewrite wrap_u_id in Hd by ranges.
  assert (length (gr_taken r ++ queued) = length emitted) as He by lia.
  by apply sublist_whole.
Qed.
End Conservation.
Arguments GwRun Q : clear implicits.

(** ** Concrete gateways *)

(** A ring buffer of [2 ^ k] events. *)
Definition event_queue (k : nat) : RingBuffer (T := MarketEvent) := ring_new (replicate (2 ^ k) zero_event).

Lemma two_fits : (1 <= 63)%nat.
Proof. lia. Qed.

Definition sample_ops : list GwOp :=
  [GwSubscribe {| sc_source1_group := "239.1.1.1"; sc_source2_group := "239.1.1.2"; sc_port := 5000;
                  sc_stream_id := 3 |} true true true true;
   GwArrive 0 kPrimary sample_packet; GwArrive 0 kSecondary sample_packet; GwPoll; GwPop].

Definition gateway_start : GwRun (RingBuffer (T := MarketEvent)) :=
  {| gr_gw := MarketDataGateway_new FeedHandler_new (event_queue 1); gr_taken := []; gr_pkts := [] |}.

Lemma gateway_conserves_events_witness :
  exists r emitted queued,
    gw_run (BQ := ring_queue 1 two_fits) sample_ops gateway_start = Some r /\
    length (gr_taken r) = 1%nat /\ (gr_taken r ++ queued) `sublist_of` emitted /\
    md_dropped (gr_gw r) = u64 (Z.of_nat (length emitted) - Z.of_nat (length (gr_taken r ++ queued))).
Proof.
  destruct (gateway_conserves_events (BQ := ring_queue 1 two_fits) (event_queue 1) sample_ops)
    as (r & fh & emitted & queued & Hrun & _ & _ & _ & Hsub & Hd & _).
  - apply (ring_new_repr 1); first [exact two_fits|reflexivity].
  - exists r, emitted, queued. split; [exact Hrun|]. split; [|split; [exact Hsub|exact Hd]].
    revert Hrun. vm_compute. intros H. injection H as <-. reflexivity.
Defined.

(** A poll counts the events of a batch, not those the queue took: three events meet
    a queue of two, one is dropped, and [poll_once] returns 3. *)
Lemma poll_counts_dropped_events :
  let sub := {| sub_cfg := {| sc_source1_group := ""; sc_source2_group := ""; sc_port := 0; sc_stream_id := 3 |};
                sub_s1 := Some [cancel_packet 1 3]; sub_s2 := Some [] |} in
  (fun r => (md_dropped r.1, ring_size (md_out r.1), r.2)) <$>
    poll_once (BQ := ring_queue 1 two_fits)
      (with_subs [sub] (MarketDataGateway_new FeedHandler_new (event_queue 1))) = Some (1, 2, 3).
Proof. vm_compute. reflexivity. Qed.
