(* ===== verification/OrderGateway.v ===== *)
(** * OrderGateway: the NNF connection (src/gateway/order_gateway.hpp)

    The operating system is an input: the descriptor [socket()] returns, whether
    [connect()] succeeds, and the results of the successive [send()] and [recv()]
    calls.  [ts_open] is the set of descriptors this class has open and [wire] the
    bytes the kernel accepted.  Socket options do not change what is sent; they are in
    [Sockets]. *)

From Stdlib Require Import ZArith Lia.
From stdpp Require Import base gmap numbers option list.
From S2P Require Import Prelude Types Codec.

Local Open Scope Z_scope.

Record TcpSocket := { ts_fd : Z; ts_open : gset Z }.

Definition TcpSocket_new : TcpSocket := {| ts_fd := -1; ts_open := ∅ |}.

Definition valid (s : TcpSocket) : bool := ts_fd s >=? 0.

Definition close_socket (s : TcpSocket) : TcpSocket :=
  if ts_fd s >=? 0 then {| ts_fd := -1; ts_open := ts_open s ∖ {[ts_fd s]} |} else s.

(** [fd] is what [socket()] returned, [ok] whether [connect()] succeeded. *)
Definition connect_to (fd : Z) (ok : bool) (s : TcpSocket) : TcpSocket * bool :=
  let s := {| ts_fd := fd; ts_open := if fd <? 0 then ts_open s else ts_open s ∪ {[fd]} |} in
  if fd <? 0 then (s, false)
  else if negb ok then (close_socket s, false)
  else (s, true).

Definition ts_adopt (fd : Z) (s : TcpSocket) : TcpSocket :=
  let s := close_socket s in
  {| ts_fd := fd; ts_open := if fd <? 0 then ts_open s else ts_open s ∪ {[fd]} |}.

(** The loop of [send_all]: [results] are the return values of the next calls of
    [send], [off] the bytes already sent; each round sends at least one byte, so
    [len] rounds are enough.  The bytes on the wire are returned with the answer and
    the unused results; [None] means the results ran out. *)
Fixpoint send_loop (fuel : nat) (buf : bytes) (off : nat) (results : list Z) (wire : bytes)
    : option (bool * bytes * list Z) :=
  if (off <? length buf)%nat then
    match fuel, results with
    | S fuel, n :: results =>
        if n <=? 0 then Some (false, wire, results)
        else
          let n := Z.to_nat n in
          send_loop fuel buf (off + n) results (wire ++ take n (drop off buf))
    | _, _ => None
    end
  else Some (true, wire, results).

Definition send_all (buf : bytes) (results : list Z) (wire : bytes) : option (bool * bytes * list Z) :=
  send_loop (length buf) buf 0 results wire.

Record OrderGateway := {
  og_sock : TcpSocket;
  og_connected : bool;
  og_sent : Z;
  og_received : Z;
  og_last_send_tsc : Z;
}.

Definition OrderGateway_new : OrderGateway :=
  {| og_sock := TcpSocket_new; og_connected := false; og_sent := 0; og_received := 0;
     og_last_send_tsc := 0 |}.

Definition with_conn (s : TcpSocket) (c : bool) (g : OrderGateway) : OrderGateway :=
  {| og_sock := s; og_connected := c; og_sent := og_sent g; og_received := og_received g;
     og_last_send_tsc := og_last_send_tsc g |}.

Definition og_connect (fd : Z) (ok : bool) (g : OrderGateway) : OrderGateway * bool :=
  let '(s, r) := connect_to fd ok (og_sock g) in
  if negb r then (with_conn s (og_connected g) g, false) else (with_conn s true g, true).

Definition og_adopt (fd : Z) (g : OrderGateway) : OrderGateway :=
  with_conn (ts_adopt fd (og_sock g)) true g.

Definition send_order (nnf_msg : bytes) (tsc : Z) (results : list Z) (wire : bytes) (g : OrderGateway)
    : option (OrderGateway * bool * bytes * list Z) :=
  '(ok, wire, results) ← send_all nnf_msg results wire;
  if negb (ok : bool) then
    Some ({| og_sock := og_sock g; og_connected := false; og_sent := og_sent g;
             og_received := og_received g; og_last_send_tsc := tsc |}, false, wire, results)
  else
    Some ({| og_sock := og_sock g; og_connected := og_connected g; og_sent := u64 (og_sent g + 1);
             og_received := og_received g; og_last_send_tsc := tsc |}, true, wire, results).

(** [n] is the result of [recv]. *)
Definition poll_response (n : Z) (g : OrderGateway) : OrderGateway * Z :=
  if n >? 0 then
    ({| og_sock := og_sock g; og_connected := og_connected g; og_sent := og_sent g;
        og_received := u64 (og_received g + 1); og_last_send_tsc := og_last_send_tsc g |}, n)
  else if n =? 0 then (with_conn (og_sock g) false g, n)
  else (g, n).

(** ** Whole messages *)

(** A [send] returns at most the number of bytes it was given (send(2)). *)
Fixpoint sends_within (len : nat) (results : list Z) : Prop :=
  match results with
  | [] => True
  | n :: results => n <= Z.of_nat len /\ sends_within (len - Z.to_nat n) results
  end.

Lemma send_loop_spec fuel buf : forall off results wire,
  (off <= length buf)%nat -> (length buf - off <= fuel)%nat ->
  (length buf - off <= length results)%nat -> sends_within (length buf - off) results ->
  exists ok sent rest, send_loop fuel buf off results wire = Some (ok, wire ++ sent, rest) /\
    (if ok : bool then sent = drop off buf
     else exists k, (k < length buf - off)%nat /\ sent = take k (drop off buf)).
Proof.
  induction fuel as [|fuel IH]; intros off results wire Hoff Hf Hres Hw; cbn [send_loop].
  { assert (off = length buf) as -> by lia. rewrite Nat.ltb_irrefl. exists true, [], results.
    rewrite app_nil_r, drop_all. done. }
  destruct (Nat.ltb_spec off (length buf)) as [Hlt|Hge].
  2: { assert (off = length buf) as -> by lia. exists true, [], results. rewrite app_nil_r, drop_all. done. }
  destruct results as [|n results]; [cbn in Hres; lia|]. destruct Hw as [Hn Hw]. cbn [length] in Hres.
  destruct (Z.leb_spec n 0) as [Hneg|Hpos].
  { exists false, [], results. rewrite app_nil_r. split; [done|]. exists 0%nat. split; [lia|done]. }
  destruct (IH (off + Z.to_nat n)%nat results (wire ++ take (Z.to_nat n) (drop off buf)))
    as (ok & sent & rest & -> & Hok); [lia|lia|lia| |].
  { by replace (length buf - (off + Z.to_nat n))%nat with (length buf - off - Z.to_nat n)%nat by lia. }
  exists ok, (take (Z.to_nat n) (drop off buf) ++ sent), rest. rewrite <- app_assoc. split; [done|].
  rewrite <- drop_drop in Hok. destruct ok.
  - subst. apply take_drop.
  - destruct Hok as (k & Hk & ->). exists (Z.to_nat n + k)%nat. split; [lia|]. by rewrite take_take_drop.
Qed.

(** C34.  A message is sent whole or the connection is given up.  Whatever partial
    results [send] gives, [send_order] finishes within one call per byte; it
    answers [true], and counts the message, exactly when the bytes added to the wire
    are the whole message; otherwise a proper prefix is on the wire and the
    gateway reports itself disconnected. *)
Theorem send_order_all_or_disconnect msg tsc results wire g :
  (length msg <= length results)%nat -> sends_within (length msg) results ->
  exists g' ok sent rest, send_order msg tsc results wire g = Some (g', ok, wire ++ sent, rest) /\
    (ok = true <-> sent = msg) /\
    (ok = true -> og_sent g' = u64 (og_sent g + 1) /\ og_connected g' = og_connected g) /\
    (ok = false -> (exists k, (k < length msg)%nat /\ sent = take k msg) /\
       og_connected g' = false /\ og_sent g' = og_sent g).
Proof.
  intros Hl Hw. unfold send_order, send_all.
  destruct (send_loop_spec (length msg) msg 0 results wire) as (ok & sent & rest & -> & Hok);
    [lia|lia|lia|by rewrite Nat.sub_0_r|]. cbn [mbind option_bind]. rewrite drop_0, Nat.sub_0_r in Hok.
  destruct ok; cbn [negb]; eexists _, _, sent, rest; (split; [done|]).
  - split_and!; try done.
  - destruct Hok as (k & Hk & ->). split; [split; [done|]|split; [done|by eauto]]. intros He. apply (f_equal length) in He. rewrite length_take in He. lia.
Qed.

(** Three bytes at a time, then an error. *)
Lemma send_order_all_or_disconnect_witness :
  (exists g' ok sent rest, send_order [1; 2; 3; 4; 5] 9 [3; 2; -1; -1; -1] [] OrderGateway_new =
     Some (g', ok, [] ++ sent, rest) /\ (ok = true <-> sent = [1; 2; 3; 4; 5])) /\
  (fun r => (r.1.1.2, r.1.2)) <$> send_order [1; 2; 3; 4; 5] 9 [3; -1; 0; 0; 0] [] OrderGateway_new =
    Some (false, [1; 2; 3]).
Proof.
  split; [|vm_compute; reflexivity].
  destruct (send_order_all_or_disconnect [1; 2; 3; 4; 5] 9 [3; 2; -1; -1; -1] [] OrderGateway_new)
    as (g' & ok & sent & rest & Hrun & Hiff & _).
  - cbn. lia.
  - cbn. lia.
  - exists g', ok, sent, rest. split; [exact Hrun|exact Hiff].
Defined.

(** ** Reconnecting over an open connection *)

(** [connect_to] overwrites the descriptor without closing it, and a failed
    [connect] leaves [connected_] as it was: the gateway says it is connected and
    holds no valid socket, while the first descriptor stays open for ever. *)
Lemma reconnect_leaks_and_stays_connected fd1 fd2 :
  0 <= fd1 -> 0 <= fd2 -> fd1 <> fd2 ->
  let g := (og_connect fd2 false (og_connect fd1 true OrderGateway_new).1).1 in
  og_connected g = true /\ valid (og_sock g) = false /\ fd1 ∈ ts_open (og_sock g).
Proof.
  intros H1 H2 Hne. unfold og_connect, connect_to, close_socket, valid.
  rewrite (proj2 (Z.ltb_ge fd1 0)), (proj2 (Z.ltb_ge fd2 0)) by lia. cbn.
  assert (fd2 >=? 0 = true) as -> by (rewrite Z.geb_leb; by apply Z.leb_le).
  cbn. split_and!; try done. set_solver.
Qed.
