(* ===== verification/Divergences.v ===== *)
(** * Divergences: concrete runs where the code departs from what it documents

    Each lemma evaluates the modelled operations on a small input that shows a
    behaviour a comment, a name or a sibling operation of the source contradicts; the
    ones that need a component's own data are in that component's file. *)

From Stdlib Require Import ZArith Lia String.
From stdpp Require Import base gmap list numbers option strings.
From S2P Require Import Prelude Types Codec TimeUtils OrderTable LevelArray OrderBook BookManager.
From S2P Require Import SymbolMaster MarketMaking RiskManager NnfEncoder OrderManager Pipeline.
From S2P Require Import LatencyStats FillSimulator FeeModel Metrics BacktestEngine NnfSession OrderGateway.

Local Open Scope Z_scope.

(** ** The order book: one order, twice its quantity

    The second ORDER_ADD of a number replaces the record but adds to the level, and the
    cancel of the order leaves the first quantity behind. *)
Lemma duplicate_add_double_counts :
  (fun r => (displayed_qty_at r.1 kBuy 100, r.2)) <$>
    apply_events (OrderBook_new 7 5 8) [sample_add 1 kBuy 100 10 1; sample_add 1 kBuy 100 10 2] =
    Some (20, [kOk; kOk]) /\
  (fun r => (displayed_qty_at r.1 kBuy 100, FindOrder (ob_orders r.1) (ob_order_mask r.1) 1)) <$>
    apply_events (OrderBook_new 7 5 8)
      [sample_add 1 kBuy 100 10 1; sample_add 1 kBuy 100 10 2; sample_cancel 1 3] = Some (10, None).
Proof. split; vm_compute; reflexivity. Qed.

(** ** The pipeline: cancels are computed and dropped

    Two quotes are live at ten; at 15:26 the pre-close sweep asks for both to be
    cancelled, [process] reports no order sent, and both stay live. *)
Definition swept_pipeline : option (Pipeline MarketMaking * Z) :=
  '(p, _) ← process tick_event wall_10am 900 sample_pipeline;
  process (sample_add 4 kBuy 10000 10 4) (fun _ => at_1526) 900 (set_now at_1526 p).

Lemma preclose_cancels_not_sent :
  (fun r => (mm_cancels (pp_strat r.1), r.2, om_live_count (pp_om r.1))) <$> swept_pipeline =
    Some ([1; 2], 0, 2).
Proof. vm_compute. reflexivity. Qed.

(** The same call leaves [last_sent] as the earlier one had it. *)
Lemma last_sent_outlives_its_call :
  (fun r => (r.2, o_client_order_id <$> pp_sent_orders r.1)) <$> swept_pipeline = Some (0, [1; 2]).
Proof. vm_compute. reflexivity. Qed.

(** ** The risk manager *)

Definition cash_order (token qty : Z) : Order :=
  {| o_client_order_id := 1; o_exchange_order_no := 0; o_token := token; o_segment := kSegmentCm;
     o_price := 10000; o_qty := qty; o_disclosed_qty := 0; o_side := kBuy; o_order_type := kLimit;
     o_validity := kDay; o_created_at := 0 |}.

Definition capped_rm : RiskManager :=
  rm_set_now ten_am (RiskManager_new None
    {| rc_max_orders_per_sec := 1000; rc_max_order_qty := 10000; rc_max_token_position_lots := 100;
       rc_max_cm_notional_inr := 1000; rc_max_daily_loss_inr := 100000;
       rc_allow_preopen := false; rc_price_sanity_pct := 2 |}).

(** The cash-market cap of 1000 INR lets through two orders of 900 INR each. *)
Lemma notional_cap_is_per_order :
  (rm' ← fst <$> check 0 (cash_order 7 9) capped_rm; snd <$> check 0 (cash_order 7 9) rm') = Some kApproved /\
  snd <$> check 0 (cash_order 7 11) capped_rm = Some kPositionLimit.
Proof. split; vm_compute; reflexivity. Qed.

(** An order for a token beyond the tables reads past the end of the reference
    vectors, while every other entry point tests the token first. *)
Lemma wide_token_reads_past_the_end token qty :
  kSymbolTableSize <= token -> 0 < qty <= 10000 -> check 0 (cash_order token qty) capped_rm = None.
Proof.
  intros Ht Hq. unfold check. change (kill_switch_active capped_rm) with false. cbv iota zeta.
  change (is_within_market_hours (rm_now 0 capped_rm)) with true. cbn [negb andb].
  cbn [o_qty cash_order]. rewrite (proj2 (Z.leb_gt qty 0)) by lia.
  change (rc_max_order_qty (rm_cfg capped_rm)) with 10000. rewrite Z.gtb_ltb, (proj2 (Z.ltb_ge 10000 qty)) by lia.
  cbn [orb]. change (rm_LotSize capped_rm (o_token (cash_order token qty))) with 0. cbn [Z.gtb Z.compare].
  rewrite andb_false_r. cbn [andb]. change (rm_PriceBand capped_rm (o_token (cash_order token qty))) with (@None (Price * Price)).
  cbv iota. unfold PriceSane, vec_read. cbn [o_token o_side cash_order].
  rewrite (proj2 (Z.ltb_ge token kSymbolTableSize)), andb_false_r by lia. done.
Qed.

(** ** The order manager: an order in a slot nobody wrote

    With a slot whose uninitialised bytes spell its own number, [get] finds an order
    that was never placed. *)
Lemma get_finds_uninitialised_order :
  OrderManager.get (OrderManager_new OrderManager.sample_order) 5 = Some 5 /\
  lo_occupied (slot (OrderManager_new OrderManager.sample_order) 5) = false.
Proof. split; vm_compute; reflexivity. Qed.

(** ** The session: ready on a closed connection *)
Lemma late_sign_on_makes_ready now q s :
  is_ready (on_sign_on_response 0 q (on_disconnect now s)) = true /\
  is_ready (on_sign_on_response 0 q (on_sign_off_response s)) = true.
Proof. done. Qed.

(** ** The order gateway: 0 means closed and -1 means nothing there *)
Lemma poll_response_codes g :
  (poll_response 0 g).2 = 0 /\ og_connected (poll_response 0 g).1 = false /\ poll_response (-1) g = (g, -1).
Proof. done. Qed.
