(* ===== verification/Sockets.v ===== *)
(** * Sockets: descriptors and who owns them
      (src/gateway/udp_socket.hpp, TcpSocket of src/gateway/order_gateway.hpp, and
      MarketDataGateway::subscribe)

    The operating system is anything that keeps the promises of [Kernel]: which
    descriptors are open after a call, and what [fcntl] reads back.  A socket object is
    its descriptor; a C++ destructor is an explicit call.  [MarketDataGateway] and
    [OrderGateway] model the same gateways above the level of descriptors. *)

From Stdlib Require Import ZArith Lia String.
From stdpp Require Import base gmap numbers option strings list.
From S2P Require Import Prelude Types Codec RingBuffer FeedHandler MarketDataGateway OrderGateway.

Local Open Scope Z_scope.

(** ** The operating system *)

Inductive SockType : Set := SOCK_DGRAM | SOCK_STREAM.

Inductive SockOpt : Set :=
  | SO_REUSEADDR (on : Z)
  | SO_REUSEPORT (on : Z)
  | IP_ADD_MEMBERSHIP (group iface : Z)
  | SO_BUSY_POLL (us : Z)
  | SO_RCVBUF (n : Z)
  | SO_SNDBUF (n : Z)
  | TCP_NODELAY (on : Z).

Record SockAddr := { sin_addr : Z; sin_port : Z }.

Definition O_NONBLOCK : Z := 2048.
Definition INADDR_ANY : Z := 0.

(** [k_open] are the open descriptors, [k_flags] the status flags of one.  [sys_*] return
    the new state and the result; [inet_addr] reads a dotted address. *)
Class Kernel (K : Type) := {
  k_open : K -> gset Z;
  k_flags : K -> Z -> Z;
  inet_addr : string -> Z;
  sys_socket : SockType -> K -> K * Z;
  sys_bind : Z -> SockAddr -> K -> K * Z;
  sys_connect : Z -> SockAddr -> K -> K * Z;
  sys_setsockopt : Z -> SockOpt -> K -> K * Z;
  sys_getsockname : Z -> K -> option SockAddr;
  sys_getfl : Z -> K -> Z;
  sys_setfl : Z -> Z -> K -> K;
  sys_sendto : Z -> SockAddr -> bytes -> K -> K * Z;
  sys_close : Z -> K -> K;
  (** [socket] fails or returns a descriptor that was not open. *)
  socket_spec t k :
    let '(k', fd) := sys_socket t k in
    (forall d, d ∈ k_open k -> k_flags k' d = k_flags k d) /\
    (fd < 0 /\ k_open k' = k_open k \/ 0 <= fd /\ fd ∉ k_open k /\ k_open k' = {[fd]} ∪ k_open k);
  (** These calls open and close nothing and leave the status flags alone. *)
  bind_spec fd a k : k_open (sys_bind fd a k).1 = k_open k /\ k_flags (sys_bind fd a k).1 = k_flags k;
  connect_spec fd a k : k_open (sys_connect fd a k).1 = k_open k /\ k_flags (sys_connect fd a k).1 = k_flags k;
  setsockopt_spec fd o k :
    k_open (sys_setsockopt fd o k).1 = k_open k /\ k_flags (sys_setsockopt fd o k).1 = k_flags k;
  sendto_spec fd a b k : k_open (sys_sendto fd a b k).1 = k_open k /\ k_flags (sys_sendto fd a b k).1 = k_flags k;
  (** [F_GETFL] reads what [F_SETFL] wrote, as far as [O_NONBLOCK] goes. *)
  getfl_spec fd k : fd ∈ k_open k -> sys_getfl fd k = k_flags k fd;
  setfl_spec fd v k :
    k_open (sys_setfl fd v k) = k_open k /\
    (fd ∈ k_open k -> Z.land (k_flags (sys_setfl fd v k) fd) O_NONBLOCK = Z.land v O_NONBLOCK) /\
    (forall d, d <> fd -> k_flags (sys_setfl fd v k) d = k_flags k d);
  close_spec fd k :
    k_open (sys_close fd k) = k_open k ∖ {[fd]} /\ (forall d, d <> fd -> k_flags (sys_close fd k) d = k_flags k d);
}.

(** Network byte order of a port on a little-endian machine. *)
Definition htons (p : Z) : Z := Z.lor (Z.shiftl (Z.land p 255) 8) (Z.shiftr p 8).
Definition ntohs : Z -> Z := htons.

(** ** UdpSocket *)

Module Udp.
Section Udp.
Context {K : Type} `{!Kernel K}.

(** [fd_]. *)
Record Socket := { us_fd : Z }.
Definition Socket_new : Socket := {| us_fd := -1 |}.

(** The move constructor: the new object and what is left of the old one. *)
Definition move (o : Socket) : Socket * Socket := ({| us_fd := us_fd o |}, {| us_fd := -1 |}).

Definition valid (s : Socket) : bool := us_fd s >=? 0.

Definition close_socket (s : Socket) (k : K) : Socket * K :=
  if us_fd s >=? 0 then ({| us_fd := -1 |}, sys_close (us_fd s) k) else (s, k).

(** [~UdpSocket]. *)
Definition destroy (s : Socket) (k : K) : K := (close_socket s k).2.

Definition bind_rx (port : Z) (s : Socket) (k : K) : Socket * bool * K :=
  let '(k, fd) := sys_socket SOCK_DGRAM k in
  let s := {| us_fd := fd |} in
  if fd <? 0 then (s, false, k)
  else
    let k := (sys_setsockopt fd (SO_REUSEADDR 1) k).1 in
    let k := (sys_setsockopt fd (SO_REUSEPORT 1) k).1 in
    let '(k, r) := sys_bind fd {| sin_addr := INADDR_ANY; sin_port := htons port |} k in
    if negb (r =? 0) then let '(s, k) := close_socket s k in (s, false, k)
    else (s, true, k).

(** [iface_ip] may be null. *)
Definition join_multicast (group_ip : string) (iface_ip : option string) (s : Socket) (k : K) : bool * K :=
  if us_fd s <? 0 then (false, k)
  else
    let iface := match iface_ip with Some ip => inet_addr ip | None => INADDR_ANY end in
    let '(k, r) := sys_setsockopt (us_fd s) (IP_ADD_MEMBERSHIP (inet_addr group_ip) iface) k in
    if negb (r =? 0) then (false, k)
    else
      let k := (sys_setsockopt (us_fd s) (SO_BUSY_POLL 50) k).1 in
      let k := (sys_setsockopt (us_fd s) (SO_RCVBUF (16 * 1024 * 1024)) k).1 in
      (true, k).

Definition local_port (s : Socket) (k : K) : Z :=
  match sys_getsockname (us_fd s) k with Some a => ntohs (sin_port a) | None => 0 end.

Definition set_nonblocking (on : bool) (s : Socket) (k : K) : K :=
  if us_fd s <? 0 then k
  else
    let flags := sys_getfl (us_fd s) k in
    if on then sys_setfl (us_fd s) (Z.lor flags O_NONBLOCK) k
    else sys_setfl (us_fd s) (Z.land flags (Z.lnot O_NONBLOCK)) k.

Definition send_to (ip : string) (port : Z) (buf : bytes) (s : Socket) (k : K) : bool * K :=
  let '(k, n) := sys_sendto (us_fd s) {| sin_addr := inet_addr ip; sin_port := htons port |} buf k in
  (n =? Z.of_nat (length buf), k).

Definition open_tx (s : Socket) (k : K) : Socket * bool * K :=
  let '(k, fd) := sys_socket SOCK_DGRAM k in ({| us_fd := fd |}, fd >=? 0, k).
End Udp.
End Udp.

(** ** TcpSocket *)

Module Tcp.
Section Tcp.
Context {K : Type} `{!Kernel K}.

Record Socket := { ts_fd : Z }.
Definition Socket_new : Socket := {| ts_fd := -1 |}.

Definition close_socket (s : Socket) (k : K) : Socket * K :=
  if ts_fd s >=? 0 then ({| ts_fd := -1 |}, sys_close (ts_fd s) k) else (s, k).

Definition destroy (s : Socket) (k : K) : K := (close_socket s k).2.

Definition apply_lowlatency_opts (s : Socket) (k : K) : K :=
  if ts_fd s <? 0 then k
  else
    let k := (sys_setsockopt (ts_fd s) (TCP_NODELAY 1) k).1 in
    let k := (sys_setsockopt (ts_fd s) (SO_SNDBUF (64 * 1024)) k).1 in
    (sys_setsockopt (ts_fd s) (SO_BUSY_POLL 50) k).1.

Definition connect_to (ip : string) (port : Z) (s : Socket) (k : K) : Socket * bool * K :=
  let '(k, fd) := sys_socket SOCK_STREAM k in
  let s := {| ts_fd := fd |} in
  if fd <? 0 then (s, false, k)
  else
    let '(k, r) := sys_connect fd {| sin_addr := inet_addr ip; sin_port := htons port |} k in
    if negb (r =? 0) then let '(s, k) := close_socket s k in (s, false, k)
    else (s, true, apply_lowlatency_opts s k).

Definition adopt (fd : Z) (s : Socket) (k : K) : Socket * K :=
  let '(_, k) := close_socket s k in
  let s := {| ts_fd := fd |} in (s, apply_lowlatency_opts s k).

Definition set_nonblocking (on : bool) (s : Socket) (k : K) : K :=
  if ts_fd s <? 0 then k
  else
    let flags := sys_getfl (ts_fd s) k in
    sys_setfl (ts_fd s) (if on then Z.lor flags O_NONBLOCK else Z.land flags (Z.lnot O_NONBLOCK)) k.
End Tcp.
End Tcp.

(** ** The subscriptions of the market-data gateway *)

Section Subscribe.
Context {K : Type} `{!Kernel K}.

(** [struct Subscription]. *)
Record SubSockets := { ss_cfg : StreamConfig; ss_s1 : Udp.Socket; ss_s2 : Udp.Socket }.

(** Members are destroyed in reverse order of declaration. *)
Definition destroy_sub (sub : SubSockets) (k : K) : K := Udp.destroy (ss_s1 sub) (Udp.destroy (ss_s2 sub) k).

(** The implicit move constructor. *)
Definition move_sub (sub : SubSockets) : SubSockets * SubSockets :=
  let '(d1, o1) := Udp.move (ss_s1 sub) in
  let '(d2, o2) := Udp.move (ss_s2 sub) in
  ({| ss_cfg := ss_cfg sub; ss_s1 := d1; ss_s2 := d2 |}, {| ss_cfg := ss_cfg sub; ss_s1 := o1; ss_s2 := o2 |}).

(** [!s.bind_rx(port) || !s.join_multicast(...)], the second call only if the first
    succeeded. *)
Definition open_source (port : Z) (group iface : string) (s : Udp.Socket) (k : K) : Udp.Socket * bool * K :=
  let '(s, ok, k) := Udp.bind_rx port s k in
  if negb ok then (s, false, k) else let '(ok, k) := Udp.join_multicast group (Some iface) s k in (s, ok, k).

(** The local [sub] is destroyed on every way out. *)
Definition subscribe_sockets (iface_ip : string) (cfg : StreamConfig) (subs : list SubSockets) (k : K)
    : list SubSockets * bool * K :=
  let '(s1, ok, k) := open_source (sc_port cfg) (sc_source1_group cfg) iface_ip Udp.Socket_new k in
  if negb ok then (subs, false, destroy_sub {| ss_cfg := cfg; ss_s1 := s1; ss_s2 := Udp.Socket_new |} k)
  else
    let '(s2, ok, k) := open_source (sc_port cfg) (sc_source2_group cfg) iface_ip Udp.Socket_new k in
    if negb ok then (subs, false, destroy_sub {| ss_cfg := cfg; ss_s1 := s1; ss_s2 := s2 |} k)
    else
      let k := Udp.set_nonblocking true s1 k in
      let k := Udp.set_nonblocking true s2 k in
      let '(moved, rest) := move_sub {| ss_cfg := cfg; ss_s1 := s1; ss_s2 := s2 |} in
      (subs ++ [moved], true, destroy_sub rest k).

(** The destructor of the gateway's vector. *)
Definition destroy_subs (subs : list SubSockets) (k : K) : K := foldl (fun k sub => destroy_sub sub k) k subs.

(** A gateway that subscribes to the streams of a list. *)
Fixpoint subscribe_all (iface_ip : string) (cfgs : list StreamConfig) (subs : list SubSockets) (k : K)
    : list SubSockets * list bool * K :=
  match cfgs with
  | [] => (subs, [], k)
  | cfg :: cfgs =>
      let '(subs, ok, k) := subscribe_sockets iface_ip cfg subs k in
      let '(subs, oks, k) := subscribe_all iface_ip cfgs subs k in (subs, ok :: oks, k)
  end.
End Subscribe.

(** ** Ownership *)

Section Ownership.
Context {K : Type} `{!Kernel K}.
Implicit Types (k : K).

(** Between [k] and [k'] the socket got a new descriptor, or none. *)
Definition opened (s : Udp.Socket) k k' : Prop :=
  (forall d, d ∈ k_open k -> k_flags k' d = k_flags k d) /\
  (Udp.us_fd s < 0 /\ k_open k' = k_open k \/
   0 <= Udp.us_fd s /\ Udp.us_fd s ∉ k_open k /\ k_open k' = {[Udp.us_fd s]} ∪ k_open k).

(** An option call after the socket was opened changes nothing of this. *)
Lemma opened_setsockopt s k k' fd o : opened s k k' -> opened s k (sys_setsockopt fd o k').1.
Proof. intros H. unfold opened. destruct (setsockopt_spec fd o k') as [Eo Ef]. by rewrite Eo, Ef. Qed.

Lemma opened_destroy s k k' :
  opened s k k' ->
  k_open (Udp.destroy s k') = k_open k /\ forall d, d ∈ k_open k -> k_flags (Udp.destroy s k') d = k_flags k d.
Proof.
  intros [Hf Ho]. unfold Udp.destroy, Udp.close_socket. rewrite Z.geb_leb.
  destruct Ho as [[Hneg Ho]|(Hpos & Hnew & Ho)].
  - rewrite (proj2 (Z.leb_gt _ _)) by lia. by split.
  - rewrite (proj2 (Z.leb_le _ _)) by lia. cbn [snd]. destruct (close_spec (Udp.us_fd s) k') as [-> Hc].
    rewrite Ho. split; [set_solver|]. intros d Hd. rewrite Hc by set_solver. by apply Hf.
Qed.

(** A failed bind leaves no descriptor behind. *)
Lemma bind_rx_opened port s k :
  let '(s', ok, k') := Udp.bind_rx port s k in opened s' k k' /\ (ok = true <-> 0 <= Udp.us_fd s').
Proof.
  unfold Udp.bind_rx. pose proof (socket_spec SOCK_DGRAM k) as Hs.
  destruct (sys_socket SOCK_DGRAM k) as [k1 fd]. destruct (Z.ltb_spec fd 0).
  { split; [exact Hs|]. split; [done|intros Hc; cbn in Hc; lia]. }
  assert (opened {| Udp.us_fd := fd |} k k1) as H1 by done.
  apply (opened_setsockopt _ _ _ fd (SO_REUSEADDR 1)), (opened_setsockopt _ _ _ fd (SO_REUSEPORT 1)) in H1.
  set (k2 := (sys_setsockopt fd (SO_REUSEPORT 1) _).1) in *.
  set (a := {| sin_addr := _; sin_port := _ |}). destruct (bind_spec fd a k2) as [Eo Ef].
  destruct (sys_bind fd a k2) as [k3 r]. cbn [fst] in *.
  assert (opened {| Udp.us_fd := fd |} k k3) as H3 by (unfold opened; rewrite Eo, Ef; exact H1).
  destruct (r =? 0); cbn [negb]; [split; [exact H3|done]|].
  pose proof (opened_destroy _ _ _ H3) as [Ho Hf]. unfold Udp.destroy, Udp.close_socket in *. cbn in *.
  rewrite Z.geb_leb, (proj2 (Z.leb_le _ _)) in * by done. cbn in *.
  split; [|split; [done|intros Hc; cbn in Hc; lia]]. split; [exact Hf|]. left. split; [done|exact Ho].
Qed.

Lemma open_source_opened port group iface s k :
  let '(s', ok, k') := open_source port group iface s k in opened s' k k' /\ (ok = true -> 0 <= Udp.us_fd s').
Proof.
  unfold open_source. pose proof (bind_rx_opened port s k) as Hb.
  destruct (Udp.bind_rx port s k) as [[s1 ok] k1]. destruct Hb as [H1 Hok].
  destruct ok; cbn [negb]; [|by split]. destruct Hok as [Hpos _]. specialize (Hpos eq_refl).
  unfold Udp.join_multicast. rewrite (proj2 (Z.ltb_ge _ _)) by done.
  set (o := IP_ADD_MEMBERSHIP _ _). pose proof (opened_setsockopt s1 k k1 (Udp.us_fd s1) o H1) as H2.
  destruct (sys_setsockopt (Udp.us_fd s1) o k1) as [k2 r]. cbn [fst] in H2.
  destruct (r =? 0); cbn [negb]; (split; [|done]); [|done]. by do 2 apply opened_setsockopt.
Qed.

Definition nonblocking k (fd : Z) : Prop := Z.land (k_flags k fd) O_NONBLOCK = O_NONBLOCK.

Lemma set_nonblocking_spec s k :
  0 <= Udp.us_fd s -> Udp.us_fd s ∈ k_open k ->
  let k' := Udp.set_nonblocking true s k in
  k_open k' = k_open k /\ nonblocking k' (Udp.us_fd s) /\
  forall d, d <> Udp.us_fd s -> k_flags k' d = k_flags k d.
Proof.
  intros H0 Hin. unfold Udp.set_nonblocking. rewrite (proj2 (Z.ltb_ge _ _)) by done. cbv zeta.
  destruct (setfl_spec (Udp.us_fd s) (Z.lor (sys_getfl (Udp.us_fd s) k) O_NONBLOCK) k) as (Ho & Hb & Hf).
  split_and!; [done| |done]. unfold nonblocking. rewrite (Hb Hin). apply Z.bits_inj'. intros n Hn.
  rewrite Z.land_spec, Z.lor_spec. by destruct (Z.testbit O_NONBLOCK n), (Z.testbit _ n).
Qed.

Definition fds_of (sub : SubSockets) : list Z := [Udp.us_fd (ss_s1 sub); Udp.us_fd (ss_s2 sub)].
Definition all_fds (subs : list SubSockets) : list Z := concat (fds_of <$> subs).

(** The gateway that started in [k0] holds exactly the descriptors opened since. *)
Record owned (k0 : K) (subs : list SubSockets) k : Prop := {
  ow_nodup : NoDup (all_fds subs);
  ow_fds : Forall (fun fd => 0 <= fd /\ fd ∉ k_open k0 /\ nonblocking k fd) (all_fds subs);
  ow_open : k_open k = k_open k0 ∪ list_to_set (all_fds subs);
  ow_others : forall d, d ∈ k_open k0 -> k_flags k d = k_flags k0 d;
}.

Lemma all_fds_snoc subs sub : all_fds (subs ++ [sub]) = all_fds subs ++ fds_of sub.
Proof. unfold all_fds. rewrite fmap_app, concat_app. cbn. done. Qed.

(** A state that closed all it opened owns what it owned before. *)
Lemma owned_same k0 subs k k' :
  owned k0 subs k -> k_open k' = k_open k -> (forall d, d ∈ k_open k -> k_flags k' d = k_flags k d) ->
  owned k0 subs k'.
Proof.
  intros [H1 H2 H3 H4] Eo Ef. split; [done| |by rewrite Eo|].
  - rewrite Forall_forall in H2 |- *. intros fd Hin. destruct (H2 fd Hin) as (A & B & C). split_and!; [done|done|].
    unfold nonblocking. rewrite Ef; [done|]. rewrite H3. set_solver.
  - intros d Hd. rewrite Ef by (rewrite H3; set_solver). by apply H4.
Qed.

Lemma destroy_none k : Udp.destroy {| Udp.us_fd := -1 |} k = k.
Proof. done. Qed.

Lemma subscribe_owned iface cfg k0 subs k :
  owned k0 subs k ->
  let '(subs', ok, k') := subscribe_sockets iface cfg subs k in
  owned k0 subs' k' /\
  if ok : bool then exists sub, subs' = subs ++ [sub] /\ ss_cfg sub = cfg else subs' = subs.
Proof.
  intros Hown. unfold subscribe_sockets.
  pose proof (open_source_opened (sc_port cfg) (sc_source1_group cfg) iface Udp.Socket_new k) as H1.
  destruct (open_source _ _ _ _ k) as [[s1 ok1] k1]. destruct H1 as [O1 P1].
  destruct ok1; cbn [negb].
  2: { split; [|done]. unfold destroy_sub. cbn [ss_s1 ss_s2]. unfold Udp.Socket_new. rewrite destroy_none.
       destruct (opened_destroy _ _ _ O1) as [Eo Ef]. by apply (owned_same k0 subs k). }
  specialize (P1 eq_refl).
  pose proof (open_source_opened (sc_port cfg) (sc_source2_group cfg) iface Udp.Socket_new k1) as H2.
  destruct (open_source _ _ _ _ k1) as [[s2 ok2] k2]. destruct H2 as [O2 P2].
  destruct O1 as [F1 [[]|(_ & N1 & E1)]]; [lia|].
  destruct ok2; cbn [negb].
  2: { split; [|done]. unfold destroy_sub. cbn [ss_s1 ss_s2].
       destruct (opened_destroy _ _ _ O2) as [Eo Ef].
       assert (opened s1 k (Udp.destroy s2 k2)) as O1'.
       { split; [intros d Hd; rewrite Ef by (rewrite E1; set_solver); by apply F1|]. right. by rewrite Eo. }
       destruct (opened_destroy _ _ _ O1') as [Eo' Ef']. by apply (owned_same k0 subs k). }
  specialize (P2 eq_refl). destruct O2 as [F2 [[]|(_ & N2 & E2)]]; [lia|].
  destruct (set_nonblocking_spec s1 k2) as (A1 & A2 & A3); [done|rewrite E2, E1; set_solver|].
  set (k3 := Udp.set_nonblocking true s1 k2) in *.
  destruct (set_nonblocking_spec s2 k3) as (B1 & B2 & B3); [done|rewrite A1, E2; set_solver|].
  set (k4 := Udp.set_nonblocking true s2 k3) in *. clearbody k3 k4.
  cbn [move_sub Udp.move ss_s1 ss_s2 ss_cfg]. unfold destroy_sub. cbn [ss_s1 ss_s2]. rewrite !destroy_none.
  split; [|by eexists].
  assert (Udp.us_fd s1 <> Udp.us_fd s2) as Hne by (rewrite E1 in N2; set_solver).
  assert (forall d, d ∈ k_open k -> k_flags k4 d = k_flags k d) as Hold.
  { intros d Hd. rewrite B3, A3, F2, F1; [done|done|rewrite E1; set_solver|set_solver|].
    rewrite E1 in N2. set_solver. }
  destruct Hown as [W1 W2 W3 W4].
  assert (Udp.us_fd s1 ∉ all_fds subs /\ Udp.us_fd s2 ∉ all_fds subs) as [M1 M2].
  { rewrite E1 in N2. rewrite W3 in N1, N2. set_solver. }
  split; rewrite ?all_fds_snoc; unfold fds_of; cbn [ss_s1 ss_s2 Udp.us_fd].
  - apply NoDup_app. split_and!; [done| |].
    + intros x Hx Hin. apply elem_of_cons in Hin as [->|Hin]; [done|]. apply list_elem_of_singleton in Hin. by subst.
    + apply NoDup_cons. split; [set_solver|apply NoDup_singleton].
  - apply Forall_app. split.
    + rewrite Forall_forall in W2 |- *. intros fd Hin. destruct (W2 fd Hin) as (A & B & C). split_and!; [done|done|].
      unfold nonblocking. rewrite Hold; [done|]. rewrite W3. set_solver.
    + rewrite W3 in N1. rewrite E1, W3 in N2.
      apply Forall_cons. split; [|apply Forall_singleton]; (split_and!; [done|set_solver|]); [|exact B2].
      unfold nonblocking. rewrite B3 by done. exact A2.
  - rewrite B1, A1, E2, E1, W3, list_to_set_app_L. cbn. set_solver.
  - intros d Hd. rewrite Hold by (rewrite W3; set_solver). by apply W4.
Qed.

(** Destroying the subscriptions closes what they hold. *)
Lemma destroy_subs_closes subs : forall k,
  Forall (fun fd => 0 <= fd) (all_fds subs) ->
  k_open (destroy_subs subs k) = k_open k ∖ list_to_set (all_fds subs).
Proof.
  induction subs as [|sub subs IH]; intros k Hall; cbn [destroy_subs foldl]; [cbn; set_solver|].
  change (all_fds (sub :: subs)) with (fds_of sub ++ all_fds subs) in *.
  apply Forall_app in Hall as [Hs Hall]. unfold fds_of in Hs.
  apply Forall_cons_1 in Hs as [P1 Hs]. apply Forall_cons_1 in Hs as [P2 _].
  change (foldl _ _ subs) with (destroy_subs subs (destroy_sub sub k)). rewrite IH by done.
  assert (k_open (destroy_sub sub k) = k_open k ∖ {[Udp.us_fd (ss_s2 sub)]} ∖ {[Udp.us_fd (ss_s1 sub)]}) as ->.
  { unfold destroy_sub, Udp.destroy, Udp.close_socket. rewrite !Z.geb_leb, !(proj2 (Z.leb_le _ _)) by done. cbn [snd].
    by rewrite (proj1 (close_spec _ _)), (proj1 (close_spec _ _)). }
  rewrite list_to_set_app_L. unfold fds_of. cbn. set_solver.
Qed.

(** C18.  The gateway owns its descriptors.  On every lawful operating system, whatever
    the socket calls answer, a gateway that subscribes to any list of streams holds
    exactly the descriptors opened on the way, each once and non-blocking; a subscription that
    fails closes what it had opened and changes nothing, one that succeeds adds its two
    sockets; the flags of foreign descriptors are untouched, and destroying the gateway
    closes exactly its own descriptors. *)
Theorem subscriptions_own_descriptors iface cfgs k0 :
  let '(subs, oks, k) := subscribe_all iface cfgs [] k0 in
  owned k0 subs k /\ length oks = length cfgs /\
  ss_cfg <$> subs = (fun p => p.1) <$> filter (fun p => p.2 = true) (zip cfgs oks) /\
  k_open (destroy_subs subs k) = k_open k0.
Proof.
  assert (forall subs k, owned k0 subs k -> let '(subs', oks, k') := subscribe_all iface cfgs subs k in
    owned k0 subs' k' /\ length oks = length cfgs /\
    ss_cfg <$> subs' = (ss_cfg <$> subs) ++ ((fun p => p.1) <$> filter (fun p => p.2 = true) (zip cfgs oks))) as H.
  { induction cfgs as [|cfg cfgs IH]; intros subs k Hown; cbn [subscribe_all].
    { split_and!; [done|done|]. cbn. by rewrite app_nil_r. }
    pose proof (subscribe_owned iface cfg k0 subs k Hown) as H1.
    destruct (subscribe_sockets iface cfg subs k) as [[subs1 ok] k1]. destruct H1 as [Hown1 Hsub].
    specialize (IH subs1 k1 Hown1). destruct (subscribe_all iface cfgs subs1 k1) as [[subs2 oks] k2].
    destruct IH as (H2 & H3 & H4). split_and!; [done|cbn; by rewrite H3|]. rewrite H4.
    destruct ok; cbn [zip zip_with].
    - destruct Hsub as (sub & -> & <-). rewrite filter_cons_True by done. rewrite fmap_app, <- app_assoc. done.
    - subst subs1. by rewrite filter_cons_False. }
  specialize (H [] k0). destruct (subscribe_all iface cfgs [] k0) as [[subs oks] k].
  destruct H as (Hown & Hl & Hc).
  { split; [constructor|constructor|cbn; set_solver|done]. }
  split_and!; [done|done|done|]. rewrite destroy_subs_closes.
  - rewrite (ow_open _ _ _ Hown). destruct Hown as [_ Hf _ _]. rewrite Forall_forall in Hf. set_solver.
  - eapply Forall_impl; [apply Hown|]. naive_solver.
Qed.
End Ownership.

(** ** The gateways above the descriptors *)

Section Levels.
Context {K : Type} `{!Kernel K} {Q : Type} {BQ : BoundedQueue Q MarketEvent}.

(** A call at the level of descriptors is a [subscribe] of the gateway model for some
    outcome of its four socket calls, with the same answer and the same streams. *)
Lemma subscribe_levels iface cfg (subs : list SubSockets) (k : K) (gw : MarketDataGateway Q) :
  sub_cfg <$> md_subs gw = ss_cfg <$> subs ->
  let '(subs', ok, k') := subscribe_sockets iface cfg subs k in
  exists b1 j1 b2 j2 gw', subscribe cfg b1 j1 b2 j2 gw = (gw', ok) /\ sub_cfg <$> md_subs gw' = ss_cfg <$> subs'.
Proof.
  intros Hc. unfold subscribe_sockets, open_source.
  destruct (Udp.bind_rx (sc_port cfg) Udp.Socket_new k) as [[s1 b1] k1]. destruct b1; cbn [negb].
  2: { by exists false, true, true, true, gw. }
  destruct (Udp.join_multicast (sc_source1_group cfg) _ s1 k1) as [j1 k2]. destruct j1; cbn [negb].
  2: { by exists true, false, true, true, gw. }
  destruct (Udp.bind_rx (sc_port cfg) Udp.Socket_new k2) as [[s2 b2] k3]. destruct b2; cbn [negb].
  2: { by exists true, true, false, true, gw. }
  destruct (Udp.join_multicast (sc_source2_group cfg) _ s2 k3) as [j2 k4]. destruct j2; cbn [negb].
  2: { by exists true, true, true, false, gw. }
  cbn [move_sub Udp.move ss_s1 ss_s2 ss_cfg]. exists true, true, true, true. eexists. split; [done|].
  cbn [md_subs with_subs]. by rewrite !fmap_app, Hc.
Qed.

(** The connection of the order gateway: with the descriptor [socket] returned and the
    outcome of [connect], the model of [OrderGateway] closes and keeps what this one does. *)
Lemma connect_levels ip port (s : Tcp.Socket) (k : K) :
  let '(s', ok, k') := Tcp.connect_to ip port s k in
  exists fd okc, let '(t, ok') := connect_to fd okc {| OrderGateway.ts_fd := Tcp.ts_fd s; ts_open := k_open k |} in
    ok' = ok /\ OrderGateway.ts_fd t = Tcp.ts_fd s' /\ ts_open t = k_open k'.
Proof.
  unfold Tcp.connect_to. pose proof (socket_spec SOCK_STREAM k) as Hs.
  destruct (sys_socket SOCK_STREAM k) as [k1 fd]. destruct Hs as [_ Hs].
  destruct (Z.ltb_spec fd 0) as [Hneg|Hpos].
  { exists fd, true. unfold connect_to. rewrite (proj2 (Z.ltb_lt _ _)) by done. cbn.
    destruct Hs as [[_ E]|(? & _)]; [|lia]. by rewrite E. }
  destruct Hs as [[]|(_ & Hnew & E)]; [lia|].
  set (a := {| sin_addr := _; sin_port := _ |}). destruct (connect_spec fd a k1) as [Eo _].
  destruct (sys_connect fd a k1) as [k2 r]. cbn [fst] in Eo. unfold connect_to.
  destruct (r =? 0); cbn [negb].
  - exists fd, true. rewrite (proj2 (Z.ltb_ge _ _)) by done. cbn. split_and!; [done|done|]. unfold Tcp.apply_lowlatency_opts. cbn. rewrite (proj2 (Z.ltb_ge _ _)) by done.
    do 3 rewrite (proj1 (setsockopt_spec _ _ _)). rewrite Eo, E. set_solver.
  - unfold Tcp.close_socket. cbn. rewrite Z.geb_leb, (proj2 (Z.leb_le _ _)) by done. exists fd, false.
    rewrite (proj2 (Z.ltb_ge _ _)) by done. unfold close_socket. cbn. rewrite Z.geb_leb, (proj2 (Z.leb_le _ _)) by done. cbn.
    split_and!; [done|done|]. rewrite (proj1 (close_spec _ _)), Eo, E. set_solver.
Qed.
End Levels.

(** ** A simulated operating system *)

(** Descriptors with their flags, the next number to hand out, and the answers of the
    next calls that may fail ([true] when it runs out). *)
Record SimKernel := { sk_fds : gmap Z Z; sk_next : Z; sk_answers : list bool }.

Definition answer (k : SimKernel) : bool * SimKernel :=
  match sk_answers k with
  | [] => (true, k)
  | b :: bs => (b, {| sk_fds := sk_fds k; sk_next := sk_next k; sk_answers := bs |})
  end.

(** The answer of a call that only succeeds or fails. *)
Definition sim_call (k : SimKernel) : SimKernel * Z := let '(b, k) := answer k in (k, if b then 0 else -1).

Definition with_fds (fds : gmap Z Z) (k : SimKernel) : SimKernel :=
  {| sk_fds := fds; sk_next := sk_next k; sk_answers := sk_answers k |}.

(** A process that has used up its numbers gets an error. *)
Definition sim_socket (k : SimKernel) : SimKernel * Z :=
  let '(b, k) := answer k in
  if b && (0 <=? sk_next k) && bool_decide (sk_fds k !! sk_next k = None) then
    ({| sk_fds := <[sk_next k := 2]> (sk_fds k); sk_next := sk_next k + 1; sk_answers := sk_answers k |}, sk_next k)
  else (k, -1).

(** Joining a group can fail; the other options are best effort. *)
Definition sim_setsockopt (o : SockOpt) (k : SimKernel) : SimKernel * Z :=
  match o with IP_ADD_MEMBERSHIP _ _ => sim_call k | _ => (k, 0) end.

Lemma answer_fds k : sk_fds (answer k).2 = sk_fds k.
Proof. unfold answer. by destruct (sk_answers k). Qed.

Lemma sim_call_fds k : sk_fds (sim_call k).1 = sk_fds k.
Proof. rewrite <- (answer_fds k). unfold sim_call. by destruct (answer k). Qed.

#[global] Program Instance sim_kernel : Kernel SimKernel := {
  k_open k := dom (sk_fds k);
  k_flags k fd := default 0 (sk_fds k !! fd);
  inet_addr s := Z.of_nat (String.length s);
  sys_socket _ := sim_socket;
  sys_bind _ _ := sim_call;
  sys_connect _ _ := sim_call;
  sys_setsockopt _ := sim_setsockopt;
  sys_getsockname fd k := (fun _ => {| sin_addr := 0; sin_port := 0 |}) <$> sk_fds k !! fd;
  sys_getfl fd k := default 0 (sk_fds k !! fd);
  sys_setfl fd v k := with_fds (alter (fun _ => v) fd (sk_fds k)) k;
  sys_sendto _ _ b k := (k, Z.of_nat (length b));
  sys_close fd k := with_fds (delete fd (sk_fds k)) k;
}.
Next Obligation.
  intros t k. cbn. unfold sim_socket. pose proof (answer_fds k) as E. destruct (answer k) as [b k1]. cbn [snd] in E.
  destruct (b && _ && _) eqn:Hb; [|rewrite E; split; [done|left; by split]]. rewrite <- E. rewrite !andb_true_iff in Hb.
  destruct Hb as [[_ H0] Hn]. apply Z.leb_le in H0. apply bool_decide_eq_true in Hn. cbn [sk_fds]. split.
  - intros d Hd. rewrite lookup_insert_ne; [done|]. intros <-. apply elem_of_dom in Hd as [v Hv]. congruence.
  - right. split_and!; [done|by apply not_elem_of_dom|]. by rewrite dom_insert_L.
Qed.
Next Obligation. intros fd a k. cbn. by rewrite sim_call_fds. Qed.
Next Obligation. intros fd a k. cbn. by rewrite sim_call_fds. Qed.
Next Obligation. intros fd [] k; cbn; try done. by rewrite sim_call_fds. Qed.
Next Obligation. done. Qed.
Next Obligation. done. Qed.
Next Obligation.
  intros fd v k. cbn. split_and!.
  - apply dom_alter_L.
  - intros [x Hx]%elem_of_dom. by rewrite lookup_alter_eq, Hx.
  - intros d Hd. by rewrite lookup_alter_ne.
Qed.
Next Obligation.
  intros fd k. cbn. split; [apply dom_delete_L|]. intros d Hd. by rewrite lookup_delete_ne.
Qed.

(** Standard streams open, and a third join that is refused. *)
Definition sim_start : SimKernel :=
  {| sk_fds := <[0 := 2]> (<[1 := 2]> {[2 := 2]}); sk_next := 3;
     sk_answers := [true; true; true; true; true; true; true; true; false] |}.

Definition sim_cfgs : list StreamConfig :=
  [{| sc_source1_group := "239.1.1.1"; sc_source2_group := "239.1.1.2"; sc_port := 5000; sc_stream_id := 3 |};
   {| sc_source1_group := "239.1.2.1"; sc_source2_group := "239.1.2.2"; sc_port := 5001; sc_stream_id := 4 |}].

Lemma subscriptions_own_descriptors_witness :
  let '(subs, oks, k) := subscribe_all "10.0.0.7" sim_cfgs [] sim_start in
  oks = [true; false] /\ all_fds subs = [3; 4] /\ owned sim_start subs k /\
  k_open (destroy_subs subs k) = k_open sim_start.
Proof.
  pose proof (subscriptions_own_descriptors "10.0.0.7" sim_cfgs sim_start) as H.
  assert ((subscribe_all "10.0.0.7" sim_cfgs [] sim_start).1.2 = [true; false]) as E1 by (vm_compute; reflexivity).
  assert (all_fds (subscribe_all "10.0.0.7" sim_cfgs [] sim_start).1.1 = [3; 4]) as E2 by (vm_compute; reflexivity).
  destruct (subscribe_all "10.0.0.7" sim_cfgs [] sim_start) as [[subs oks] k]. destruct H as (H1 & _ & _ & H2).
  split; [exact E1|]. split; [exact E2|]. split; [exact H1|exact H2].
Defined.
