(* ===== verification/Logger.v ===== *)
(** * Logger: the asynchronous logger (src/common/logger.hpp)

    The thread that logs pushes fixed-size entries; the drain thread pops, renders and
    flushes.  The two run interleaved, one step for each access to what they share: the queue,
    [running_], [flush_request_], [dropped_] and the file.  The queue is anything that keeps
    the promises of [BoundedQueue]; since a side of the ring may see the other's counter late
    ([RingBuffer.spsc_results_justified]), a schedule may also let a push or a pop fail
    that would have succeeded.  As the queue requires, one thread logs; it is also the one that
    destroys the logger, and [Flush] runs only in the destructor.  A tag is the characters
    before its terminator.  A file is the text written to it, with the part of it an explicit
    [fflush] has covered; [None] is a null [FILE*]. *)

From Stdlib Require Import ZArith Lia Ascii String.
From stdpp Require Import base numbers option list.
From S2P Require Import Prelude Types Text RingBuffer.

Local Open Scope Z_scope.

Inductive LogLevel : Set := kDebug | kInfo | kWarn | kError | kCritical.

#[global] Instance LogLevel_eq_dec : EqDecision LogLevel.
Proof. solve_decision. Defined.

Definition level_string (level : LogLevel) : list ascii :=
  lit match level with
      | kDebug => "DEBUG" | kInfo => "INFO" | kWarn => "WARN" | kError => "ERROR"
      | kCritical => "CRITICAL"
      end.

Record LogEntry := {
  le_ts_ist : Timestamp;
  le_level : LogLevel;
  le_tag : list ascii;
  le_arg0 : Z;
  le_arg1 : Z;
  le_arg2 : Z;
  le_arg3 : Z;
}.

(** [sizeof(LogEntry::tag)]. *)
Definition kTagSize : nat := 31.

(** [strncpy] of at most 30 characters and the terminator. *)
Definition make_entry (now : Timestamp) (level : LogLevel) (tag : list ascii) (a0 a1 a2 a3 : Z)
    : LogEntry :=
  {| le_ts_ist := now; le_level := level; le_tag := take (kTagSize - 1) tag; le_arg0 := a0;
     le_arg1 := a1; le_arg2 := a2; le_arg3 := a3 |}.

(** The line of an entry: ["%llu [%s] %s %lld %lld %lld %lld\n"]. *)
Definition render_line (e : LogEntry) : list ascii :=
  dec (le_ts_ist e) ++ lit " [" ++ level_string (le_level e) ++ lit "] " ++ le_tag e ++
  lit " " ++ dec (le_arg0 e) ++ lit " " ++ dec (le_arg1 e) ++ lit " " ++ dec (le_arg2 e) ++
  lit " " ++ dec (le_arg3 e) ++ ["010"%char].

(** What was written, and how much of it the last [fflush] or [fclose] covered. *)
Record LogFile := { lf_text : list ascii; lf_synced : list ascii }.

Definition Render (e : LogEntry) (file : option LogFile) : option LogFile :=
  (fun f => {| lf_text := lf_text f ++ render_line e; lf_synced := lf_synced f |}) <$> file.

Definition fflush (file : option LogFile) : option LogFile :=
  (fun f => {| lf_text := lf_text f; lf_synced := lf_text f |}) <$> file.

(** Where the owner is: in a call of [log] after the push, or in the destructor. *)
Inductive OwnerPc :=
  | OwIdle
  | OwPushed (level : LogLevel)
  | OwRefused
  | OwJoin
  | OwFlush
  | OwSync
  | OwClose
  | OwClosed.

(** Where [DrainLoop] is, with its local [any]. *)
Inductive DrainPc :=
  | DrTest
  | DrPop (any : bool)
  | DrRender (e : LogEntry) (any : bool)
  | DrExchange (any : bool)
  | DrSync (any : bool)
  | DrSleep (any : bool)
  | DrExit.

#[global] Instance LogEntry_eq_dec : EqDecision LogEntry.
Proof. solve_decision. Defined.

#[global] Instance DrainPc_eq_dec : EqDecision DrainPc.
Proof. solve_decision. Defined.

Section Logger.
Context {Q : Type} {BQ : BoundedQueue Q LogEntry}.

Record AsyncLogger := {
  lg_queue : Q;
  lg_file : option LogFile;
  lg_owns_file : bool;
  lg_running : bool;
  lg_flush_request : bool;
  lg_dropped : Z;
}.

(** The logger with its two threads; the calls of [log] so far with the result of their push, and
    the entries rendered so far, are kept for the statements. *)
Record LogSystem := {
  ls_logger : AsyncLogger;
  ls_owner : OwnerPc;
  ls_drain : DrainPc;
  ls_calls : list (LogEntry * bool);
  ls_rendered : list LogEntry;
}.

Definition AsyncLogger_new (queue : Q) (file : option (list ascii)) (owns_file : bool) : AsyncLogger :=
  {| lg_queue := queue; lg_file := (fun t => {| lf_text := t; lf_synced := t |}) <$> file;
     lg_owns_file := owns_file; lg_running := true; lg_flush_request := false; lg_dropped := 0 |}.

(** Constructed, with the drain thread started. *)
Definition LogSystem_new (queue : Q) (file : option (list ascii)) (owns_file : bool) : LogSystem :=
  {| ls_logger := AsyncLogger_new queue file owns_file; ls_owner := OwIdle; ls_drain := DrTest;
     ls_calls := []; ls_rendered := [] |}.

Definition with_log (queue : Q) (file : option LogFile) (running flush : bool) (dropped : Z) (lg : AsyncLogger)
    : AsyncLogger :=
  {| lg_queue := queue; lg_file := file; lg_owns_file := lg_owns_file lg; lg_running := running;
     lg_flush_request := flush; lg_dropped := dropped |}.

Definition with_queue (q : Q) (lg : AsyncLogger) : AsyncLogger :=
  with_log q (lg_file lg) (lg_running lg) (lg_flush_request lg) (lg_dropped lg) lg.
Definition with_file (f : option LogFile) (lg : AsyncLogger) : AsyncLogger :=
  with_log (lg_queue lg) f (lg_running lg) (lg_flush_request lg) (lg_dropped lg) lg.
Definition with_running (b : bool) (lg : AsyncLogger) : AsyncLogger :=
  with_log (lg_queue lg) (lg_file lg) b (lg_flush_request lg) (lg_dropped lg) lg.
Definition with_request (b : bool) (lg : AsyncLogger) : AsyncLogger :=
  with_log (lg_queue lg) (lg_file lg) (lg_running lg) b (lg_dropped lg) lg.
Definition with_dropped (d : Z) (lg : AsyncLogger) : AsyncLogger :=
  with_log (lg_queue lg) (lg_file lg) (lg_running lg) (lg_flush_request lg) d lg.

Definition owner_at (lg : AsyncLogger) (pc : OwnerPc) (s : LogSystem) : LogSystem :=
  {| ls_logger := lg; ls_owner := pc; ls_drain := ls_drain s; ls_calls := ls_calls s;
     ls_rendered := ls_rendered s |}.
Definition drain_at (lg : AsyncLogger) (pc : DrainPc) (s : LogSystem) : LogSystem :=
  {| ls_logger := lg; ls_owner := ls_owner s; ls_drain := pc; ls_calls := ls_calls s;
     ls_rendered := ls_rendered s |}.
Definition rendering (e : LogEntry) (s : LogSystem) : LogSystem :=
  {| ls_logger := ls_logger s; ls_owner := ls_owner s; ls_drain := ls_drain s; ls_calls := ls_calls s;
     ls_rendered := ls_rendered s ++ [e] |}.

(** A call of [log] up to its push; [stale] lets the push fail. *)
Definition log (now : Timestamp) (level : LogLevel) (tag : list ascii) (a0 a1 a2 a3 : Z) (stale : bool)
    (s : LogSystem) : option LogSystem :=
  match ls_owner s with
  | OwIdle =>
      let e := make_entry now level tag a0 a1 a2 a3 in
      let lg := ls_logger s in
      let '(q, ok) := if stale then (lg_queue lg, false) else q_push e (lg_queue lg) in
      Some {| ls_logger := with_queue q lg; ls_owner := if ok then OwPushed level else OwRefused;
              ls_drain := ls_drain s; ls_calls := ls_calls s ++ [(e, ok)]; ls_rendered := ls_rendered s |}
  | _ => None
  end.

(** The destructor's store to [running_]. *)
Definition shutdown (s : LogSystem) : option LogSystem :=
  match ls_owner s with
  | OwIdle => Some (owner_at (with_running false (ls_logger s)) OwJoin s)
  | _ => None
  end.

(** The owner's next step inside [log] (counting the drop, or the CRITICAL request) or inside the
    destructor (join, the pops of [Flush], its [fflush], [fclose]). *)
Definition owner_step (s : LogSystem) : option LogSystem :=
  let lg := ls_logger s in
  match ls_owner s with
  | OwIdle | OwClosed => None
  | OwRefused => Some (owner_at (with_dropped (u64 (lg_dropped lg + 1)) lg) OwIdle s)
  | OwPushed level =>
      Some (owner_at (if bool_decide (level = kCritical) then with_request true lg else lg) OwIdle s)
  | OwJoin => if bool_decide (ls_drain s = DrExit) then Some (owner_at lg OwFlush s) else None
  | OwFlush =>
      match q_pop (lg_queue lg) with
      | (q, Some e) => Some (rendering e (owner_at (with_file (Render e (lg_file lg)) (with_queue q lg)) OwFlush s))
      | (_, None) => Some (owner_at lg OwSync s)
      end
  | OwSync => Some (owner_at (with_file (fflush (lg_file lg)) lg) OwClose s)
  | OwClose =>
      Some (owner_at (if lg_owns_file lg then with_file (fflush (lg_file lg)) lg else lg) OwClosed s)
  end.

(** The next step of [DrainLoop]; [stale] lets a pop fail. *)
Definition drain_step (stale : bool) (s : LogSystem) : option LogSystem :=
  let lg := ls_logger s in
  match ls_drain s with
  | DrTest => Some (drain_at lg (if lg_running lg then DrPop false else DrExit) s)
  | DrPop any =>
      match if stale then (lg_queue lg, None) else q_pop (lg_queue lg) with
      | (q, Some e) => Some (drain_at (with_queue q lg) (DrRender e any) s)
      | (_, None) => Some (drain_at lg (DrExchange any) s)
      end
  | DrRender e any =>
      Some (rendering e (drain_at (with_file (Render e (lg_file lg)) lg) (DrPop true) s))
  | DrExchange any =>
      Some (drain_at (with_request false lg) (if lg_flush_request lg || any then DrSync any else DrSleep any) s)
  | DrSync any => Some (drain_at (with_file (fflush (lg_file lg)) lg) (DrSleep any) s)
  | DrSleep any => Some (drain_at lg DrTest s)
  | DrExit => None
  end.

(** ** Schedules *)

Inductive LogEvent :=
  | LogCall (now : Timestamp) (level : LogLevel) (tag : list ascii) (a0 a1 a2 a3 : Z) (stale : bool)
  | LogShutdown
  | LogOwner
  | LogDrain (stale : bool).

Definition log_event (ev : LogEvent) (s : LogSystem) : option LogSystem :=
  match ev with
  | LogCall now level tag a0 a1 a2 a3 stale => log now level tag a0 a1 a2 a3 stale s
  | LogShutdown => shutdown s
  | LogOwner => owner_step s
  | LogDrain stale => drain_step stale s
  end.

(** [None] when a thread is scheduled that cannot move. *)
Fixpoint log_schedule (evs : list LogEvent) (s : LogSystem) : option LogSystem :=
  match evs with [] => Some s | ev :: evs => s ← log_event ev s; log_schedule evs s end.

(** ** Nothing is lost silently *)

(** The entries whose [log] call returns true, and the number of the others. *)
Definition accepted (calls : list (LogEntry * bool)) : list LogEntry :=
  (filter (fun c => c.2 = true) calls).*1.
Definition refused (calls : list (LogEntry * bool)) : Z :=
  Z.of_nat (length (filter (fun c => c.2 = false) calls)).

(** A refusal whose [fetch_add] is still to come. *)
Definition uncounted (pc : OwnerPc) : Z := match pc with OwRefused => 1 | _ => 0 end.

Definition in_hand (pc : DrainPc) : list LogEntry := match pc with DrRender e _ => [e] | _ => [] end.

(** A thread has rendered since its last [fflush]. *)
Definition dirty (pc : DrainPc) : bool :=
  match pc with DrPop any | DrRender _ any | DrExchange any | DrSync any => any | _ => false end.

Definition unsynced (s : LogSystem) : bool :=
  match ls_owner s with OwFlush | OwSync => true | _ => dirty (ls_drain s) end.

Definition closing (pc : OwnerPc) : bool :=
  match pc with OwJoin | OwFlush | OwSync | OwClose | OwClosed => true | _ => false end.

Definition joined (pc : OwnerPc) : bool :=
  match pc with OwFlush | OwSync | OwClose | OwClosed => true | _ => false end.

Definition emptied (pc : OwnerPc) : bool :=
  match pc with OwSync | OwClose | OwClosed => true | _ => false end.

Record log_inv (file0 : option (list ascii)) (s : LogSystem) (queued : list LogEntry) : Prop := {
  li_repr : q_repr (lg_queue (ls_logger s)) queued;
  li_entries : ls_rendered s ++ in_hand (ls_drain s) ++ queued = accepted (ls_calls s);
  li_dropped : lg_dropped (ls_logger s) = u64 (refused (ls_calls s) - uncounted (ls_owner s));
  li_text : lf_text <$> lg_file (ls_logger s) =
    (fun t => t ++ concat (render_line <$> ls_rendered s)) <$> file0;
  li_synced : unsynced s = false -> lf_synced <$> lg_file (ls_logger s) = lf_text <$> lg_file (ls_logger s);
  li_running : lg_running (ls_logger s) = negb (closing (ls_owner s));
  li_exit : ls_drain s = DrExit -> closing (ls_owner s) = true;
  li_joined : joined (ls_owner s) = true -> ls_drain s = DrExit;
  li_emptied : emptied (ls_owner s) = true -> queued = [];
}.

(** Steps left once the destructor runs. *)
Definition drain_rank (pc : DrainPc) : nat :=
  match pc with
  | DrRender _ _ => 6 | DrPop _ => 5 | DrExchange _ => 4 | DrSync _ => 3 | DrSleep _ => 2 | DrTest => 1 | DrExit => 0
  end.

Definition owner_rank (pc : OwnerPc) : nat :=
  match pc with OwJoin => 4 | OwFlush => 3 | OwSync => 2 | OwClose => 1 | _ => 0 end.

Definition steps_left (s : LogSystem) (queued : nat) : nat :=
  2 * queued + drain_rank (ls_drain s) + owner_rank (ls_owner s).

Lemma render_text e file :
  lf_text <$> Render e file = (fun t => t ++ render_line e) <$> (lf_text <$> file).
Proof. by destruct file. Qed.

Lemma render_lines (file0 : option (list ascii)) es e :
  (fun t => t ++ render_line e) <$> ((fun t => t ++ concat (render_line <$> es)) <$> file0) =
  (fun t : list ascii => t ++ concat (render_line <$> (es ++ [e]))) <$> file0.
Proof. destruct file0; [|done]. cbn. rewrite fmap_app, concat_app, <- app_assoc. cbn. by rewrite app_nil_r. Qed.

Lemma fflush_text file : lf_text <$> fflush file = lf_text <$> file.
Proof. by destruct file. Qed.

Lemma fflush_synced file : lf_synced <$> fflush file = lf_text <$> fflush file.
Proof. by destruct file. Qed.

Lemma accepted_snoc calls e ok : accepted (calls ++ [(e, ok)]) = accepted calls ++ if ok then [e] else [].
Proof. unfold accepted. rewrite filter_app, fmap_app. by destruct ok. Qed.

Lemma refused_snoc calls e ok : refused (calls ++ [(e, ok)]) = refused calls + if ok then 0 else 1.
Proof. unfold refused. rewrite filter_app, length_app, Nat2Z.inj_add. by destruct ok. Qed.

Lemma log_new_inv q0 file0 owns : q_repr q0 [] -> log_inv file0 (LogSystem_new q0 file0 owns) [].
Proof.
  intros Hq. split; try done; destruct file0; try done. cbn. by rewrite app_nil_r.
Qed.

Lemma log_log_inv file0 s queued now level tag a0 a1 a2 a3 stale s' :
  log_inv file0 s queued -> log now level tag a0 a1 a2 a3 stale s = Some s' ->
  exists queued', log_inv file0 s' queued'.
Proof.
  intros [H1 H2 H3 H4 H5 H6 H7 H8 H9] Hs. unfold log in Hs.
  destruct (ls_owner s) eqn:Hpc; try done. set (e := make_entry _ _ _ _ _ _ _) in Hs.
  pose proof (q_push_spec _ _ e H1) as Hp.
  set (r := if stale then (lg_queue (ls_logger s), false) else q_push e (lg_queue (ls_logger s))) in Hs.
  assert (r = (lg_queue (ls_logger s), false) \/ (r.2 = true /\ q_repr r.1 (queued ++ [e]))) as [E|[E Hr]].
  { unfold r. destruct stale; [by left|]. case_decide; [right|left]; done. }
  - rewrite E in Hs. injection Hs as <-. exists queued. split; try done.
    + cbn [ls_rendered ls_drain ls_calls]. by rewrite H2, accepted_snoc, app_nil_r.
    + cbn [ls_logger ls_calls ls_owner with_queue with_log lg_dropped]. rewrite H3, refused_snoc. cbn [uncounted].
      f_equal. lia.
    + intros Hu. apply H5. unfold unsynced. by rewrite Hpc.
  - destruct r as [q ok]. cbn in E, Hr. subst ok. injection Hs as <-. exists (queued ++ [e]). split; try done.
    + cbn [ls_rendered ls_drain ls_calls]. by rewrite accepted_snoc, <- H2, <- !app_assoc.
    + cbn [ls_logger ls_calls ls_owner with_queue with_log lg_dropped]. rewrite H3, refused_snoc. cbn [uncounted].
      f_equal. lia.
    + intros Hu. apply H5. unfold unsynced. by rewrite Hpc.
Qed.

(** A step that leaves the calls alone keeps the invariant; once the destructor runs it is also
    progress. *)
Definition advances (file0 : option (list ascii)) (s : LogSystem) (queued : list LogEntry) (s' : LogSystem)
    : Prop :=
  exists queued', log_inv file0 s' queued' /\
    (closing (ls_owner s) = true ->
     closing (ls_owner s') = true /\ (steps_left s' (length queued') < steps_left s (length queued))%nat).

Lemma owner_step_advances file0 s queued s' :
  log_inv file0 s queued -> owner_step s = Some s' -> advances file0 s queued s'.
Proof.
  intros [H1 H2 H3 H4 H5 H6 H7 H8 H9] Hs. unfold owner_step in Hs. cbv zeta in Hs. unfold unsynced in H5. unfold advances.
  destruct (ls_owner s) eqn:Hpc; try done.
  - injection Hs as <-. exists queued. split; [|done]. destruct (bool_decide _); by split.
  - injection Hs as <-. exists queued. split; [|done]. split; try done.
    cbn. rewrite H3, wrap_u_add_l by lia. f_equal. cbn [uncounted owner_at ls_calls ls_owner]. lia.
  - case_bool_decide as Hd; [|done]. injection Hs as <-. exists queued. split; [by split|].
    intros _. split; [done|]. unfold steps_left. rewrite Hpc. cbn. lia.
  - specialize (H8 eq_refl). pose proof (q_pop_spec _ _ H1) as Hp. destruct queued as [|e queued].
    + rewrite Hp in Hs. injection Hs as <-. exists []. split; [by split|]. intros _. split; [done|].
      unfold steps_left. rewrite Hpc. cbn. lia.
    + destruct (q_pop _) as [q o]. cbn in Hp. destruct Hp as [-> Hr]. injection Hs as <-. exists queued.
      split; [split; try done|intros _; split; [done|]].
      * cbn [ls_rendered rendering owner_at ls_drain ls_calls]. rewrite <- H2, H8. by rewrite <- app_assoc.
      * cbn [ls_logger rendering owner_at with_file with_log lg_file ls_rendered].
        by rewrite render_text, H4, render_lines.
      * unfold steps_left. rewrite Hpc. cbn. lia.
  - injection Hs as <-. exists queued. split; [split; try done|intros _; split; [done|]].
    + cbn. by rewrite fflush_text.
    + intros _. cbn. apply fflush_synced.
    + unfold steps_left. rewrite Hpc. cbn. lia.
  - injection Hs as <-. exists queued. split; [split; try done|intros _; split; [done|]].
    + by destruct (lg_owns_file _).
    + by destruct (lg_owns_file _).
    + cbn [ls_logger ls_rendered owner_at]. destruct (lg_owns_file _); [|done].
      cbn [with_file with_log lg_file]. by rewrite fflush_text.
    + intros Hu. cbn [ls_logger owner_at]. destruct (lg_owns_file _); [apply fflush_synced|by apply H5].
    + by destruct (lg_owns_file _).
    + unfold steps_left. rewrite Hpc. cbn. lia.
Qed.

(** A step of the drain thread to [pc], the owner not past its join. *)
Lemma drain_inv file0 s queued lg pc rendered queued' :
  log_inv file0 s queued -> joined (ls_owner s) = false ->
  q_repr (lg_queue lg) queued' -> rendered ++ in_hand pc ++ queued' = accepted (ls_calls s) ->
  lg_dropped lg = lg_dropped (ls_logger s) -> lg_running lg = lg_running (ls_logger s) ->
  lf_text <$> lg_file lg = (fun t => t ++ concat (render_line <$> rendered)) <$> file0 ->
  (dirty pc = false -> lf_synced <$> lg_file lg = lf_text <$> lg_file lg) ->
  (pc = DrExit -> lg_running lg = false) ->
  log_inv file0 {| ls_logger := lg; ls_owner := ls_owner s; ls_drain := pc; ls_calls := ls_calls s;
                   ls_rendered := rendered |} queued'.
Proof.
  intros [H1 H2 H3 H4 H5 H6 H7 H8 H9] Hj Hr He Hd Hrun Ht Hs Hx. split; cbn; try done; try congruence.
  - unfold unsynced. cbn. by destruct (ls_owner s).
  - intros E. apply Hx in E. rewrite Hrun, H6 in E. by destruct (closing _).
  - by destruct (ls_owner s).
Qed.

Lemma drain_step_advances file0 s queued stale s' :
  log_inv file0 s queued -> drain_step stale s = Some s' -> advances file0 s queued s'.
Proof.
  intros Hinv Hs. pose proof Hinv as [H1 H2 H3 H4 H5 H6 H7 H8 H9].
  assert (joined (ls_owner s) = false) as Hj.
  { apply not_true_is_false. intros Hd%H8. unfold drain_step in Hs. by rewrite Hd in Hs. }
  assert (dirty (ls_drain s) = false -> lf_synced <$> lg_file (ls_logger s) = lf_text <$> lg_file (ls_logger s)) as H5'.
  { intros Hd. apply H5. unfold unsynced. by destruct (ls_owner s). }
  unfold drain_step in Hs. cbv zeta in Hs. unfold advances, steps_left.
  destruct (ls_drain s) as [|any|e any|any|any|any|] eqn:Hpc; try done.
  - injection Hs as <-. exists queued. split; [|intros Hc; split; [exact Hc|]].
    + apply (drain_inv file0 s queued); try done; by destruct (lg_running _).
    + rewrite H6, Hc. cbn. lia.
  - assert (q_pop (lg_queue (ls_logger s)) = (lg_queue (ls_logger s), None) \/
      exists q e rest, queued = e :: rest /\ q_pop (lg_queue (ls_logger s)) = (q, Some e) /\ q_repr q rest)
      as Hpop.
    { pose proof (q_pop_spec _ _ H1) as Hp. destruct queued as [|e rest]; [by left|right].
      destruct (q_pop _) as [q o]. cbn in Hp. destruct Hp as [-> Hp]. eauto 6. }
    assert (s' = drain_at (ls_logger s) (DrExchange any) s \/ exists q e rest, queued = e :: rest /\
      q_repr q rest /\ s' = drain_at (with_queue q (ls_logger s)) (DrRender e any) s)
      as [->|(q & e & rest & -> & Hr & ->)].
    { destruct stale; [by simplify_eq; left|].
      destruct Hpop as [E|(q & e & rest & ? & E & ?)]; rewrite E in Hs; simplify_eq; [by left|right; eauto 6]. }
    + exists queued. split; [by apply (drain_inv file0 s queued)|]. intros Hc. split; [exact Hc|cbn; lia].
    + exists rest. split; [by apply (drain_inv file0 s (e :: rest))|]. intros Hc. split; [exact Hc|cbn; lia].
  - injection Hs as <-. exists queued. split; [|intros Hc; split; [exact Hc|cbn; lia]].
    apply (drain_inv file0 s queued); try done.
    + cbn [in_hand drain_at ls_rendered]. rewrite <- H2. by rewrite <- app_assoc.
    + cbn [ls_logger with_file with_log lg_file ls_rendered drain_at]. by rewrite render_text, H4, render_lines.
  - injection Hs as <-. exists queued. split; [|intros Hc; split; [exact Hc|destruct (_ || _); cbn; lia]].
    destruct (lg_flush_request _), any; by apply (drain_inv file0 s queued).
  - injection Hs as <-. exists queued. split; [|intros Hc; split; [exact Hc|cbn; lia]].
    apply (drain_inv file0 s queued); try done.
    + cbn [with_file with_log lg_file ls_rendered]. by rewrite fflush_text.
    + intros _. apply fflush_synced.
  - injection Hs as <-. exists queued. split; [by apply (drain_inv file0 s queued)|].
    intros Hc. split; [exact Hc|cbn; lia].
Qed.

Lemma log_event_inv file0 ev s queued s' :
  log_inv file0 s queued -> log_event ev s = Some s' -> exists queued', log_inv file0 s' queued'.
Proof.
  intros Hinv Hs. destruct ev as [now level tag a0 a1 a2 a3 stale| | |stale]; cbn [log_event] in Hs.
  - by eapply log_log_inv.
  - destruct Hinv as [H1 H2 H3 H4 H5 H6 H7 H8 H9]. unfold shutdown in Hs. unfold unsynced in H5.
    destruct (ls_owner s) eqn:Hpc; try done. injection Hs as <-. exists queued. by split.
  - destruct (owner_step_advances _ _ _ _ Hinv Hs) as (queued' & H & _). eauto.
  - destruct (drain_step_advances _ _ _ _ _ Hinv Hs) as (queued' & H & _). eauto.
Qed.

Lemma log_schedule_inv file0 evs : forall s queued s',
  log_inv file0 s queued -> log_schedule evs s = Some s' -> exists queued', log_inv file0 s' queued'.
Proof.
  induction evs as [|ev evs IH]; intros s queued s' Hinv Hs; [simplify_eq/=; eauto|]. cbn [log_schedule] in Hs.
  destruct (log_event ev s) as [s1|] eqn:E; [|done].
  destruct (log_event_inv _ _ _ _ _ Hinv E) as [queued1 Hinv1]. eauto.
Qed.

(** Once the destructor runs, every step of either thread is progress. *)
Lemma closing_event file0 ev s queued s' :
  log_inv file0 s queued -> closing (ls_owner s) = true -> log_event ev s = Some s' -> advances file0 s queued s'.
Proof.
  intros Hinv Hc Hs. destruct ev; cbn [log_event] in Hs.
  - unfold log in Hs. by destruct (ls_owner s).
  - unfold shutdown in Hs. by destruct (ls_owner s).
  - by apply owner_step_advances.
  - by eapply drain_step_advances.
Qed.

Lemma closing_bounded file0 evs : forall s queued s',
  log_inv file0 s queued -> closing (ls_owner s) = true -> log_schedule evs s = Some s' ->
  (length evs <= steps_left s (length queued))%nat.
Proof.
  induction evs as [|ev evs IH]; intros s queued s' Hinv Hc Hs; [cbn; lia|]. cbn [log_schedule] in Hs.
  destruct (log_event ev s) as [s1|] eqn:E; [|done].
  destruct (closing_event _ _ _ _ _ Hinv Hc E) as (queued1 & Hinv1 & Hadv). destruct (Hadv Hc) as [Hc1 Hlt].
  specialize (IH s1 queued1 s' Hinv1 Hc1 Hs). cbn [length]. lia.
Qed.

Lemma closing_enabled s :
  closing (ls_owner s) = true -> ls_owner s <> OwClosed -> exists ev, is_Some (log_event ev s).
Proof.
  intros Hc Hne. destruct (decide (ls_drain s = DrExit)) as [Hd|Hd].
  - exists LogOwner. cbn [log_event]. unfold owner_step. destruct (ls_owner s); try done.
    + by rewrite bool_decide_true.
    + by destruct (q_pop _) as [q [e|]].
  - exists (LogDrain true). cbn [log_event]. unfold drain_step. by destruct (ls_drain s).
Qed.

(** C35.  The logger loses nothing silently, under every interleaving of the thread that logs and
    the drain thread.  At any moment the entries rendered, the one the drain thread holds and those
    queued are, in order, exactly the entries whose call of [log] returns true; the
    dropped counter is the number of the other calls (modulo 2^64), but for the one that is about to
    be counted; the file holds exactly the lines of the rendered entries; and whenever no thread
    is between a rendering and its [fflush] (so always when the drain thread sleeps or
    reads [running_]), all of it is flushed.  Once the destructor runs it ends: both threads
    together take at most [2 * queued + 10] more steps and until then one of them can move;
    when it has ended, every accepted entry is rendered and flushed. *)
Theorem logger_conserves_entries q0 file0 owns evs s :
  q_repr q0 [] -> log_schedule evs (LogSystem_new q0 file0 owns) = Some s ->
  let synced := lf_synced <$> lg_file (ls_logger s) = lf_text <$> lg_file (ls_logger s) in
  exists queued, q_repr (lg_queue (ls_logger s)) queued /\
    ls_rendered s ++ in_hand (ls_drain s) ++ queued = accepted (ls_calls s) /\
    lg_dropped (ls_logger s) = u64 (refused (ls_calls s) - uncounted (ls_owner s)) /\
    lf_text <$> lg_file (ls_logger s) =
      (fun t => t ++ concat (render_line <$> ls_rendered s)) <$> file0 /\
    (unsynced s = false -> synced) /\
    (closing (ls_owner s) = true ->
      (forall evs' s', log_schedule evs' s = Some s' -> (length evs' <= 2 * length queued + 10)%nat) /\
      (ls_owner s <> OwClosed -> exists ev, is_Some (log_event ev s))) /\
    (ls_owner s = OwClosed -> ls_rendered s = accepted (ls_calls s) /\ synced).
Proof.
  intros Hq Hs. cbv zeta. destruct (log_schedule_inv _ _ _ _ _ (log_new_inv q0 file0 owns Hq) Hs) as [queued Hinv].
  pose proof Hinv as [H1 H2 H3 H4 H5 H6 H7 H8 H9]. exists queued. split_and!; try done.
  - intros Hc. split; [|by apply closing_enabled]. intros evs' s' Hs'.
    pose proof (closing_bounded _ _ _ _ _ Hinv Hc Hs') as Hb. unfold steps_left in Hb.
    assert (drain_rank (ls_drain s) <= 6)%nat by (destruct (ls_drain s); cbn; lia).
    assert (owner_rank (ls_owner s) <= 4)%nat by (destruct (ls_owner s); cbn; lia). lia.
  - intros Hpc. unfold unsynced in H5. rewrite Hpc in *. specialize (H8 eq_refl). specialize (H9 eq_refl).
    subst queued. rewrite H8 in H2, H5. rewrite <- H2. split; [by rewrite app_nil_r|by apply H5].
Qed.
End Logger.
Arguments AsyncLogger Q : clear implicits.
Arguments LogSystem Q : clear implicits.

(** ** A concrete run: a queue of two *)

Definition log_slot : LogEntry := make_entry 0 kDebug [] 0 0 0 0.
#[global] Instance LogEntry_inhabited : Inhabited LogEntry := populate log_slot.

Lemma log_capacity_fits : (1 <= 63)%nat.
Proof. lia. Qed.

Definition log_queue : RingBuffer (T := LogEntry) := ring_new (replicate 2 log_slot).
Definition log_start : LogSystem (RingBuffer (T := LogEntry)) := LogSystem_new log_queue (Some []) true.
Abbreviation run_log := (log_schedule (BQ := ring_queue 1 log_capacity_fits)).

(** An entry is popped, a CRITICAL one queued behind it, a third refused; then the destructor. *)
Definition log_evs : list LogEvent :=
  [LogDrain false; LogCall 1 kInfo (lit "start") 1 2 3 4 false; LogOwner; LogDrain false;
   LogCall 2 kCritical (lit "kill switch") 0 0 0 0 false; LogOwner; LogDrain false;
   LogCall 3 kWarn (lit "gap") 7 0 0 0 true; LogOwner; LogShutdown; LogDrain true] ++
  replicate 4 (LogDrain false) ++ replicate 5 LogOwner.

Lemma logger_conserves_entries_witness :
  exists s, run_log log_evs log_start = Some s /\ ls_owner s = OwClosed /\
    length (ls_rendered s) = 2%nat /\ lg_dropped (ls_logger s) = 1 /\
    ls_rendered s = accepted (ls_calls s) /\
    lf_synced <$> lg_file (ls_logger s) = lf_text <$> lg_file (ls_logger s).
Proof.
  assert (exists s, run_log log_evs log_start = Some s /\ ls_owner s = OwClosed /\
    length (ls_rendered s) = 2%nat /\ lg_dropped (ls_logger s) = 1) as (s & H1 & H2 & H3 & H4).
  { eexists. split; [vm_compute; reflexivity|]. repeat split. }
  exists s. split; [exact H1|]. split; [exact H2|]. split; [exact H3|]. split; [exact H4|].
  destruct (logger_conserves_entries (BQ := ring_queue 1 log_capacity_fits) log_queue (Some []) true log_evs s)
    as (queued & _ & _ & _ & _ & _ & _ & Hend).
  - apply (ring_new_repr 1); first [exact log_capacity_fits|reflexivity].
  - exact H1.
  - exact (Hend H2).
Defined.

(** A CRITICAL request can be taken by a flush that misses its entry: the drain thread finds the
    queue empty, the entry and the request arrive, the exchange takes the request, the flush covers
    nothing, and the thread sleeps with the entry still queued and no request left. *)
Definition missed_evs : list LogEvent :=
  [LogDrain false; LogDrain false; LogCall 1 kCritical (lit "kill switch") 0 0 0 0 false; LogOwner;
   LogDrain false; LogDrain false].

Lemma critical_request_missed :
  exists s, run_log missed_evs log_start = Some s /\ ls_owner s = OwIdle /\ ls_drain s = DrSleep false /\
    lg_flush_request (ls_logger s) = false /\ ls_rendered s = [] /\
    accepted (ls_calls s) = [make_entry 1 kCritical (lit "kill switch") 0 0 0 0].
Proof. eexists. split; [vm_compute; reflexivity|]. repeat split. Qed.
