(* ===== verification/SymbolCsv.v ===== *)
(** * SymbolCsv: loading the symbol master (src/session/symbol_master.cpp)

    A file is its text.  [std::getline] yields the pieces between separators, a
    last empty one excepted; the number readers are those of [Text].  A string
    that reaches a fixed [char] array is cut to the array's size and is read up to
    its terminator. *)

From Stdlib Require Import ZArith Lia Ascii String.
From stdpp Require Import base gmap numbers option strings list.
From S2P Require Import Prelude Types Text SymbolMaster.

Local Open Scope Z_scope.

Definition ParseInstrumentType (s : list ascii) : InstrumentType :=
  if bool_decide (s = lit "EQ") || bool_decide (s = lit "equity") then kEquity
  else if bool_decide (s = lit "FUTIDX") then kFutIdx
  else if bool_decide (s = lit "FUTSTK") then kFutStk
  else if bool_decide (s = lit "OPTIDX") then kOptIdx
  else if bool_decide (s = lit "OPTSTK") then kOptStk
  else kUnknown.

Definition ParseOptionType (s : list ascii) : OptionType :=
  if bool_decide (s = lit "CE") then kCall else if bool_decide (s = lit "PE") then kPut else kNone.

Definition nul : ascii := "000"%char.
Definition comma : ascii := ","%char.
Definition newline : ascii := "010"%char.

(** The characters before the terminator. *)
Fixpoint c_str (s : list ascii) : list ascii :=
  match s with [] => [] | c :: s => if bool_decide (c = nul) then [] else c :: c_str s end.

Definition CopyFixed (cap : nat) (src : list ascii) : string :=
  string_of_list_ascii (c_str (take (Nat.min (length src) (cap - 1)) src)).

(** The successive results of [std::getline]. *)
Definition getlines (sep : ascii) (s : list ascii) : list (list ascii) :=
  let pieces := split_on sep s in
  match last pieces with Some [] => removelast pieces | _ => pieces end.

Definition col (cols : list (list ascii)) (i : nat) : list ascii := default [] (cols !! i).

Definition instrument_of (cols : list (list ascii)) : Instrument :=
  let lot := i32 (strtoll (col cols 8)) in
  {| in_token := u32 (strtoul (col cols 0)); in_segment := u8 (strtoul (col cols 4));
     in_instrument_type := ParseInstrumentType (col cols 3);
     in_option_type := ParseOptionType (col cols 7);
     in_lot_size := if lot <=? 0 then 1 else lot; in_tick_size := strtoll (col cols 9);
     in_strike_price := strtoll (col cols 6); in_prev_close := strtoll (col cols 10);
     in_circuit_pct_x100 := u16 (strtoul (col cols 11));
     in_expiry_yyyymmdd := u32 (strtoul (col cols 5)); in_active := in_active default_instrument;
     in_symbol := CopyFixed 16 (col cols 1); in_series := CopyFixed 4 (col cols 2) |}.

(** The body of the line loop, once the header is behind. *)
Definition load_row (line : list ascii) (acc : SymbolMaster * Z) : SymbolMaster * Z :=
  let cols := getlines comma line in
  if (length cols <? 12)%nat then acc else (put (instrument_of cols) acc.1, acc.2 + 1).

Fixpoint load_lines (header : bool) (lines : list (list ascii)) (acc : SymbolMaster * Z)
    : SymbolMaster * Z :=
  match lines with
  | [] => acc
  | [] :: lines => load_lines header lines acc
  | line :: lines => if header then load_lines false lines acc else load_lines false lines (load_row line acc)
  end.

Definition deactivate (i : Instrument) : Instrument :=
  {| in_token := in_token i; in_segment := in_segment i;
     in_instrument_type := in_instrument_type i; in_option_type := in_option_type i;
     in_lot_size := in_lot_size i; in_tick_size := in_tick_size i;
     in_strike_price := in_strike_price i; in_prev_close := in_prev_close i;
     in_circuit_pct_x100 := in_circuit_pct_x100 i; in_expiry_yyyymmdd := in_expiry_yyyymmdd i;
     in_active := false; in_symbol := in_symbol i; in_series := in_series i |}.

Definition reset_table (sm : SymbolMaster) : SymbolMaster :=
  {| sm_table := deactivate <$> sm_table sm; sm_count := 0 |}.

(** [file] is the content of the path, [None] when it cannot be opened. *)
Definition load_csv (file : option (list ascii)) (sm : SymbolMaster) : SymbolMaster * Z :=
  match file with
  | None => (sm, -1)
  | Some text => load_lines true (getlines newline text) (reset_table sm, 0)
  end.

(** The first active row, in token order. *)
Definition get_token (symbol series : string) (sm : SymbolMaster) : Token :=
  default 0 (in_token <$> head (filter (fun i => in_active i = true /\ symbol = in_symbol i /\ series = in_series i)
    ((fun t => row sm t) <$> seqZ 0 kSymbolTableSize))).

(** ** symbol_master_loader (tools/symbol_master_loader.cpp)

    [file] is what [argv[1]] holds; the result is the exit code and the standard
    output. *)

Definition symbol_line (sm : SymbolMaster) (token : Token) : list ascii :=
  match get sm token with
  | None => lit "  token " ++ dec token ++ lit ": not found" ++ [newline]
  | Some inst =>
      lit "  token " ++ dec token ++ lit ": " ++ lit (in_symbol inst) ++ lit "/" ++ lit (in_series inst) ++
      lit " lot=" ++ dec (in_lot_size inst) ++ lit " tick=" ++ dec (in_tick_size inst) ++
      lit " prev_close=" ++ dec (in_prev_close inst) ++
      lit " circuit=" ++ dec (Z.quot (in_circuit_pct_x100 inst) 100) ++ lit "%" ++
      (if is_index_derivative sm token then lit " [index-deriv]" else []) ++ [newline]
  end.

Definition symbol_master_loader (argv : list (list ascii)) (file : option (list ascii)) : Z * list ascii :=
  if (length argv <? 2)%nat then (2, [])
  else
    let '(sm, rows) := load_csv file SymbolMaster_new in
    if rows <? 0 then (1, [])
    else
      (0, lit "symbol_master: loaded " ++ dec rows ++ lit " rows (" ++ dec (sm_count sm) ++ lit " active)" ++
          [newline] ++
          match argv !! 2%nat with Some s => symbol_line sm (u32 (strtoul s)) | None => [] end).

(** ** Writing rows, and reading them back *)

Definition instrument_type_text (t : InstrumentType) : list ascii :=
  lit match t with
      | kUnknown => "" | kEquity => "EQ" | kFutIdx => "FUTIDX" | kFutStk => "FUTSTK"
      | kOptIdx => "OPTIDX" | kOptStk => "OPTSTK"
      end.
Definition option_type_text (t : OptionType) : list ascii :=
  lit match t with kNone => "" | kCall => "CE" | kPut => "PE" end.

Definition csv_fields (i : Instrument) : list (list ascii) :=
  [dec (in_token i); lit (in_symbol i); lit (in_series i); instrument_type_text (in_instrument_type i);
   dec (in_segment i); dec (in_expiry_yyyymmdd i); dec (in_strike_price i);
   option_type_text (in_option_type i); dec (in_lot_size i); dec (in_tick_size i); dec (in_prev_close i);
   dec (in_circuit_pct_x100 i)].

Fixpoint join (sep : ascii) (fields : list (list ascii)) : list ascii :=
  match fields with [] => [] | [f] => f | f :: fields => f ++ sep :: join sep fields end.

Definition csv_line (i : Instrument) : list ascii := join comma (csv_fields i).

Definition csv_file (header : list ascii) (insts : list Instrument) : list ascii :=
  header ++ newline :: concat ((fun i => csv_line i ++ [newline]) <$> insts).

(** What a row can carry. *)
Record csv_ok (i : Instrument) : Prop := {
  co_token : in_u 32 (in_token i);
  co_segment : in_u 8 (in_segment i);
  co_lot : 0 < in_lot_size i < 2 ^ 31;
  co_prices : in_s 64 (in_tick_size i) /\ in_s 64 (in_strike_price i) /\ in_s 64 (in_prev_close i);
  co_circuit : in_u 16 (in_circuit_pct_x100 i);
  co_expiry : in_u 32 (in_expiry_yyyymmdd i);
  co_names : Forall (fun c => c <> nul /\ c <> comma /\ c <> newline)
               (lit (in_symbol i) ++ lit (in_series i));
  co_sizes : (String.length (in_symbol i) <= 15 /\ String.length (in_series i) <= 3)%nat;
}.

Lemma split_on_join sep fields :
  fields <> [] -> Forall (fun f => sep ∉ f) fields -> split_on sep (join sep fields) = fields.
Proof.
  intros Hne Hall. induction Hall as [|f fields Hf Hall IH]; [done|].
  destruct fields as [|g fields]; [by apply split_on_none|].
  change (join sep (f :: g :: fields)) with (f ++ sep :: join sep (g :: fields)).
  rewrite split_on_app by done. by rewrite IH.
Qed.

Lemma getlines_join sep fields f :
  last fields = Some f -> f <> [] -> Forall (fun g => sep ∉ g) fields ->
  getlines sep (join sep fields) = fields.
Proof.
  intros Hl Hf Hall. unfold getlines. rewrite split_on_join; [|by intros ->|done].
  rewrite Hl. by destruct f.
Qed.

Lemma getlines_lines sep (lines : list (list ascii)) :
  Forall (fun l => sep ∉ l) lines -> getlines sep (concat ((fun l => l ++ [sep]) <$> lines)) = lines.
Proof.
  intros Hall. unfold getlines. rewrite split_on_lines.
  - rewrite list_fmap_id, last_snoc. apply removelast_last.
  - intros l Hl. rewrite Forall_forall in Hall. by apply Hall.
Qed.

Lemma csv_fields_chars i sep :
  csv_ok i -> sep = comma \/ sep = newline -> Forall (fun f => sep ∉ f) (csv_fields i).
Proof.
  intros Hi Hsep. assert (is_digit sep = false /\ sep <> "-"%char) as [Hd Hm]
    by (destruct Hsep as [-> | ->]; split; [done|discriminate|done|discriminate]).
  pose proof (fun n => dec_no_sep n sep Hd Hm) as Hdec.
  pose proof (co_names _ Hi) as Hn. apply Forall_app in Hn as [Hs1 Hs2].
  assert (forall s, Forall (fun c => c <> nul /\ c <> comma /\ c <> newline) s -> sep ∉ s) as Hname.
  { intros s Hs Hin. rewrite Forall_forall in Hs. destruct (Hs _ Hin) as (_ & H1 & H2).
    by destruct Hsep as [-> | ->]. }
  assert (sep ∉ instrument_type_text (in_instrument_type i) /\ sep ∉ option_type_text (in_option_type i)) as [Ht Ho].
  { split; [destruct (in_instrument_type i)|destruct (in_option_type i)]; destruct Hsep as [-> | ->];
      apply (bool_decide_unpack _); vm_compute; exact I. }
  unfold csv_fields. repeat (apply Forall_cons_2; [auto|]). apply Forall_nil_2.
Qed.

Lemma join_no_sep sep s fields : s <> sep -> Forall (fun f => s ∉ f) fields -> s ∉ join sep fields.
Proof.
  intros Hne Hall. induction Hall as [|f fields Hf Hall IH]; [set_solver|].
  destruct fields as [|g fields]; [done|].
  change (join sep (f :: g :: fields)) with (f ++ sep :: join sep (g :: fields)).
  rewrite not_elem_of_app, not_elem_of_cons. done.
Qed.

Lemma c_str_id s : Forall (fun c => c <> nul) s -> c_str s = s.
Proof. induction 1 as [|c s Hc _ IH]; [done|]. cbn. rewrite bool_decide_false by done. by rewrite IH. Qed.

Lemma lit_length s : length (lit s) = String.length s.
Proof. unfold lit. induction s as [|c s IH]; cbn; [done|]. by rewrite IH. Qed.

Lemma CopyFixed_id cap s :
  (String.length s <= cap - 1)%nat -> Forall (fun c => c <> nul) (lit s) -> CopyFixed cap (lit s) = s.
Proof.
  intros Hl Hs. unfold CopyFixed. rewrite take_ge by (rewrite lit_length; lia).
  rewrite c_str_id by done. apply string_of_list_ascii_of_string.
Qed.

Lemma types_read_back i :
  ParseInstrumentType (instrument_type_text (in_instrument_type i)) = in_instrument_type i /\
  ParseOptionType (option_type_text (in_option_type i)) = in_option_type i.
Proof. split; [by destruct (in_instrument_type i)|by destruct (in_option_type i)]. Qed.

(** A written row is read back as the same instrument. *)
Lemma instrument_of_fields i : csv_ok i -> activate (instrument_of (csv_fields i)) = activate i.
Proof.
  intros [H1 H2 H3 (H4 & H5 & H6) H7 H8 Hn [Hs1 Hs2]]. apply Forall_app in Hn as [Hn1 Hn2].
  destruct (types_read_back i) as [Et Eo].
  assert (forall n, 0 <= n < 2 ^ 64 -> strtoul (dec n) = n) as Hul.
  { intros n Hr. rewrite <- (app_nil_r (dec n)). by apply strtoul_dec. }
  assert (forall n, in_s 64 n -> strtoll (dec n) = n) as Hll.
  { intros n Hr. rewrite <- (app_nil_r (dec n)). by apply strtoll_dec. }
  unfold instrument_of, activate.
  change (col (csv_fields i) 0) with (dec (in_token i)). change (col (csv_fields i) 1) with (lit (in_symbol i)).
  change (col (csv_fields i) 2) with (lit (in_series i)).
  change (col (csv_fields i) 3) with (instrument_type_text (in_instrument_type i)).
  change (col (csv_fields i) 4) with (dec (in_segment i)). change (col (csv_fields i) 5) with (dec (in_expiry_yyyymmdd i)).
  change (col (csv_fields i) 6) with (dec (in_strike_price i)).
  change (col (csv_fields i) 7) with (option_type_text (in_option_type i)).
  change (col (csv_fields i) 8) with (dec (in_lot_size i)). change (col (csv_fields i) 9) with (dec (in_tick_size i)).
  change (col (csv_fields i) 10) with (dec (in_prev_close i)).
  change (col (csv_fields i) 11) with (dec (in_circuit_pct_x100 i)).
  cbn [in_token in_segment in_instrument_type in_option_type in_lot_size in_tick_size in_strike_price
       in_prev_close in_circuit_pct_x100 in_expiry_yyyymmdd in_symbol in_series].
  rewrite !Hul by ranges. rewrite !Hll by ranges. rewrite Et, Eo, !wrap_u_id by done.
  rewrite wrap_s_id by ranges. rewrite (proj2 (Z.leb_gt _ _)) by lia.
  rewrite !CopyFixed_id; [done| | | |]; try lia; (eapply Forall_impl; [eassumption|]; naive_solver).
Qed.

Lemma put_activate i j sm : activate i = activate j -> put i sm = put j sm.
Proof.
  intros H. assert (in_token i = in_token j) as E by (apply (f_equal in_token) in H; exact H).
  unfold put. by rewrite E, H.
Qed.

Lemma load_row_csv i acc : csv_ok i -> load_row (csv_line i) acc = (put i acc.1, acc.2 + 1).
Proof.
  intros Hi. unfold load_row, csv_line.
  rewrite (getlines_join comma (csv_fields i) (dec (in_circuit_pct_x100 i)));
    [|done|apply dec_nonempty|by apply csv_fields_chars; [|left]].
  change (length (csv_fields i) <? 12)%nat with false. cbv iota. f_equal.
  by apply put_activate, instrument_of_fields.
Qed.

Lemma load_lines_csv insts : forall acc,
  Forall csv_ok insts ->
  load_lines false (csv_line <$> insts) acc =
    (foldl (fun sm i => put i sm) acc.1 insts, acc.2 + Z.of_nat (length insts)).
Proof.
  induction insts as [|i insts IH]; intros acc Hall; cbn [fmap list_fmap load_lines foldl length].
  { destruct acc. cbn. f_equal. lia. }
  apply Forall_cons_1 in Hall as [Hi Hall].
  assert (exists c l, csv_line i = c :: l) as (c & l & E).
  { unfold csv_line, csv_fields. pose proof (dec_nonempty (in_token i)).
    destruct (dec (in_token i)) as [|c l]; [done|]. by eexists _, _. }
  rewrite E. cbn iota. rewrite <- E, load_row_csv, IH by done. cbn [fst snd]. f_equal. lia.
Qed.

Lemma load_csv_file header insts sm :
  header <> [] -> newline ∉ header -> Forall csv_ok insts ->
  load_csv (Some (csv_file header insts)) sm =
    (foldl (fun sm i => put i sm) (reset_table sm) insts, Z.of_nat (length insts)).
Proof.
  intros Hne Hh Hall. unfold load_csv.
  assert (csv_file header insts = concat ((fun l => l ++ [newline]) <$> (header :: (csv_line <$> insts)))) as ->.
  { unfold csv_file. cbn. rewrite <- app_assoc. cbn. by rewrite <- list_fmap_compose. }
  rewrite getlines_lines.
  - cbn [load_lines]. destruct header as [|c header]; [done|]. by rewrite load_lines_csv.
  - constructor; [done|]. apply Forall_fmap. eapply Forall_impl; [exact Hall|]. intros i Hi.
    unfold compose, csv_line. apply join_no_sep; [done|]. by apply csv_fields_chars; [|right].
Qed.

(** ** What the table holds afterwards *)

Lemma reset_table_empty sm : (forall token, get (reset_table sm) token = None) /\ sm_count (reset_table sm) = 0.
Proof.
  split; [|done]. intros token. unfold get, row. cbn [sm_table reset_table]. rewrite lookup_fmap.
  destruct (sm_table sm !! token); cbn; by rewrite orb_true_r.
Qed.

(** The last row of a file for a token. *)
Definition last_row (token : Token) (insts : list Instrument) : option Instrument :=
  last (filter (fun i => in_token i = token) insts).

(** The tokens of a file that fit the table. *)
Definition table_tokens (insts : list Instrument) : gset Z :=
  list_to_set (filter (fun t => t < kSymbolTableSize) (in_token <$> insts)).

Lemma puts_map_snoc insts i :
  puts_map (insts ++ [i]) =
    if in_token i <? kSymbolTableSize then <[in_token i := activate i]> (puts_map insts) else puts_map insts.
Proof. unfold puts_map. by rewrite foldl_app. Qed.

Lemma puts_map_lookup insts token :
  puts_map insts !! token = if token <? kSymbolTableSize then activate <$> last_row token insts else None.
Proof.
  induction insts as [|i insts IH] using rev_ind.
  { unfold last_row. cbn. rewrite lookup_empty. by case_if. }
  rewrite puts_map_snoc. unfold last_row in *. rewrite list.filter_app, filter_cons, filter_nil.
  destruct (decide (in_token i = token)) as [<-|Hne].
  - rewrite last_snoc. destruct (in_token i <? kSymbolTableSize) eqn:E; [by rewrite lookup_insert_eq|].
    by rewrite IH.
  - rewrite app_nil_r. case_if; [by rewrite lookup_insert_ne|done].
Qed.

Lemma puts_map_size insts : size (puts_map insts) = size (table_tokens insts).
Proof.
  rewrite <- size_dom. f_equal. apply set_eq. intros t. rewrite elem_of_dom. unfold table_tokens.
  rewrite elem_of_list_to_set, list_elem_of_filter, list_elem_of_fmap.
  induction insts as [|i insts IH] using rev_ind.
  { cbn. rewrite lookup_empty. split; [by intros []|]. intros (_ & i & _ & Hi). by apply not_elem_of_nil in Hi. }
  rewrite puts_map_snoc. setoid_rewrite elem_of_app. setoid_rewrite list_elem_of_singleton.
  destruct (in_token i <? kSymbolTableSize) eqn:E; bool_arith.
  - rewrite lookup_insert_is_Some'. rewrite IH. naive_solver.
  - rewrite IH. split; [naive_solver|]. intros (? & j & -> & [?| ->]); [naive_solver|lia].
Qed.

(** [j] is an active row with the contents of the instrument [i]. *)
Definition reads_back (j i : Instrument) : Prop := in_active j = true /\ csv_fields j = csv_fields i.

(** C36.  The symbol master reads back what a CSV export holds.  For any instruments
    whose fields fit the row, written one per line after a header line, and whatever the
    table held before, [load_csv] returns the number of rows; afterwards the table has
    exactly one active row for each token below 65536 of the file, with the twelve columns of
    the last line for that token, and none for any other token, those the table held
    before and those from 65536 on included; the count is the number of those tokens.  A
    path that cannot be opened changes nothing and returns -1. *)
Theorem csv_roundtrip header insts sm :
  header <> [] -> newline ∉ header -> Forall csv_ok insts ->
  let '(sm', rows) := load_csv (Some (csv_file header insts)) sm in
  rows = Z.of_nat (length insts) /\
  (forall token, option_Forall2 reads_back (get sm' token)
     (if token <? kSymbolTableSize then last_row token insts else None)) /\
  sm_count sm' = Z.of_nat (size (table_tokens insts)) /\
  load_csv None sm = (sm, -1).
Proof.
  intros Hne Hh Hall. rewrite load_csv_file by done.
  destruct (reset_table_empty sm) as [Hn Hz]. destruct (puts_from_empty insts (reset_table sm) Hn Hz) as [Hg Hc].
  split_and!; [done| |by rewrite Hc, puts_map_size|done]. intros token. rewrite Hg, puts_map_lookup.
  case_if; [|constructor]. destruct (last_row token insts); constructor. done.
Qed.

(** Rows with fewer than twelve columns are skipped. *)
Lemma malformed_rows_skipped line acc :
  (length (getlines comma line) < 12)%nat -> load_row line acc = acc.
Proof. intros H. unfold load_row. by rewrite (proj2 (Nat.ltb_lt _ _)). Qed.

(** ** What the loader tool prints *)

Lemma symbol_line_get sm sm' token : get sm token = get sm' token -> symbol_line sm token = symbol_line sm' token.
Proof. intros E. unfold symbol_line, is_index_derivative. by rewrite E. Qed.

Lemma puts_map_active insts token i : puts_map insts !! token = Some i -> in_active i = true /\ token < kSymbolTableSize.
Proof.
  rewrite puts_map_lookup. destruct (token <? kSymbolTableSize) eqn:E; [|done]. bool_arith.
  destruct (last_row token insts); [|done]. by intros [= <-].
Qed.

(** The tool on an export of instruments: it prints the number of rows and of distinct
    tokens of the table, and for a token asked for the last row of the file that has it. *)
Theorem loader_reports header insts prog path token :
  header <> [] -> newline ∉ header -> Forall csv_ok insts -> 0 <= token < 2 ^ 32 ->
  symbol_master_loader [prog; path; dec token] (Some (csv_file header insts)) =
    (0, lit "symbol_master: loaded " ++ dec (Z.of_nat (length insts)) ++ lit " rows (" ++
        dec (Z.of_nat (size (puts_map insts))) ++ lit " active)" ++ [newline] ++
        symbol_line {| sm_table := puts_map insts; sm_count := Z.of_nat (size (puts_map insts)) |} token).
Proof.
  intros Hne Hh Hall Ht. unfold symbol_master_loader. cbn [length Nat.ltb Nat.leb].
  rewrite load_csv_file by done. change (reset_table SymbolMaster_new) with SymbolMaster_new.
  destruct (symbol_master_is_map insts) as [Hg Hc].
  rewrite Hc, (proj2 (Z.ltb_ge _ _)) by lia. do 7 f_equal. cbn [lookup list_lookup].
  replace (strtoul (dec token)) with token by (by rewrite <- (app_nil_r (dec token)), strtoul_dec by (done || lia)).
  rewrite wrap_u_id by done. apply symbol_line_get. rewrite Hg. unfold get, row. cbn.
  destruct (puts_map insts !! token) as [i|] eqn:E; cbn; [|by rewrite orb_true_r].
  apply puts_map_active in E as [-> ?]. by rewrite Z.geb_leb, (proj2 (Z.leb_gt _ _)).
Qed.

(** ** Concrete files *)

Definition csv_instrument (token : Token) : Instrument :=
  {| in_token := token; in_segment := 2; in_instrument_type := kFutIdx; in_option_type := kNone;
     in_lot_size := 50; in_tick_size := 5; in_strike_price := 0; in_prev_close := 1950025;
     in_circuit_pct_x100 := 1000; in_expiry_yyyymmdd := 20251030; in_active := false;
     in_symbol := "NIFTY"; in_series := "FUT" |}.

Lemma csv_instrument_ok token : in_u 32 token -> csv_ok (csv_instrument token).
Proof.
  intros Ht. split; cbn; try done; [|lia].
  apply (bool_decide_unpack _). vm_compute. exact I.
Qed.

(** The table held token 9 before; a second line for token 7 would win. *)
Lemma csv_roundtrip_witness :
  let '(sm', rows) := load_csv (Some (csv_file (lit "token,symbol") [csv_instrument 7; csv_instrument 35001]))
    (put (csv_instrument 9) SymbolMaster_new) in
  rows = 2 /\ sm_count sm' = 2 /\ get sm' 9 = None /\ option_Forall2 reads_back (get sm' 7) (Some (csv_instrument 7)).
Proof.
  pose proof (csv_roundtrip (lit "token,symbol") [csv_instrument 7; csv_instrument 35001]
    (put (csv_instrument 9) SymbolMaster_new)) as H.
  destruct (load_csv _ _) as [sm' rows]. destruct H as (H1 & H2 & H3 & _).
  - discriminate.
  - apply (bool_decide_unpack _). vm_compute. exact I.
  - constructor; [|constructor; [|constructor]]; (apply csv_instrument_ok; split; [lia|reflexivity]).
  - split; [exact H1|]. split; [exact H3|]. split.
    + pose proof (H2 9) as H9. inversion H9. reflexivity.
    + exact (H2 7).
Defined.

(** The row count includes rows [put] refuses: a token outside the table is counted
    as loaded, and no instrument is. *)
Lemma out_of_range_row_counted :
  let '(sm, rows) := load_csv (Some (csv_file (lit "h") [csv_instrument 65536])) SymbolMaster_new in
  rows = 1 /\ sm_count sm = 0.
Proof. vm_compute. done. Qed.
