(* ===== verification/MainSession.v ===== *)
(** * MainSession: the synthetic session of the binary (src/main.cpp)

    The wiring of the components and the loop that drives them.  Inputs are the
    contents of the symbol file ([None] when it cannot be opened), the reading of the
    wall clock at start-up, the uninitialised memory of the order table and message
    buffer, and for every event before the stop signal the clock readings and the
    measured time of the pipeline.  Of the console lines the shutdown summary is
    modelled; the progress lines are left out. *)

From Stdlib Require Import ZArith Lia String.
From stdpp Require Import base gmap list numbers option.
From S2P Require Import Prelude Types Text Codec TimeUtils OrderTable LevelArray OrderBook BookLiveness BookManager.
From S2P Require Import SymbolMaster SymbolCsv MarketMaking RiskManager NnfEncoder OrderManager Pipeline.
From S2P Require Import LatencyStats BacktestEngine.

Local Open Scope Z_scope.

Definition SnapQuote (token : Token) (bid ask : Price) (seq : Z) : MarketEvent :=
  {| ev_ts := 0; ev_token := token; ev_price := 0; ev_qty := 0; ev_side := false;
     ev_type := msg_code kSnapQuote; ev_order_no := 0; ev_stream_id := 0; ev_seq_no := seq;
     ev_order_no2 := 0; ev_trade_no := 0; ev_bid_price := bid; ev_bid_qty := 100;
     ev_ask_price := ask; ev_ask_qty := 100 |}.

Definition kToken : Token := 2885.
Definition kMaxEvents : nat := Z.to_nat 500000.

Definition reliance : Instrument :=
  {| in_token := kToken; in_segment := kSegmentCm; in_instrument_type := kEquity;
     in_option_type := in_option_type default_instrument; in_lot_size := 1; in_tick_size := 5;
     in_strike_price := 0; in_prev_close := 1000000; in_circuit_pct_x100 := 2000;
     in_expiry_yyyymmdd := 0; in_active := false; in_symbol := "RELIANCE"; in_series := "EQ" |}.

(** Step [2]: the symbol file, or the built-in instrument. *)
Definition main_symbols (csv : option text) : SymbolMaster :=
  let '(symbols, rows) := load_csv csv SymbolMaster_new in
  if rows <? 0 then put reliance symbols else symbols.

Definition main_mm_config : MarketMakingConfig :=
  {| mc_segment := kSegmentCm; mc_max_position_lots := 25; mc_max_spread_ticks := 3;
     mc_quote_ttl_ns := 500000; mc_quote_lots := 1; mc_max_inv_skew_ticks := 0;
     mc_max_flow_skew_ticks := 0 |}.

Definition main_risk_config : RiskConfig :=
  let d := RiskConfig_default in
  {| rc_max_orders_per_sec := 1000; rc_max_order_qty := rc_max_order_qty d;
     rc_max_token_position_lots := rc_max_token_position_lots d;
     rc_max_cm_notional_inr := rc_max_cm_notional_inr d; rc_max_daily_loss_inr := 1000000;
     rc_allow_preopen := rc_allow_preopen d; rc_price_sanity_pct := 50 |}.

(** Steps [3] and [9]. *)
Definition main_pipeline (symbols : SymbolMaster) (wall : Timestamp) (junk : Z -> Order) (buf : bytes)
    : Pipeline MarketMaking :=
  let books := (add_token kToken (get_tick_size symbols kToken) kDefaultOrderCapacity BookManager_new).1 in
  let om := OrderManager_new junk in
  let om := with_encoder (set_alpha_char 67 77 (om_encoder om)) om in
  let om := with_encoder (set_trader_id 0 (om_encoder om)) om in
  set_now (ist_time_of_day_ns wall 9 30 0)
    (Pipeline_new books (MarketMaking_new (Some symbols) main_mm_config)
       (RiskManager_new (Some symbols) main_risk_config) om kPipelineSamples buf).

Definition main_mid (symbols : SymbolMaster) : Price :=
  match SymbolMaster.get symbols kToken with
  | Some inst => if in_prev_close inst >? 0 then in_prev_close inst else 1000000
  | None => 1000000
  end.

(** The fill the loop answers a sent order with. *)
Definition full_fill (o : Order) : FillReport :=
  {| fr_exchange_order_no := 0; fr_client_order_id := o_client_order_id o; fr_token := o_token o;
     fr_fill_price := o_price o; fr_fill_qty := o_qty o; fr_remaining_qty := 0; fr_fill_time := 0;
     fr_trade_no := 0; fr_side := o_side o |}.

Definition main_step (mid : Price) (seq : Z) (clk : Clock) (elapsed : Z) (p : Pipeline MarketMaking)
    : option (Pipeline MarketMaking) :=
  let base := i64 (mid + seq mod 100 * 5) in
  '(p, _) ← process (SnapQuote kToken base (i64 (base + 10)) seq) clk elapsed p;
  Some (foldl (fun p o => on_fill (full_fill o) p) p (pp_sent_orders p)).

Fixpoint main_loop (mid : Price) (seq : Z) (inputs : list (Clock * Z)) (p : Pipeline MarketMaking)
    : option (Pipeline MarketMaking) :=
  match inputs with
  | [] => Some p
  | (clk, elapsed) :: inputs =>
      p ← main_step mid seq clk elapsed p; main_loop mid (u64 (seq + 1)) inputs p
  end.

(** [inputs] are the events before the stop signal. *)
Definition main_session (csv : option text) (wall : Timestamp) (junk : Z -> Order) (buf : bytes)
    (inputs : list (Clock * Z)) : option (Pipeline MarketMaking) :=
  let symbols := main_symbols csv in
  main_loop (main_mid symbols) 1 (take kMaxEvents inputs) (main_pipeline symbols wall junk buf).

(** The two lines of counters of the shutdown summary. *)
Definition main_summary (p : Pipeline MarketMaking) : option (text * text) :=
  let s := pp_stats p in
  let lat := pp_tick_to_trade p in
  l50 ← p50 lat;
  l99 ← p99 lat;
  l999 ← p999 lat;
  Some (lit "events=" ++ dec (ps_events s) ++ lit " generated=" ++ dec (ps_orders_generated s) ++
          lit " approved=" ++ dec (ps_orders_approved s) ++ lit " rejected=" ++ dec (ps_orders_rejected s) ++
          lit " sent=" ++ dec (ps_orders_sent s) ++ [newline],
        lit "tick-to-trade: p50=" ++ dec l50 ++ lit "ns p99=" ++ dec l99 ++ lit "ns p999=" ++ dec l999 ++
          lit "ns (n=" ++ dec (lt_count lat) ++ lit ")" ++ [newline]).

(** ** Filling what was sent *)

Lemma released_slot om i lo j :
  slot (Release i (set_slot i lo om)) j = slot om j /\ i <> j \/
  lo_occupied (slot (Release i (set_slot i lo om)) j) = false /\ i = j.
Proof.
  destruct (decide (i = j)) as [<-|Hne]; [right|left]; (split; [|done]); unfold Release;
    rewrite slot_set_eq; destruct (lo_occupied lo) eqn:Eo; rewrite ?slot_set_eq, ?slot_set_ne by done; try done;
    case_if; unfold set_live_count, slot; cbn; by rewrite ?lookup_insert_eq, ?lookup_insert_ne by done.
Qed.

(** A complete fill takes its order out of the live slots and puts no other in. *)
Lemma full_fill_slot o om i :
  slot (om_on_fill (full_fill o) om).1 i = slot om i \/
  lo_occupied (slot (om_on_fill (full_fill o) om).1 i) = false.
Proof.
  unfold om_on_fill. destruct (get om _) as [j|] eqn:E; [|by left]. cbv zeta.
  cbn [fr_remaining_qty full_fill]. rewrite Z.eqb_refl, orb_true_r. cbn [fst].
  match goal with |- context [Release j (set_slot j ?lo om)] =>
    destruct (released_slot om j lo i) as [[H1 _]|[H1 _]] end; auto.
Qed.

Lemma full_fill_releases o om :
  lo_order (slot om (Index (o_client_order_id o))) = o ->
  lo_occupied (slot (om_on_fill (full_fill o) om).1 (Index (o_client_order_id o))) = false.
Proof.
  intros Ho. unfold om_on_fill, get. cbn [fr_client_order_id full_fill]. rewrite Ho, Z.eqb_refl. cbv zeta.
  cbn [fr_remaining_qty full_fill]. rewrite Z.eqb_refl, orb_true_r. cbn [fst].
  match goal with |- context [Release ?j (set_slot ?j ?lo om)] =>
    destruct (released_slot om j lo j) as [[_ H1]|[H1 _]] end; done.
Qed.

Definition fill_all (sent : list Order) (om : OrderManager) : OrderManager :=
  foldl (fun om o => (om_on_fill (full_fill o) om).1) om sent.

Lemma fill_all_slot sent om i :
  slot (fill_all sent om) i = slot om i \/ lo_occupied (slot (fill_all sent om) i) = false.
Proof.
  revert om. induction sent as [|o sent IH]; intros om; [by left|].
  change (fill_all (o :: sent) om) with (fill_all sent (om_on_fill (full_fill o) om).1).
  destruct (IH (om_on_fill (full_fill o) om).1) as [->|E]; [|by right].
  apply full_fill_slot.
Qed.

Lemma fill_all_releases sent om i :
  lo_order (slot om i) ∈ sent -> i = Index (o_client_order_id (lo_order (slot om i))) ->
  lo_occupied (slot (fill_all sent om) i) = false.
Proof.
  revert om. induction sent as [|o sent IH]; intros om Hin Hi; [by apply elem_of_nil in Hin|].
  change (fill_all (o :: sent) om) with (fill_all sent (om_on_fill (full_fill o) om).1).
  set (om1 := (om_on_fill (full_fill o) om).1).
  destruct (decide (lo_order (slot om i) = o)) as [Ho|Ho].
  - assert (lo_occupied (slot om1 i) = false) as Hocc.
    { rewrite Hi, Ho. apply full_fill_releases. by rewrite <- Ho, <- Hi. }
    destruct (fill_all_slot sent om1 i) as [->|?]; done.
  - destruct (full_fill_slot o om i) as [E|E]; fold om1 in E.
    + apply IH; rewrite E; [|done]. apply elem_of_cons in Hin as [?|?]; [done|done].
    + destruct (fill_all_slot sent om1 i) as [->|?]; done.
Qed.

(** ** The run *)

Record main_inv (n : nat) (p : Pipeline MarketMaking) : Prop := {
  mi_pipe : pipeline_ok p;
  mi_books : forall t ob, get_book t (pp_books p) = Some ob -> t = kToken /\ room kDefaultOrderCapacity ∅ ob;
  mi_sent : Forall (fun o => o_token o = kToken) (pp_sent_orders p);
  mi_events : ps_events (pp_stats p) = u64 (Z.of_nat n);
  mi_latency : 0 <= lt_count (pp_tick_to_trade p) < 2 ^ 64;
  mi_idle : forall i, lo_occupied (slot (pp_om p) i) = false;
}.

Lemma fills_pipe sent (p : Pipeline MarketMaking) :
  same_feed p (foldl (fun p o => on_fill (full_fill o) p) p sent) /\
  pp_om (foldl (fun p o => on_fill (full_fill o) p) p sent) = fill_all sent (pp_om p).
Proof.
  revert p. induction sent as [|o sent IH]; intros p; [done|]. cbn [foldl fill_all].
  destruct (IH (on_fill (full_fill o) p)) as [H1 H2]. split; [|done].
  etrans; [apply on_fill_same_feed|done].
Qed.

Lemma main_step_inv mid seq clk elapsed n p :
  main_inv n p -> exists p', main_step mid seq clk elapsed p = Some p' /\ main_inv (n + 1) p'.
Proof.
  intros [H1 H2 H3 H4 H6 H5]. unfold main_step. cbv zeta.
  destruct (process_total (SnapQuote kToken (i64 (mid + seq mod 100 * 5))
    (i64 (i64 (mid + seq mod 100 * 5) + 10)) seq) clk elapsed p kToken _ (room kDefaultOrderCapacity ∅) H1 ltac:(unfold kMaxTokens, kToken; lia) H2)
    as (p1 & k & -> & Hpr & Hb & Hs & Htab); [|done|done|].
  { intros _ ob Hr. apply (room_apply_quiet _ ∅ ob); [exact Hr|apply Nat.ltb_lt; vm_compute; reflexivity|done]. }
  cbn [mbind option_bind]. eexists. split; [done|].
  destruct (fills_pipe (pp_sent_orders p1) p1) as [(E1 & E2 & E3 & E4 & E5) E6].
  split; rewrite ?E1, ?E2, ?E3, ?E4, ?E6.
  - apply E5, Hpr.
  - exact Hb.
  - done.
  - rewrite (pr_events _ _ _ Hpr), H4, wrap_u_add_l by lia. f_equal. lia.
  - destruct (pr_latency _ _ _ Hpr) as [->|[ns ->]]; [done|]. apply Z.mod_pos_bound. lia.
  - intros i. destruct (Htab i) as [E|(A1 & A2 & A3)].
    + destruct (fill_all_slot (pp_sent_orders p1) (pp_om p1) i) as [->|?]; [|done]. by rewrite E.
    + by apply fill_all_releases.
Qed.

Lemma main_loop_inv mid inputs : forall seq n p,
  main_inv n p -> exists p', main_loop mid seq inputs p = Some p' /\ main_inv (n + length inputs) p'.
Proof.
  induction inputs as [|[clk elapsed] inputs IH]; intros seq n p Hp; cbn [main_loop length].
  - exists p. by rewrite Nat.add_0_r.
  - destruct (main_step_inv mid seq clk elapsed n p Hp) as (p1 & -> & H1). cbn [mbind option_bind].
    destruct (IH (u64 (seq + 1)) (n + 1)%nat p1 H1) as (p2 & -> & H2). exists p2. split; [done|].
    by replace (n + S (length inputs))%nat with (n + 1 + length inputs)%nat by lia.
Qed.

(** Any strategy, risk manager and idle order manager wired to a fresh book of the token. *)
Lemma wired_inv_start strat risk om tick now buf :
  manager_ok om -> encoder_ok (om_encoder om) -> (forall i, lo_occupied (slot om i) = false) -> (80 <= length buf)%nat ->
  main_inv 0 (set_now now (Pipeline_new (add_token kToken tick kDefaultOrderCapacity BookManager_new).1
                             strat risk om kPipelineSamples buf)).
Proof.
  intros Hom He Hidle Hbuf. constructor.
  - by split.
  - intros t ob. cbn [set_now Pipeline_new pp_books]. unfold get_book, add_token.
    rewrite !Z.geb_leb.
    rewrite (proj2 (Z.leb_gt kMaxTokens kToken)) by (unfold kMaxTokens, kToken; lia).
    cbn -[kDefaultOrderCapacity kToken]. case_if; [done|].
    rewrite lookup_empty. cbn [fst bm_slots]. intros Hl.
    apply lookup_insert_Some in Hl as [[<- <-]|[_ Hl]]; [|done]. split; [done|].
    assert (RoundUpPow2 kDefaultOrderCapacity = kDefaultOrderCapacity) as E by (vm_compute; reflexivity).
    rewrite <- E at 1. apply room_new.
  - constructor.
  - done.
  - done.
  - done.
Qed.

Lemma main_inv_start symbols wall junk buf :
  (80 <= length buf)%nat -> main_inv 0 (main_pipeline symbols wall junk buf).
Proof.
  intros Hbuf. apply wired_inv_start; [|done|done|done]. destruct (om_ok_new junk) as [A B C]. by split.
Qed.

(** After the loop no order is live. *)
Lemma main_inv_clean n p : main_inv n p -> om_live_count (pp_om p) = 0.
Proof.
  intros [H1 _ _ _ _ H5]. rewrite (mo_count _ (po_om _ H1)). unfold occupied_count.
  assert (occupied_slots (om_table (pp_om p)) = ∅) as ->; [|done].
  apply map_empty. intros i. apply eq_None_not_Some. rewrite occupied_slots_lookup.
  intros (lo & Hl & Ho). specialize (H5 i). unfold slot in H5. rewrite Hl in H5. cbn in H5. congruence.
Qed.

Lemma main_summary_printed n p : main_inv n p -> is_Some (main_summary p).
Proof.
  intros Hp. destruct (reported_defined (pp_tick_to_trade p) (mi_latency _ _ Hp)) as ([a Ha] & [b Hb] & [c Hc]).
  unfold main_summary. rewrite Ha, Hb, Hc. by eexists.
Qed.

(** C26.  The synthetic session runs to its end and leaves nothing behind: whatever the
    symbol file holds (or without one), whatever the clocks read and whenever the
    signal comes, every event before it is processed, at most [kMaxEvents] of them,
    and since each sent order is filled at once, no order is live afterwards: the
    order table stays bounded, as the loop's comment says; and the shutdown summary, with
    the percentiles of the measured times, is always printed. *)
Theorem session_total_and_clean csv wall junk buf inputs :
  (80 <= length buf)%nat ->
  exists p, main_session csv wall junk buf inputs = Some p /\
    ps_events (pp_stats p) = u64 (Z.of_nat (Nat.min kMaxEvents (length inputs))) /\
    om_live_count (pp_om p) = 0 /\ (forall i, lo_occupied (slot (pp_om p) i) = false) /\
    is_Some (main_summary p).
Proof.
  intros Hbuf. unfold main_session. cbv zeta.
  destruct (main_loop_inv (main_mid (main_symbols csv)) (take kMaxEvents inputs) 1 0 _
    (main_inv_start (main_symbols csv) wall junk buf Hbuf)) as (p & -> & Hp).
  exists p. split; [done|]. pose proof (mi_events _ _ Hp) as He. rewrite length_take in He.
  split_and!; [exact He|by eapply main_inv_clean|apply Hp|by eapply main_summary_printed].
Qed.

Lemma session_total_and_clean_witness :
  exists p, main_session None 0 OrderManager.sample_order (replicate 256 0)
              [(fun _ => 0, 900); (fun _ => 0, 900)] = Some p /\ om_live_count (pp_om p) = 0.
Proof.
  destruct (session_total_and_clean None 0 OrderManager.sample_order (replicate 256 0)
    [(fun _ => 0, 900); (fun _ => 0, 900)]) as (p & Hp & _ & Hl & _ & _).
  - rewrite length_replicate. lia.
  - exists p. split; [exact Hp|exact Hl].
Defined.
