(* ===== verification/Benchmarks.v ===== *)
(** * Benchmarks: the order book and the pipeline under load
      (benchmarks/bench_order_book.cpp, benchmarks/bench_pipeline.cpp)

    A benchmark runs its body as often as the framework asks for: the inputs are the
    draws, or the clock readings, of the iterations.  C++ does not fix the order in
    which the two draws of a call are made, so they are named by their use. *)

From Stdlib Require Import ZArith Lia String.
From stdpp Require Import base gmap numbers option list.
From S2P Require Import Prelude Types Text Codec TimeUtils OrderTable LevelArray OrderBook BookLiveness BookManager.
From S2P Require Import SymbolMaster MarketMaking RiskManager NnfEncoder OrderManager Pipeline.
From S2P Require Import BacktestEngine BacktestTools MainSession.

Local Open Scope Z_scope.

(** ** bench_order_book *)

Definition MakeAdd (no : Z) (buy : Side) (price : Price) (qty : Quantity) : MarketEvent :=
  {| ev_ts := 0; ev_token := 100; ev_price := price; ev_qty := qty; ev_side := buy;
     ev_type := msg_code kOrderAdd; ev_order_no := no; ev_stream_id := 0; ev_seq_no := 0;
     ev_order_no2 := 0; ev_trade_no := 0; ev_bid_price := 0; ev_bid_qty := 0; ev_ask_price := 0;
     ev_ask_qty := 0 |}.

(** [1U << 18]. *)
Definition kBenchOrders : nat := Z.to_nat (Z.shiftl 1 18).

Definition bench_book : OrderBook := OrderBook_new 100 0 kBenchOrders.

Record AddDraw := { ad_side : Z; ad_price : Z }.

Definition apply_add_event (no : Z) (d : AddDraw) : MarketEvent :=
  MakeAdd no (negb (Z.land (ad_side d) 1 =? 0)) (10000 + ad_price d mod 200) 10.

Fixpoint apply_add_loop (no : Z) (draws : list AddDraw) (book : OrderBook) : option OrderBook :=
  match draws with
  | [] => Some book
  | d :: draws => '(book, _) ← apply_event book (apply_add_event no d); apply_add_loop (i64 (no + 1)) draws book
  end.

Definition BM_OrderBookApplyAdd (draws : list AddDraw) : option OrderBook := apply_add_loop 1 draws bench_book.

Record MixedDraw := { md_no : Z; md_op : Z; md_side : Z; md_price : Z }.

Definition mixed_event (d : MixedDraw) : MarketEvent :=
  let on := md_no d mod 60000 + 1 in
  let op := md_op d mod 3 in
  let ev ty price qty :=
    {| ev_ts := 0; ev_token := 100; ev_price := price; ev_qty := qty; ev_side := false;
       ev_type := ty; ev_order_no := on; ev_stream_id := 0; ev_seq_no := 0;
       ev_order_no2 := 0; ev_trade_no := 0; ev_bid_price := 0; ev_bid_qty := 0; ev_ask_price := 0;
       ev_ask_qty := 0 |} in
  if op =? 0 then MakeAdd on (negb (Z.land (md_side d) 1 =? 0)) (9000 + md_price d mod 2000) 10
  else if op =? 1 then ev (msg_code kOrderModify) (9000 + md_price d mod 2000) 20
  else ev (msg_code kOrderCancel) 0 0.

Definition BM_OrderBookMixed (draws : list MixedDraw) : option OrderBook :=
  fst <$> apply_events bench_book (mixed_event <$> draws).

(** ** bench_pipeline *)

Definition bench_instrument : Instrument :=
  {| in_token := 2885; in_segment := kSegmentCm; in_instrument_type := kEquity;
     in_option_type := in_option_type default_instrument; in_lot_size := 1; in_tick_size := 5;
     in_strike_price := 0; in_prev_close := 1000000; in_circuit_pct_x100 := 2000;
     in_expiry_yyyymmdd := 0; in_active := false; in_symbol := ""; in_series := "" |}.

Definition MakeSymbols : SymbolMaster := put bench_instrument SymbolMaster_new.

Definition bench_mm_config : MarketMakingConfig :=
  let d := MarketMakingConfig_default in
  {| mc_segment := mc_segment d; mc_max_position_lots := 1000000;
     mc_max_spread_ticks := mc_max_spread_ticks d; mc_quote_ttl_ns := mc_quote_ttl_ns d;
     mc_quote_lots := mc_quote_lots d; mc_max_inv_skew_ticks := mc_max_inv_skew_ticks d;
     mc_max_flow_skew_ticks := mc_max_flow_skew_ticks d |}.

Definition bench_risk_config : RiskConfig :=
  let d := RiskConfig_default in
  {| rc_max_orders_per_sec := 1000000000; rc_max_order_qty := rc_max_order_qty d;
     rc_max_token_position_lots := 1000000; rc_max_cm_notional_inr := rc_max_cm_notional_inr d;
     rc_max_daily_loss_inr := rc_max_daily_loss_inr d; rc_allow_preopen := rc_allow_preopen d;
     rc_price_sanity_pct := 50 |}.

Definition bench_pipeline (wall : Timestamp) (junk : Z -> Order) (buf : bytes) : Pipeline MarketMaking :=
  set_now (ist_time_of_day_ns wall 9 30 0)
    (Pipeline_new (add_token 2885 5 kDefaultOrderCapacity BookManager_new).1
       (MarketMaking_new (Some MakeSymbols) bench_mm_config)
       (RiskManager_new (Some MakeSymbols) bench_risk_config) (OrderManager_new junk) kPipelineSamples buf).

(** The body is that of the session loop: a quote around the moving base, processed, and
    every order that went out filled at once. *)
Definition BM_Pipeline (wall : Timestamp) (junk : Z -> Order) (buf : bytes) (inputs : list (Clock * Z))
    : option (Pipeline MarketMaking) :=
  main_loop 1000000 1 inputs (bench_pipeline wall junk buf).

(** ** The pipeline benchmark runs as long as it is asked to *)

Theorem pipeline_bench_runs wall junk buf inputs :
  (80 <= length buf)%nat ->
  exists p, BM_Pipeline wall junk buf inputs = Some p /\
    ps_events (pp_stats p) = u64 (Z.of_nat (length inputs)) /\ om_live_count (pp_om p) = 0.
Proof.
  intros Hbuf. destruct (main_loop_inv 1000000 inputs 1 0 (bench_pipeline wall junk buf)) as (p & Hp & Hi).
  { apply wired_inv_start; [apply om_ok_new|done|done|done]. }
  exists p. split_and!; [done|apply Hi|by eapply main_inv_clean].
Qed.

(** ** The mixed benchmark never fills the table *)

(** The numbers [1 .. n]. *)
Definition numbers (n : Z) : gset Z := list_to_set (seqZ 1 n).

Lemma numbers_elem n k : k ∈ numbers n <-> 1 <= k <= n.
Proof. unfold numbers. rewrite elem_of_list_to_set, elem_of_seqZ. lia. Qed.

Lemma numbers_size n : size (numbers n) = Z.to_nat n.
Proof. unfold numbers. rewrite size_list_to_set by apply NoDup_seqZ. by rewrite length_seqZ. Qed.

Lemma mixed_number d : 1 <= ev_order_no (mixed_event d) <= 60000.
Proof.
  pose proof (Z.mod_pos_bound (md_no d) 60000 ltac:(lia)). unfold mixed_event.
  destruct (md_op d mod 3 =? 0); [cbn [ev_order_no MakeAdd]; lia|].
  destruct (md_op d mod 3 =? 1); cbn [ev_order_no]; lia.
Qed.

Lemma mixed_added draws : added (mixed_event <$> draws) ⊆ numbers 60000.
Proof.
  induction draws as [|d draws IH]; [apply empty_subseteq|]. rewrite fmap_cons, added_cons.
  apply union_subseteq. split; [|done]. unfold added_by. destruct (is_add _); [|apply empty_subseteq].
  apply singleton_subseteq_l, numbers_elem, mixed_number.
Qed.

(** Whatever the draws and however many iterations: the book answers every event, since the
    order numbers come from 60000 values, and stays well formed. *)
Theorem mixed_bench_runs draws :
  exists ob, BM_OrderBookMixed draws = Some ob /\ room (RoundUpPow2 kBenchOrders) (numbers 60000) ob.
Proof.
  destruct (fresh_book_answers 100 0 kBenchOrders (numbers 60000) (mixed_event <$> draws))
    as (ob & rs & H & _ & Hr); [apply mixed_added| |].
  { rewrite numbers_size. unfold kBenchOrders. apply Z2Nat.inj_lt; [lia|vm_compute; congruence|reflexivity]. }
  exists ob. split; [|done]. unfold BM_OrderBookMixed, bench_book. by rewrite H.
Qed.

(** ** The add benchmark fills the table, and then is refused *)

(** One addition under a new number: it rests while there is room. *)
Lemma add_fresh n no d ob m :
  book_wf ob -> ob_tick_size ob = 0 -> ob_stale ob = false -> table_repr (ob_orders ob) m ->
  m !! no = None -> size m = Nat.min n (ob_order_mask ob + 1) ->
  exists ob' r m', apply_event ob (apply_add_event no d) = Some (ob', r) /\
    book_wf ob' /\ ob_tick_size ob' = 0 /\ ob_stale ob' = false /\ ob_order_mask ob' = ob_order_mask ob /\
    table_repr (ob_orders ob') m' /\ dom m' ⊆ {[no]} ∪ dom m /\
    size m' = Nat.min (S n) (ob_order_mask ob + 1).
Proof.
  intros Hwf Ht Hst Hm Hno Hsz. unfold apply_event. cbn [ev_seq_no apply_add_event MakeAdd Z.eqb].
  unfold dispatch. change (msg_type (ev_type (apply_add_event no d))) with (Some kOrderAdd). rewrite Hst.
  pose proof (wf_ApplyAdd ob (apply_add_event no d) Hwf) as Hwf'. revert Hwf'.
  unfold ApplyAdd, TickOk. rewrite Ht. cbn [Z.eqb orb negb]. set (rec := {| r_order_no := _ |}).
  pose proof (InsertOrder_spec _ _ m rec (wf_table _ Hwf) Hm) as Hi. cbn [r_order_no rec apply_add_event MakeAdd ev_order_no] in Hi.
  destruct (InsertOrder _ _ rec) as [t|]; cbn [fst]; intros Hwf'.
  - destruct Hi as (Hroom & _ & Hr'). eexists _, _, _. split; [done|].
    split_and!; [done|by destruct (ev_side _)|by destruct (ev_side _)|by autorewrite with lowlat
      |autorewrite with lowlat; exact Hr'|by rewrite dom_insert|].
    rewrite map_size_insert_None by done. destruct Hroom as [[? E]|?]; [by rewrite Hno in E|lia].
  - eexists _, _, m. split_and!; [done|done|done|done|done|done|set_solver|].
    destruct (decide (size m < ob_order_mask ob + 1)%nat); [|lia]. destruct Hi. by right.
Qed.

Lemma add_loop_fills draws : forall n ob m,
  book_wf ob -> ob_tick_size ob = 0 -> ob_stale ob = false -> table_repr (ob_orders ob) m ->
  (forall k, k ∈ dom m -> k <= Z.of_nat n) -> size m = Nat.min n (ob_order_mask ob + 1) ->
  Z.of_nat (n + length draws) < 2 ^ 63 - 1 ->
  exists ob' m', apply_add_loop (Z.of_nat n + 1) draws ob = Some ob' /\ book_wf ob' /\
    table_repr (ob_orders ob') m' /\ size m' = Nat.min (n + length draws) (ob_order_mask ob + 1).
Proof.
  induction draws as [|d draws IH]; intros n ob m Hwf Ht Hst Hm Hk Hsz Hn; cbn [apply_add_loop length] in *.
  { exists ob, m. rewrite Nat.add_0_r. by split_and!. }
  destruct (add_fresh n (Z.of_nat n + 1) d ob m Hwf Ht Hst Hm) as (ob1 & r & m1 & E & H1 & H2 & H3 & H4 & H5 & H6 & H7); [|done|].
  { apply not_elem_of_dom. intros H. apply Hk in H. lia. }
  rewrite E. cbn [mbind option_bind]. rewrite wrap_s_id by ranges.
  replace (Z.of_nat n + 1 + 1) with (Z.of_nat (S n) + 1) by lia.
  destruct (IH (S n) ob1 m1 H1 H2 H3 H5) as (ob' & m' & E' & W & R & S'); [|by rewrite H4|lia|].
  { intros k Hin. apply H6 in Hin. apply elem_of_union in Hin as [Hin|Hin]; [apply elem_of_singleton in Hin; lia|].
    apply Hk in Hin. lia. }
  exists ob', m'. split_and!; [done|done|done|]. rewrite S', H4. f_equal. lia.
Qed.

Lemma bench_capacity : RoundUpPow2 kBenchOrders = kBenchOrders.
Proof. apply Nat.eqb_eq. vm_compute. reflexivity. Qed.

(** Whatever the draws: after [n] iterations the book holds the first [2^18] of the [n] orders,
    refuses the rest, and is well formed; no iteration hangs. *)
Theorem add_bench_fills draws :
  Z.of_nat (length draws) < 2 ^ 63 - 1 ->
  exists ob m, BM_OrderBookApplyAdd draws = Some ob /\ book_wf ob /\ table_repr (ob_orders ob) m /\
    size m = Nat.min (length draws) kBenchOrders.
Proof.
  intros Hn. destruct (add_loop_fills draws 0 bench_book ∅) as (ob & m & E & W & R & Hs);
    [apply OrderBook_new_wf|reflexivity|reflexivity|apply table_repr_empty| |reflexivity|exact Hn|].
  { intros k Hk. by apply elem_of_dom in Hk as [? Hk]. }
  assert (ob_order_mask bench_book + 1 = kBenchOrders)%nat as Hcap.
  { etransitivity; [apply (rm_cap _ _ _ (room_new 100 0 kBenchOrders))|exact bench_capacity]. }
  rewrite Hcap in Hs. exists ob, m. split; [exact E|]. split; [exact W|]. split; [exact R|exact Hs].
Qed.
