(* ===== verification/Connect.v ===== *)
(** * Connect: the trading platform the iRage adapter runs on
      (irage/mock/ConnectHeader.h)

    [Platform] is the interface the strategy calls.  The production library is not
    part of the repository; the strategy's theorems hold for every platform that
    keeps its market data, limits and inventory unchanged while it takes an order
    or a log line ([PlatformLaws]).  [ConnectImpl] is the platform the repository
    itself contains; it is an instance of both classes, and its order slots are
    the documented NEW / RPL / CXL state machine. *)

From Stdlib Require Import ZArith Lia Ascii String.
From stdpp Require Import base gmap numbers option list.
From S2P Require Import Prelude Text.

Local Open Scope Z_scope.

Inductive enOrdSide := SIDE_BUY | SIDE_SELL.
Inductive enOrdState := NO_ORDER | UNACKED | STANDING_ACKED | STANDING_UNACKED.

#[global] Instance enOrdSide_eq_dec : EqDecision enOrdSide.
Proof. solve_decision. Defined.
#[global] Instance enOrdState_eq_dec : EqDecision enOrdState.
Proof. solve_decision. Defined.

Definition side_code (side : enOrdSide) : Z := match side with SIDE_BUY => 1 | SIDE_SELL => 2 end.

Definition E_OK : Z := 0.
Definition E_NO_ACK : Z := 1.
Definition E_SAME_ORD : Z := 3.
Definition E_OPS : Z := 5.
Definition E_NO_ORDER : Z := 7.
Definition E_RMS_DPR : Z := 8.

Record Quote := {
  q_symId : Z;
  q_price : Z;
  q_qty : Z;
  q_side : enOrdSide;
  q_index : Z;
  q_minPriceChange : Z
}.

Definition Quote_new : Quote :=
  {| q_symId := 0; q_price := 0; q_qty := 0; q_side := SIDE_BUY; q_index := 0; q_minPriceChange := 0 |}.

(** A snapshot of the book, five levels a side, and what the last tick was. *)
Record MTICK := {
  mt_id : Z;
  mt_bid : list Z;
  mt_ask : list Z;
  mt_bid_size : list Z;
  mt_ask_size : list Z;
  mt_seq_num : Z;
  mt_last_side : ascii;
  mt_last_type : ascii;
  mt_ltp : Z;
  mt_ltq : Z;
  mt_hw_tstamp : Z;
  mt_publish_tstamp : Z
}.

Definition MTICK_new : MTICK :=
  {| mt_id := 0; mt_bid := replicate 5 0; mt_ask := replicate 5 0;
     mt_bid_size := replicate 5 0; mt_ask_size := replicate 5 0; mt_seq_num := 0;
     mt_last_side := "-"; mt_last_type := "-"; mt_ltp := 0; mt_ltq := 0; mt_hw_tstamp := 0;
     mt_publish_tstamp := 0 |}.

(** [orderSide] is an [int]: 1 for a buy. *)
Record EXEC_REPORT := {
  er_securityId : Z;
  er_iClientId : Z;
  er_price : Z;
  er_orderQty : Z;
  er_exchId : Z;
  er_orderSide : Z;
  er_leaves : Z;
  er_fillQty : Z;
  er_cumQty : Z;
  er_rejCode : Z;
  er_tag : Z;
  er_tag2 : Z
}.

(** ** The interface *)

Class Platform (P : Type) := {
  running : P -> bool;
  getSeconds : P -> Z;
  getTotalOps : P -> Z;
  getOpsConsumed : P -> Z;
  getMtick : Z -> P -> MTICK;
  getInventory : Z -> P -> Z;
  getMaxInventory : Z -> P -> Z;
  getDprLow : Z -> P -> Z;
  getDprHigh : Z -> P -> Z;
  getStandingOrder : Z -> enOrdSide -> Z -> P -> bool;
  sendOrder : Quote -> bool -> P -> P * bool;
  getErrorCode : P -> Z;
  getError : P -> text;
  logMsg : text -> P -> P;
  getSymInfo : Z -> P -> option (gmap text text);
  init : gmap Z text -> P -> P;
  readGConfig : text -> P -> option text
}.

(** Two platform states a strategy cannot tell apart by looking at the market, the
    limits and the inventory. *)
Definition same_market {P} `{Platform P} (p p' : P) : Prop :=
  forall id, getMtick id p = getMtick id p' /\ getInventory id p = getInventory id p' /\
    getMaxInventory id p = getMaxInventory id p' /\
    getDprLow id p = getDprLow id p' /\ getDprHigh id p = getDprHigh id p'.

#[global] Instance same_market_equiv {P} `{Platform P} : Equivalence (@same_market P _).
Proof.
  split.
  - done.
  - intros p p' H' id. destruct (H' id) as (-> & -> & -> & -> & ->). done.
  - intros p q r Hpq Hqr id. destruct (Hpq id) as (-> & -> & -> & -> & ->). apply Hqr.
Qed.

Class PlatformLaws (P : Type) `{Platform P} := {
  sendOrder_market : forall q ioc p, same_market p (sendOrder q ioc p).1;
  logMsg_market : forall msg p, same_market p (logMsg msg p)
}.

(** ** A platform that records the orders it is given

    It behaves as [P] and keeps, for every call of [sendOrder], the state of [P] at
    the call and the quote. *)

Record Recorded (P : Type) := { rec_now : P; rec_log : list (P * Quote) }.
Arguments rec_now {P}.
Arguments rec_log {P}.

#[global] Instance recorded_platform {P} `{Platform P} : Platform (Recorded P) := {
  running r := running (rec_now r);
  getSeconds r := getSeconds (rec_now r);
  getTotalOps r := getTotalOps (rec_now r);
  getOpsConsumed r := getOpsConsumed (rec_now r);
  getMtick id r := getMtick id (rec_now r);
  getInventory id r := getInventory id (rec_now r);
  getMaxInventory id r := getMaxInventory id (rec_now r);
  getDprLow id r := getDprLow id (rec_now r);
  getDprHigh id r := getDprHigh id (rec_now r);
  getStandingOrder id side index r := getStandingOrder id side index (rec_now r);
  sendOrder q ioc r :=
    let '(p, ok) := sendOrder q ioc (rec_now r) in
    ({| rec_now := p; rec_log := rec_log r ++ [(rec_now r, q)] |}, ok);
  getErrorCode r := getErrorCode (rec_now r);
  getError r := getError (rec_now r);
  logMsg msg r := {| rec_now := logMsg msg (rec_now r); rec_log := rec_log r |};
  getSymInfo id r := getSymInfo id (rec_now r);
  init cfg r := {| rec_now := init cfg (rec_now r); rec_log := rec_log r |};
  readGConfig key r := readGConfig key (rec_now r)
}.

(** ** The platform of the repository *)

Record SentOrder := { so_quote : Quote; so_ioc : bool; so_type : ascii }.

Record OrderSlot := { sl_quote : Quote; sl_state : enOrdState; sl_pending_cancel : bool }.

Definition OrderSlot_new : OrderSlot :=
  {| sl_quote := Quote_new; sl_state := NO_ORDER; sl_pending_cancel := false |}.

(** What the tests configure and no call of the strategy changes. *)
Record ConnectEnv := {
  ce_ticks : gmap Z MTICK;
  ce_dpr : gmap Z (Z * Z);
  ce_inventory : gmap Z Z;
  ce_max_inv : gmap Z Z;
  ce_max_ord : gmap Z Z;
  ce_max_tgt : gmap Z Z;
  ce_syminfo : gmap Z (gmap text text);
  ce_gconfig : gmap text text;
  ce_running : bool;
  ce_ops_consumed : Z;
  ce_total_ops : Z;
  ce_seconds : Z
}.

Record ConnectImpl := {
  ci_env : ConnectEnv;
  ci_orders : gmap Z OrderSlot;
  ci_sent : list SentOrder;
  ci_log : list text;
  ci_inited : bool;
  ci_last_error : Z
}.

Definition ConnectEnv_new : ConnectEnv :=
  {| ce_ticks := ∅; ce_dpr := ∅; ce_inventory := ∅; ce_max_inv := ∅; ce_max_ord := ∅;
     ce_max_tgt := ∅; ce_syminfo := ∅; ce_gconfig := ∅; ce_running := false; ce_ops_consumed := 0; ce_total_ops := 1000;
     ce_seconds := 0 |}.

Definition ConnectImpl_new (env : ConnectEnv) : ConnectImpl :=
  {| ci_env := env; ci_orders := ∅; ci_sent := []; ci_log := []; ci_inited := false;
     ci_last_error := E_OK |}.

(** [(int64_t(id) << 16) | (int64_t(side) << 8) | index]. *)
Definition Key (id : Z) (side : enOrdSide) (index : Z) : Z :=
  Z.lor (Z.lor (Z.shiftl id 16) (Z.shiftl (side_code side) 8)) index.

Definition slot_at (k : Z) (p : ConnectImpl) : OrderSlot := default OrderSlot_new (ci_orders p !! k).

(** The writes of [sendOrder]: the slot, the error code and what was sent. *)
Definition write_slot (k : Z) (slot : OrderSlot) (err : Z) (sent : list SentOrder) (p : ConnectImpl)
    : ConnectImpl :=
  {| ci_env := ci_env p; ci_orders := <[k := slot]> (ci_orders p); ci_sent := ci_sent p ++ sent;
     ci_log := ci_log p; ci_inited := ci_inited p; ci_last_error := err |}.

Definition mock_sendOrder (q : Quote) (ioc : bool) (p : ConnectImpl) : ConnectImpl * bool :=
  let k := Key (q_symId q) (q_side q) (q_index q) in
  let slot := slot_at k p in
  let cancel := (q_price q =? 0) || (q_qty q =? 0) in
  match sl_state slot with
  | UNACKED | STANDING_UNACKED => (write_slot k slot E_NO_ACK [] p, false)
  | st =>
      if cancel then
        match st with
        | NO_ORDER => (write_slot k slot E_NO_ORDER [] p, false)
        | _ =>
            (write_slot k {| sl_quote := sl_quote slot; sl_state := STANDING_UNACKED;
                             sl_pending_cancel := true |} E_OK
               [{| so_quote := q; so_ioc := ioc; so_type := "X" |}] p, true)
        end
      else
        match st with
        | STANDING_ACKED =>
            if (q_price (sl_quote slot) =? q_price q) && (q_qty (sl_quote slot) =? q_qty q) then
              (write_slot k slot E_SAME_ORD [] p, false)
            else if (q_minPriceChange q >? 0) &&
                    (Z.abs (i32 (q_price q - q_price (sl_quote slot))) <? q_minPriceChange q) then
              (write_slot k slot E_SAME_ORD [] p, false)
            else
              (write_slot k {| sl_quote := q; sl_state := STANDING_UNACKED;
                               sl_pending_cancel := sl_pending_cancel slot |} E_OK
                 [{| so_quote := q; so_ioc := ioc; so_type := "R" |}] p, true)
        | _ =>
            (write_slot k {| sl_quote := q; sl_state := if ioc then NO_ORDER else UNACKED;
                             sl_pending_cancel := sl_pending_cancel slot |} E_OK
               [{| so_quote := q; so_ioc := ioc; so_type := "N" |}] p, true)
        end
  end.

Definition mock_getStandingOrder (id : Z) (side : enOrdSide) (index : Z) (p : ConnectImpl) : bool :=
  match ci_orders p !! Key id side index with
  | None => false
  | Some slot => bool_decide (sl_state slot <> NO_ORDER)
  end.

Definition getPendingOrder (id : Z) (side : enOrdSide) (index : Z) (p : ConnectImpl) : enOrdState :=
  match ci_orders p !! Key id side index with None => NO_ORDER | Some slot => sl_state slot end.

(** The exchange answers every request in flight. *)
Definition ack_slot (slot : OrderSlot) : OrderSlot :=
  match sl_state slot with
  | UNACKED | STANDING_UNACKED =>
      {| sl_quote := sl_quote slot;
         sl_state := if sl_pending_cancel slot then NO_ORDER else STANDING_ACKED;
         sl_pending_cancel := false |}
  | _ => slot
  end.

Definition test_ackAll (p : ConnectImpl) : ConnectImpl :=
  {| ci_env := ci_env p; ci_orders := ack_slot <$> ci_orders p; ci_sent := ci_sent p;
     ci_log := ci_log p; ci_inited := ci_inited p; ci_last_error := ci_last_error p |}.

Definition ErrorName (code : Z) : text :=
  if code =? E_OK then lit "E_OK"
  else if code =? E_NO_ACK then lit "E_NO_ACK"
  else if code =? E_SAME_ORD then lit "E_SAME_ORD"
  else if code =? E_NO_ORDER then lit "E_NO_ORDER"
  else if code =? E_RMS_DPR then lit "E_RMS_DPR"
  else if code =? E_OPS then lit "E_OPS"
  else lit "E_UNKNOWN".

Definition mock_init (cfg : gmap Z text) (p : ConnectImpl) : ConnectImpl :=
  {| ci_env := ci_env p; ci_orders := ci_orders p; ci_sent := ci_sent p; ci_log := ci_log p;
     ci_inited := true; ci_last_error := ci_last_error p |}.

Definition mock_logMsg (msg : text) (p : ConnectImpl) : ConnectImpl :=
  {| ci_env := ci_env p; ci_orders := ci_orders p; ci_sent := ci_sent p; ci_log := ci_log p ++ [msg];
     ci_inited := ci_inited p; ci_last_error := ci_last_error p |}.

(** [ticks_[id]] creates an empty tick for an unknown symbol. *)
Definition mock_getMtick (id : Z) (p : ConnectImpl) : MTICK :=
  default MTICK_new (ce_ticks (ci_env p) !! id).

Definition mock_getDprLow (id : Z) (p : ConnectImpl) : Z :=
  match ce_dpr (ci_env p) !! id with Some (lo, _) => lo | None => 0 end.

Definition mock_getDprHigh (id : Z) (p : ConnectImpl) : Z :=
  match ce_dpr (ci_env p) !! id with Some (_, hi) => hi | None => Z.shiftl 1 30 end.

Definition mock_getMaxInventory (id : Z) (p : ConnectImpl) : Z :=
  match ce_max_inv (ci_env p) !! id with Some lots => lots | None => Z.shiftl 1 20 end.

Definition mock_getInventory (id : Z) (p : ConnectImpl) : Z :=
  match ce_inventory (ci_env p) !! id with Some n => n | None => 0 end.

Definition mock_getSymInfo (id : Z) (p : ConnectImpl) : option (gmap text text) :=
  ce_syminfo (ci_env p) !! id.

Definition mock_readGConfig (key : text) (p : ConnectImpl) : option text :=
  ce_gconfig (ci_env p) !! key.

#[global] Instance connect_platform : Platform ConnectImpl := {
  running p := ce_running (ci_env p);
  getSeconds p := ce_seconds (ci_env p);
  getTotalOps p := ce_total_ops (ci_env p);
  getOpsConsumed p := ce_ops_consumed (ci_env p);
  getMtick := mock_getMtick;
  getInventory := mock_getInventory;
  getMaxInventory := mock_getMaxInventory;
  getDprLow := mock_getDprLow;
  getDprHigh := mock_getDprHigh;
  getStandingOrder := mock_getStandingOrder;
  sendOrder := mock_sendOrder;
  getErrorCode := ci_last_error;
  getError p := ErrorName (ci_last_error p);
  logMsg := mock_logMsg;
  getSymInfo := mock_getSymInfo;
  init := mock_init;
  readGConfig := mock_readGConfig
}.

(** ** Order slots *)

Lemma slot_at_write k k' slot err sent p :
  slot_at k' (write_slot k slot err sent p) = if decide (k = k') then slot else slot_at k' p.
Proof.
  unfold slot_at. cbn. case_decide as E; [subst; by rewrite lookup_insert_eq|].
  by rewrite lookup_insert_ne.
Qed.

(** Every call writes one slot and nothing the strategy can see of the market. *)
Lemma sendOrder_writes q ioc p :
  exists slot err sent,
    (mock_sendOrder q ioc p).1 = write_slot (Key (q_symId q) (q_side q) (q_index q)) slot err sent p.
Proof. unfold mock_sendOrder. repeat case_match; cbn; eauto. Qed.

#[global] Instance connect_laws : PlatformLaws ConnectImpl.
Proof.
  split.
  - intros q ioc p id. cbn. destruct (sendOrder_writes q ioc p) as (slot & err & sent & ->). done.
  - done.
Qed.

Lemma lor_byte a b : 0 <= b < 2 ^ 8 -> Z.lor (Z.shiftl a 8) b = a * 2 ^ 8 + b.
Proof.
  intros Hb. assert (Z.land (Z.shiftl a 8) b = 0) as H0.
  { apply Z.bits_inj'. intros i Hi. rewrite Z.land_spec, Z.bits_0.
    destruct (Z.lt_ge_cases i 8); [by rewrite Z.shiftl_spec_low by lia|].
    rewrite <- (Z.mod_small b (2 ^ 8)), Z.mod_pow2_bits_high by lia. apply andb_false_r. }
  rewrite <- Z.lxor_lor, <- Z.add_nocarry_lxor by done. by rewrite Z.shiftl_mul_pow2.
Qed.

Lemma Key_eq id side index :
  0 <= index < 2 ^ 8 -> Key id side index = id * 2 ^ 16 + side_code side * 2 ^ 8 + index.
Proof.
  intros Hi. unfold Key.
  replace (Z.shiftl id 16) with (Z.shiftl (Z.shiftl id 8) 8) by (rewrite Z.shiftl_shiftl by lia; done).
  rewrite <- Z.shiftl_lor, lor_byte by done.
  rewrite lor_byte by (destruct side; cbn; lia). lia.
Qed.

(** Distinct symbols, sides and levels never share a slot. *)
Lemma Key_inj id side index id' side' index' :
  0 <= index < 2 ^ 8 -> 0 <= index' < 2 ^ 8 ->
  Key id side index = Key id' side' index' -> id = id' /\ side = side' /\ index = index'.
Proof.
  intros Hi Hi'. rewrite !Key_eq by done.
  destruct side, side'; cbn [side_code]; intros; split_and!; try done; lia.
Qed.
