(* ===== verification/ConnectSlots.v ===== *)
(** * ConnectSlots: the order slots of the repository's platform
      (irage/mock/ConnectHeader.h)

    The remaining operations of [ConnectImpl]: its configuration and the three
    single-purpose order calls.  [connect_run] plays any sequence of calls.  The
    contract of an order slot, the NEW / RPL / CXL automaton of the API document, is
    [Life]: what one order does in isolation.  The theorem shows that under any calls,
    of whatever symbols and sides interleaved, every slot is its own automaton. *)

From Stdlib Require Import ZArith Lia Ascii String.
From stdpp Require Import base gmap numbers option list.
From S2P Require Import Prelude Text Connect.

Local Open Scope Z_scope.

(** ** Configuration *)

Definition with_env (f : ConnectEnv -> ConnectEnv) (p : ConnectImpl) : ConnectImpl :=
  {| ci_env := f (ci_env p); ci_orders := ci_orders p; ci_sent := ci_sent p; ci_log := ci_log p;
     ci_inited := ci_inited p; ci_last_error := ci_last_error p |}.

Definition test_setMtick (t : MTICK) : ConnectImpl -> ConnectImpl := with_env (fun e =>
  {| ce_ticks := <[mt_id t := t]> (ce_ticks e); ce_dpr := ce_dpr e; ce_inventory := ce_inventory e;
     ce_max_inv := ce_max_inv e; ce_max_ord := ce_max_ord e; ce_max_tgt := ce_max_tgt e;
     ce_syminfo := ce_syminfo e; ce_gconfig := ce_gconfig e; ce_running := ce_running e;
     ce_ops_consumed := ce_ops_consumed e; ce_total_ops := ce_total_ops e; ce_seconds := ce_seconds e |}).

Definition test_setRunning (r : bool) : ConnectImpl -> ConnectImpl := with_env (fun e =>
  {| ce_ticks := ce_ticks e; ce_dpr := ce_dpr e; ce_inventory := ce_inventory e;
     ce_max_inv := ce_max_inv e; ce_max_ord := ce_max_ord e; ce_max_tgt := ce_max_tgt e;
     ce_syminfo := ce_syminfo e; ce_gconfig := ce_gconfig e; ce_running := r;
     ce_ops_consumed := ce_ops_consumed e; ce_total_ops := ce_total_ops e; ce_seconds := ce_seconds e |}).

Definition test_setDpr (id lo hi : Z) : ConnectImpl -> ConnectImpl := with_env (fun e =>
  {| ce_ticks := ce_ticks e; ce_dpr := <[id := (lo, hi)]> (ce_dpr e); ce_inventory := ce_inventory e;
     ce_max_inv := ce_max_inv e; ce_max_ord := ce_max_ord e; ce_max_tgt := ce_max_tgt e;
     ce_syminfo := ce_syminfo e; ce_gconfig := ce_gconfig e; ce_running := ce_running e;
     ce_ops_consumed := ce_ops_consumed e; ce_total_ops := ce_total_ops e; ce_seconds := ce_seconds e |}).

Definition test_setInventory (id inv : Z) : ConnectImpl -> ConnectImpl := with_env (fun e =>
  {| ce_ticks := ce_ticks e; ce_dpr := ce_dpr e; ce_inventory := <[id := inv]> (ce_inventory e);
     ce_max_inv := ce_max_inv e; ce_max_ord := ce_max_ord e; ce_max_tgt := ce_max_tgt e;
     ce_syminfo := ce_syminfo e; ce_gconfig := ce_gconfig e; ce_running := ce_running e;
     ce_ops_consumed := ce_ops_consumed e; ce_total_ops := ce_total_ops e; ce_seconds := ce_seconds e |}).

Definition test_setSymInfo (id : Z) (m : gmap text text) : ConnectImpl -> ConnectImpl := with_env (fun e =>
  {| ce_ticks := ce_ticks e; ce_dpr := ce_dpr e; ce_inventory := ce_inventory e;
     ce_max_inv := ce_max_inv e; ce_max_ord := ce_max_ord e; ce_max_tgt := ce_max_tgt e;
     ce_syminfo := <[id := m]> (ce_syminfo e); ce_gconfig := ce_gconfig e; ce_running := ce_running e;
     ce_ops_consumed := ce_ops_consumed e; ce_total_ops := ce_total_ops e; ce_seconds := ce_seconds e |}).

Definition test_setSeconds (s : Z) : ConnectImpl -> ConnectImpl := with_env (fun e =>
  {| ce_ticks := ce_ticks e; ce_dpr := ce_dpr e; ce_inventory := ce_inventory e;
     ce_max_inv := ce_max_inv e; ce_max_ord := ce_max_ord e; ce_max_tgt := ce_max_tgt e;
     ce_syminfo := ce_syminfo e; ce_gconfig := ce_gconfig e; ce_running := ce_running e;
     ce_ops_consumed := ce_ops_consumed e; ce_total_ops := ce_total_ops e; ce_seconds := s |}).

Definition test_setGConfig (k v : text) : ConnectImpl -> ConnectImpl := with_env (fun e =>
  {| ce_ticks := ce_ticks e; ce_dpr := ce_dpr e; ce_inventory := ce_inventory e;
     ce_max_inv := ce_max_inv e; ce_max_ord := ce_max_ord e; ce_max_tgt := ce_max_tgt e;
     ce_syminfo := ce_syminfo e; ce_gconfig := <[k := v]> (ce_gconfig e); ce_running := ce_running e;
     ce_ops_consumed := ce_ops_consumed e; ce_total_ops := ce_total_ops e; ce_seconds := ce_seconds e |}).

Definition test_setOps (consumed total : Z) : ConnectImpl -> ConnectImpl := with_env (fun e =>
  {| ce_ticks := ce_ticks e; ce_dpr := ce_dpr e; ce_inventory := ce_inventory e;
     ce_max_inv := ce_max_inv e; ce_max_ord := ce_max_ord e; ce_max_tgt := ce_max_tgt e;
     ce_syminfo := ce_syminfo e; ce_gconfig := ce_gconfig e; ce_running := ce_running e;
     ce_ops_consumed := consumed; ce_total_ops := total; ce_seconds := ce_seconds e |}).

(** The three limits share one shape; an absent entry reads as [1 << 20]. *)
Definition with_limits (ord inv tgt : gmap Z Z -> gmap Z Z) : ConnectImpl -> ConnectImpl := with_env (fun e =>
  {| ce_ticks := ce_ticks e; ce_dpr := ce_dpr e; ce_inventory := ce_inventory e;
     ce_max_inv := inv (ce_max_inv e); ce_max_ord := ord (ce_max_ord e); ce_max_tgt := tgt (ce_max_tgt e);
     ce_syminfo := ce_syminfo e; ce_gconfig := ce_gconfig e; ce_running := ce_running e;
     ce_ops_consumed := ce_ops_consumed e; ce_total_ops := ce_total_ops e; ce_seconds := ce_seconds e |}).

Definition setMaxOrdSize (id lots : Z) := with_limits <[id := lots]> (fun m => m) (fun m => m).
Definition setMaxInventory (id lots : Z) := with_limits (fun m => m) <[id := lots]> (fun m => m).
(** The side is ignored: one target limit serves both. *)
Definition setMaxTarget (id : Z) (_ : enOrdSide) (lots : Z) := with_limits (fun m => m) (fun m => m) <[id := lots]>.

Definition getMaxOrdSize (id : Z) (p : ConnectImpl) : Z :=
  match ce_max_ord (ci_env p) !! id with Some lots => lots | None => Z.shiftl 1 20 end.

Definition getMaxTarget (id : Z) (_ : enOrdSide) (p : ConnectImpl) : Z :=
  match ce_max_tgt (ci_env p) !! id with Some lots => lots | None => Z.shiftl 1 20 end.

Definition getNanoSeconds (p : ConnectImpl) : Z := i64 (ce_seconds (ci_env p) * 1000000000).

(** ** The single-purpose order calls *)

Definition sendNewLimitOrder (q : Quote) (p : ConnectImpl) : ConnectImpl * bool := mock_sendOrder q false p.
Definition sendReplaceOrder (q : Quote) (p : ConnectImpl) : ConnectImpl * bool := mock_sendOrder q false p.

Definition cancel_quote (q : Quote) : Quote :=
  {| q_symId := q_symId q; q_price := 0; q_qty := 0; q_side := q_side q; q_index := q_index q;
     q_minPriceChange := q_minPriceChange q |}.

Definition sendCxlOrder (q : Quote) (p : ConnectImpl) : ConnectImpl * bool :=
  mock_sendOrder (cancel_quote q) false p.

(** The quote [getStandingOrder] and [getPendingOrder] write through their pointer. *)
Definition standing_quote (id : Z) (side : enOrdSide) (index : Z) (p : ConnectImpl) : option Quote :=
  slot ← ci_orders p !! Key id side index;
  if decide (sl_state slot = NO_ORDER) then None else Some (sl_quote slot).

(** ** Sequences of calls *)

Inductive ConnectOp :=
  | SetMtick (t : MTICK) | SetRunning (r : bool) | SetDpr (id lo hi : Z) | SetInventory (id inv : Z)
  | SetSymInfo (id : Z) (m : gmap text text) | SetSeconds (s : Z) | SetGConfig (k v : text)
  | SetOps (consumed total : Z) | SetMaxOrdSize (id lots : Z) | SetMaxInventory (id lots : Z)
  | SetMaxTarget (id : Z) (side : enOrdSide) (lots : Z)
  | Init (cfg : gmap Z text) | LogMsg (msg : text) | AckAll
  | SendOrder (q : Quote) (ioc : bool) | SendNewLimitOrder (q : Quote) | SendReplaceOrder (q : Quote)
  | SendCxlOrder (q : Quote).

Definition connect_step (p : ConnectImpl) (op : ConnectOp) : ConnectImpl :=
  match op with
  | SetMtick t => test_setMtick t p
  | SetRunning r => test_setRunning r p
  | SetDpr id lo hi => test_setDpr id lo hi p
  | SetInventory id inv => test_setInventory id inv p
  | SetSymInfo id m => test_setSymInfo id m p
  | SetSeconds s => test_setSeconds s p
  | SetGConfig k v => test_setGConfig k v p
  | SetOps c t => test_setOps c t p
  | SetMaxOrdSize id lots => setMaxOrdSize id lots p
  | SetMaxInventory id lots => setMaxInventory id lots p
  | SetMaxTarget id side lots => setMaxTarget id side lots p
  | Init cfg => mock_init cfg p
  | LogMsg msg => mock_logMsg msg p
  | AckAll => test_ackAll p
  | SendOrder q ioc => (mock_sendOrder q ioc p).1
  | SendNewLimitOrder q => (sendNewLimitOrder q p).1
  | SendReplaceOrder q => (sendReplaceOrder q p).1
  | SendCxlOrder q => (sendCxlOrder q p).1
  end.

Definition connect_run (ops : list ConnectOp) : ConnectImpl :=
  foldl connect_step (ConnectImpl_new ConnectEnv_new) ops.

(** ** The contract of one slot *)

(** Nothing in the market; a new order in flight; an order at the exchange, and the
    same with a replacement (whose quote it already shows) or a cancel in flight. *)
Inductive Life := Idle | Entering (q : Quote) | Resting (q : Quote) | Amending (q : Quote) | Cancelling (q : Quote).

Definition life_state (l : Life) : enOrdState :=
  match l with
  | Idle => NO_ORDER
  | Entering _ => UNACKED
  | Resting _ => STANDING_ACKED
  | Amending _ | Cancelling _ => STANDING_UNACKED
  end.

Definition life_quote (l : Life) : option Quote :=
  match l with Idle => None | Entering q | Resting q | Amending q | Cancelling q => Some q end.

Definition is_cancel (q : Quote) : bool := (q_price q =? 0) || (q_qty q =? 0).

(** A replacement that changes nothing, or the price by less than the quote asks for. *)
Definition no_change (old q : Quote) : bool :=
  (q_price old =? q_price q) && (q_qty old =? q_qty q) ||
  (q_minPriceChange q >? 0) && (Z.abs (i32 (q_price q - q_price old)) <? q_minPriceChange q).

(** What a request does: the next state and the kind of the message sent, or an error. *)
Definition life_send (q : Quote) (ioc : bool) (l : Life) : Life * (ascii + Z) :=
  match l with
  | Idle =>
      if is_cancel q then (l, inr E_NO_ORDER)
      else (if ioc then Idle else Entering q, inl "N"%char)
  | Resting old =>
      if is_cancel q then (Cancelling old, inl "X"%char)
      else if no_change old q then (l, inr E_SAME_ORD)
      else (Amending q, inl "R"%char)
  | _ => (l, inr E_NO_ACK)
  end.

Definition life_ack (l : Life) : Life :=
  match l with Entering q | Amending q => Resting q | Cancelling _ => Idle | _ => l end.

(** The slot of [ops] on its own: its state and the messages sent for it. *)
Definition request (op : ConnectOp) : option (Quote * bool) :=
  match op with
  | SendOrder q ioc => Some (q, ioc)
  | SendNewLimitOrder q | SendReplaceOrder q => Some (q, false)
  | SendCxlOrder q => Some (cancel_quote q, false)
  | _ => None
  end.

Definition addressed (id : Z) (side : enOrdSide) (index : Z) (q : Quote) : Prop :=
  q_symId q = id /\ q_side q = side /\ q_index q = index.

#[global] Instance addressed_dec id side index q : Decision (addressed id side index q).
Proof. unfold addressed. apply _. Defined.

Definition life_step (id : Z) (side : enOrdSide) (index : Z) (s : Life * list SentOrder) (op : ConnectOp)
    : Life * list SentOrder :=
  match op, request op with
  | AckAll, _ => (life_ack s.1, s.2)
  | _, Some (q, ioc) =>
      if decide (addressed id side index q) then
        match life_send q ioc s.1 with
        | (l, inl t) => (l, s.2 ++ [{| so_quote := q; so_ioc := ioc; so_type := t |}])
        | (l, inr _) => (l, s.2)
        end
      else s
  | _, None => s
  end.

Definition life_run (id : Z) (side : enOrdSide) (index : Z) (ops : list ConnectOp) : Life * list SentOrder :=
  foldl (life_step id side index) (Idle, []) ops.

(** ** Every slot is its automaton *)

Definition life_of (slot : OrderSlot) : Life :=
  match sl_state slot with
  | NO_ORDER => Idle
  | UNACKED => Entering (sl_quote slot)
  | STANDING_ACKED => Resting (sl_quote slot)
  | STANDING_UNACKED => if sl_pending_cancel slot then Cancelling (sl_quote slot) else Amending (sl_quote slot)
  end.

Definition slot_wf (slot : OrderSlot) : Prop := sl_pending_cancel slot = true -> sl_state slot = STANDING_UNACKED.

(** How [sendOrder] answers, against the automaton of its slot. *)
Record answered (q : Quote) (ioc : bool) (p p' : ConnectImpl) (ok : bool) (a : ascii + Z) : Prop := {
  an_ok : ok = match a with inl _ => true | inr _ => false end;
  an_error : ci_last_error p' = match a with inl _ => E_OK | inr e => e end;
  an_sent : ci_sent p' = ci_sent p ++
    match a with inl t => [{| so_quote := q; so_ioc := ioc; so_type := t |}] | inr _ => [] end;
}.

Lemma sendOrder_refines q ioc p :
  let k := Key (q_symId q) (q_side q) (q_index q) in
  slot_wf (slot_at k p) ->
  slot_wf (slot_at k (mock_sendOrder q ioc p).1) /\
  life_of (slot_at k (mock_sendOrder q ioc p).1) = (life_send q ioc (life_of (slot_at k p))).1 /\
  answered q ioc p (mock_sendOrder q ioc p).1 (mock_sendOrder q ioc p).2 (life_send q ioc (life_of (slot_at k p))).2.
Proof.
  cbv zeta. intros Hwf. unfold mock_sendOrder. fold (is_cancel q).
  set (k := Key _ _ _) in *. destruct (slot_at k p) as [q0 st pc] eqn:Hs.
  unfold life_of, life_send, no_change, slot_wf in *. cbn [sl_state sl_quote sl_pending_cancel] in *.
  destruct st, pc; try (by specialize (Hwf eq_refl)); destruct (is_cancel q), ioc;
    try destruct ((q_price q0 =? q_price q) && _); try destruct ((q_minPriceChange q >? 0) && _);
    cbn [orb fst snd]; rewrite slot_at_write, decide_True by done;
    (split; [done|]); (split; [done|]); constructor; cbn; by rewrite ?app_nil_r.
Qed.

Lemma sendOrder_elsewhere q ioc p k :
  Key (q_symId q) (q_side q) (q_index q) <> k -> slot_at k (mock_sendOrder q ioc p).1 = slot_at k p.
Proof.
  intros Hk. destruct (sendOrder_writes q ioc p) as (slot & err & sent & ->).
  by rewrite slot_at_write, decide_False.
Qed.

Lemma ackAll_refines k p :
  slot_wf (slot_at k p) ->
  slot_wf (slot_at k (test_ackAll p)) /\ life_of (slot_at k (test_ackAll p)) = life_ack (life_of (slot_at k p)).
Proof.
  unfold slot_at, test_ackAll, life_of, slot_wf. cbn [ci_orders]. rewrite lookup_fmap.
  destruct (ci_orders p !! k) as [[q [] []]|]; cbn; intros Hwf; try done; by specialize (Hwf eq_refl).
Qed.

Section Slot.
Context (id : Z) (side : enOrdSide) (index : Z) (Hindex : 0 <= index < 2 ^ 8).

Definition sent_for (p : ConnectImpl) : list SentOrder :=
  filter (fun s => addressed id side index (so_quote s)) (ci_sent p).

Record tracks (p : ConnectImpl) (s : Life * list SentOrder) : Prop := {
  tk_wf : slot_wf (slot_at (Key id side index) p);
  tk_life : life_of (slot_at (Key id side index) p) = s.1;
  tk_sent : sent_for p = s.2;
}.

Lemma tracks_send q ioc p s :
  0 <= q_index q < 2 ^ 8 -> tracks p s ->
  tracks (mock_sendOrder q ioc p).1 (life_step id side index s (SendOrder q ioc)).
Proof.
  intros Hq [H1 H2 H3]. cbn [life_step request].
  case_decide as Ha.
  - assert (Key (q_symId q) (q_side q) (q_index q) = Key id side index) as E by (by destruct Ha as (-> & -> & ->)).
    destruct (sendOrder_refines q ioc p) as (W & L & [_ _ S]); rewrite ?E in *; [done|].
    rewrite H2 in L, S. revert L S. destruct (life_send q ioc s.1) as [l [t|e]]; cbn [fst snd]; intros L S;
      (constructor; [done|done|]); unfold sent_for in *; rewrite S, filter_app, H3; [|by rewrite filter_nil, app_nil_r].
    by rewrite filter_cons_True by done.
  - assert (Key (q_symId q) (q_side q) (q_index q) <> Key id side index) as Hk.
    { intros E. apply Key_inj in E; [|done|done]. by apply Ha. }
    constructor; [by rewrite sendOrder_elsewhere|by rewrite sendOrder_elsewhere|].
    rewrite <- H3. unfold sent_for, mock_sendOrder. repeat case_match; cbn; rewrite filter_app;
      rewrite ?filter_cons_False by done; by rewrite filter_nil, app_nil_r.
Qed.

Lemma tracks_step op p s :
  from_option (fun r => 0 <= q_index r.1 < 2 ^ 8) True (request op) ->
  tracks p s -> tracks (connect_step p op) (life_step id side index s op).
Proof.
  intros Hq Hp. destruct op; try (destruct Hp; constructor; assumption).
  - destruct Hp as [H1 H2 H3]. destruct (ackAll_refines _ _ H1) as [W L].
    constructor; [exact W|cbn; by rewrite L, H2|exact H3].
  - exact (tracks_send q ioc p s Hq Hp).
  - exact (tracks_send q false p s Hq Hp).
  - exact (tracks_send q false p s Hq Hp).
  - exact (tracks_send (cancel_quote q) false p s Hq Hp).
Qed.

Lemma tracks_run ops :
  Forall (fun op => from_option (fun r => 0 <= q_index r.1 < 2 ^ 8) True (request op)) ops ->
  tracks (connect_run ops) (life_run id side index ops).
Proof.
  intros Hops. unfold connect_run, life_run.
  assert (forall p s, tracks p s -> tracks (foldl connect_step p ops) (foldl (life_step id side index) s ops)) as H.
  { induction Hops as [|op ops Hop Hops IH]; intros p s Hp; cbn [foldl]; [done|]. by apply IH, tracks_step. }
  apply H. by constructor.
Qed.
End Slot.

Lemma pending_state id side index p : getPendingOrder id side index p = sl_state (slot_at (Key id side index) p).
Proof. unfold getPendingOrder, slot_at. by destruct (_ !! _). Qed.

Lemma life_of_reads slot :
  life_state (life_of slot) = sl_state slot /\
  life_quote (life_of slot) = if decide (sl_state slot = NO_ORDER) then None else Some (sl_quote slot).
Proof. destruct slot as [q [] []]; done. Qed.

(** C40.  Each order slot of the platform is the NEW / RPL / CXL automaton of the API
    document, on its own.  After any sequence of calls (configuration, acknowledgements,
    orders of any symbols, sides and levels interleaved), the state, the standing order
    and the quote read for a symbol, side and level, and the messages sent for it, are
    those of the automaton run on the requests of that slot alone, and the answer and
    error code of the next request for it are the automaton's. *)
Theorem order_slots_refine ops id side index :
  0 <= index < 2 ^ 8 ->
  Forall (fun op => from_option (fun r => 0 <= q_index r.1 < 2 ^ 8) True (request op)) ops ->
  let p := connect_run ops in
  let l := (life_run id side index ops).1 in
  getPendingOrder id side index p = life_state l /\
  standing_quote id side index p = life_quote l /\
  mock_getStandingOrder id side index p = bool_decide (life_state l <> NO_ORDER) /\
  sent_for id side index p = (life_run id side index ops).2 /\
  forall q ioc, addressed id side index q ->
    answered q ioc p (mock_sendOrder q ioc p).1 (mock_sendOrder q ioc p).2 (life_send q ioc l).2.
Proof.
  intros Hi Hops. cbv zeta. destruct (tracks_run id side index Hi ops Hops) as [W L S].
  rewrite <- L. destruct (life_of_reads (slot_at (Key id side index) (connect_run ops))) as [R1 R2].
  rewrite R1, R2, pending_state. split; [done|]. split; [|split; [|split; [done|]]].
  - unfold standing_quote, slot_at. by destruct (_ !! _).
  - unfold mock_getStandingOrder, slot_at. by destruct (_ !! _).
  - intros q ioc (<- & <- & <-). by apply sendOrder_refines.
Qed.

(** ** A run: a new order, one of the other side, both acknowledged, the first cancelled *)

Definition run_quote (side : enOrdSide) (price : Z) : Quote :=
  {| q_symId := 46483; q_price := price; q_qty := 15; q_side := side; q_index := 0; q_minPriceChange := 0 |}.

Definition run_ops : list ConnectOp :=
  [SetRunning true; SendNewLimitOrder (run_quote SIDE_BUY 100); SendOrder (run_quote SIDE_SELL 105) false;
   SendReplaceOrder (run_quote SIDE_BUY 101); AckAll; SendCxlOrder (run_quote SIDE_BUY 100)].

Lemma order_slots_refine_witness :
  getPendingOrder 46483 SIDE_BUY 0 (connect_run run_ops) = STANDING_UNACKED /\
  getPendingOrder 46483 SIDE_SELL 0 (connect_run run_ops) = STANDING_ACKED /\
  so_type <$> sent_for 46483 SIDE_BUY 0 (connect_run run_ops) = ["N"%char; "X"%char].
Proof.
  assert (Forall (fun op => from_option (fun r => 0 <= q_index r.1 < 2 ^ 8) True (request op)) run_ops) as H
    by (repeat constructor; vm_compute; congruence).
  destruct (order_slots_refine run_ops 46483 SIDE_BUY 0 ltac:(lia) H) as (B1 & _ & _ & B2 & _).
  destruct (order_slots_refine run_ops 46483 SIDE_SELL 0 ltac:(lia) H) as (S1 & _).
  rewrite B1, S1, B2. split; [reflexivity|]. split; reflexivity.
Defined.
