(* ===== verification/Irage.v ===== *)
(** * Irage: the market maker on the ConnectLib platform (irage/mystrat.cpp, mystrat.h)

    [strat_1] with its callbacks over an arbitrary [Platform].  A callback runs to
    its end before the next one starts; the reads of the platform inside one
    callback see one state, which only [sendOrder], [logMsg] and [init] change. *)

From Stdlib Require Import ZArith Lia Ascii String SpecFloat.
From stdpp Require Import base gmap numbers option list.
From S2P Require Import Prelude Types Double Text Quoting Connect.

Local Open Scope Z_scope.
Local Open Scope lowlat_scope.

Definition kMaxSymbols : Z := 16.
Definition kMaxConsecutiveRejects : Z := 3.
(** The literal [0.8]. *)
Definition kOpsHeadroom : spec_float := dbl_div (dbl 8) (dbl 10).

Record SymState := {
  ss_id : Z;
  ss_tick_size : Z;
  ss_lot_size : Z;
  ss_rejects_buy : Z;
  ss_rejects_sell : Z;
  ss_last_mid : Z;
  ss_last_bid_quote : Z;
  ss_last_ask_quote : Z
}.

Definition SymState_new : SymState :=
  {| ss_id := 0; ss_tick_size := 1; ss_lot_size := 1; ss_rejects_buy := 0; ss_rejects_sell := 0;
     ss_last_mid := 0; ss_last_bid_quote := 0; ss_last_ask_quote := 0 |}.

Record strat_1 := {
  st_max_spread_ticks : Z;
  st_inv_skew_ticks : Z;
  st_flow_skew_ticks : Z;
  st_quote_lots : Z;
  st_preclose_ist_sod : Z;
  st_sym_count : Z;
  st_syms : list SymState;
  st_cash_paise : Z;
  st_fills : Z;
  st_orders_sent : Z;
  st_killed : bool;
  st_metrics_path : text
}.

Definition strat_1_new : strat_1 :=
  {| st_max_spread_ticks := 3; st_inv_skew_ticks := 2; st_flow_skew_ticks := 1; st_quote_lots := 1;
     st_preclose_ist_sod := 15 * 3600 + 25 * 60; st_sym_count := 0;
     st_syms := replicate (Z.to_nat kMaxSymbols) SymState_new;
     st_cash_paise := 0; st_fills := 0; st_orders_sent := 0; st_killed := false;
     st_metrics_path := [] |}.

(** ** Field updates *)

Definition set_syms (n : Z) (syms : list SymState) (st : strat_1) : strat_1 :=
  {| st_max_spread_ticks := st_max_spread_ticks st; st_inv_skew_ticks := st_inv_skew_ticks st;
     st_flow_skew_ticks := st_flow_skew_ticks st; st_quote_lots := st_quote_lots st;
     st_preclose_ist_sod := st_preclose_ist_sod st; st_sym_count := n; st_syms := syms;
     st_cash_paise := st_cash_paise st; st_fills := st_fills st; st_orders_sent := st_orders_sent st;
     st_killed := st_killed st; st_metrics_path := st_metrics_path st |}.

Definition set_counters (cash fills sent : Z) (st : strat_1) : strat_1 :=
  {| st_max_spread_ticks := st_max_spread_ticks st; st_inv_skew_ticks := st_inv_skew_ticks st;
     st_flow_skew_ticks := st_flow_skew_ticks st; st_quote_lots := st_quote_lots st;
     st_preclose_ist_sod := st_preclose_ist_sod st; st_sym_count := st_sym_count st;
     st_syms := st_syms st; st_cash_paise := cash; st_fills := fills; st_orders_sent := sent;
     st_killed := st_killed st; st_metrics_path := st_metrics_path st |}.

Definition set_tunables (spread inv flow lots : Z) (kill : bool) (st : strat_1) : strat_1 :=
  {| st_max_spread_ticks := spread; st_inv_skew_ticks := inv;
     st_flow_skew_ticks := flow; st_quote_lots := lots;
     st_preclose_ist_sod := st_preclose_ist_sod st; st_sym_count := st_sym_count st;
     st_syms := st_syms st; st_cash_paise := st_cash_paise st; st_fills := st_fills st;
     st_orders_sent := st_orders_sent st; st_killed := kill; st_metrics_path := st_metrics_path st |}.

Definition set_metrics_path (path : text) (st : strat_1) : strat_1 :=
  {| st_max_spread_ticks := st_max_spread_ticks st; st_inv_skew_ticks := st_inv_skew_ticks st;
     st_flow_skew_ticks := st_flow_skew_ticks st; st_quote_lots := st_quote_lots st;
     st_preclose_ist_sod := st_preclose_ist_sod st; st_sym_count := st_sym_count st;
     st_syms := st_syms st; st_cash_paise := st_cash_paise st; st_fills := st_fills st;
     st_orders_sent := st_orders_sent st; st_killed := st_killed st; st_metrics_path := path |}.

Definition set_rejects (buy sell : Z) (s : SymState) : SymState :=
  {| ss_id := ss_id s; ss_tick_size := ss_tick_size s; ss_lot_size := ss_lot_size s;
     ss_rejects_buy := buy; ss_rejects_sell := sell; ss_last_mid := ss_last_mid s;
     ss_last_bid_quote := ss_last_bid_quote s; ss_last_ask_quote := ss_last_ask_quote s |}.

Definition set_marks (mid bid ask : Z) (s : SymState) : SymState :=
  {| ss_id := ss_id s; ss_tick_size := ss_tick_size s; ss_lot_size := ss_lot_size s;
     ss_rejects_buy := ss_rejects_buy s; ss_rejects_sell := ss_rejects_sell s; ss_last_mid := mid;
     ss_last_bid_quote := bid; ss_last_ask_quote := ask |}.

(** The slots the loops [for (i = 0; i < sym_count; ++i)] visit. *)
Definition active (st : strat_1) : list SymState := take (Z.to_nat (st_sym_count st)) (st_syms st).

(** [FindSym]: the first active slot of the symbol, as an index. *)
Definition FindSym (id : Z) (st : strat_1) : option nat :=
  fst <$> list_find (fun s => ss_id s = id) (active st).

Definition update_sym (id : Z) (f : SymState -> SymState) (st : strat_1) : strat_1 :=
  match FindSym id st with
  | None => st
  | Some i => set_syms (st_sym_count st) (alter f i (st_syms st)) st
  end.

Section Strategy.
Context {P : Type} `{Platform P}.

(** ** Start-up

    The flag is false when the call throws; the writes before the throw stay. *)

Definition read_symbol (id : Z) (p : P) (s : SymState) : SymState * bool :=
  match getSymInfo id p with
  | None => (s, false)
  | Some info =>
      let s := {| ss_id := id; ss_tick_size := ss_tick_size s; ss_lot_size := ss_lot_size s;
                  ss_rejects_buy := ss_rejects_buy s; ss_rejects_sell := ss_rejects_sell s;
                  ss_last_mid := ss_last_mid s; ss_last_bid_quote := ss_last_bid_quote s;
                  ss_last_ask_quote := ss_last_ask_quote s |} in
      match stoi (default [] (info !! lit "tick_size")) with
      | None => (s, false)
      | Some tick =>
          let with_tick tick lot :=
            {| ss_id := id; ss_tick_size := tick; ss_lot_size := lot;
               ss_rejects_buy := ss_rejects_buy s; ss_rejects_sell := ss_rejects_sell s;
               ss_last_mid := ss_last_mid s; ss_last_bid_quote := ss_last_bid_quote s;
               ss_last_ask_quote := ss_last_ask_quote s |} in
          match stoi (default [] (info !! lit "lot_size")) with
          | None => (with_tick tick (ss_lot_size s), false)
          | Some lot =>
              (with_tick (if tick <=? 0 then 1 else tick) (if lot <=? 0 then 1 else lot), true)
          end
      end
  end.

Fixpoint read_symbols (cfg : gmap Z text) (p : P) (i : Z) (ss : list SymState)
    : list SymState * bool :=
  match ss with
  | [] => ([], true)
  | s :: ss =>
      match stol (default [] (cfg !! (751 + i))) with
      | None => (s :: ss, false)
      | Some id =>
          let '(s, ok) := read_symbol (i32 id) p s in
          if ok then let '(ss, ok) := read_symbols cfg p (i + 1) ss in (s :: ss, ok)
          else (s :: ss, false)
      end
  end.

Definition initialize (cfg : gmap Z text) (st : strat_1) (p : P) : strat_1 * P * bool :=
  match stoi (default [] (cfg !! 16)) with
  | None => (st, p, false)
  | Some n =>
      let n := if n >? kMaxSymbols then kMaxSymbols else n in
      let '(ss, ok) := read_symbols cfg p 0 (take (Z.to_nat n) (st_syms st)) in
      let st := set_syms n (ss ++ drop (Z.to_nat n) (st_syms st)) st in
      if negb ok then (st, p, false)
      else
        let p := init cfg p in
        match readGConfig (lit "MetricsJsonlPath") p with
        | Some path => (set_metrics_path path st, p, true)
        | None => (st, p, true)
        end
  end.

(** ** Quoting *)

Definition IstSecondsOfDay (p : P) : Z := i32 ((getSeconds p + 19800) %c 86400).

Definition top (l : list Z) : Z := default 0 (head l).

Definition sanityCheck (t : MTICK) : bool := (top (mt_bid_size t) >? 0) && (top (mt_ask_size t) >? 0).

(** [sent] is [orders_sent]. *)
Definition QuoteSide (s : SymState) (side : enOrdSide) (price qty sent : Z) (p : P) : P * Z * bool :=
  let q := {| q_symId := ss_id s; q_price := price; q_qty := qty; q_side := side; q_index := 0;
              q_minPriceChange := ss_tick_size s |} in
  let '(p, ok) := sendOrder q false p in
  if ok then (p, i64 (sent + 1), true)
  else
    let err := getErrorCode p in
    if negb (err =? E_NO_ACK) && negb (err =? E_SAME_ORD)
    then (logMsg (lit "sendOrder failed: " ++ getError p) p, sent, false)
    else (p, sent, false).

Definition CancelSide (s : SymState) (side : enOrdSide) (p : P) : P :=
  if negb (getStandingOrder (ss_id s) side 0 p) then p
  else
    (sendOrder {| q_symId := ss_id s; q_price := 0; q_qty := 0; q_side := side; q_index := 0;
                  q_minPriceChange := 0 |} false p).1.

Definition CancelAll (st : strat_1) (p : P) : P :=
  foldl (fun p s => CancelSide s SIDE_SELL (CancelSide s SIDE_BUY p)) p (active st).

Definition ops_limit (total_ops : Z) : Z :=
  default 0 (dbl_to_size (dbl_mul (dbl total_ops) kOpsHeadroom)).

Definition ops_ok (p : P) : bool :=
  let total_ops := getTotalOps p in
  (total_ops <=? 0) || (getOpsConsumed p <? ops_limit total_ops).

(** The DPR clamp of the two sides. *)
Definition dpr_bid (lo hi tick bid_px : Z) : Z * bool :=
  if (hi >? 0) && (hi >? lo) then
    let bid_px := if bid_px <? lo then i32 (i32 (i32 (i32 (lo + tick) - 1) /c tick) * tick)
                  else bid_px in
    (bid_px, negb (bid_px >? hi))
  else (bid_px, true).

Definition dpr_ask (lo hi tick ask_px : Z) : Z * bool :=
  if (hi >? 0) && (hi >? lo) then
    let ask_px := if ask_px >? hi then i32 ((hi /c tick) * tick) else ask_px in
    (ask_px, negb (ask_px <? lo))
  else (ask_px, true).

(** One side at the end of the loop body: quote, cancel, or (out of message budget)
    leave as it is; the new last quote is returned. *)
Definition work_side (s : SymState) (side : enOrdSide) (side_ok ops : bool) (px qty last sent : Z)
    (p : P) : P * Z * Z :=
  if side_ok && ops then
    let '(p, sent, ok) := QuoteSide s side px qty sent p in (p, sent, if ok then px else last)
  else if negb side_ok then (CancelSide s side p, sent, 0)
  else (p, sent, last).

(** The body of the loop over the symbols. *)
Definition quote_symbol (st : strat_1) (ops : bool) (s : SymState) (sent : Z) (p : P)
    : SymState * Z * P :=
  let t := getMtick (ss_id s) p in
  if (top (mt_bid_size t) <=? 0) || (top (mt_ask_size t) <=? 0) then
    (s, sent, CancelSide s SIDE_SELL (CancelSide s SIDE_BUY p))
  else
    let best_bid := top (mt_bid t) in
    let best_ask := top (mt_ask t) in
    let s := set_marks (i32 (best_bid + best_ask) /c 2) (ss_last_bid_quote s) (ss_last_ask_quote s) s in
    if i32 (best_ask - best_bid) >? i32 (st_max_spread_ticks st * ss_tick_size s) then
      (s, sent, CancelSide s SIDE_SELL (CancelSide s SIDE_BUY p))
    else
      let position := getInventory (ss_id s) p in
      let max_pos_units := i64 (getMaxInventory (ss_id s) p * ss_lot_size s) in
      let dq := desired_quotes best_bid best_ask (ss_tick_size s) (top (mt_bid_size t))
                  (top (mt_ask_size t)) position max_pos_units (st_inv_skew_ticks st)
                  (st_flow_skew_ticks st) in
      let dpr_lo := getDprLow (ss_id s) p in
      let dpr_hi := getDprHigh (ss_id s) p in
      let '(bid_px, bid_ok) := dpr_bid dpr_lo dpr_hi (ss_tick_size s) (i32 (dq_bid_price dq)) in
      let '(ask_px, ask_ok) := dpr_ask dpr_lo dpr_hi (ss_tick_size s) (i32 (dq_ask_price dq)) in
      let bid_ok := bid_ok && negb ((max_pos_units >? 0) && (position >=? max_pos_units)) in
      let ask_ok := ask_ok && negb ((max_pos_units >? 0) && (position <=? - max_pos_units)) in
      let bid_ok := bid_ok && negb (ss_rejects_buy s >=? kMaxConsecutiveRejects) in
      let ask_ok := ask_ok && negb (ss_rejects_sell s >=? kMaxConsecutiveRejects) in
      let qty := i32 (st_quote_lots st * ss_lot_size s) in
      let '(p, sent, bid) := work_side s SIDE_BUY bid_ok ops bid_px qty (ss_last_bid_quote s) sent p in
      let '(p, sent, ask) := work_side s SIDE_SELL ask_ok ops ask_px qty (ss_last_ask_quote s) sent p in
      (set_marks (ss_last_mid s) bid ask s, sent, p).

Fixpoint quote_loop (st : strat_1) (ops : bool) (ss : list SymState) (sent : Z) (p : P)
    : list SymState * Z * P :=
  match ss with
  | [] => ([], sent, p)
  | s :: ss =>
      let '(s, sent, p) := quote_symbol st ops s sent p in
      let '(ss, sent, p) := quote_loop st ops ss sent p in (s :: ss, sent, p)
  end.

Definition onMarketData (st : strat_1) (p : P) : strat_1 * P * Z :=
  if negb (running p) then (st, p, 1)
  else if st_killed st then (st, CancelAll st p, 1)
  else if IstSecondsOfDay p >=? st_preclose_ist_sod st then (st, CancelAll st p, 0)
  else
    let '(ss, sent, p) := quote_loop st (ops_ok p) (active st) (st_orders_sent st) p in
    let st := set_syms (st_sym_count st) (ss ++ drop (Z.to_nat (st_sym_count st)) (st_syms st)) st in
    (set_counters (st_cash_paise st) (st_fills st) sent st, p, 0).

(** ** Exchange responses *)

Definition is_buy (e : EXEC_REPORT) : bool := er_orderSide e =? side_code SIDE_BUY.

Definition clear_rejects (e : EXEC_REPORT) (s : SymState) : SymState :=
  if is_buy e then set_rejects 0 (ss_rejects_sell s) s else set_rejects (ss_rejects_buy s) 0 s.

Definition onAck (e : EXEC_REPORT) (st : strat_1) : strat_1 :=
  update_sym (er_securityId e) (clear_rejects e) st.

Definition onExec (e : EXEC_REPORT) (st : strat_1) : strat_1 :=
  let notional := i64 (er_fillQty e * er_price e) in
  let cash := i64 (if is_buy e then st_cash_paise st - notional else st_cash_paise st + notional) in
  update_sym (er_securityId e) (clear_rejects e)
    (set_counters cash (i64 (st_fills st + 1)) (st_orders_sent st) st).

Definition onCxl (e : EXEC_REPORT) (st : strat_1) : strat_1 := st.

Definition count_reject (e : EXEC_REPORT) (s : SymState) : SymState :=
  if is_buy e then set_rejects (i32 (ss_rejects_buy s + 1)) (ss_rejects_sell s) s
  else set_rejects (ss_rejects_buy s) (i32 (ss_rejects_sell s + 1)) s.

Definition onRej (e : EXEC_REPORT) (st : strat_1) (p : P) : strat_1 * P :=
  match FindSym (er_securityId e) st with
  | None => (st, p)
  | Some _ =>
      (update_sym (er_securityId e) (count_reject e) st,
       logMsg (lit "REJ sym=" ++ dec (er_securityId e) ++ lit " side=" ++ dec (er_orderSide e) ++
               lit " code=" ++ dec (er_rejCode e)) p)
  end.

Definition onRplRej := onRej.
Definition onLighteningRej := onRej.

(** ** The blotter *)

(** [ui_flids]: the fields the blotter sets, and those it shows. *)
Definition kMaxSpreadTicks : Z := 9800.
Definition kInvSkewTicks : Z := 9801.
Definition kFlowSkewTicks : Z := 9802.
Definition kQuoteLots : Z := 9803.
Definition kKillSwitch : Z := 9804.
Definition kPosition : Z := 9810.
Definition kBidQuote : Z := 9811.
Definition kAskQuote : Z := 9812.
Definition kFills : Z := 9813.
Definition kPnlPaise : Z := 9814.

Definition update_entry (key : Z) (val : text) (st : strat_1) : option strat_1 :=
  let sp := st_max_spread_ticks st in let inv := st_inv_skew_ticks st in
  let fl := st_flow_skew_ticks st in let lots := st_quote_lots st in
  if key =? kMaxSpreadTicks then v ← stoi val; Some (set_tunables v inv fl lots (st_killed st) st)
  else if key =? kInvSkewTicks then v ← stoi val; Some (set_tunables sp v fl lots (st_killed st) st)
  else if key =? kFlowSkewTicks then v ← stoi val; Some (set_tunables sp inv v lots (st_killed st) st)
  else if key =? kQuoteLots then v ← stoi val; Some (set_tunables sp inv fl v (st_killed st) st)
  else if key =? kKillSwitch then v ← stoi val; Some (set_tunables sp inv fl lots (negb (v =? 0)) st)
  else Some st.


(** The entries in key order; the flag is false when a value is no number, and the
    entries before it stay applied. *)
Fixpoint update (entries : list (Z * text)) (st : strat_1) : strat_1 * bool :=
  match entries with
  | [] => (st, true)
  | (key, val) :: entries =>
      match update_entry key val st with None => (st, false) | Some st => update entries st end
  end.

Definition ui_field (key v : Z) : text := dec key ++ lit "=" ++ dec v ++ lit "^".

Definition ui_pnl (symbol_id : Z) (s : SymState) (st : strat_1) (p : P) : Z :=
  i64 (st_cash_paise st + i64 (getInventory symbol_id p * ss_last_mid s)).

Definition getUIData (symbol_id : Z) (st : strat_1) (p : P) : text :=
  match FindSym symbol_id st ≫= fun i => st_syms st !! i with
  | None => []
  | Some s =>
      ui_field kPosition (getInventory symbol_id p) ++ ui_field kBidQuote (ss_last_bid_quote s) ++
      ui_field kAskQuote (ss_last_ask_quote s) ++ ui_field kFills (st_fills st) ++
      ui_field kPnlPaise (ui_pnl symbol_id s st p)
  end.

(** Cash plus every active symbol's inventory at its last mid, in paise. *)
Definition portfolio_pnl (st : strat_1) (p : P) : Z :=
  let mark := foldl (fun a s => i64 (a + i64 (getInventory (ss_id s) p * ss_last_mid s))) 0
                (active st) in
  i64 (st_cash_paise st + mark).

(** The line [onTimerUpdate] appends to the metrics file, if one is configured. *)
Definition onTimerUpdate (st : strat_1) (p : P) : option text :=
  match st_metrics_path st with
  | [] => None
  | _ =>
      let position := foldl (fun a s => i64 (a + getInventory (ss_id s) p)) 0 (active st) in
      let pnl_inr := portfolio_pnl st p /c 100 in
      let key s := "034"%char :: lit s ++ ["034"%char; ":"%char] in
      Some (lit "{" ++ key "t"%string ++ dec (getSeconds p) ++
        lit "," ++ key "events"%string ++ lit "0" ++
        lit "," ++ key "orders_sent"%string ++ dec (st_orders_sent st) ++
        lit "," ++ key "orders_rejected"%string ++ lit "0" ++
        lit "," ++ key "fills"%string ++ dec (st_fills st) ++
        lit "," ++ key "position"%string ++ dec position ++
        lit "," ++ key "pnl_inr"%string ++ dec pnl_inr ++
        lit "," ++ key "lat_p50"%string ++ lit "0" ++ lit "," ++ key "lat_p99"%string ++ lit "0" ++
        lit "," ++ key "lat_p999"%string ++ lit "0}" ++ ["010"%char])
  end.
End Strategy.

(** ** Configured strategies *)

Record sym_ok (s : SymState) : Prop := {
  sy_tick : 0 < ss_tick_size s < 2 ^ 31;
  sy_lot : 0 < ss_lot_size s < 2 ^ 31
}.

Record strat_ok (st : strat_1) : Prop := {
  so_count : st_sym_count st <= kMaxSymbols;
  so_slots : length (st_syms st) = Z.to_nat kMaxSymbols;
  so_syms : Forall sym_ok (active st)
}.

(** What the platform can do to a strategy it has initialised: call its callbacks in
    any order, each on any state of the platform. *)
Inductive configured {P} `{Platform P} : strat_1 -> Prop :=
| cf_initialize cfg p st p' :
    initialize cfg strat_1_new p = (st, p', true) -> configured st
| cf_market st p : configured st -> configured (onMarketData st p).1.1
| cf_ack st e : configured st -> configured (onAck e st)
| cf_exec st e : configured st -> configured (onExec e st)
| cf_cxl st e : configured st -> configured (onCxl e st)
| cf_rej st e p : configured st -> configured (onRej e st p).1
| cf_update st entries : configured st -> configured (update entries st).1.

Section Configured.
Context {P : Type} `{Platform P}.

Lemma stoi_range val n : stoi val = Some n -> in_s 32 n.
Proof.
  unfold stoi. destruct (stol val) as [z|]; cbn; [|done]. by case_bool_decide; intros [= <-].
Qed.

Lemma read_symbol_ok id (p : P) s s' : read_symbol id p s = (s', true) -> sym_ok s'.
Proof.
  unfold read_symbol. destruct (getSymInfo id p) as [info|]; [|done].
  destruct (stoi (default [] (info !! lit "tick_size"))) as [tick|] eqn:Ht; [|done].
  destruct (stoi (default [] (info !! lit "lot_size"))) as [lot|] eqn:Hl; [|done].
  apply stoi_range in Ht, Hl. intros [= <-]. split; cbn; case_if; ranges.
Qed.

Lemma read_symbols_ok cfg (p : P) ss i ss' ok :
  read_symbols cfg p i ss = (ss', ok) ->
  length ss' = length ss /\ (ok = true -> Forall sym_ok ss').
Proof.
  revert i ss' ok. induction ss as [|s ss IH]; intros i ss' ok; cbn.
  - by intros [= <- <-].
  - destruct (stol _) as [id|]; [|by intros [= <- <-]].
    destruct (read_symbol _ p s) as [s' ok1] eqn:E. destruct ok1; [|by intros [= <- <-]].
    destruct (read_symbols cfg p (i + 1) ss) as [ss1 ok2] eqn:E'. intros [= <- <-].
    destruct (IH _ _ _ E') as [Hl Hok]. cbn. split; [by rewrite Hl|].
    intros ->. constructor; [by eapply read_symbol_ok|auto].
Qed.

Lemma initialize_ok cfg (p : P) st p' :
  initialize cfg strat_1_new p = (st, p', true) -> strat_ok st.
Proof.
  unfold initialize. destruct (stoi _) as [n|]; [|done].
  set (m := if n >? kMaxSymbols then kMaxSymbols else n).
  assert (m <= kMaxSymbols) as Hm by (unfold m; case_if; lia).
  destruct (read_symbols cfg p 0 _) as [ss ok] eqn:E. apply read_symbols_ok in E as [Hlen Hok].
  destruct ok; cbn [negb]; [|done]. specialize (Hok eq_refl).
  assert (Z.to_nat m <= Z.to_nat kMaxSymbols)%nat as Hm' by lia.
  rewrite length_take, Nat.min_l in Hlen
    by (cbn [st_syms strat_1_new]; rewrite length_replicate; exact Hm').
  assert (strat_ok (set_syms m (ss ++ drop (Z.to_nat m) (st_syms strat_1_new)) strat_1_new)) as Hst.
  { split; cbn [set_syms st_sym_count st_syms]; [done| |].
    - rewrite length_app, length_drop, Hlen. cbn [st_syms strat_1_new]. rewrite length_replicate. lia.
    - unfold active. cbn [set_syms st_sym_count st_syms]. by rewrite take_app_length'. }
  destruct (readGConfig _ _); intros [= <- <-]; destruct Hst; by split.
Qed.

(** A write to one slot that keeps what was configured. *)
Lemma update_sym_ok id f st :
  (forall s, sym_ok s -> sym_ok (f s)) -> strat_ok st -> strat_ok (update_sym id f st).
Proof.
  intros Hf [H1 H2 H3]. unfold update_sym. destruct (FindSym id st) as [i|]; [|done].
  split; cbn [set_syms st_sym_count st_syms]; [done|by rewrite length_alter|].
  unfold active in *. cbn [set_syms st_sym_count st_syms].
  rewrite Forall_lookup in H3 |- *. intros j s Hj.
  apply lookup_take_Some in Hj as [Hj Hlt]. destruct (decide (i = j)) as [->|].
  - rewrite list_lookup_alter, decide_True in Hj by done. apply fmap_Some in Hj as (s0 & Hs0 & ->).
    apply Hf, (H3 j). by apply lookup_take_Some.
  - rewrite list_lookup_alter_ne in Hj by done. apply (H3 j). by apply lookup_take_Some.
Qed.

Lemma set_rejects_ok buy sell s : sym_ok s -> sym_ok (set_rejects buy sell s).
Proof. by intros []. Qed.

Lemma set_marks_ok mid bid ask s : sym_ok s -> sym_ok (set_marks mid bid ask s).
Proof. by intros []. Qed.

Lemma quote_symbol_ok st ops s sent (p : P) : sym_ok s -> sym_ok (quote_symbol st ops s sent p).1.1.
Proof.
  intros Hs. unfold quote_symbol. cbv zeta. repeat case_match; simplify_eq/=; auto using set_marks_ok.
Qed.

Lemma quote_loop_ok st ops ss sent (p : P) :
  Forall sym_ok ss ->
  Forall sym_ok (quote_loop st ops ss sent p).1.1 /\
  length (quote_loop st ops ss sent p).1.1 = length ss.
Proof.
  intros Hss. revert sent p. induction Hss as [|s ss Hs Hss IH]; intros sent p; [done|].
  cbn [quote_loop]. pose proof (quote_symbol_ok st ops s sent p Hs) as Hq.
  destruct (quote_symbol st ops s sent p) as [[s' sent'] p']. specialize (IH sent' p').
  destruct (quote_loop st ops ss sent' p') as [[ss' sent''] p'']. cbn in *.
  destruct IH as [? IHl]. split; [by constructor|by rewrite IHl].
Qed.

Lemma onMarketData_ok st (p : P) : strat_ok st -> strat_ok (onMarketData st p).1.1.
Proof.
  intros Hst. unfold onMarketData. repeat (case_if; [done|]). cbv zeta.
  destruct Hst as [H1 H2 H3].
  destruct (quote_loop_ok st (ops_ok p) (active st) (st_orders_sent st) p H3) as [Hok Hlen].
  destruct (quote_loop _ _ _ _ _) as [[ss sent] p'] eqn:E. cbn [fst snd] in *.
  assert (length ss = Z.to_nat (st_sym_count st)) as Hss.
  { rewrite Hlen. unfold active. rewrite length_take, H2. lia. }
  split; cbn; [done| |].
  - rewrite length_app, length_drop. lia.
  - unfold active. cbn [set_counters set_syms st_sym_count st_syms]. by rewrite take_app_length'.
Qed.

Lemma update_ok entries st : strat_ok st -> strat_ok (update entries st).1.
Proof.
  revert st. induction entries as [|[key val] entries IH]; intros st Hst; [done|]. cbn [update].
  destruct (update_entry key val st) as [st'|] eqn:E; [|done]. apply IH. revert E.
  unfold update_entry. cbv zeta. destruct Hst as [H1 H2 H3].
  repeat case_match; try (intros [= <-]; done).
  all: destruct (stoi val); cbn; [intros [= <-]|done]; by split.
Qed.

(** C37.  Whatever the platform calls and in whatever order, an initialised strategy
    keeps at most [kMaxSymbols] symbols in its [kMaxSymbols] slots, each with a
    positive tick and lot size: no callback divides by a zero tick or indexes past
    the array. *)
Theorem configured_strategy_ok st : configured (P := P) st -> strat_ok st.
Proof.
  induction 1 as [cfg p st p' Hi|st p _ IH|st e _ IH|st e _ IH|st e _ IH|st e p _ IH|st entries _ IH].
  - by eapply initialize_ok.
  - by apply onMarketData_ok.
  - apply update_sym_ok; [|done]. intros s. unfold clear_rejects. case_if; apply set_rejects_ok.
  - apply update_sym_ok; [|by destruct IH]. intros s. unfold clear_rejects. case_if; apply set_rejects_ok.
  - done.
  - unfold onRej. destruct (FindSym _ _); [|done]. apply update_sym_ok; [|done].
    intros s. unfold count_reject. case_if; apply set_rejects_ok.
  - by apply update_ok.
Qed.
End Configured.

(** ** What the strategy sends *)

Section Sends.
Context {P : Type} `{PlatformLaws P}.
Implicit Types (r : Recorded P).

(** Between [r] and [r'] the market looks the same and every order given to the
    platform satisfies [Q]. *)
Definition emits (Q : P * Quote -> Prop) r r' : Prop :=
  same_market (rec_now r) (rec_now r') /\
  exists l, rec_log r' = rec_log r ++ l /\ Forall Q l.

Lemma emits_refl Q r : emits Q r r.
Proof. split; [reflexivity|]. exists []. by rewrite app_nil_r. Qed.

Lemma emits_trans Q r1 r2 r3 : emits Q r1 r2 -> emits Q r2 r3 -> emits Q r1 r3.
Proof.
  intros [Hm1 (l1 & E1 & H1)] [Hm2 (l2 & E2 & H2)]. split; [by etrans|].
  exists (l1 ++ l2). rewrite E2, E1, <- app_assoc. split; [done|]. by apply Forall_app.
Qed.

Lemma emits_impl (Q Q' : P * Quote -> Prop) r r' :
  (forall e, Q e -> Q' e) -> emits Q r r' -> emits Q' r r'.
Proof. intros HQ [Hm (l & E & Hl)]. split; [done|]. exists l. split; [done|]. by eapply Forall_impl. Qed.

Lemma emits_send (Q : P * Quote -> Prop) q ioc r : Q (rec_now r, q) -> emits Q r (sendOrder q ioc r).1.
Proof.
  intros HQ. cbn. pose proof (sendOrder_market q ioc (rec_now r)) as Hm.
  destruct (sendOrder q ioc (rec_now r)) as [p ok]. cbn. split; [done|]. exists [(rec_now r, q)].
  split; [done|]. by constructor.
Qed.

Lemma emits_log Q msg r : emits Q r (logMsg msg r).
Proof. split; [apply logMsg_market|]. exists []. cbn. by rewrite app_nil_r. Qed.

(** A cancel: of an active symbol, and only of a standing order. *)
Definition is_cancel (s : SymState) (e : P * Quote) : Prop :=
  q_symId e.2 = ss_id s /\ q_index e.2 = 0 /\ q_price e.2 = 0 /\ q_qty e.2 = 0 /\
  getStandingOrder (ss_id s) (q_side e.2) 0 e.1 = true.

Lemma CancelSide_emits s side r : emits (is_cancel s) r (CancelSide s side r).
Proof.
  unfold CancelSide. case_if; [apply emits_refl|]. apply emits_send. by split_and!.
Qed.

Lemma cancel_both_emits s r :
  emits (is_cancel s) r (CancelSide s SIDE_SELL (CancelSide s SIDE_BUY r)).
Proof. eapply emits_trans; apply CancelSide_emits. Qed.

Lemma QuoteSide_emits (Q : P * Quote -> Prop) s side price qty sent r :
  Q (rec_now r, {| q_symId := ss_id s; q_price := price; q_qty := qty; q_side := side; q_index := 0;
                   q_minPriceChange := ss_tick_size s |}) ->
  emits Q r (QuoteSide s side price qty sent r).1.1.
Proof.
  intros HQ. unfold QuoteSide. apply (emits_send Q _ false) in HQ. revert HQ.
  destruct (sendOrder _ false r) as [r' ok]. intros HQ. cbn [fst] in HQ.
  repeat case_if; cbn [fst]; try done. eapply emits_trans; [exact HQ|apply emits_log].
Qed.

(** The position and reject gates of a side. *)
Definition side_open (side : enOrdSide) (s : SymState) (position max_pos : Z) : Prop :=
  match side with
  | SIDE_BUY => (0 < max_pos -> position < max_pos) /\ ss_rejects_buy s < kMaxConsecutiveRejects
  | SIDE_SELL => (0 < max_pos -> - max_pos < position) /\ ss_rejects_sell s < kMaxConsecutiveRejects
  end.

(** What holds of a quote for the symbol [s] when the market is that of [p0]. *)
Record is_quote (st : strat_1) (p0 : P) (s : SymState) (e : P * Quote) : Prop := {
  iq_id : q_symId e.2 = ss_id s;
  iq_index : q_index e.2 = 0;
  iq_qty : q_qty e.2 = i32 (st_quote_lots st * ss_lot_size s);
  iq_churn : q_minPriceChange e.2 = ss_tick_size s;
  iq_tick : sanityCheck (getMtick (ss_id s) p0) = true;
  iq_spread : i32 (top (mt_ask (getMtick (ss_id s) p0)) - top (mt_bid (getMtick (ss_id s) p0))) <=
              i32 (st_max_spread_ticks st * ss_tick_size s);
  iq_dpr : 0 < getDprHigh (ss_id s) p0 -> getDprLow (ss_id s) p0 < getDprHigh (ss_id s) p0 ->
           getDprLow (ss_id s) p0 <= q_price e.2 <= getDprHigh (ss_id s) p0;
  iq_side : side_open (q_side e.2) s (getInventory (ss_id s) p0)
              (i64 (getMaxInventory (ss_id s) p0 * ss_lot_size s))
}.

(** The daily price range is one the clamp can work with. *)
Definition dpr_sane (p0 : P) (s : SymState) : Prop :=
  0 <= getDprLow (ss_id s) p0 /\ getDprLow (ss_id s) p0 + ss_tick_size s < 2 ^ 31 /\
  getDprHigh (ss_id s) p0 < 2 ^ 31.

Lemma dpr_bid_spec lo hi tick px px' :
  0 < tick -> 0 <= lo -> lo + tick < 2 ^ 31 -> dpr_bid lo hi tick px = (px', true) ->
  0 < hi -> lo < hi -> lo <= px' <= hi.
Proof.
  intros Ht Hlo Hsum E Hhi Hlt. unfold dpr_bid in E.
  rewrite (proj2 (Z.gtb_lt _ _) Hhi), (proj2 (Z.gtb_lt _ _) Hlt) in E. cbn [andb] in E. cbv zeta in E.
  injection E as E1 E2. rewrite E1 in E2. bool_arith. split; [|done]. rewrite <- E1. clear E1 E2.
  case_if; [|done].
  rewrite (wrap_s_id 32 (lo + tick)), (wrap_s_id 32 (lo + tick - 1)) by ranges.
  pose proof (Z.quot_rem (lo + tick - 1) tick ltac:(lia)) as Hq.
  pose proof (Z.rem_bound_pos (lo + tick - 1) tick ltac:(lia) Ht).
  assert (0 <= Z.quot (lo + tick - 1) tick <= lo + tick - 1)
    by (split; [apply Z.quot_pos; lia|apply Z.quot_le_upper_bound; nia]).
  rewrite (wrap_s_id 32 (Z.quot _ _)) by ranges. rewrite wrap_s_id by ranges. lia.
Qed.

Lemma dpr_ask_spec lo hi tick px px' :
  0 < tick -> hi < 2 ^ 31 -> dpr_ask lo hi tick px = (px', true) ->
  0 < hi -> lo < hi -> lo <= px' <= hi.
Proof.
  intros Ht Hmax E Hhi Hlt. unfold dpr_ask in E.
  rewrite (proj2 (Z.gtb_lt _ _) Hhi), (proj2 (Z.gtb_lt _ _) Hlt) in E. cbn [andb] in E. cbv zeta in E.
  injection E as E1 E2. rewrite E1 in E2. bool_arith. split; [done|]. rewrite <- E1. clear E1 E2.
  case_if; [|done].
  pose proof (Z.quot_rem hi tick ltac:(lia)) as Hq. pose proof (Z.rem_bound_pos hi tick ltac:(lia) Ht).
  assert (0 <= Z.quot hi tick) by (apply Z.quot_pos; lia).
  rewrite wrap_s_id by ranges. lia.
Qed.

Lemma work_side_emits (Q : P * Quote -> Prop) s side side_ok ops px qty last sent r :
  (forall e, is_cancel s e -> Q e) ->
  (side_ok = true -> ops = true -> forall p,
     Q (p, {| q_symId := ss_id s; q_price := px; q_qty := qty; q_side := side; q_index := 0;
              q_minPriceChange := ss_tick_size s |})) ->
  emits Q r (work_side s side side_ok ops px qty last sent r).1.1.
Proof.
  intros Hc Hq. unfold work_side. destruct side_ok, ops; cbn [andb negb].
  - pose proof (QuoteSide_emits Q s side px qty sent r (Hq eq_refl eq_refl _)) as HE.
    by destruct (QuoteSide _ _ _ _ _ _) as [[? ?] ?].
  - apply emits_refl.
  - eapply emits_impl; [exact Hc|]. apply CancelSide_emits.
  - eapply emits_impl; [exact Hc|]. apply CancelSide_emits.
Qed.

(** A gate test that failed to close the side. *)
Lemma gate_open (a b : bool) : a && negb b = true -> a = true /\ b = false.
Proof. by destruct a, b. Qed.

Lemma buy_gate s pos max ok :
  ok && negb ((max >? 0) && (pos >=? max)) && negb (ss_rejects_buy s >=? kMaxConsecutiveRejects) = true ->
  ok = true /\ side_open SIDE_BUY s pos max.
Proof.
  intros H1. apply gate_open in H1 as [H1 Hr]. apply gate_open in H1 as [-> Hp]. split; [done|].
  split; bool_arith; [|lia]. intros Hmax. destruct Hp as [Hp|Hp]; bool_arith; lia.
Qed.

Lemma sell_gate s pos max ok :
  ok && negb ((max >? 0) && (pos <=? - max)) && negb (ss_rejects_sell s >=? kMaxConsecutiveRejects) = true ->
  ok = true /\ side_open SIDE_SELL s pos max.
Proof.
  intros H1. apply gate_open in H1 as [H1 Hr]. apply gate_open in H1 as [-> Hp]. split; [done|].
  split; bool_arith; [|lia]. intros Hmax. destruct Hp as [Hp|Hp]; bool_arith; lia.
Qed.

Lemma quote_symbol_emits st ops s sent r (p0 : P) :
  sym_ok s -> dpr_sane p0 s -> same_market p0 (rec_now r) ->
  emits (fun e => is_cancel s e \/ (ops = true /\ is_quote st p0 s e)) r
    (quote_symbol st ops s sent r).2.
Proof.
  intros [Ht _] (Hlo & Hsum & Hhi) Hm. unfold quote_symbol. cbv zeta.
  destruct (Hm (ss_id s)) as (Hmt & Hin & Hmx & Hdl & Hdh). cbn [getMtick getInventory getMaxInventory
    getDprLow getDprHigh recorded_platform]. rewrite <- Hmt.
  set (t := getMtick (ss_id s) p0).
  destruct (_ || _) eqn:Hsane.
  { cbn [snd]. eapply emits_impl; [|apply cancel_both_emits]. auto. }
  set (s1 := set_marks _ _ _ s).
  assert (forall e, is_cancel s1 e -> is_cancel s e) as Hc by done.
  case_if.
  { cbn [snd]. eapply emits_impl; [|apply cancel_both_emits]. auto. }
  change (ss_id s1) with (ss_id s). rewrite <- Hin, <- Hmx, <- Hdl, <- Hdh.
  destruct (dpr_bid _ _ _ _) as [bid_px bid_ok] eqn:Ebid.
  destruct (dpr_ask _ _ _ _) as [ask_px ask_ok] eqn:Eask.
  assert (sanityCheck t = true) as Hsc.
  { unfold sanityCheck. bool_arith. apply andb_true_iff. split; apply Z.gtb_lt; lia. }
  match goal with |- context [work_side s1 SIDE_BUY ?ok ops bid_px ?qty ?last sent r] =>
    pose proof (work_side_emits (fun e => is_cancel s e \/ (ops = true /\ is_quote st p0 s e))
      s1 SIDE_BUY ok ops bid_px qty last sent r) as Hb end.
  destruct (work_side s1 SIDE_BUY _ _ _ _ _ _ r) as [[r1 sent1] bid].
  match goal with |- context [work_side s1 SIDE_SELL ?ok ops ask_px ?qty ?last sent1 r1] =>
    pose proof (work_side_emits (fun e => is_cancel s e \/ (ops = true /\ is_quote st p0 s e))
      s1 SIDE_SELL ok ops ask_px qty last sent1 r1) as Hs end.
  destruct (work_side s1 SIDE_SELL _ _ _ _ _ _ r1) as [[r2 sent2] ask].
  cbn [fst snd] in *. eapply emits_trans; [apply Hb|apply Hs]; auto; clear Hb Hs.
  - intros Hg Hops p. apply buy_gate in Hg as [-> Hopen]. right. split; [done|].
    split; cbn; try done. by apply (dpr_bid_spec _ _ _ _ _ (proj1 Ht) Hlo Hsum Ebid).
  - intros Hg Hops p. apply sell_gate in Hg as [-> Hopen]. right. split; [done|].
    split; cbn; try done. by apply (dpr_ask_spec _ _ _ _ _ (proj1 Ht) Hhi Eask).
Qed.

Lemma quote_loop_emits st ops ss sent r (p0 : P) :
  Forall sym_ok ss -> Forall (dpr_sane p0) ss -> same_market p0 (rec_now r) ->
  emits (fun e => exists s, s ∈ ss /\ (is_cancel s e \/ (ops = true /\ is_quote st p0 s e))) r
    (quote_loop st ops ss sent r).2.
Proof.
  revert sent r. induction ss as [|s ss IH]; intros sent r Hok Hdpr Hm; [apply emits_refl|].
  apply Forall_cons_1 in Hok as [Hs Hok]. apply Forall_cons_1 in Hdpr as [Hd Hdpr]. cbn [quote_loop].
  pose proof (quote_symbol_emits st ops s sent r p0 Hs Hd Hm) as H1.
  destruct (quote_symbol st ops s sent r) as [[s' sent'] r1]. cbn [snd] in H1.
  pose proof (IH sent' r1 Hok Hdpr ltac:(etrans; [exact Hm|apply H1])) as H2.
  destruct (quote_loop st ops ss sent' r1) as [[ss' sent''] r2]. cbn [snd] in *.
  eapply emits_trans.
  - eapply emits_impl; [|exact H1]. intros e He. exists s. split; [by left|done].
  - eapply emits_impl; [|exact H2]. intros e (s0 & Hin & He). exists s0. split; [by right|done].
Qed.

Lemma CancelAll_emits st r :
  emits (fun e => exists s, s ∈ active st /\ is_cancel s e) r (CancelAll st r).
Proof.
  unfold CancelAll. revert r. induction (active st) as [|s ss IH]; intros r; [apply emits_refl|].
  cbn [foldl]. eapply emits_trans.
  - eapply emits_impl; [|apply cancel_both_emits]. intros e He. exists s. split; [by left|done].
  - eapply emits_impl; [|apply IH]. intros e (s0 & Hin & He). exists s0. split; [by right|done].
Qed.

(** The conditions under which the strategy may place or replace an order at all. *)
Definition may_quote (st : strat_1) (p : P) : Prop :=
  st_killed st = false /\ IstSecondsOfDay p < st_preclose_ist_sod st /\ ops_ok p = true.

(** C38.  On every platform, everything [onMarketData] hands to [sendOrder] is either
    the cancel of an order standing for an active symbol, or a quote for one sent
    while the strategy is neither killed nor past the pre-close time and the message
    budget has headroom: on a two-sided book, within the maximum spread, for the
    configured lots, inside the daily price range, on a side that is neither at its
    position limit nor backed off after rejects.  A stopped platform is sent nothing. *)
Theorem market_data_orders_sound st (p : P) :
  strat_ok st -> Forall (dpr_sane p) (active st) ->
  let log := rec_log (onMarketData st {| rec_now := p; rec_log := [] |}).1.2 in
  (running p = false -> log = []) /\
  Forall (fun e => exists s, s ∈ active st /\
            (is_cancel s e \/ (may_quote st p /\ is_quote st p s e))) log.
Proof.
  intros Hst Hdpr. set (r := {| rec_now := p; rec_log := [] |}). cbv zeta. unfold onMarketData.
  change (running r) with (running p). change (IstSecondsOfDay r) with (IstSecondsOfDay p).
  change (ops_ok r) with (ops_ok p).
  destruct (running p) eqn:Hrun; cbn [negb]; [|by split]. split; [done|].
  assert (emits (fun e => exists s, s ∈ active st /\ is_cancel s e) r (CancelAll st r)) as Hc
    by apply CancelAll_emits.
  destruct (st_killed st) eqn:Hk; [|destruct (IstSecondsOfDay p >=? _) eqn:Ht].
  1,2: destruct Hc as [_ (l & E & Hl)]; cbn [fst snd]; rewrite E; cbn [rec_log r app]; eapply Forall_impl; [exact Hl|].
  1,2: intros e (s & Hin & He); exists s; auto.
  bool_arith.
  pose proof (quote_loop_emits st (ops_ok p) (active st) (st_orders_sent st) r p
    (so_syms st Hst) Hdpr ltac:(reflexivity)) as Hq.
  destruct (quote_loop _ _ _ _ _) as [[ss sent] r']. cbn [fst snd] in *.
  destruct Hq as [_ (l & -> & Hl)]. cbn [rec_log r app]. eapply Forall_impl; [exact Hl|].
  intros e (s & Hin & [He|[Hops He]]); exists s; [by auto|]. split; [done|]. right.
  split; [|done]. by split_and!.
Qed.
End Sends.

(** ** A concrete session: one symbol, tick 5, lot 15, limit 10 lots, 10:00 IST *)

Definition demo_info : gmap text text :=
  {[lit "tick_size" := lit "5"; lit "lot_size" := lit "15"]}.

Definition demo_tick (bid ask : Z) : MTICK :=
  {| mt_id := 46483; mt_bid := [bid; 0; 0; 0; 0]; mt_ask := [ask; 0; 0; 0; 0];
     mt_bid_size := [100; 0; 0; 0; 0]; mt_ask_size := [100; 0; 0; 0; 0]; mt_seq_num := 0;
     mt_last_side := "-"; mt_last_type := "N"; mt_ltp := 0; mt_ltq := 0; mt_hw_tstamp := 0;
     mt_publish_tstamp := 0 |}.

Definition demo_platform (bid ask inventory lo hi : Z) : ConnectImpl :=
  ConnectImpl_new
    {| ce_ticks := {[46483 := demo_tick bid ask]}; ce_dpr := {[46483 := (lo, hi)]};
       ce_inventory := {[46483 := inventory]}; ce_max_inv := {[46483 := 10]}; ce_max_ord := ∅; ce_max_tgt := ∅;
       ce_syminfo := {[46483 := demo_info]}; ce_gconfig := ∅; ce_running := true;
       ce_ops_consumed := 0; ce_total_ops := 1000; ce_seconds := 10 * 3600 - 19800 |}.

Definition demo_config : gmap Z text := {[16 := lit "1"; 751 := lit "46483"]}.

Definition demo_symbol : SymState :=
  {| ss_id := 46483; ss_tick_size := 5; ss_lot_size := 15; ss_rejects_buy := 0; ss_rejects_sell := 0;
     ss_last_mid := 0; ss_last_bid_quote := 0; ss_last_ask_quote := 0 |}.

Definition demo_strategy : strat_1 := set_syms 1 (demo_symbol :: replicate 15 SymState_new) strat_1_new.

Lemma demo_initialize :
  initialize demo_config strat_1_new (demo_platform 0 0 0 0 0) =
    (demo_strategy, mock_init demo_config (demo_platform 0 0 0 0 0), true).
Proof. vm_compute. reflexivity. Qed.

Lemma configured_strategy_ok_witness : strat_ok demo_strategy /\ active demo_strategy = [demo_symbol].
Proof.
  split; [|reflexivity].
  exact (configured_strategy_ok _ (cf_initialize _ _ _ _ demo_initialize)).
Defined.

(** Quotes go out one tick outside the touch and inside the price range. *)
Lemma market_data_orders_sound_witness :
  let log := rec_log (onMarketData demo_strategy
                        {| rec_now := demo_platform 7200 7210 0 7000 7400; rec_log := [] |}).1.2 in
  (fun e => q_price e.2) <$> log = [7195; 7215] /\
  Forall (fun e => exists s, s ∈ active demo_strategy /\
    (is_cancel s e \/ (may_quote demo_strategy (demo_platform 7200 7210 0 7000 7400) /\
       is_quote demo_strategy (demo_platform 7200 7210 0 7000 7400) s e))) log.
Proof.
  cbv zeta. split; [vm_compute; reflexivity|].
  apply (market_data_orders_sound demo_strategy (demo_platform 7200 7210 0 7000 7400)).
  - split; [cbn; unfold kMaxSymbols; lia|reflexivity|]. constructor; [|constructor].
    split; cbn; lia.
  - constructor; [|constructor]. unfold dpr_sane. vm_compute getDprLow. vm_compute getDprHigh. cbn. lia.
Defined.
