(* ===== verification/IrageRun.v ===== *)
(** * IrageRun: the market maker running on the repository's platform

    The strategy of [Irage] composed with [ConnectImpl] of [Connect]: the kill-switch
    and pre-close sweeps flatten the book, the portfolio profit is the marked profit
    of the fills, and concrete sessions. *)

From Stdlib Require Import ZArith Lia Ascii String.
From stdpp Require Import base gmap numbers option list.
From S2P Require Import Prelude Types Text Quoting Connect Irage.

Local Open Scope Z_scope.

(** ** Flattening on the repository's platform *)

Section Flatten.
Implicit Types (p : ConnectImpl).

Definition cancel_slot (slot : OrderSlot) : OrderSlot :=
  match sl_state slot with
  | STANDING_ACKED =>
      {| sl_quote := sl_quote slot; sl_state := STANDING_UNACKED; sl_pending_cancel := true |}
  | _ => slot
  end.

Lemma CancelSide_slot s side p k :
  slot_at k (CancelSide s side p) =
    if decide (Key (ss_id s) side 0 = k) then cancel_slot (slot_at k p) else slot_at k p.
Proof.
  unfold CancelSide. cbn [getStandingOrder sendOrder connect_platform].
  unfold mock_getStandingOrder. case_decide as Hk.
  - subst k. destruct (ci_orders p !! Key (ss_id s) side 0) as [slot|] eqn:E.
    + assert (slot_at (Key (ss_id s) side 0) p = slot) as Hslot by (unfold slot_at; by rewrite E).
      unfold mock_sendOrder. cbn [q_symId q_side q_index q_price q_qty]. rewrite Hslot.
      unfold cancel_slot. destruct (sl_state slot) eqn:Es; case_bool_decide; cbn;
        rewrite ?slot_at_write, ?decide_True by done; done.
    + cbn. unfold slot_at. by rewrite E.
  - case_if; [done|]. destruct (sendOrder_writes {| q_symId := ss_id s; q_price := 0; q_qty := 0;
      q_side := side; q_index := 0; q_minPriceChange := 0 |} false p) as (slot & err & sent & ->).
    rewrite slot_at_write. cbn [q_symId q_side q_index]. by rewrite decide_False.
Qed.

Lemma cancel_slot_twice slot : cancel_slot (cancel_slot slot) = cancel_slot slot.
Proof. unfold cancel_slot. by destruct (sl_state slot) eqn:E; cbn; rewrite ?E. Qed.

(** Whether a sweep over [ss] cancels the slot [k]. *)
Definition swept (ss : list SymState) (k : Z) : Prop :=
  Exists (fun s => Key (ss_id s) SIDE_BUY 0 = k \/ Key (ss_id s) SIDE_SELL 0 = k) ss.

Lemma sweep_slot ss p k :
  let p' := foldl (fun p s => CancelSide s SIDE_SELL (CancelSide s SIDE_BUY p)) p ss in
  (swept ss k -> slot_at k p' = cancel_slot (slot_at k p)) /\
  (slot_at k p' = cancel_slot (slot_at k p) \/ slot_at k p' = slot_at k p).
Proof.
  cbv zeta. revert p. induction ss as [|s ss IH]; intros p; cbn [foldl].
  - split; [by intros ?%Exists_nil|by right].
  - set (p1 := CancelSide s SIDE_SELL (CancelSide s SIDE_BUY p)).
    assert (((Key (ss_id s) SIDE_BUY 0 = k \/ Key (ss_id s) SIDE_SELL 0 = k) ->
              slot_at k p1 = cancel_slot (slot_at k p)) /\
            (slot_at k p1 = cancel_slot (slot_at k p) \/ slot_at k p1 = slot_at k p)) as [Hs1 Hs2].
    { unfold p1. rewrite !CancelSide_slot. repeat case_decide; rewrite ?cancel_slot_twice; tauto. }
    destruct (IH p1) as [IH1 IH2]. split.
    + intros [Hk|Hk]%Exists_cons; [rewrite <- Hs1 by done|].
      * destruct IH2 as [-> | ->]; [|done]. rewrite Hs1 by done. apply cancel_slot_twice.
      * rewrite IH1 by done. by destruct Hs2 as [-> | ->]; rewrite ?cancel_slot_twice.
    + destruct IH2 as [-> | ->]; [|done]. destruct Hs2 as [-> | ->]; rewrite ?cancel_slot_twice; auto.
Qed.

Lemma ackAll_slot p k : slot_at k (test_ackAll p) = ack_slot (slot_at k p).
Proof. unfold slot_at, test_ackAll. cbn. rewrite lookup_fmap. by destruct (ci_orders p !! k). Qed.

Lemma two_sweeps_flat slot : sl_state (ack_slot (cancel_slot (ack_slot (cancel_slot slot)))) = NO_ORDER.
Proof. by destruct slot as [q [] []]. Qed.

(** One market-data callback and the answers of the exchange to what is in flight. *)
Definition round (st : strat_1) p : ConnectImpl := test_ackAll (onMarketData st p).1.2.

Lemma sweep_keeps_env ss p :
  let p' := foldl (fun p s => CancelSide s SIDE_SELL (CancelSide s SIDE_BUY p)) p ss in
  ci_env p' = ci_env p.
Proof.
  cbv zeta. revert p. induction ss as [|s ss IH]; intros p; [done|]. cbn [foldl].
  assert (forall side p, ci_env (CancelSide s side p) = ci_env p) as Hc.
  { intros side p1. unfold CancelSide. case_if; [done|]. cbn [sendOrder connect_platform].
    by match goal with |- context [mock_sendOrder ?q ?i ?p] =>
      destruct (sendOrder_writes q i p) as (slot & err & sent & ->) end. }
  by rewrite IH, !Hc.
Qed.

(** C39.  Once the kill switch is set or the pre-close time is reached, two rounds of
    market data and exchange answers leave no order of any active symbol alive:
    whatever was new, being replaced, standing or being cancelled when the sweep
    began. *)
Theorem sweep_flattens st p s side :
  running p = true ->
  st_killed st = true \/ st_preclose_ist_sod st <= IstSecondsOfDay p ->
  s ∈ active st ->
  getPendingOrder (ss_id s) side 0 (round st (round st p)) = NO_ORDER.
Proof.
  intros Hrun Hstop Hs.
  assert (forall p, running p = true -> (st_killed st = true \/ st_preclose_ist_sod st <= IstSecondsOfDay p) ->
    (onMarketData st p).1.2 = CancelAll st p) as Hsweep.
  { clear. intros p Hrun Hstop. unfold onMarketData. rewrite Hrun.
    cbn [negb]. destruct (st_killed st); [done|]. destruct Hstop as [|Hstop]; [done|].
    rewrite (proj2 (Z.geb_le _ _) Hstop). done. }
  pose proof (sweep_keeps_env (active st) p) as Henv. cbv zeta in Henv.
  assert (slot_at (Key (ss_id s) side 0) (round st (round st p)) =
    ack_slot (cancel_slot (ack_slot (cancel_slot (slot_at (Key (ss_id s) side 0) p))))) as Hslot.
  { assert (swept (active st) (Key (ss_id s) side 0)) as Hsw.
    { apply Exists_exists. exists s. split; [done|]. destruct side; auto. }
    assert (forall p, slot_at (Key (ss_id s) side 0) (test_ackAll (CancelAll st p)) =
      ack_slot (cancel_slot (slot_at (Key (ss_id s) side 0) p))) as Hone.
    { intros p1. rewrite ackAll_slot. unfold CancelAll. by rewrite (proj1 (sweep_slot _ _ _) Hsw). }
    unfold round at 1. rewrite Hsweep.
    - rewrite Hone. unfold round. by rewrite Hsweep, Hone by done.
    - unfold round. rewrite Hsweep by done. cbn in *. unfold CancelAll. by rewrite Henv.
    - unfold round. rewrite Hsweep by done. destruct Hstop as [Hk|Ht]; [by left|right].
      unfold IstSecondsOfDay in *. cbn in *. unfold CancelAll. by rewrite Henv. }
  unfold getPendingOrder, slot_at in *. pose proof (two_sweeps_flat (slot_at (Key (ss_id s) side 0) p)) as Hflat.
  unfold slot_at in Hflat. rewrite <- Hslot in Hflat. by destruct (_ !! _).
Qed.
End Flatten.

(** ** Profit *)

Section Profit.
Context {P : Type} `{Platform P}.

Definition signed_fill (e : EXEC_REPORT) : Z := if is_buy e then er_fillQty e else - er_fillQty e.

(** The net quantity of a symbol over a history of executions. *)
Definition net_fills (id : Z) (es : list EXEC_REPORT) : Z :=
  zsum (fun e => if er_securityId e =? id then signed_fill e else 0) es.

Definition mid_of (ss : list SymState) (id : Z) : Z :=
  default 0 (ss_last_mid ∘ snd <$> list_find (fun s => ss_id s = id) ss).

Lemma cash_of_fills es st c :
  st_cash_paise st = i64 c ->
  st_cash_paise (foldl (fun st e => onExec e st) st es) =
    i64 (c + zsum (fun e => - (signed_fill e * er_price e)) es).
Proof.
  revert st c. induction es as [|e es IH]; intros st c Hc; cbn [foldl zsum foldr].
  - by rewrite Z.add_0_r.
  - rewrite (IH _ (c - signed_fill e * er_price e)); [f_equal; unfold zsum; lia|].
    unfold onExec, update_sym, signed_fill. rewrite Hc.
    assert (forall st', st_cash_paise (match FindSym (er_securityId e) st' with
      | None => st' | Some i => set_syms (st_sym_count st') (alter (clear_rejects e) i (st_syms st')) st' end)
      = st_cash_paise st') as -> by (intros; by destruct (FindSym _ _)).
    cbn [st_cash_paise set_counters]. case_if.
    + rewrite wrap_s_sub_r by lia. rewrite <- Z.add_opp_r, wrap_s_add_l by lia. f_equal.
    + rewrite wrap_s_add_r, wrap_s_add_l by lia. f_equal. lia.
Qed.

Lemma fmap_alter_same {A B} (g : A -> B) (f : A -> A) (i : nat) (l : list A) :
  (forall x, g (f x) = g x) -> g <$> alter f i l = g <$> l.
Proof.
  intros Hf. revert i. induction l as [|x l IH]; intros [|i]; [done..| |]; cbn.
  - by rewrite Hf.
  - f_equal. apply IH.
Qed.

(** Fills touch neither the symbols nor their marks. *)
Lemma fills_keep_marks es st :
  (fun s => (ss_id s, ss_last_mid s)) <$> active (foldl (fun st e => onExec e st) st es) =
  (fun s => (ss_id s, ss_last_mid s)) <$> active st.
Proof.
  revert st. induction es as [|e es IH]; intros st; [done|]. cbn [foldl]. rewrite IH.
  unfold onExec, update_sym. destruct (FindSym _ _) as [i|]; [|done]. unfold active.
  cbn [set_syms set_counters st_sym_count st_syms]. rewrite !fmap_take. f_equal.
  apply fmap_alter_same. intros s. unfold clear_rejects. by case_if.
Qed.

Lemma wrapped_sum {A} (f : A -> Z) l a a0 :
  a = i64 a0 -> foldl (fun a x => i64 (a + i64 (f x))) a l = i64 (a0 + zsum f l).
Proof.
  revert a a0. induction l as [|x l IH]; intros a a0 ->; cbn [foldl zsum foldr].
  - by rewrite Z.add_0_r.
  - rewrite (IH _ (a0 + f x)); [f_equal; unfold zsum; lia|].
    by rewrite wrap_s_add_r, wrap_s_add_l by lia.
Qed.

Lemma mark_one_fill ss id q :
  NoDup (ss_id <$> ss) -> id ∈ ss_id <$> ss ->
  zsum (fun s => (if id =? ss_id s then q else 0) * ss_last_mid s) ss = q * mid_of ss id.
Proof.
  assert (forall ss, id ∉ ss_id <$> ss ->
    zsum (fun s => (if id =? ss_id s then q else 0) * ss_last_mid s) ss = 0) as Hout.
  { induction ss0 as [|s ss0 IH]; [done|]. cbn. intros Hn. rewrite not_elem_of_cons in Hn.
    rewrite (proj2 (Z.eqb_neq _ _)) by (apply Hn). by apply IH, Hn. }
  induction ss as [|s ss IH]; intros Hnd Hin; cbn in *; [by apply elem_of_nil in Hin|].
  apply NoDup_cons in Hnd as [Hn Hnd]. unfold mid_of. cbn [list_find]. case_decide as E.
  - subst id. rewrite Z.eqb_refl. cbn. unfold zsum in Hout. rewrite Hout by done. lia.
  - rewrite (proj2 (Z.eqb_neq _ _)) by done.
    apply elem_of_cons in Hin as [->|Hin]; [done|]. fold (zsum (A := SymState)).
    specialize (IH Hnd Hin). unfold zsum, mid_of in IH. rewrite IH.
    destruct (list_find _ ss) as [[? ?]|]; cbn; lia.
Qed.

Lemma mark_of_fills ss es :
  NoDup (ss_id <$> ss) -> Forall (fun e => er_securityId e ∈ ss_id <$> ss) es ->
  zsum (fun s => net_fills (ss_id s) es * ss_last_mid s) ss =
  zsum (fun e => signed_fill e * mid_of ss (er_securityId e)) es.
Proof.
  intros Hnd. induction 1 as [|e es He _ IH].
  - clear. unfold net_fills. induction ss as [|s ss IHs]; [done|]. unfold zsum in *. cbn in *. lia.
  - cbn [zsum foldr]. fold (zsum (fun e => signed_fill e * mid_of ss (er_securityId e)) es).
    rewrite <- IH, <- (mark_one_fill ss _ _ Hnd He). clear.
    unfold net_fills. induction ss as [|s ss IHs]; [done|]. unfold zsum in *. cbn in *. rewrite IHs. case_if; lia.
Qed.

(** The profit the timer reports is the profit of the fills marked at the last
    mids: when the platform's inventory is what the executions add up to, it is the sum
    over the executions of quantity times (mid - price), buys positive, reduced once to
    64 bits however the intermediate sums wrapped. *)
Theorem portfolio_profit_exact st (p : P) es :
  st_cash_paise st = 0 -> NoDup (ss_id <$> active st) ->
  Forall (fun e => er_securityId e ∈ ss_id <$> active st) es ->
  (forall id, id ∈ ss_id <$> active st -> getInventory id p = net_fills id es) ->
  portfolio_pnl (foldl (fun st e => onExec e st) st es) p =
    i64 (zsum (fun e => signed_fill e * (mid_of (active st) (er_securityId e) - er_price e)) es).
Proof.
  intros Hc Hnd Hes Hinv. unfold portfolio_pnl. cbv zeta.
  rewrite (cash_of_fills es st 0), (wrapped_sum _ _ 0 0) by done.
  rewrite wrap_s_add_l, wrap_s_add_r by lia. f_equal.
  set (st' := foldl _ st es).
  assert (zsum (fun s => getInventory (ss_id s) p * ss_last_mid s) (active st') =
          zsum (fun s => getInventory (ss_id s) p * ss_last_mid s) (active st)) as ->.
  { assert (forall l, zsum (fun s => getInventory (ss_id s) p * ss_last_mid s) l =
      zsum (fun x => getInventory x.1 p * x.2) ((fun s => (ss_id s, ss_last_mid s)) <$> l)) as Hz.
    { clear. induction l as [|s l IH]; [done|]. unfold zsum in *. cbn in *. by rewrite IH. }
    rewrite !Hz. unfold st'. by rewrite fills_keep_marks. }
  assert (zsum (fun s => getInventory (ss_id s) p * ss_last_mid s) (active st) =
          zsum (fun s => net_fills (ss_id s) es * ss_last_mid s) (active st)) as ->.
  { clear -Hinv. induction (active st) as [|s l IH]; [done|]. unfold zsum in *. cbn in *.
    rewrite IH by (intros; apply Hinv; by right). by rewrite Hinv by (by left). }
  rewrite (mark_of_fills _ _ Hnd Hes). clear. induction es as [|e es IH]; [done|]. unfold zsum in *. cbn in *. lia.
Qed.
End Profit.

(** ** Concrete sessions *)

(** Both sides are quoted and in flight when the switch is set. *)
Definition demo_killed : strat_1 :=
  (update [(9804, lit "1")] (onMarketData demo_strategy (demo_platform 7200 7210 0 7000 7400)).1.1).1.

Definition demo_quoted : ConnectImpl :=
  (onMarketData demo_strategy (demo_platform 7200 7210 0 7000 7400)).1.2.

Lemma sweep_flattens_witness :
  getPendingOrder 46483 SIDE_BUY 0 demo_quoted = UNACKED /\
  getPendingOrder 46483 SIDE_BUY 0 (round demo_killed (round demo_killed demo_quoted)) = NO_ORDER.
Proof.
  split; [vm_compute; reflexivity|].
  apply (sweep_flattens demo_killed demo_quoted
    {| ss_id := 46483; ss_tick_size := 5; ss_lot_size := 15; ss_rejects_buy := 0; ss_rejects_sell := 0;
       ss_last_mid := 7205; ss_last_bid_quote := 7195; ss_last_ask_quote := 7215 |} SIDE_BUY).
  - vm_compute. reflexivity.
  - left. vm_compute. reflexivity.
  - vm_compute. left.
Defined.

Definition demo_report (id side px qty : Z) : EXEC_REPORT :=
  {| er_securityId := id; er_iClientId := 0; er_price := px; er_orderQty := qty; er_exchId := 0;
     er_orderSide := side; er_leaves := 0; er_fillQty := qty; er_cumQty := qty; er_rejCode := 0;
     er_tag := 0; er_tag2 := 0 |}.

Definition demo_fill (side px qty : Z) : EXEC_REPORT :=
  demo_report 46483 side px qty.

(** Bought 15 at 7195 and 30 at 7190, sold 15 at 7215. *)
Definition demo_fills : list EXEC_REPORT := [demo_fill 1 7195 15; demo_fill 1 7190 30; demo_fill 2 7215 15].

Lemma portfolio_profit_exact_witness :
  portfolio_pnl (foldl (fun st e => onExec e st) demo_strategy demo_fills) (demo_platform 0 0 30 0 0) =
    i64 (zsum (fun e => signed_fill e *
           (mid_of (active demo_strategy) (er_securityId e) - er_price e)) demo_fills).
Proof.
  apply (portfolio_profit_exact demo_strategy (demo_platform 0 0 30 0 0) demo_fills).
  - vm_compute. reflexivity.
  - apply (bool_decide_unpack _). vm_compute. exact I.
  - apply (bool_decide_unpack _). vm_compute. exact I.
  - intros id Hid. vm_compute in Hid. apply list_elem_of_singleton in Hid. subst id. reflexivity.
Defined.

(** The per-symbol profit of [getUIData] adds the cash of every symbol: a fill of one
    symbol shows up as the profit of another that never traded. *)
Lemma ui_profit_mixes_symbols :
  let info := {[7 := demo_info; 8 := demo_info]} in
  let p := ConnectImpl_new
    {| ce_ticks := ∅; ce_dpr := ∅; ce_inventory := ∅; ce_max_inv := ∅; ce_max_ord := ∅; ce_max_tgt := ∅; ce_syminfo := info;
       ce_gconfig := ∅; ce_running := true; ce_ops_consumed := 0; ce_total_ops := 1000;
       ce_seconds := 0 |} in
  let st := (initialize {[16 := lit "2"; 751 := lit "7"; 752 := lit "8"]} strat_1_new p).1.1 in
  let st := onExec (demo_report 7 1 100 15) st in
  getUIData 8 st p = ui_field 9810 0 ++ ui_field 9811 0 ++ ui_field 9812 0 ++ ui_field 9813 1 ++
                     ui_field 9814 (-1500).
Proof. vm_compute. reflexivity. Qed.

(** Near the upper limit the clamp moves the ask down onto the bid: short, with an
    inventory skew of three ticks, the strategy bids and offers at the same price. *)
Lemma dpr_clamp_locks_quotes :
  let r := {| rec_now := demo_platform 7395 7400 (-149) 7000 7400; rec_log := [] |} in
  let st := (update [(9801, lit "3")] demo_strategy).1 in
  (fun e => (q_side e.2, q_price e.2)) <$> rec_log (onMarketData st r).1.2 =
    [(SIDE_BUY, 7400); (SIDE_SELL, 7400)].
Proof. vm_compute. reflexivity. Qed.
