(* ===== verification/IrageLaunch.v ===== *)
(** * IrageLaunch: registration and launch of the strategy
      (irage/main.cpp, irage/mock/connect_mock.cpp, [strat_1::clone] of irage/mystrat.cpp)

    [main] registers a prototype of [strat_1] under its name and hands the registry to
    the platform's event loop, which is not part of the repository: it is the argument
    [loop], and the stub of connect_mock.cpp is one instance of it.  The platform keeps
    one clone per portfolio of its configuration. *)

From Stdlib Require Import ZArith Lia Ascii String.
From stdpp Require Import base gmap numbers option list.
From S2P Require Import Prelude Types Text Connect Irage.

Local Open Scope Z_scope.

(** A clone is freshly constructed: nothing of the prototype is copied. *)
Definition clone (_ : strat_1) : strat_1 := strat_1_new.

(** [ExternalBaseImpl::stratMap]; [std::map::insert] keeps an entry that is there. *)
Notation stratMap := (gmap text strat_1).
Definition map_insert (name : text) (s : strat_1) (m : stratMap) : stratMap :=
  match m !! name with Some _ => m | None => <[name := s]> m end.

Definition strat_name : text := lit "strat_1".

Definition irage_main {W : Type} (loop : stratMap -> W -> W) (m : stratMap) (w : W) : stratMap * W * Z :=
  let m := map_insert strat_name strat_1_new m in
  (m, loop m w, 0).

(** The stubs of the repository: the loop does nothing, and the portfolios are the
    one configuration given. *)
Definition mock_initAndRun {W : Type} (_ : stratMap) (w : W) : W := w.
Definition GetPortfolios (configMaps : list (gmap Z text)) (configMap : gmap Z text)
    : list (gmap Z text) := configMaps ++ [configMap].

(** A portfolio as the platform starts it: a clone of the registered strategy,
    initialised with the portfolio's configuration. *)
Definition launch {P} `{Platform P} (m : stratMap) (name : text) (cfg : gmap Z text) (p : P)
    : option (strat_1 * P * bool) :=
  s ← m !! name; Some (initialize cfg (clone s) p).

(** [main] returns 0, registers the strategy and touches no other entry, and every
    portfolio then launched under its name starts from the constructor's values: it
    is the same whatever happened to the prototype, and, when its initialisation
    succeeds, a configured strategy. *)
Lemma main_launches {W : Type} (loop : stratMap -> W -> W) m w :
  let '(m', w', code) := irage_main loop m w in
  code = 0 /\ w' = loop m' w /\ is_Some (m' !! strat_name) /\
  (forall name, name <> strat_name -> m' !! name = m !! name) /\
  forall (P : Type) (HP : Platform P) cfg (p : P),
    launch m' strat_name cfg p = Some (initialize cfg strat_1_new p) /\
    forall st p', launch m' strat_name cfg p = Some (st, p', true) -> configured st.
Proof.
  unfold irage_main, map_insert. destruct (m !! strat_name) as [s|] eqn:E.
  - split_and!; [done|done|by rewrite E|done|]. intros P HP cfg p. unfold launch. rewrite E. cbn.
    split; [done|]. intros st p' [= H]. by eapply cf_initialize.
  - split_and!; [done|done|by rewrite lookup_insert_eq| |].
    + intros name Hn. by rewrite lookup_insert_ne.
    + intros P HP cfg p. unfold launch. rewrite lookup_insert_eq. cbn.
      split; [done|]. intros st p' [= H]. by eapply cf_initialize.
Qed.

(** On the repository's platform the demo portfolio comes up. *)
Lemma demo_launch :
  let '(m, _, _) := irage_main mock_initAndRun ∅ tt in
  exists st p, launch m strat_name demo_config (demo_platform 7195 7205 0 0 20000) = Some (st, p, true) /\
    st_sym_count st = 1 /\ ci_inited p = true.
Proof. eexists _, _. split; [vm_compute; reflexivity|]. split; reflexivity. Qed.
